(* ===== verification/_CoqProject ===== *)
-Q . S2P
Prelude.v
QMap.v
Status.v
Macros.v
State.v
Machine.v
ModKey.v
Linked.v
Region.v
RegionTree.v
RegionSlots.v
Runtime.v
Decide.v
ModList.v
Vectors.v
Paths.v
Identity.v
FnCache.v
RegionApi.v
Claim.v
Deny.v
Dispatch.v
DispatchSpec.v
CallSpec.v
Areg.v
HookCall.v
CopyFile.v
Load.v
LoadSpec.v
LoadFresh.v
LoadClaim.v
Unload.v
UnloadSpec.v
Cascade.v
LoadUnload.v
AbortSpec.v
ReloadSpec.v
Lifecycle.v
LifecycleSpec.v
Evolve.v
Frames.v
System.v
ApiSound.v
FreeSound.v
LoadSound.v
UnloadSound.v
SystemSound.v
Registry.v
Service.v
ModApi.v
Watch.v
WatchSpec.v
WatchThreads.v
WatchSafety.v
WatchStop.v
WatchReload.v
Witness.v
WitnessCall.v
WitnessSystem.v
WitnessLoad.v
WitnessWatch.v
WitnessService.v
Replay.v
