(* ===== verification/Prelude.v ===== *)
(** * libxylem: a verification development

    libxylem is a C library that loads shared libraries ("modules") into a
    process and lets them call each other through named hooks.  Modules live in
    the regions of an address tree; a hook that is called from a region runs in
    every module of the region's subtree that defines it.  Regions can deny
    hooks and modules, and modules can load further modules, claim child regions
    for them, unload and reload them.

    The development translates the C sources under src/src/ (and the generated
    functions of src/include/ttypt/xy.h) into executable definitions and proves
    what they do.  It follows the POSIX build.

    ** How the model reads

    - State.v holds one record per struct of src/src/papi.h and
      src/src/libxylem-internal.h, in a heap per struct: a pointer is a [loc], a
      null pointer is [None], a freed object is absent from its heap.  The
      globals ([g_rt], [g_xy], ...) and the thread-local variables of the calling
      thread are fields of [state].
    - A C function is a function in the monad [M state] of this file: it
      finishes ([Ok]), runs into undefined behaviour ([Undef]: a null or a
      dangling pointer is followed, a buffer is overrun), or exceeds a bound of
      the model ([OutOfFuel]).  Error codes are plain results, as in C.
    - Integers keep their width: [wrap8], [wrap64] and [mod two32] are written where
      the C type wraps.  Byte buffers are lists of bytes.
    - Code outside the repository is a parameter: libqmap is the class [QMapOps]
      with the laws [QMapLaws] (QMap.v, with an instance by finite maps), the
      operating system and the dynamic loader are the class [Platform], and code
      in modules or in the host is an [executor] (both Machine.v), which gets the
      whole state and may call the library again.  System.v closes the system:
      module and host code are programs over the interface of
      src/include/ttypt/xy.h, with memory of their own and access to the module's
      table, and the executor runs them.

    ** Parts

    - Status.v: codes and xy_strerror.  ModKey.v: mod_key, the text of a registry
      key.
    - Macros.v: the macros that declare hooks (src/include/ttypt/xy-pp.h and parts
      of xy.h), and the way of the arguments through the struct of a hook.
    - Region.v: region_lookup, region_alloc_slot, the flags and generations that
      are pushed to the ancestors, the vector of the modules of a subtree
      (src/src/libxylem.c).  Linked.v has the theory of intrusive lists,
      RegionTree.v the invariant [tree_ok] and the traversals, RegionSlots.v the
      slot search, Vectors.v the theory of the module vectors: what is clean is the
      preorder of the subtree, and stays so.
    - Runtime.v: xy_runtime_bootstrap and xy_runtime_ensure
      (src/src/libxylem-runtime.c) and the invariant [running] of a started
      runtime; Decide.v decides [running] on a concrete state.
    - ModList.v: the list of modules of a region.  Paths.v: path resolution and
      interning.  Identity.v: lookup by name and region, and re-keying.
    - FnCache.v: the hook functions of a module and its set of implemented hooks.
    - RegionApi.v: xy_region_each, xy_with_region, xy_require_claim.  Claim.v: the
      claim that is made for a module being loaded.  Deny.v: denials.
    - Dispatch.v (src/src/libxylem-dispatch.c): the dispatch caches, xy_call,
      xy_last, xy_areg.  DispatchSpec.v has the theorems about the caches and
      the runs over their slots, CallSpec.v those about a whole call, Areg.v
      those about registration.
    - CopyFile.v: the copy of its file that a module is reloaded from, with the
      loops over short reads and writes, and what a trace of calls has done to the
      file system.
    - Load.v, Unload.v, Lifecycle.v (src/src/libxylem.c,
      src/src/libxylem-module.c, src/src/libxylem-runtime.c): the load transaction
      with its abort, the unload cascade, reload, shutdown.  Their theorems:
      LoadSpec.v, LoadFresh.v (a first load) and LoadClaim.v (a load into a
      region of its own), AbortSpec.v, UnloadSpec.v (one module) and Cascade.v
      (a module with what it has loaded), LoadUnload.v (there and back),
      ReloadSpec.v, LifecycleSpec.v.
    - HookCall.v: a hook called like a function, from the declaration on the
      caller's side through xy_call to the implementation
      (src/include/ttypt/xy-pp.h).  ModApi.v: the table of functions that a module
      gets, in both declarations of it, the wrappers of
      src/include/ttypt/xy-mod.h that call through it, and the context that
      dispatch_slot sets up.
    - System.v closes the library with module and host code as programs.
      Evolve.v has the invariant of the closed system and the relations between
      its states; Frames.v and ApiSound.v show that the calls other than load,
      unload and reload keep it, FreeSound.v treats the end of a module,
      LoadSound.v, UnloadSound.v the life cycle calls, and SystemSound.v the
      teardown and whole runs.  Registry.v: what a host sees of sequences of loads
      and unloads, as a list of reference counts.  Service.v: the same with calls of
      hooks in between, as a list of the files that answer them.
    - Watch.v: the table and the critical sections of the watcher
      (src/src/libxylem-watch.c); the answers of the kernel are the class
      [WatchKernel].  WatchThreads.v puts them together to host threads and
      watcher threads that take turns, as a step relation over the mutex, the
      descriptors and the library.  WatchSpec.v has the abstract table and the
      theorems about the sections, WatchSafety.v the invariant of all threads,
      WatchStop.v the life of the watcher thread, WatchReload.v the way from an
      event to xy_reload.
    - Witness.v, WitnessCall.v, WitnessSystem.v, WitnessLoad.v, WitnessWatch.v,
      WitnessService.v: concrete platforms with a few modules, runs of the model on
      them, and each theorem that has hypotheses applied to a state such a run ends
      in.
    - Replay.v: the test programs and test modules under src/tests/ as programs of
      System.v, run on the model.  Three expectations of the tests are not met by
      the code: the order of a module and the modules that its xy_install loads,
      the static data after a reload, and the error number after a call that no
      module answers.

    The parts meet in six invariants.  [tree_ok] (RegionTree.v): registered
    regions form a tree whose ids extend their parents' prefixes, with generations
    that fit in 64 bits.  [running] (Runtime.v): the runtime is initialised, the
    tree is well formed, each region's list of modules is a doubly-linked list of
    live modules that point back to it.  [sound] (Evolve.v): a runtime that is
    started is [running], the tables of hook ids, adapters and paths are consistent,
    each registration is of a module in its place, and a module vector that is not
    marked dirty is that of its subtree.
    [registry_exact] (LoadSpec.v): the registry of modules lists the live modules,
    each under the key of its path and region.  [watch_inv] (WatchSafety.v): the
    watcher's table is a list of distinct paths whose copies it owns, every
    thread is where the owner of the mutex allows, and the copies that watcher
    threads hold are allocated.  [serving] (Service.v): the host's region lists the
    loaded files, and what is cached in the modules and in the region's dispatch
    slots is right or known to be out of date.

    ** Theorems

    - The closed system: [host_run_sound] (whatever host and modules do through
      the interface, to any depth of callbacks, a run that ends leaves a sound
      state: tree, lists, registrations, hook ids, and every module vector that
      is not marked dirty is that of its subtree), [api_call_sound] (so does each call, and modules and regions that
      it finds keep their identity).  [run_module_eq]: going through a module's
      table is a direct call.  [service_refines]: any sequence of loads, unloads
      and calls by a host acts as on a list of files with reference counts, where
      the last file that exports the hook answers.  It asks that xy_install does
      nothing, that hooks compute, that the images of different files do not
      overlap, that no denial flags the host's region, and that the sequence is
      shorter than the 2^64 generations of the region; the caches start right and
      the theorem shows that they stay so.  [hook_function_returns]: a hook called like a
      function returns what the last implementation returns.
      [dispatch_slot_context]: the state and region that a hook sees.
    - Regions: [region_rebuild_subtree_mods_correct] (the vector of a subtree is
      its modules in preorder, each once), [region_alloc_slot_fresh] and
      [region_alloc_slot_full] (an allocated id is unused and aligned, and within the
      parent's prefix unless the child has exactly 64 bits and the parent is full;
      the search ends, and when it finds nothing),
      [claim_granted] and [claim_refused].
    - Module lists: [module_region_replace], [module_region_append_last] refine
      the pointer operations to operations on sequences.
    - Dispatch: [region_rebuild_hook_dispatch_correct] (a rebuilt cache has one
      slot per listening and not denied module of the subtree, in order),
      [xy_call_fans_out] (a call runs the hook over what the region's cache holds if
      that is of the region's generation, else over these modules),
      [xy_call_result] and [xy_call_refused] (what the caller gets),
      [xy_areg_registers], [xy_areg_refused].  A denial counts for calls from the
      regions that carry the flag, which is the denying one and those above it.
    - Caches: [fn_cache_resolve_correct], [fn_cache_prewarm_complete].
    - Life cycle: [xy_load_fresh], [xy_load_claims] (the module moves to a region
      of its own), [xy_load_reuses], [xy_load_missing], [xy_load_not_installed] (a
      load without xy_install and without a claim is undone, but for the count and
      the interned path), [xy_unload_cascade] (which modules an
      unload takes along, to any depth, each after those it has loaded), [xy_unload_last], [xy_unload_shared],
      [load_unload] (with an xy_install that does nothing, little is left), [registry_refines] (any sequence of loads and
      unloads, against a list of reference counts), [xy_reload_in_place] (a new instance
      takes the place of the old one), [copy_to_tmp_complete] (a copy is whole or
      leaves no file), [xy_runtime_ensure_starts], [xy_shutdown_complete].
    - Denials: [xy_deny_hook_correct] (what is recorded where), [undeny_module_correct],
      [entry_denies_iff].
    - Callbacks: [xy_with_region_restores], [xy_region_each_children].
    - The watcher: [watch_ops_refine] and [watch_add_remove] (the array is a list
      of at most 256 distinct paths), [watch_threads_safe] (mutual exclusion, no
      section is stuck, no use after free, under every interleaving),
      [watch_lifecycle] and [watch_stop_terminates] (a thread and its descriptors
      exist exactly while the watcher runs, and a stop ends it, if one thread
      controls it and the reloads return),
      [watch_event_reloads] and [watch_reload_not_root] (what an event leads to, and
      that it is nothing for modules outside the root region).
      [watch_stop_start_race] (WitnessWatch.v) is a run of two threads that
      leaves a watcher thread without a descriptor.
    - Declarations: [hook_arguments_arrive] (which declarations expand, and that
      arguments arrive in order).
    - Keys and paths: [registry_key_identity] (which also shows that four bits of
      the region id are lost), [module_path_intern_correct].

    ** Bounds of the model

    - Loops along a list or a chain of parents have the number of live objects as
      fuel; [linked] lists have no repetition, so that is enough, and the theorems
      conclude that the functions return.
    - The collection of a subtree recurses to depth 65: [tree_ok] makes prefixes
      grow strictly along the tree and stay within 64 bits.
    - The slot search counts through up to 2^64 candidates; it is iterated by
      repeated doubling ([loop_pow], 64 times), so the bound is exact and the
      function evaluates.
    - The unload cascade has one more than the number of live modules as the bound
      of its depth.  [xy_unload_cascade] shows that this is enough when every
      module is younger than the one that loaded it and is registered under the
      name in its table ([orderly], Cascade.v); LoadUnload.v shows that loads keep
      it so.
    - The loops of copy_one have the bytes that are left as fuel: each turn of the
      inner loop writes one at least, each turn of the outer loop reads one.
    - The watcher's loops run over the count of its table, which is at most
      [XY_WATCH_MAX].  [watch_stop_terminates] counts the steps of a thread by
      the events that are left in its buffer.
    - [exec_of] in System.v bounds the nesting of callbacks.  [host_run_sound] is
      about every bound, the other theorems about arbitrary executors.
    - Addresses are not used again after a free, so that a dangling pointer is
      seen as one.  [host_run_sound] and [api_call_sound] ask that clean-up
      functions do not call the library (they may use memory): [xy_shutdown] runs
      them when the runtime is marked as stopped, and a call would start it again.

    ** Not modelled

    - Data races inside the library: it takes no lock, so a call of it, the
      watcher's reload included, is one step.  The state has the thread-local
      variables of the calling thread; WatchThreads.v swaps them per thread.
    - A module that calls the watcher's interface from a hook or from
      xy_install.
    - The layout in memory of the structs that the macros declare; the branches
      under _WIN32; the Rust binding under src/rust; the XY_DEBUG_LOG log.
    - Failures of malloc that the C code does not check: an unchecked allocation
      is taken to succeed.  Checked ones fail as the list [st_alloc] says.

    The module vectors are coherent along whole runs ([sound]), the dispatch caches
    are not, for two reasons: a denial in an ancestor does not reach the caches
    below it ([xy_deny_hook_correct] says which regions it renews), and a
    generation can come round after 2^64 changes.  The theorems about the
    result of one call ask that the cache of the calling region is valid or out of
    date ([xy_call_fans_out] covers the other caches); where neither reason
    applies, [service_refines] shows that every sequence of requests keeps
    it so. *)

From stdpp Require Export base tactics numbers list gmap sets strings.
From stdpp Require Import options.

#[local] Set Default Proof Using "Type*".

(** ** Outcomes

    A C function either finishes with a value, or does something the C
    standard leaves undefined (a null or dangling pointer is followed, a
    buffer is overrun), or one of the bounded loops of the model is cut short
    by its fuel.  The last two are kept apart from each other and from every
    error code of the library. *)

Inductive res (A : Type) : Type :=
| Ok (a : A)
| Undef
| OutOfFuel.

Arguments Ok {A} a.
Arguments Undef {A}.
Arguments OutOfFuel {A}.

(** ** State monad with outcomes *)

Definition M (S A : Type) : Type := S -> res (A * S).

#[global] Instance M_ret S : MRet (M S) := fun A a s => Ok (a, s).

#[global] Instance M_bind S : MBind (M S) := fun A B k m s =>
  match m s with
  | Ok (a, s') => k a s'
  | Undef => Undef
  | OutOfFuel => OutOfFuel
  end.

Definition undef {S A} : M S A := fun _ => Undef.
Definition out_of_fuel {S A} : M S A := fun _ => OutOfFuel.
Definition gets {S A} (f : S -> A) : M S A := fun s => Ok (f s, s).
Definition modify {S} (f : S -> S) : M S unit := fun s => Ok (tt, f s).

(** [must o] follows a pointer that must not be null. *)
Definition must {S A} (o : option A) : M S A :=
  match o with Some a => mret a | None => undef end.

Definition is_ok {A} (r : res A) : bool :=
  match r with Ok _ => true | _ => false end.

(** The value and the final state of a run that finishes, for witnesses. *)
Definition result_of {S A} (r : res (A * S)) : option A :=
  match r with Ok (a, _) => Some a | _ => None end.

Definition state_of {S A} (r : res (A * S)) : option S :=
  match r with Ok (_, s) => Some s | _ => None end.

(** What is kept of a value by [p] determines what [f] sees of it. *)
Lemma fmap_through {A B} (p : A -> A) (f : A -> B) (o o' : option A) :
  (forall a, f (p a) = f a) -> p <$> o = p <$> o' -> f <$> o = f <$> o'.
Proof.
  intros Hf E. destruct o as [a|], o' as [a'|]; try done. cbn in *.
  injection E as E. by rewrite <- (Hf a), <- (Hf a'), E.
Qed.

(** ** Total correctness

    [wp m s Q]: run from [s], [m] finishes (no undefined behaviour, fuel not
    exhausted) with a value and a state in [Q]. *)

Definition wp {S A} (m : M S A) (s : S) (Q : A -> S -> Prop) : Prop :=
  match m s with Ok (a, s') => Q a s' | _ => False end.

Lemma wp_mret {S A} (a : A) (s : S) (Q : A -> S -> Prop) :
  wp (mret a) s Q <-> Q a s.
Proof. done. Qed.

Lemma wp_gets {S A} (f : S -> A) (s : S) (Q : A -> S -> Prop) :
  wp (gets f) s Q <-> Q (f s) s.
Proof. done. Qed.

Lemma wp_modify {S} (f : S -> S) (s : S) (Q : unit -> S -> Prop) :
  wp (modify f) s Q <-> Q tt (f s).
Proof. done. Qed.

Lemma wp_bind {S A B} (m : M S A) (k : A -> M S B) (s : S) (Q : B -> S -> Prop) :
  wp (m ≫= k) s Q <-> wp m s (fun a s' => wp (k a) s' Q).
Proof.
  unfold wp, mbind, M_bind. by destruct (m s) as [[a s']| |].
Qed.

Lemma wp_must {S A} (o : option A) (a : A) (s : S) (Q : A -> S -> Prop) :
  o = Some a -> Q a s -> wp (must o) s Q.
Proof. by intros ->. Qed.

Lemma wp_mono {S A} (m : M S A) (s : S) (Q Q' : A -> S -> Prop) :
  wp m s Q -> (forall a s', Q a s' -> Q' a s') -> wp m s Q'.
Proof. unfold wp. destruct (m s) as [[a s']| |]; auto. Qed.

Lemma wp_eq {S A} (m : M S A) (s : S) (a : A) (s' : S) :
  wp m s (fun b t => b = a /\ t = s') <-> m s = Ok (a, s').
Proof.
  unfold wp. destruct (m s) as [[b t]| |]; split; try done.
  - by intros [-> ->].
  - by intros [= -> ->].
Qed.

Lemma wp_Ok {S A} (m : M S A) (s : S) (Q : A -> S -> Prop) :
  wp m s Q <-> exists a s', m s = Ok (a, s') /\ Q a s'.
Proof.
  unfold wp. destruct (m s) as [[a s']| |]; split; try done; eauto.
  - by intros (? & ? & [= -> ->] & ?).
  - by intros (? & ? & ? & ?).
  - by intros (? & ? & ? & ?).
Qed.

(** To run [m] to a known value is a [wp] goal. *)
Lemma wp_run {S A} (m : M S A) (s : S) (a : A) (P : S -> Prop) :
  wp m s (fun b s' => b = a /\ P s') -> exists s', m s = Ok (a, s') /\ P s'.
Proof. intros (b & s' & H & -> & HP)%wp_Ok. eauto. Qed.

Lemma bind_Ok {S A B} (m : M S A) (k : A -> M S B) (s s' : S) (a : A) :
  m s = Ok (a, s') -> (m ≫= k) s = k a s'.
Proof. intros H. unfold mbind, M_bind. by rewrite H. Qed.

Lemma bind_inv {S A B} (m : M S A) (k : A -> M S B) (s s' : S) (b : B) :
  (m ≫= k) s = Ok (b, s') -> exists a s1, m s = Ok (a, s1) /\ k a s1 = Ok (b, s').
Proof. unfold mbind, M_bind. destruct (m s) as [[a s1]| |]; eauto; done. Qed.

Lemma bind_assoc {S A B C} (m : M S A) (k : A -> M S B) (k' : B -> M S C) (s : S) :
  ((m ≫= k) ≫= k') s = (m ≫= fun a => k a ≫= k') s.
Proof. unfold mbind, M_bind. by destruct (m s) as [[a s']| |]. Qed.

(** Two programs that start with the same call and go on alike are alike. *)
Lemma bind_ext {S A B} (m : M S A) (k k' : A -> M S B) (s : S) :
  (forall a s', m s = Ok (a, s') -> k a s' = k' a s') -> (m ≫= k) s = (m ≫= k') s.
Proof. intros H. unfold mbind, M_bind. destruct (m s) as [[a s']| |]; auto. Qed.

(** [preserves R m]: when [m] finishes, the states before and after are related
    by [R]. *)
Definition preserves {S A} (R : S -> S -> Prop) (m : M S A) : Prop :=
  forall s a s', m s = Ok (a, s') -> R s s'.

Lemma preserves_bind {S A B} (R : S -> S -> Prop) (m : M S A) (k : A -> M S B) :
  Transitive R -> preserves R m -> (forall a, preserves R (k a)) -> preserves R (m ≫= k).
Proof.
  intros HR Hm Hk s b s' H. unfold mbind, M_bind in H.
  destruct (m s) as [[a s1]| |] eqn:E; [|done..].
  transitivity s1; [by eapply Hm|by eapply Hk].
Qed.

Lemma preserves_mret {S A} (R : S -> S -> Prop) (a : A) :
  Reflexive R -> preserves R (mret a : M S A).
Proof. by intros HR s b s' [= _ <-]. Qed.

Lemma preserves_gets {S A} (R : S -> S -> Prop) (f : S -> A) :
  Reflexive R -> preserves R (gets f).
Proof. by intros HR s b s' [= _ <-]. Qed.

Lemma preserves_must {S A} (R : S -> S -> Prop) (o : option A) :
  Reflexive R -> preserves R (must o : M S A).
Proof. intros HR. destruct o; [by apply preserves_mret|done]. Qed.

Lemma preserves_modify {S} (R : S -> S -> Prop) (f : S -> S) :
  (forall s, R s (f s)) -> preserves R (modify f).
Proof. by intros HR s b s' [= _ <-]. Qed.

Lemma preserves_undef {S A} (R : S -> S -> Prop) : preserves R (undef : M S A).
Proof. done. Qed.

(** Structural steps of a [preserves] goal; what is left are the calls, for
    which [tac] has a try. *)
Ltac preserve_step :=
  lazymatch goal with
  | |- preserves _ (_ ≫= _) => apply preserves_bind; [apply _| |intros ?]
  | |- preserves _ (mret _) => apply preserves_mret; apply _
  | |- preserves _ (gets _) => apply preserves_gets; apply _
  | |- preserves _ (must _) => apply preserves_must; apply _
  | |- preserves _ (modify _) => apply preserves_modify; intros ?
  | |- preserves _ undef => apply preserves_undef
  | |- preserves _ (if ?b then _ else _) => destruct b
  | |- preserves _ (match ?x with _ => _ end) => destruct x
  end.
Ltac preserve tac := repeat first [preserve_step | solve [tac]].

(** ** Bounded loops

    [loop_pow k body s]: at most [2 ^ k] turns of [body], which says [inl] to go
    on and [inr] to stop.  A loop over all values of a [k]-bit counter is
    bounded this way without a unary number of its size. *)

Fixpoint loop_pow {S R} (k : nat) (body : S -> S + R) (s : S) : S + R :=
  match k with
  | O => body s
  | Datatypes.S k' =>
      match loop_pow k' body s with
      | inl s' => loop_pow k' body s'
      | inr r => inr r
      end
  end.

(** ** Machine integers *)

Definition two8 : Z := 2 ^ 8.
Definition two64 : Z := 2 ^ 64.
Definition wrap8 (x : Z) : Z := (x mod two8)%Z.
Definition wrap64 (x : Z) : Z := (x mod two64)%Z.
Definition is_u8 (x : Z) : Prop := (0 <= x < two8)%Z.
Definition is_u64 (x : Z) : Prop := (0 <= x < two64)%Z.

Lemma wrap8_small (x : Z) : is_u8 x -> wrap8 x = x.
Proof. apply Z.mod_small. Qed.

Lemma wrap64_small (x : Z) : is_u64 x -> wrap64 x = x.
Proof. apply Z.mod_small. Qed.

Lemma wrap64_u64 (x : Z) : is_u64 (wrap64 x).
Proof. apply Z.mod_pos_bound. reflexivity. Qed.

Lemma wrap8_u8 (x : Z) : is_u8 (wrap8 x).
Proof. apply Z.mod_pos_bound. reflexivity. Qed.

Create HintDb xylem.
Create Rewrite HintDb wp.
Create Rewrite HintDb qmap.
#[export] Hint Resolve wrap64_u64 wrap8_u8 : xylem.
#[export] Hint Rewrite @wp_bind @wp_mret @wp_gets @wp_modify : wp.
