(* ===== verification/QMap.v ===== *)
(** * The interface of libqmap

    libxylem keeps its registries in maps of libqmap, a library whose source
    is not part of the repository.  Its operations are a class here, and the
    behaviour libxylem relies on (what [qmap_get] answers after [qmap_put] and
    [qmap_del], what an iteration visits) is a second class of laws.  Every
    definition of the development is written against [QMapOps] and every
    theorem that needs more is written against [QMapLaws]. *)

From S2P Require Import Prelude.
From stdpp Require Import options.

(** Operations.  [qmulti] is a handle opened with QM_MULTIVALUE, for which
    libxylem uses a different set of calls. *)
Class QMapOps := {
  qmap : forall (K : Type) `{Countable K} (V : Type), Type;
  qopen : forall {K : Type} `{Countable K} {V : Type}, qmap K V;
  qget : forall {K : Type} `{Countable K} {V : Type}, qmap K V -> K -> option V;
  qput : forall {K : Type} `{Countable K} {V : Type}, qmap K V -> K -> V -> qmap K V;
  qdel : forall {K : Type} `{Countable K} {V : Type}, qmap K V -> K -> qmap K V;
  qiter : forall {K : Type} `{Countable K} {V : Type}, qmap K V -> list (K * V);
  qmulti : forall (K : Type) `{Countable K} (V : Type), Type;
  qmopen : forall {K : Type} `{Countable K} {V : Type}, qmulti K V;
  qmput : forall {K : Type} `{Countable K} {V : Type}, qmulti K V -> K -> V -> qmulti K V;
  qmdel : forall {K : Type} `{Countable K} {V : Type}, qmulti K V -> K -> qmulti K V;
  qmdel_all : forall {K : Type} `{Countable K} {V : Type}, qmulti K V -> K -> qmulti K V;
  qmiter : forall {K : Type} `{Countable K} {V : Type}, qmulti K V -> K -> list V
}.

(** Laws: a single-valued map is a finite map, and an iteration visits each
    binding once. *)
Class QMapLaws {Q : QMapOps} : Prop := {
  qget_open : forall {K} `{Countable K} {V} (k : K),
    qget (qopen : qmap K V) k = None;
  qget_put : forall {K} `{Countable K} {V} (m : qmap K V) (k k' : K) (v : V),
    qget (qput m k v) k' = if decide (k = k') then Some v else qget m k';
  qget_del : forall {K} `{Countable K} {V} (m : qmap K V) (k k' : K),
    qget (qdel m k) k' = if decide (k = k') then None else qget m k';
  qiter_get : forall {K} `{Countable K} {V} (m : qmap K V) (k : K) (v : V),
    (k, v) ∈ qiter m <-> qget m k = Some v;
  qiter_nodup : forall {K} `{Countable K} {V} (m : qmap K V), NoDup (qiter m).*1
}.

Arguments QMapLaws Q : clear implicits.

(** ** A reference implementation

    Finite maps and association lists.  It shows that the laws can hold and
    gives the witnesses something to compute with; no theorem depends on it. *)

#[export] Instance gmap_ops : QMapOps := {|
  qmap K _ _ V := gmap K V;
  qopen K _ _ V := ∅;
  qget K _ _ V m k := m !! k;
  qput K _ _ V m k v := <[k := v]> m;
  qdel K _ _ V m k := delete k m;
  qiter K _ _ V m := map_to_list m;
  qmulti K _ _ V := list (K * V);
  qmopen K _ _ V := [];
  qmput K _ _ V m k v := m ++ [(k, v)];
  qmdel K _ _ V m k :=
    match list_find (fun kv => kv.1 = k) m with
    | Some (i, _) => delete i m
    | None => m
    end;
  qmdel_all K _ _ V m k := filter (fun kv => kv.1 <> k) m;
  qmiter K _ _ V m k := (filter (fun kv => kv.1 = k) m).*2
|}.

#[export] Instance gmap_laws : QMapLaws gmap_ops.
Proof.
  split; intros K ED CK V; cbn.
  - intros k. apply lookup_empty.
  - intros m k k' v. by rewrite lookup_insert.
  - intros m k k'. by rewrite lookup_delete.
  - intros m k v. apply elem_of_map_to_list.
  - intros m. apply NoDup_fst_map_to_list.
Qed.

(** ** Consequences of the laws *)

Section Laws.
Context {Q : QMapOps} {QL : QMapLaws Q}.
Context {K : Type} `{Countable K} {V : Type}.
Implicit Types (m : qmap K V) (k : K) (v : V).

Lemma qget_put_eq m k v : qget (qput m k v) k = Some v.
Proof using QL. rewrite qget_put. by rewrite decide_True. Qed.

Lemma qget_put_ne m k k' v : k <> k' -> qget (qput m k v) k' = qget m k'.
Proof using QL. intros. rewrite qget_put. by rewrite decide_False. Qed.

Lemma qget_del_eq m k : qget (qdel m k) k = None.
Proof using QL. rewrite qget_del. by rewrite decide_True. Qed.

Lemma qget_del_ne m k k' : k <> k' -> qget (qdel m k) k' = qget m k'.
Proof using QL. intros. rewrite qget_del. by rewrite decide_False. Qed.

(** An iteration over an injective map visits each value once. *)
Lemma qvalues_nodup m :
  (forall k k' v, qget m k = Some v -> qget m k' = Some v -> k = k') -> NoDup (qiter m).*2.
Proof using QL.
  intros Hinj. pose proof (qiter_nodup m) as Hnd.
  assert (forall k v, (k, v) ∈ qiter m -> qget m k = Some v) as Hget by (intros; by apply qiter_get).
  induction (qiter m) as [|[k v] l IH]; cbn in *; [constructor|].
  apply NoDup_cons in Hnd as [Hn Hnd]. apply NoDup_cons. split.
  - intros ([k' v'] & E & Hin)%list_elem_of_fmap. cbn in E. subst v'. apply Hn.
    rewrite (Hinj k k' v); [|apply Hget; left|apply Hget; by right].
    apply list_elem_of_fmap. by exists (k', v).
  - apply IH; [done|]. intros k' v' Hin. apply Hget. by right.
Qed.

End Laws.

#[export] Hint Rewrite @qget_open @qget_put_eq @qget_del_eq using typeclasses eauto : qmap.
