(* ===== verification/Status.v ===== *)
(** * Status codes

    The XY_* constants of include/ttypt/xy.h and [xy_strerror] of
    src/libxylem.c. *)

From S2P Require Import Prelude.
From stdpp Require Import options.
Local Open Scope Z_scope.

Definition XY_OK : Z := 0.
Definition XY_ERR_NOTFOUND : Z := -1.
Definition XY_ERR_INVALID : Z := -2.
Definition XY_ERR_TOOBIG : Z := -3.
Definition XY_ERR_INIT : Z := -4.
Definition XY_ERR_EPERM : Z := -5.

Definition XY_MAX_RET_SIZE : Z := 4096.
Definition XY_INVALID : Z := 2 ^ 32 - 1.
Definition XY_REGION_ROOT : Z := 0.
Definition XY_REGION_INVALID : Z := two64 - 1.

Inductive xy_deny_type := XY_DENY_HOOK | XY_DENY_MODULE.

Definition xy_strerror (err : Z) : string :=
  if decide (err = XY_OK) then "success"
  else if decide (err = XY_ERR_NOTFOUND) then "not found"
  else if decide (err = XY_ERR_INVALID) then "invalid argument"
  else if decide (err = XY_ERR_TOOBIG) then "return type too large"
  else if decide (err = XY_ERR_INIT) then "initialization failed"
  else if decide (err = XY_ERR_EPERM) then "operation not permitted"
  else "unknown error".

(** The six codes, and every other value the library could be asked about. *)
Definition xy_codes : list Z :=
  [XY_OK; XY_ERR_NOTFOUND; XY_ERR_INVALID; XY_ERR_TOOBIG; XY_ERR_INIT; XY_ERR_EPERM].
