(* ===== verification/Macros.v ===== *)
(** * The macros that declare hooks

    src/include/ttypt/xy-pp.h, and the parts of XY_DECL, XY_DEF, XY_IMPL and
    XY_CALL (xy.h) that carry the arguments of a hook into a struct and out of
    it again.  A macro is a function of the texts of its arguments; [None] is an
    expansion that does not compile. *)

From S2P Require Import Prelude.
From stdpp Require Import options.

(** ** Counting the arguments *)

(** [PAIR_RSEQ_N()] *)
Definition PAIR_RSEQ_N : list nat :=
  [31;31;30;30;29;29;28;28;27;27;26;26;25;25;
   24;24;23;23;22;22;21;21;20;20;19;19;18;18;
   17;17;16;16;15;15;14;14;13;13;12;12;11;11;
   10;10; 9; 9; 8; 8; 7; 7; 6; 6; 5; 5; 4; 4;
    3; 3; 2; 2; 1; 1; 0; 0]%nat.

(** What a macro is given: the text of an argument, or a number of the list. *)
Inductive pp_arg := Text (s : string) | Num (n : nat).

(** [PP_ARG_N(_1, ..., _63, N, ...)]: the argument after the first 63. *)
Definition PP_ARG_N (args : list pp_arg) : option pp_arg := args !! 63%nat.

Definition XY_PC (args : list string) : option pp_arg :=
  PP_ARG_N ((Text <$> args) ++ (Num <$> PAIR_RSEQ_N)).

(** ** The families *)

(** [CAT(F, XY_PC(args))(args)] for a family of macros [F1] to [F16]: the first
    takes two arguments; each other one takes two, and the macro below it
    takes the rest. *)
Fixpoint family {A} (item : string -> string -> A) (n : nat) (args : list string) : option (list A) :=
  match n, args with
  | 1%nat, [a; b] => Some [item a b]
  | S (S _ as n'), a :: b :: rest => rest' ← family item n' rest; Some (item a b :: rest')
  | _, _ => None
  end.

(** There is no macro for a text, for 0 and for more than 16; no argument at
    all is one that is empty. *)
Definition expand {A} (item : string -> string -> A) (args : list string) : option (list A) :=
  let args := match args with [] => [""] | _ => args end in
  match XY_PC args with
  | Some (Num n) => if decide (n <= 16)%nat then family item n args else None
  | _ => None
  end.

(** Parameters, members, members of [__xy_a], and names. *)
Definition XY_FA : list string -> option (list (string * string)) := expand pair.
Definition XY_PG : list string -> option (list (string * string)) := expand pair.
Definition XY_NP : list string -> option (list string) := expand (fun a b => b).
Definition XY_DA : list string -> option (list string) := expand (fun a b => b).

(** ** What XY_DEF makes of a declaration *)

Record hook_code := HookCode {
  hk_params : list (string * string);   (* of [fname] and of [fname_t] *)
  hk_members : list (string * string);  (* of [struct fname_args] *)
  hk_inits : list string;               (* the initialiser in [fname] *)
  hk_reads : list string                (* the arguments in [fname_adapter_call] *)
}.

Definition XY_DEF (args : list string) : option hook_code :=
  params ← XY_FA args;
  members ← XY_PG args;
  reads ← XY_NP args;
  inits ← XY_DA args;
  Some (HookCode params members inits reads).

(** ** Carrying values

    A parameter list or a struct with its values is a map from names to values. *)

Section Values.
Context {V : Type} (zero : V).

(** [struct fname_args args = { values };]: the members in turn, and zero for
    those that are left. *)
Definition initialise (members : list (string * string)) (values : list V) : option (gmap string V) :=
  if decide (length values <= length members)%nat then
    Some (list_to_map (zip members.*2 (values ++ replicate (length members - length values) zero)))
  else None.

(** The call of the function [fname], up to [__XY_DISPATCH]. *)
Definition call_struct (hk : hook_code) (vs : list V) : option (gmap string V) :=
  if decide (length vs = length (hk_params hk)) then
    let env : gmap string V := list_to_map (zip (hk_params hk).*2 vs) in
    values ← mapM (fun name => env !! name) (hk_inits hk);
    initialise (hk_members hk) values
  else None.

(** [XY_CALL(retp, fname, vs)], up to [xy_call]. *)
Definition XY_CALL (hk : hook_code) (vs : list V) : option (gmap string V) :=
  initialise (hk_members hk) vs.

(** What [fname_adapter_call] passes to the function of the module. *)
Definition adapter_arguments (hk : hook_code) (args : gmap string V) : option (list V) :=
  mapM (fun name => args !! name) (hk_reads hk).

End Values.

(** ** Theorems *)

(** The arguments of a declaration with the parameters [ps]. *)
Definition flatten (ps : list (string * string)) : list string := ps ≫= fun p => [p.1; p.2].

Lemma flatten_cons p ps : flatten (p :: ps) = p.1 :: p.2 :: flatten ps.
Proof. done. Qed.

Lemma length_flatten ps : length (flatten ps) = (2 * length ps)%nat.
Proof. induction ps as [|p ps IH]; [done|]. rewrite flatten_cons. cbn [length]. lia. Qed.

Lemma family_iff {A} (item : string -> string -> A) n args out :
  family item n args = Some out <->
  exists ps, length ps = n /\ (1 <= n)%nat /\ args = flatten ps /\ out = (fun p => item p.1 p.2) <$> ps.
Proof.
  split.
  - revert args out. induction n as [|n IH]; intros args out; [done|]. cbn [family].
    destruct n as [|n].
    + destruct args as [|a [|b [|c args]]]; try done. intros [= <-]. by exists [(a, b)].
    + destruct args as [|a [|b args]]; try done.
      destruct (family item (S n) args) as [rest|] eqn:E; [|done]. intros [= <-].
      destruct (IH _ _ E) as (ps & Hn & _ & -> & ->). exists ((a, b) :: ps). cbn. split_and!; [lia|lia|done|done].
  - intros (ps & <- & Hn & -> & ->). induction ps as [|[a b] ps IH]; [cbn in Hn; lia|].
    destruct ps as [|p ps]; [done|]. specialize (IH ltac:(cbn; lia)). rewrite flatten_cons.
    cbn [length fst snd] in *. set (n := S (length ps)) in *.
    change (family item (S n) (a :: b :: flatten (p :: ps))) with
      (rest ← family item n (flatten (p :: ps)); Some (item a b :: rest)).
    by rewrite IH.
Qed.

Lemma rseq_half k : (k <= 63)%nat -> PAIR_RSEQ_N !! (63 - k)%nat = Some (k / 2)%nat.
Proof.
  intros Hk. assert (forallb (fun k => bool_decide (PAIR_RSEQ_N !! (63 - k)%nat = Some (k / 2)%nat)) (seq 0 64) = true)
    as H by by vm_compute.
  rewrite forallb_forall in H. apply (proj1 (bool_decide_eq_true _)), H, in_seq. lia.
Qed.

Lemma XY_PC_half args : (length args <= 63)%nat -> XY_PC args = Some (Num (length args / 2)%nat).
Proof.
  intros H. unfold XY_PC, PP_ARG_N. rewrite lookup_app_r by by rewrite length_fmap.
  by rewrite length_fmap, list_lookup_fmap, rseq_half.
Qed.

Lemma expand_iff {A} (item : string -> string -> A) args out :
  expand item args = Some out <->
  exists ps, (1 <= length ps <= 16)%nat /\ args = flatten ps /\ out = (fun p => item p.1 p.2) <$> ps.
Proof.
  unfold expand. destruct args as [|a args].
  { split; [by vm_compute|]. intros ([|p ps] & Hn & E & _); [cbn in Hn; lia|done]. }
  set (l := a :: args). destruct (decide (length l <= 63)%nat) as [Hl|Hl].
  - rewrite XY_PC_half by done. split.
    + case_decide as Hn; [|done]. intros (ps & Hps & Hp & E & ->)%family_iff. exists ps. by rewrite Hps.
    + intros (ps & Hps & E & ->). rewrite E, length_flatten, Nat.mul_comm, Nat.div_mul by done.
      rewrite decide_True by lia. apply family_iff. exists ps. split_and!; [done|lia|done|done].
  - split.
    + unfold XY_PC, PP_ARG_N. rewrite lookup_app_l by (rewrite length_fmap; lia). rewrite list_lookup_fmap.
      by destruct (l !! 63%nat).
    + intros (ps & Hps & E & _). apply (f_equal length) in E. rewrite length_flatten in E. lia.
Qed.

Lemma flatten_inj ps ps' : flatten ps = flatten ps' -> ps = ps'.
Proof.
  revert ps'. induction ps as [|[a b] ps IH]; intros [|[a' b'] ps']; try done.
  rewrite !flatten_cons. cbn [fst snd]. intros [= -> -> E]. f_equal. by apply IH.
Qed.

Lemma XY_DEF_iff args hk :
  XY_DEF args = Some hk <->
  exists ps, (1 <= length ps <= 16)%nat /\ args = flatten ps /\ hk = HookCode ps ps ps.*2 ps.*2.
Proof.
  assert (forall ps : list (string * string), (fun p => (p.1, p.2)) <$> ps = ps) as Hid.
  { intros ps. rewrite <- (list_fmap_id ps) at 2. by apply list_fmap_ext; intros ? []. }
  unfold XY_DEF, XY_FA, XY_PG, XY_NP, XY_DA. split.
  - destruct (expand pair args) as [params|] eqn:E; [|done]. apply expand_iff in E as (ps & Hn & -> & ->).
    cbn [mbind option_bind]. destruct (expand (fun _ b => b) (flatten ps)) as [names|] eqn:E; [|done].
    apply expand_iff in E as (ps' & _ & E & ->). cbn [mbind option_bind]. intros [= <-].
    assert (ps' = ps) as ->.
    { by apply flatten_inj. }
    exists ps. by rewrite Hid.
  - intros (ps & Hn & -> & ->).
    rewrite (proj2 (expand_iff pair (flatten ps) ps) (ex_intro _ ps (conj Hn (conj eq_refl (eq_sym (Hid ps)))))).
    cbn [mbind option_bind].
    by rewrite (proj2 (expand_iff (fun _ b => b) (flatten ps) ps.*2) (ex_intro _ ps (conj Hn (conj eq_refl eq_refl)))).
Qed.

(** ** Round trip *)

Lemma mapM_zip {V} (names : list string) (vs : list V) :
  NoDup names -> length vs = length names ->
  mapM (fun name => (list_to_map (zip names vs) : gmap string V) !! name) names = Some vs.
Proof.
  intros Hnd Hl. apply mapM_Some, Forall2_same_length_lookup. split; [done|]. intros i name v Hn Hv.
  apply elem_of_list_to_map; [by rewrite fst_zip by lia|].
  apply list_elem_of_lookup. exists i. by rewrite lookup_zip_with, Hn; cbn; rewrite Hv.
Qed.

(** The values of a call reach the function that the adapter calls. *)
Lemma hook_arguments_pass {V} (zero : V) ps hk (vs : list V) :
  XY_DEF (flatten ps) = Some hk -> NoDup ps.*2 -> length vs = length ps ->
  hk_params hk = ps /\ hk_members hk = ps /\
  exists st, call_struct zero hk vs = Some st /\ XY_CALL zero hk vs = Some st /\
    adapter_arguments hk st = Some vs.
Proof.
  intros (ps' & _ & E & ->)%XY_DEF_iff Hnd Hl. apply flatten_inj in E as <-.
  split; [done|split; [done|]]. exists (list_to_map (zip ps.*2 vs)).
  assert (length vs = length ps.*2) as Hl' by by rewrite length_fmap. split_and!.
  - unfold call_struct. change (hk_params _) with ps. rewrite decide_True by done. cbv zeta.
    change (hk_inits _) with ps.*2. rewrite (mapM_zip ps.*2 vs Hnd Hl').
    change (initialise zero ps vs = Some (list_to_map (zip ps.*2 vs))).
    unfold initialise. by rewrite Hl, decide_True, Nat.sub_diag, app_nil_r.
  - unfold XY_CALL. change (hk_members _) with ps.
    unfold initialise. by rewrite Hl, decide_True, Nat.sub_diag, app_nil_r.
  - exact (mapM_zip ps.*2 vs Hnd Hl').
Qed.

(** C21: a declaration of a hook compiles when, and only when, it has 1 to 16
    parameters.  The function that it generates, XY_CALL and the [adapter_call]
    of the modules then agree: the struct has a member of each parameter's type
    and name, both ways to call fill it alike, and the values come out of it in
    the order in which they went in. *)
Theorem hook_arguments_arrive {V} (zero : V) (args : list string) (ps : list (string * string)) (vs : list V) :
  (is_Some (XY_DEF args) <-> exists qs, args = flatten qs /\ (1 <= length qs <= 16)%nat) /\
  ((1 <= length ps <= 16)%nat -> NoDup ps.*2 -> length vs = length ps ->
   exists hk st, XY_DEF (flatten ps) = Some hk /\ hk_params hk = ps /\ hk_members hk = ps /\
     call_struct zero hk vs = Some st /\ XY_CALL zero hk vs = Some st /\
     adapter_arguments hk st = Some vs).
Proof.
  split.
  - split; [intros [hk (ps' & ? & ? & _)%XY_DEF_iff]; by exists ps'|].
    intros (qs & -> & Hn). eexists. apply XY_DEF_iff. by exists qs.
  - intros Hn Hnd Hl. assert (XY_DEF (flatten ps) = Some (HookCode ps ps ps.*2 ps.*2)) as Hdef
      by (apply XY_DEF_iff; by exists ps).
    destruct (hook_arguments_pass zero ps _ vs Hdef Hnd Hl) as (_ & _ & st & Hst).
    by exists (HookCode ps ps ps.*2 ps.*2), st.
Qed.

(** ** An instance *)

Definition demo_params : list (string * string) := [("int", "player_id"); ("int", "amount")].

Lemma hook_arguments_arrive_witness :
  exists hk st, XY_DEF ["int"; "player_id"; "int"; "amount"] = Some hk /\
    call_struct 0 hk [1; 50] = Some st /\ adapter_arguments hk st = Some [1; 50].
Proof.
  destruct (proj2 (hook_arguments_arrive 0 [] demo_params [1; 50]) ltac:(cbn; lia)
    ltac:(apply (bool_decide_unpack _); vm_compute; exact I) eq_refl)
    as (hk & st & Hdef & _ & _ & Hcall & _ & Hargs).
  exists hk, st. exact (conj Hdef (conj Hcall Hargs)).
Defined.
