(* ===== verification/State.v ===== *)
(** * The state of the library

    The structs of src/papi.h and src/libxylem-internal.h, the globals and
    thread-local variables of src/libxylem.c, the heap they live in, and the
    interface to the code outside the library. *)

From S2P Require Import Prelude QMap Status.
From stdpp Require Import options.
Local Open Scope Z_scope.

(** [setter eta proj] builds the update of one record field from the record's
    eta expansion. *)
Ltac setter eta proj :=
  lazymatch type of proj with
  | ?R -> ?T =>
    exact (fun (v : T) (r : R) =>
      ltac:(let b := eval cbv beta delta [eta] in (eta r) in
            let f := eval pattern (proj r) in b in
            lazymatch f with ?g _ => let b' := eval cbv beta in (g v) in exact b' end))
  end.

(** Addresses of heap objects, of string and byte buffers, of shared-library
    handles and of code; a nullable pointer is an [option loc]. *)
Abbreviation loc := positive.

(** An entry of [fn_cache] and the [cb] of a dispatch slot: NULL, the
    sentinel XY_FN_NOT_FOUND, or a function. *)
Inductive fnptr := FnNull | FnNotFound | Fn (a : loc).

#[export] Instance fnptr_eq_dec : EqDecision fnptr.
Proof. solve_decision. Defined.

(** The functions of the library that a [xy_t] can point to. *)
Inductive api :=
| Api_call | Api_areg | Api_load | Api_errno | Api_strerror | Api_last
| Api_shutdown | Api_deny | Api_require_claim | Api_region_each
| Api_with_region | Api_current_region | Api_unload | Api_reload.

(** The [fname_adapter_call] function that XY_DEF and XY_IMPL generate for a
    hook; what distinguishes them is the [sizeof(ftype)] compiled in. *)
Record trampoline := Trampoline { tr_ret_size : Z }.

(** The descriptors of [copy_one]: of the source, of the copy, of its directory. *)
Inductive copy_fd := FdIn | FdOut | FdDir.

#[export] Instance copy_fd_eq_dec : EqDecision copy_fd.
Proof. solve_decision. Defined.

(** Calls out of the library that leave a trace the environment can see. *)
Inductive ext_event :=
| EvDlopen (path : string)
| EvDlclose (h : loc)
| EvUnlink (path : string)
| EvCleanup (fn : loc)
| EvMkstemps (name : option string)
| EvOpen (fd : copy_fd) (path : string) (ok : bool)
| EvRead (bytes : option (list Z))     (* None: read failed *)
| EvWrite (bytes : list Z)             (* what was accepted; [] when write failed *)
| EvFchmod
| EvFsync (fd : copy_fd)
| EvClose (fd : copy_fd).

#[export] Instance ext_event_eq_dec : EqDecision ext_event.
Proof. solve_decision. Defined.

(** [xy_dispatch_slot_t] *)
Record dispatch_slot := Slot {
  sl_me : option loc;
  sl_cb : fnptr
}.

(** [xy_hook_dispatch_cache_t]; the slot array is a heap object of its own,
    because a dispatch in progress keeps a pointer to it. *)
Record hook_dispatch_cache := HookCache {
  hc_slots : option loc;
  hc_count : Z;
  hc_cap : Z;
  hc_region_gen : Z
}.

(** [xy_mod_entry_t] *)
Record mod_entry := ModEntry {
  m_ctx : option loc;
  m_region_next : option loc;
  m_fn_cache : list fnptr;  (* fn_cache_cap is its length *)
  m_region_state : option loc;
  m_load_path : option loc;
  m_handle : option loc;
  m_region_entry : option loc;
  m_region_id : Z;
  m_region_prev : option loc;
  m_refcount : Z;
  m_parent_entry : option loc;
  m_hook_impl_bits : list Z;  (* hook_impl_words is its length *)
  m_mod_key : string;
  m_tmp_load_path : option string
}.

(** [xy_t] / [struct xy_ctx] *)
Record xy_t := XyT {
  x_call : option api;
  x_areg : option api;
  x_load : option api;
  x_err : option api;
  x_strerror : option api;
  x_adapter : option loc;
  x_last : option api;
  x_shutdown : option api;
  x_module_path : option string;
  x_region_id : Z;
  x_deny : option api;
  x_require_claim : option api;
  x_region_each : option api;
  x_with_region : option api;
  x_current_region : option api;
  x_unload : option api;
  x_reload : option api;
  x_region_state : option loc
}.

(** [xy_adapter_t], less its [ret] and [ran] members, which no code reads or writes. *)
Record adapter := Adapter {
  a_name : string;
  a_arg_size : Z;
  a_ret_size : Z;
  a_call : option trampoline;
  a_hook_id : Z
}.

(** The thread-local variables of src/libxylem.c (of the one thread modelled). *)
Record tls := Tls {
  t_last_ran : Z;
  t_last_retp : option loc;
  t_region_id : Z;
  t_region_entry : option loc;
  t_loading_mod : option loc;
  t_pending_ctx : option loc
}.

Section State.
Context {Q : QMapOps}.

(** [xy_region_entry_t] *)
Record region_entry := RegionEntry {
  r_id : Z;
  r_depth : Z;
  r_plen : Z;
  r_child_bits : Z;
  r_owner_path : option string;
  r_denied_hooks : list string;
  r_denied_modules : list loc;
  r_denied_hooks_set : option (qmap string Z);
  r_denied_modules_set : option (qmap loc Z);
  r_subtree_flags : Z;
  r_dispatch_gen : Z;
  r_claim_handler : option loc;
  r_claim_handler_ud : Z;
  r_require_claim : bool;
  r_parent : option loc;
  r_children_head : option loc;
  r_sibling_next : option loc;
  r_mods_head : option loc;
  r_mods_tail : option loc;
  r_subtree_mods : list loc;  (* the first subtree_mods_count entries *)
  r_subtree_mods_cap : Z;
  r_subtree_mods_dirty : bool;
  r_hook_dispatch : list hook_dispatch_cache  (* hook_dispatch_cap is its length *)
}.

(** [xy_runtime_t]; a map handle that is 0 is [None].  The type identifiers
    libqmap hands out (xy_ptr_type and the like) are not represented. *)
Record runtime := Runtime {
  rt_mod_hd : option (qmap string loc);
  rt_mod_by_region_hd : option (qmulti Z loc);
  rt_sica_hd : option (qmap string loc);
  rt_path_intern_hd : option (qmap string loc);
  rt_region_hd : option (qmap Z loc);
  rt_hook_id_hd : option (qmap string Z);
  rt_hook_id_counter : Z;
  rt_adapter_by_id : list (option loc);  (* xy_adapter_by_id_cap is its length *)
  rt_inited : bool;
  rt_mod_count : Z
}.

(** The whole state.  [st_alloc] says how the next calls of the allocator that
    the code checks will end ([true]: memory is returned); when it is empty they all
    succeed.  [st_next] is the next fresh address. *)
Record state := State {
  st_rt : runtime;
  st_xy : xy_t;
  st_tls : tls;
  st_err : Z;
  st_reloading : bool;
  st_reg : gmap loc region_entry;
  st_mod : gmap loc mod_entry;
  st_ctx : gmap loc xy_t;
  st_adp : gmap loc adapter;
  st_slots : gmap loc (list dispatch_slot);
  st_str : gmap loc string;
  st_mem : gmap loc (list Z);
  st_next : loc;
  st_alloc : list bool;
  st_trace : list ext_event
}.

(** Field updates: [set_f v r] is [r] with its field [f] set to [v]. *)

Definition eta_region_entry (r : region_entry) : region_entry :=
  RegionEntry (r_id r) (r_depth r) (r_plen r) (r_child_bits r) (r_owner_path r)
    (r_denied_hooks r) (r_denied_modules r) (r_denied_hooks_set r) (r_denied_modules_set r)
    (r_subtree_flags r) (r_dispatch_gen r) (r_claim_handler r) (r_claim_handler_ud r)
    (r_require_claim r) (r_parent r) (r_children_head r) (r_sibling_next r) (r_mods_head r)
    (r_mods_tail r) (r_subtree_mods r) (r_subtree_mods_cap r) (r_subtree_mods_dirty r)
    (r_hook_dispatch r).

Definition set_r_id := ltac:(setter eta_region_entry r_id).
Definition set_r_depth := ltac:(setter eta_region_entry r_depth).
Definition set_r_plen := ltac:(setter eta_region_entry r_plen).
Definition set_r_child_bits := ltac:(setter eta_region_entry r_child_bits).
Definition set_r_owner_path := ltac:(setter eta_region_entry r_owner_path).
Definition set_r_denied_hooks := ltac:(setter eta_region_entry r_denied_hooks).
Definition set_r_denied_modules := ltac:(setter eta_region_entry r_denied_modules).
Definition set_r_denied_hooks_set := ltac:(setter eta_region_entry r_denied_hooks_set).
Definition set_r_denied_modules_set := ltac:(setter eta_region_entry r_denied_modules_set).
Definition set_r_subtree_flags := ltac:(setter eta_region_entry r_subtree_flags).
Definition set_r_dispatch_gen := ltac:(setter eta_region_entry r_dispatch_gen).
Definition set_r_claim_handler := ltac:(setter eta_region_entry r_claim_handler).
Definition set_r_claim_handler_ud := ltac:(setter eta_region_entry r_claim_handler_ud).
Definition set_r_require_claim := ltac:(setter eta_region_entry r_require_claim).
Definition set_r_parent := ltac:(setter eta_region_entry r_parent).
Definition set_r_children_head := ltac:(setter eta_region_entry r_children_head).
Definition set_r_sibling_next := ltac:(setter eta_region_entry r_sibling_next).
Definition set_r_mods_head := ltac:(setter eta_region_entry r_mods_head).
Definition set_r_mods_tail := ltac:(setter eta_region_entry r_mods_tail).
Definition set_r_subtree_mods := ltac:(setter eta_region_entry r_subtree_mods).
Definition set_r_subtree_mods_cap := ltac:(setter eta_region_entry r_subtree_mods_cap).
Definition set_r_subtree_mods_dirty := ltac:(setter eta_region_entry r_subtree_mods_dirty).
Definition set_r_hook_dispatch := ltac:(setter eta_region_entry r_hook_dispatch).

Definition eta_runtime (r : runtime) : runtime :=
  Runtime (rt_mod_hd r) (rt_mod_by_region_hd r) (rt_sica_hd r) (rt_path_intern_hd r)
    (rt_region_hd r) (rt_hook_id_hd r) (rt_hook_id_counter r) (rt_adapter_by_id r)
    (rt_inited r) (rt_mod_count r).

Definition set_rt_mod_hd := ltac:(setter eta_runtime rt_mod_hd).
Definition set_rt_mod_by_region_hd := ltac:(setter eta_runtime rt_mod_by_region_hd).
Definition set_rt_sica_hd := ltac:(setter eta_runtime rt_sica_hd).
Definition set_rt_path_intern_hd := ltac:(setter eta_runtime rt_path_intern_hd).
Definition set_rt_region_hd := ltac:(setter eta_runtime rt_region_hd).
Definition set_rt_hook_id_hd := ltac:(setter eta_runtime rt_hook_id_hd).
Definition set_rt_hook_id_counter := ltac:(setter eta_runtime rt_hook_id_counter).
Definition set_rt_adapter_by_id := ltac:(setter eta_runtime rt_adapter_by_id).
Definition set_rt_inited := ltac:(setter eta_runtime rt_inited).
Definition set_rt_mod_count := ltac:(setter eta_runtime rt_mod_count).

Definition eta_state (r : state) : state :=
  State (st_rt r) (st_xy r) (st_tls r) (st_err r) (st_reloading r) (st_reg r) (st_mod r)
    (st_ctx r) (st_adp r) (st_slots r) (st_str r) (st_mem r) (st_next r) (st_alloc r)
    (st_trace r).

Definition set_st_rt := ltac:(setter eta_state st_rt).
Definition set_st_xy := ltac:(setter eta_state st_xy).
Definition set_st_tls := ltac:(setter eta_state st_tls).
Definition set_st_err := ltac:(setter eta_state st_err).
Definition set_st_reloading := ltac:(setter eta_state st_reloading).
Definition set_st_reg := ltac:(setter eta_state st_reg).
Definition set_st_mod := ltac:(setter eta_state st_mod).
Definition set_st_ctx := ltac:(setter eta_state st_ctx).
Definition set_st_adp := ltac:(setter eta_state st_adp).
Definition set_st_slots := ltac:(setter eta_state st_slots).
Definition set_st_str := ltac:(setter eta_state st_str).
Definition set_st_mem := ltac:(setter eta_state st_mem).
Definition set_st_next := ltac:(setter eta_state st_next).
Definition set_st_alloc := ltac:(setter eta_state st_alloc).
Definition set_st_trace := ltac:(setter eta_state st_trace).

End State.

Definition eta_hook_dispatch_cache (r : hook_dispatch_cache) : hook_dispatch_cache :=
  HookCache (hc_slots r) (hc_count r) (hc_cap r) (hc_region_gen r).

Definition set_hc_slots := ltac:(setter eta_hook_dispatch_cache hc_slots).
Definition set_hc_count := ltac:(setter eta_hook_dispatch_cache hc_count).
Definition set_hc_cap := ltac:(setter eta_hook_dispatch_cache hc_cap).
Definition set_hc_region_gen := ltac:(setter eta_hook_dispatch_cache hc_region_gen).

Definition eta_mod_entry (r : mod_entry) : mod_entry :=
  ModEntry (m_ctx r) (m_region_next r) (m_fn_cache r) (m_region_state r) (m_load_path r)
    (m_handle r) (m_region_entry r) (m_region_id r) (m_region_prev r) (m_refcount r)
    (m_parent_entry r) (m_hook_impl_bits r) (m_mod_key r) (m_tmp_load_path r).

Definition set_m_ctx := ltac:(setter eta_mod_entry m_ctx).
Definition set_m_region_next := ltac:(setter eta_mod_entry m_region_next).
Definition set_m_fn_cache := ltac:(setter eta_mod_entry m_fn_cache).
Definition set_m_region_state := ltac:(setter eta_mod_entry m_region_state).
Definition set_m_load_path := ltac:(setter eta_mod_entry m_load_path).
Definition set_m_handle := ltac:(setter eta_mod_entry m_handle).
Definition set_m_region_entry := ltac:(setter eta_mod_entry m_region_entry).
Definition set_m_region_id := ltac:(setter eta_mod_entry m_region_id).
Definition set_m_region_prev := ltac:(setter eta_mod_entry m_region_prev).
Definition set_m_refcount := ltac:(setter eta_mod_entry m_refcount).
Definition set_m_parent_entry := ltac:(setter eta_mod_entry m_parent_entry).
Definition set_m_hook_impl_bits := ltac:(setter eta_mod_entry m_hook_impl_bits).
Definition set_m_mod_key := ltac:(setter eta_mod_entry m_mod_key).
Definition set_m_tmp_load_path := ltac:(setter eta_mod_entry m_tmp_load_path).

Definition eta_xy_t (r : xy_t) : xy_t :=
  XyT (x_call r) (x_areg r) (x_load r) (x_err r) (x_strerror r) (x_adapter r) (x_last r)
    (x_shutdown r) (x_module_path r) (x_region_id r) (x_deny r) (x_require_claim r)
    (x_region_each r) (x_with_region r) (x_current_region r) (x_unload r) (x_reload r)
    (x_region_state r).

Definition set_x_call := ltac:(setter eta_xy_t x_call).
Definition set_x_areg := ltac:(setter eta_xy_t x_areg).
Definition set_x_load := ltac:(setter eta_xy_t x_load).
Definition set_x_err := ltac:(setter eta_xy_t x_err).
Definition set_x_strerror := ltac:(setter eta_xy_t x_strerror).
Definition set_x_adapter := ltac:(setter eta_xy_t x_adapter).
Definition set_x_last := ltac:(setter eta_xy_t x_last).
Definition set_x_shutdown := ltac:(setter eta_xy_t x_shutdown).
Definition set_x_module_path := ltac:(setter eta_xy_t x_module_path).
Definition set_x_region_id := ltac:(setter eta_xy_t x_region_id).
Definition set_x_deny := ltac:(setter eta_xy_t x_deny).
Definition set_x_require_claim := ltac:(setter eta_xy_t x_require_claim).
Definition set_x_region_each := ltac:(setter eta_xy_t x_region_each).
Definition set_x_with_region := ltac:(setter eta_xy_t x_with_region).
Definition set_x_current_region := ltac:(setter eta_xy_t x_current_region).
Definition set_x_unload := ltac:(setter eta_xy_t x_unload).
Definition set_x_reload := ltac:(setter eta_xy_t x_reload).
Definition set_x_region_state := ltac:(setter eta_xy_t x_region_state).

Definition eta_adapter (r : adapter) : adapter :=
  Adapter (a_name r) (a_arg_size r) (a_ret_size r) (a_call r) (a_hook_id r).

Definition set_a_name := ltac:(setter eta_adapter a_name).
Definition set_a_arg_size := ltac:(setter eta_adapter a_arg_size).
Definition set_a_ret_size := ltac:(setter eta_adapter a_ret_size).
Definition set_a_call := ltac:(setter eta_adapter a_call).
Definition set_a_hook_id := ltac:(setter eta_adapter a_hook_id).

Definition eta_tls (r : tls) : tls :=
  Tls (t_last_ran r) (t_last_retp r) (t_region_id r) (t_region_entry r) (t_loading_mod r)
    (t_pending_ctx r).

Definition set_t_last_ran := ltac:(setter eta_tls t_last_ran).
Definition set_t_last_retp := ltac:(setter eta_tls t_last_retp).
Definition set_t_region_id := ltac:(setter eta_tls t_region_id).
Definition set_t_region_entry := ltac:(setter eta_tls t_region_entry).
Definition set_t_loading_mod := ltac:(setter eta_tls t_loading_mod).
Definition set_t_pending_ctx := ltac:(setter eta_tls t_pending_ctx).
