(* ===== verification/Machine.v ===== *)
(** * The machine the library runs on

    Heap access, allocation, the error cell, the environment of the process
    (file system, dynamic loader) and the calls into module and host code. *)

From S2P Require Import Prelude QMap Status State.
From stdpp Require Import options.
Local Open Scope Z_scope.

(** ** The environment

    What the operating system and the dynamic loader answer is not decided by
    the library: it is a parameter.  [dlopen] may answer differently over
    time, so it sees the trace of the calls made before. *)
Class Platform := {
  plat_realpath : string -> option string;
  (** the handle, and whether the constructors of the image have to run *)
  plat_dlopen : list ext_event -> string -> option (loc * bool);
  plat_dlsym : option loc -> string -> option loc;
  (** base address of the image that contains an address *)
  plat_dladdr : loc -> option loc;
  (** the xy_t and xy_adapter_t objects in the data of an image *)
  plat_image_ctx : loc -> list (loc * xy_t);
  plat_image_adp : loc -> list (loc * adapter);
  (** the byte stored at the data symbol xy_claim *)
  plat_claim_byte : loc -> Z;
  (** what calling get_xy_ptr and xy_region_state_size returns *)
  plat_get_xy : loc -> option loc;
  (** the file calls of a copy: the name mkstemps makes of a template, the bytes
      of a regular file that open and read deliver, how many of them one read
      delivers ([None]: it fails) and one write accepts, and whether fchmod and
      fsync succeed *)
  plat_mkstemps : list ext_event -> string -> option string;
  plat_open_file : list ext_event -> string -> option (list Z);
  plat_open_dir : list ext_event -> string -> bool;
  plat_read : list ext_event -> option nat;
  plat_write : list ext_event -> Z;
  plat_fchmod : list ext_event -> bool;
  plat_fsync : list ext_event -> bool;
  plat_state_size : loc -> Z
}.

(** ** Calls into code outside the library *)
Inductive callback :=
| CbCtor (h : loc)
| CbInstall (fn : loc)
| CbHook (fn : loc) (arg : list Z)
| CbClaim (fn : loc) (path : string) (bits ud : Z)
| CbScope (fn : loc) (ud : Z)
| CbEach (fn : loc) (child ud : Z)
| CbCleanup (fn st : loc).

Section Machine.
Context {Q : QMapOps}.

Abbreviation XM := (M state).

(** Code outside the library, run on the state it shares with the library.
    An integer result is the first element of the list it returns. *)
Definition executor : Type := callback -> XM (list Z).

Definition int_result (l : list Z) : Z := default 0 (head l).

(** ** Heap access: following a dangling pointer is undefined behaviour *)

Definition region_at (l : loc) : XM region_entry :=
  gets (fun s => st_reg s !! l) ≫= must.
Definition put_region (l : loc) (r : region_entry) : XM unit :=
  modify (fun s => set_st_reg (<[l := r]> (st_reg s)) s).
Definition upd_region (l : loc) (f : region_entry -> region_entry) : XM unit :=
  r ← region_at l; put_region l (f r).

Definition module_at (l : loc) : XM mod_entry :=
  gets (fun s => st_mod s !! l) ≫= must.
Definition put_module (l : loc) (m : mod_entry) : XM unit :=
  modify (fun s => set_st_mod (<[l := m]> (st_mod s)) s).
Definition upd_module (l : loc) (f : mod_entry -> mod_entry) : XM unit :=
  m ← module_at l; put_module l (f m).

Definition ctx_at (l : loc) : XM xy_t :=
  gets (fun s => st_ctx s !! l) ≫= must.
Definition upd_ctx (l : loc) (f : xy_t -> xy_t) : XM unit :=
  c ← ctx_at l; modify (fun s => set_st_ctx (<[l := f c]> (st_ctx s)) s).

Definition adapter_at (l : loc) : XM adapter :=
  gets (fun s => st_adp s !! l) ≫= must.
Definition upd_adapter (l : loc) (f : adapter -> adapter) : XM unit :=
  a ← adapter_at l; modify (fun s => set_st_adp (<[l := f a]> (st_adp s)) s).

(** A write of [bs] at the start of the buffer [l]: an overrun is undefined. *)
Definition mem_write (l : loc) (bs : list Z) : XM unit :=
  b ← gets (fun s => st_mem s !! l) ≫= must;
  if decide (length bs <= length b)%nat
  then modify (fun s => set_st_mem (<[l := bs ++ drop (length bs) b]> (st_mem s)) s)
  else undef.

(** The first [n] bytes of the buffer [l]. *)
Definition mem_read (l : loc) (n : Z) : XM (list Z) :=
  b ← gets (fun s => st_mem s !! l) ≫= must;
  if decide (Z.to_nat n <= length b)%nat then mret (take (Z.to_nat n) b) else undef.

Definition memset0 (l : loc) (n : Z) : XM unit :=
  mem_write l (replicate (Z.to_nat n) 0).

(** ** Allocation *)

Definition fresh_loc : XM loc :=
  l ← gets st_next; modify (set_st_next (Pos.succ l));; mret l.

(** The outcome of an allocation whose failure the code handles. *)
Definition try_alloc : XM bool := fun s =>
  match st_alloc s with
  | [] => Ok (true, s)
  | b :: bs => Ok (b, set_st_alloc bs s)
  end.

(** ** Globals and thread-local variables *)

Definition XY_SET_ERR (e : Z) : XM unit := modify (set_st_err e).
Definition XY_GET_ERR : XM Z := gets st_err.
(** [XY_SET_ERR(e); return e;], for an error code or XY_OK *)
Definition return_err (e : Z) : XM Z := XY_SET_ERR e;; mret e.

Definition upd_rt (f : runtime -> runtime) : XM unit :=
  modify (fun s => set_st_rt (f (st_rt s)) s).
Definition upd_tls (f : tls -> tls) : XM unit :=
  modify (fun s => set_st_tls (f (st_tls s)) s).
Definition upd_xy (f : xy_t -> xy_t) : XM unit :=
  modify (fun s => set_st_xy (f (st_xy s)) s).
Definition emit (ev : ext_event) : XM unit :=
  modify (fun s => set_st_trace (st_trace s ++ [ev]) s).

(** A map handle of the runtime; the library only uses an open one. *)
Definition handle {A} (f : runtime -> option A) : XM A :=
  gets (fun s => f (st_rt s)) ≫= must.

(** ** Rules *)

Lemma wp_region_at l r s (P : region_entry -> state -> Prop) :
  st_reg s !! l = Some r -> P r s -> wp (region_at l) s P.
Proof. intros H HP. unfold region_at. rewrite wp_bind, wp_gets. by eapply wp_must. Qed.

Lemma wp_upd_region l f r s (P : unit -> state -> Prop) :
  st_reg s !! l = Some r -> P tt (set_st_reg (<[l := f r]> (st_reg s)) s) ->
  wp (upd_region l f) s P.
Proof. intros H HP. unfold upd_region. rewrite wp_bind. by eapply wp_region_at. Qed.

Lemma wp_module_at l m s (P : mod_entry -> state -> Prop) :
  st_mod s !! l = Some m -> P m s -> wp (module_at l) s P.
Proof. intros H HP. unfold module_at. rewrite wp_bind, wp_gets. by eapply wp_must. Qed.

Lemma wp_upd_module l f m s (P : unit -> state -> Prop) :
  st_mod s !! l = Some m -> P tt (set_st_mod (<[l := f m]> (st_mod s)) s) ->
  wp (upd_module l f) s P.
Proof. intros H HP. unfold upd_module. rewrite wp_bind. by eapply wp_module_at. Qed.

Lemma wp_ctx_at l c s (P : xy_t -> state -> Prop) :
  st_ctx s !! l = Some c -> P c s -> wp (ctx_at l) s P.
Proof. intros H HP. unfold ctx_at. rewrite wp_bind, wp_gets. by eapply wp_must. Qed.

Lemma wp_upd_ctx l f c s (P : unit -> state -> Prop) :
  st_ctx s !! l = Some c -> P tt (set_st_ctx (<[l := f c]> (st_ctx s)) s) ->
  wp (upd_ctx l f) s P.
Proof. intros H HP. unfold upd_ctx. rewrite wp_bind. by eapply wp_ctx_at. Qed.

Lemma wp_adapter_at l a s (P : adapter -> state -> Prop) :
  st_adp s !! l = Some a -> P a s -> wp (adapter_at l) s P.
Proof. intros H HP. unfold adapter_at. rewrite wp_bind, wp_gets. by eapply wp_must. Qed.

Lemma wp_upd_adapter l f a s (P : unit -> state -> Prop) :
  st_adp s !! l = Some a -> P tt (set_st_adp (<[l := f a]> (st_adp s)) s) ->
  wp (upd_adapter l f) s P.
Proof. intros H HP. unfold upd_adapter. rewrite wp_bind. by eapply wp_adapter_at. Qed.

Lemma wp_try_alloc s (P : bool -> state -> Prop) :
  st_alloc s = [] -> P true s -> wp try_alloc s P.
Proof. intros H HP. unfold wp, try_alloc. by rewrite H. Qed.

Lemma wp_handle {A} (f : runtime -> option A) a s (P : A -> state -> Prop) :
  f (st_rt s) = Some a -> P a s -> wp (handle f) s P.
Proof. intros H HP. unfold handle. rewrite wp_bind, wp_gets. by eapply wp_must. Qed.

Lemma wp_return_err e s (P : Z -> state -> Prop) :
  P e (set_st_err e s) -> wp (return_err e) s P.
Proof. done. Qed.

Lemma wp_mem_write l bs b s (P : unit -> state -> Prop) :
  st_mem s !! l = Some b -> (length bs <= length b)%nat ->
  P tt (set_st_mem (<[l := bs ++ drop (length bs) b]> (st_mem s)) s) ->
  wp (mem_write l bs) s P.
Proof.
  intros H Hl HP. unfold mem_write. rewrite !wp_bind, wp_gets. eapply wp_must; [done|].
  by rewrite decide_True by done.
Qed.

Lemma wp_mem_read l n b s (P : list Z -> state -> Prop) :
  st_mem s !! l = Some b -> (Z.to_nat n <= length b)%nat ->
  P (take (Z.to_nat n) b) s -> wp (mem_read l n) s P.
Proof.
  intros H Hl HP. unfold mem_read. rewrite !wp_bind, wp_gets. eapply wp_must; [done|].
  by rewrite decide_True by done.
Qed.

End Machine.

Abbreviation XM := (M state).

(** One symbolic step of a [wp] goal: structural rules, then the heap rule
    whose lookup is in the context. *)
Ltac wp_step :=
  match goal with
  | |- wp (_ ≫= _) _ _ => rewrite wp_bind
  | |- wp (mret _) _ _ => rewrite wp_mret
  | |- wp (gets _) _ _ => rewrite wp_gets
  | |- wp (modify _) _ _ => rewrite wp_modify
  | |- wp (must (Some _)) _ _ => apply wp_mret
  | |- wp (region_at _) _ _ => eapply wp_region_at; [cbn; first [eassumption | apply lookup_insert_eq]|]
  | |- wp (upd_region _ _) _ _ => eapply wp_upd_region; [cbn; first [eassumption | apply lookup_insert_eq]|]
  | |- wp (module_at _) _ _ => eapply wp_module_at; [cbn; first [eassumption | apply lookup_insert_eq]|]
  | |- wp (upd_module _ _) _ _ => eapply wp_upd_module; [cbn; first [eassumption | apply lookup_insert_eq]|]
  | |- wp (ctx_at _) _ _ => eapply wp_ctx_at; [cbn; first [eassumption | apply lookup_insert_eq]|]
  | |- wp (upd_ctx _ _) _ _ => eapply wp_upd_ctx; [cbn; first [eassumption | apply lookup_insert_eq]|]
  | |- wp (adapter_at _) _ _ => eapply wp_adapter_at; [cbn; first [eassumption | apply lookup_insert_eq]|]
  | |- wp (upd_adapter _ _) _ _ => eapply wp_upd_adapter; [cbn; first [eassumption | apply lookup_insert_eq]|]
  | |- wp (handle _) _ _ => eapply wp_handle; [cbn; first [eassumption | reflexivity]|]
  | |- wp try_alloc _ _ => apply wp_try_alloc; [cbn; assumption|]
  | |- wp (return_err _) _ _ => apply wp_return_err
  | |- wp (XY_SET_ERR _) _ _ => unfold XY_SET_ERR; rewrite wp_modify
  | |- wp XY_GET_ERR _ _ => unfold XY_GET_ERR; rewrite wp_gets
  | |- wp (upd_rt _) _ _ => unfold upd_rt; rewrite wp_modify
  | |- wp (upd_tls _) _ _ => unfold upd_tls; rewrite wp_modify
  | |- wp (upd_xy _) _ _ => unfold upd_xy; rewrite wp_modify
  | |- wp fresh_loc _ _ => unfold fresh_loc
  | |- wp (put_region _ _) _ _ => unfold put_region
  | |- wp (put_module _ _) _ _ => unfold put_module
  | |- wp (emit _) _ _ => unfold emit; rewrite wp_modify
  end.
Ltac wp_steps := repeat (wp_step; cbn).

(** ** Inversion of a program that has finished *)

Tactic Notation "binv" hyp(H) ident(a) ident(s) ident(E) := apply bind_inv in H as (a & s & E & H).

Section Inversion.
Context {Q : QMapOps}.
Implicit Types (s : state).

Lemma module_at_inv l s m s' : module_at l s = Ok (m, s') -> st_mod s !! l = Some m /\ s' = s.
Proof.
  unfold module_at. intros H. binv H o s1 E. injection E as <- <-.
  destruct (st_mod s !! l); [|done]. by injection H as <- <-.
Qed.

Lemma region_at_inv l s r s' : region_at l s = Ok (r, s') -> st_reg s !! l = Some r /\ s' = s.
Proof.
  unfold region_at. intros H. binv H o s1 E. injection E as <- <-.
  destruct (st_reg s !! l); [|done]. by injection H as <- <-.
Qed.

Lemma handle_inv {A} (f : runtime -> option A) s a s' :
  handle f s = Ok (a, s') -> f (st_rt s) = Some a /\ s' = s.
Proof.
  unfold handle. intros H. binv H o s1 E. injection E as <- <-.
  destruct (f (st_rt s)); [|done]. by injection H as <- <-.
Qed.

Lemma must_inv {A} (o : option A) s a s' : must o s = Ok (a, s') -> o = Some a /\ s' = s.
Proof. destruct o; [|done]. by intros [= <- <-]. Qed.

Lemma upd_region_inv l f s a s' :
  upd_region l f s = Ok (a, s') ->
  exists r, st_reg s !! l = Some r /\ s' = set_st_reg (<[l := f r]> (st_reg s)) s.
Proof.
  unfold upd_region. intros H. binv H r s1 E. apply region_at_inv in E as [Hr ->].
  injection H as _ <-. by exists r.
Qed.

Lemma upd_module_inv l f s a s' :
  upd_module l f s = Ok (a, s') ->
  exists m, st_mod s !! l = Some m /\ s' = set_st_mod (<[l := f m]> (st_mod s)) s.
Proof.
  unfold upd_module. intros H. binv H m s1 E. apply module_at_inv in E as [Hm ->].
  injection H as _ <-. by exists m.
Qed.

End Inversion.
