(* ===== verification/ModKey.v ===== *)
(** * Composite keys of the module registry

    [mod_key], [mod_key_len] and [mod_key_measure] of src/libxylem.c, with the
    part of [snprintf] they use. *)

From S2P Require Import Prelude Status.
From Stdlib Require Ascii String.
From stdpp Require Import options.
Local Open Scope Z_scope.

Definition NUL : Ascii.ascii := Ascii.zero.

(** A C string seen as its bytes, without the terminator. *)
Definition bytes_of (s : string) : list Ascii.ascii := String.list_ascii_of_string s.
Definition of_bytes (l : list Ascii.ascii) : string := String.string_of_list_ascii l.

Definition c_string (s : string) : Prop := NUL ∉ bytes_of s.

#[export] Instance c_string_dec s : Decision (c_string s).
Proof. unfold c_string. apply _. Defined.

(** Lower-case hexadecimal digit of a value below 16. *)
Definition hex_digit (d : Z) : Ascii.ascii :=
  Ascii.ascii_of_nat (Z.to_nat (if d <? 10 then 48 + d else 87 + d)).

(** [%0<n>llx]: the [n] low digits, most significant first. *)
Fixpoint hexn (n : nat) (r : Z) : list Ascii.ascii :=
  match n with
  | O => []
  | S n' => hexn n' (r / 16) ++ [hex_digit (r mod 16)]
  end.

(** [snprintf] into a buffer of [cap] bytes: at most [cap - 1] bytes of the
    formatted text and a terminator.  The result is the part of the buffer
    that was written. *)
Definition snprintf_buf (cap : nat) (text : list Ascii.ascii) : list Ascii.ascii :=
  match cap with
  | O => []
  | S room => take room text ++ [NUL]
  end.

(** [snprintf(buf, buf_len, "%s%c%016llx", path, 0, region_id)] *)
Definition mod_key (buf_len : nat) (path : string) (region_id : Z) : string :=
  of_bytes (snprintf_buf buf_len (bytes_of path ++ [NUL] ++ hexn 16 region_id)).

Definition MOD_KEY_SUFFIX_LEN : nat := 17.

Definition mod_key_len (path : string) : nat :=
  String.length path + MOD_KEY_SUFFIX_LEN.

(** [strlen] of a buffer: the bytes before the first NUL. *)
Fixpoint strlen_bytes (l : list Ascii.ascii) : nat :=
  match l with
  | [] => 0
  | c :: l' => if decide (c = NUL) then 0 else S (strlen_bytes l')
  end.

Definition mod_key_measure (data : string) : nat :=
  strlen_bytes (bytes_of data) + MOD_KEY_SUFFIX_LEN.

(** The key under which a module is registered. *)
Definition registry_key (path : string) (region_id : Z) : string :=
  mod_key (mod_key_len path) path region_id.

(** ** Lemmas *)

Lemma bytes_of_bytes l : bytes_of (of_bytes l) = l.
Proof. apply String.list_ascii_of_string_of_list_ascii. Qed.

Lemma of_bytes_of s : of_bytes (bytes_of s) = s.
Proof. apply String.string_of_list_ascii_of_string. Qed.

#[export] Instance bytes_of_inj : Inj (=) (=) bytes_of.
Proof. intros s t H. by rewrite <- (of_bytes_of s), H, of_bytes_of. Qed.

#[export] Instance of_bytes_inj : Inj (=) (=) of_bytes.
Proof. intros s t H. by rewrite <- (bytes_of_bytes s), H, bytes_of_bytes. Qed.

Lemma length_bytes_of s : length (bytes_of s) = String.length s.
Proof. induction s; cbn; [done|]. f_equal. done. Qed.

Lemma length_hexn n r : length (hexn n r) = n.
Proof. revert r. induction n; intros r; cbn; [done|]. rewrite length_app, IHn. cbn. lia. Qed.

Definition digits : list Z := seqZ 0 16.

Lemma hex_digit_inj (a b : Z) :
  0 <= a < 16 -> 0 <= b < 16 -> hex_digit a = hex_digit b -> a = b.
Proof.
  intros Ha Hb.
  assert (forall x, x ∈ digits -> forall y, y ∈ digits -> hex_digit x = hex_digit y -> x = y) as Hall.
  { setoid_rewrite <- Forall_forall.
    assert (Forall (fun x => Forall (fun y => x = y \/ hex_digit x <> hex_digit y) digits) digits) as HF.
    { apply (bool_decide_unpack _). vm_compute. done. }
    eapply Forall_impl; [exact HF|]. intros x Hx y Hy E. rewrite Forall_forall in Hx.
    by destruct (Hx y Hy). }
  apply Hall; apply elem_of_seqZ; lia.
Qed.

Lemma hexn_inj n (r r' : Z) :
  0 <= r < 16 ^ Z.of_nat n -> 0 <= r' < 16 ^ Z.of_nat n -> hexn n r = hexn n r' -> r = r'.
Proof.
  revert r r'. induction n as [|n IH]; intros r r' Hr Hr' E.
  - cbn in *. lia.
  - rewrite Nat2Z.inj_succ, Z.pow_succ_r in Hr, Hr' by lia. cbn in E.
    apply app_inj_tail in E as [E1 E2].
    apply IH in E1; [|split; [apply Z.div_pos; lia|apply Z.div_lt_upper_bound; lia]..].
    apply hex_digit_inj in E2; [|apply Z.mod_pos_bound; lia..].
    rewrite (Z.div_mod r 16), (Z.div_mod r' 16) by lia. congruence.
Qed.

(** Dropping the last digit of a number is dividing it by 16. *)
Lemma take_hexn n r : take n (hexn (S n) r) = hexn n (r / 16).
Proof. cbn. rewrite take_app_length'; [done|]. by rewrite length_hexn. Qed.

(** What [mod_key] leaves in a buffer of [mod_key_len] bytes: the path, a
    NUL, fifteen digits and the terminator. *)
Lemma registry_key_bytes path r :
  bytes_of (registry_key path r) = bytes_of path ++ NUL :: hexn 15 (r / 16) ++ [NUL].
Proof.
  unfold registry_key, mod_key, mod_key_len, MOD_KEY_SUFFIX_LEN.
  rewrite bytes_of_bytes, Nat.add_comm. unfold snprintf_buf. cbn [Nat.add].
  rewrite take_app, <- length_bytes_of.
  rewrite take_ge by lia.
  replace (S _ - _)%nat with 16%nat by lia.
  cbn [app take]. rewrite take_hexn. by rewrite <- app_assoc.
Qed.

Lemma strlen_bytes_app l l' : NUL ∉ l -> strlen_bytes (l ++ NUL :: l') = length l.
Proof.
  induction l as [|c l IH]; intros Hn; cbn; [done|].
  apply not_elem_of_cons in Hn as [Hc Hl]. rewrite decide_False by done. f_equal. by apply IH.
Qed.

Lemma app_nul_inj (a b x y : list Ascii.ascii) :
  NUL ∉ a -> NUL ∉ b -> a ++ NUL :: x = b ++ NUL :: y -> a = b /\ x = y.
Proof.
  revert b. induction a as [|c a IH]; intros [|d b] Ha Hb E; cbn in *.
  - by injection E.
  - injection E as <- _. destruct Hb. left.
  - injection E as -> _. destruct Ha. left.
  - apply not_elem_of_cons in Ha as [_ Ha], Hb as [_ Hb].
    injection E as <- E. by apply IH in E as [-> ->].
Qed.

(** C30: *)
Theorem registry_key_identity (p p' : string) (r r' : Z) :
  c_string p -> c_string p' -> is_u64 r -> is_u64 r' ->
  registry_key p r = registry_key p' r' <-> p = p' /\ r / 16 = r' / 16.
Proof.
  intros Hp Hp' Hr Hr'. split.
  - intros E. apply (f_equal bytes_of) in E. rewrite !registry_key_bytes in E.
    apply app_nul_inj in E as [E1 E2]; [|done..].
    apply bytes_of_inj in E1. apply app_inj_tail in E2 as [E2 _].
    apply hexn_inj in E2; [done|..];
      unfold is_u64, two64 in *; change (16 ^ Z.of_nat 15) with (2 ^ 60);
      (split; [apply Z.div_pos; lia|apply Z.div_lt_upper_bound; lia]).
  - intros [<- E]. apply (inj bytes_of). by rewrite !registry_key_bytes, E.
Qed.
