(* ===== verification/Linked.v ===== *)
(** * Intrusive linked lists

    The library threads its objects on intrusive lists: parent pointers,
    sibling pointers, and the doubly-linked module list of a region.
    [linked next e ls]: following [next] from the pointer [e] visits [ls] and
    then reaches NULL.  [dll]: the same for a doubly-linked list with a head
    and a tail pointer. *)

From S2P Require Import Prelude State.
From stdpp Require Import options.

(** [next l] is [None] when [l] is not a live object, and otherwise the
    content of its link field. *)
Inductive linked (next : loc -> option (option loc)) : option loc -> list loc -> Prop :=
| linked_nil : linked next None []
| linked_cons l e ls : next l = Some e -> linked next e ls -> linked next (Some l) (l :: ls).

#[export] Hint Constructors linked : xylem.

(** A segment from [e], whose predecessor is [pp], to the node before [qn];
    [q] is its last node, or [pp] when it is empty. *)
Inductive dseg (next prev : loc -> option (option loc)) :
    option loc -> option loc -> option loc -> option loc -> list loc -> Prop :=
| dseg_nil pp qn : dseg next prev pp qn pp qn []
| dseg_cons pp l e q qn ls :
    prev l = Some pp -> next l = Some e -> dseg next prev (Some l) e q qn ls ->
    dseg next prev pp (Some l) q qn (l :: ls).

(** A whole list between its head and tail pointers. *)
Definition dll (next prev : loc -> option (option loc)) (head tail : option loc)
    (ls : list loc) : Prop :=
  dseg next prev None head tail None ls /\ NoDup ls.

(** ** Singly-linked lists *)

Section Linked.
Implicit Types next : loc -> option (option loc).

Lemma linked_nil_iff next e : linked next e [] <-> e = None.
Proof. split; [by inversion 1|]. intros ->. constructor. Qed.

Lemma linked_cons_iff next e l ls :
  linked next e (l :: ls) <-> e = Some l /\ exists e', next l = Some e' /\ linked next e' ls.
Proof.
  split; [inversion 1; simplify_eq; eauto|]. intros (-> & e' & ? & ?). by econstructor.
Qed.

Lemma linked_det next e ls ls' : linked next e ls -> linked next e ls' -> ls = ls'.
Proof.
  intros H. revert ls'. induction H as [|l e ls Hn H IH]; intros ls' H'.
  - by inversion H'.
  - inversion H'; simplify_eq. f_equal. by apply IH.
Qed.

Lemma linked_app_inv next e l ls1 ls2 :
  linked next e (ls1 ++ l :: ls2) -> linked next (Some l) (l :: ls2).
Proof.
  revert e. induction ls1 as [|x ls1 IH]; intros e H; cbn in *.
  - inversion H; simplify_eq. by econstructor.
  - inversion H; simplify_eq. by eapply IH.
Qed.

(** A list that ends visits no node twice. *)
Lemma linked_NoDup next e ls : linked next e ls -> NoDup ls.
Proof.
  intros H. induction H as [|l e ls Hn H IH]; constructor; [|done].
  intros Hin. apply list_elem_of_split in Hin as (ls1 & ls2 & ->).
  pose proof (linked_app_inv _ _ _ _ _ H) as H2.
  assert (linked next (Some l) (l :: ls1 ++ l :: ls2)) as H1 by by econstructor.
  pose proof (linked_det _ _ _ _ H1 H2) as E. apply (f_equal length) in E.
  cbn in E. rewrite length_app in E. cbn in E. lia.
Qed.

Lemma linked_live next e ls l : linked next e ls -> l ∈ ls -> is_Some (next l).
Proof. intros H. induction H; intros Hin; [by apply not_elem_of_nil in Hin|].
  apply elem_of_cons in Hin as [->|]; eauto. Qed.

Lemma linked_mono next next' e ls :
  (forall l, l ∈ ls -> next' l = next l) -> linked next e ls -> linked next' e ls.
Proof.
  intros Hn H. induction H; [constructor|]. econstructor.
  - rewrite Hn by left. done.
  - apply IHlinked. intros. apply Hn. by right.
Qed.

Lemma linked_ext next next' e ls :
  (forall l, next' l = next l) -> linked next e ls <-> linked next' e ls.
Proof. intros Hn. split; apply linked_mono; done. Qed.

(** A list of live objects is no longer than the heap. *)
Lemma linked_length {A} (h : gmap loc A) (f : A -> option loc) e ls :
  linked (fun l => f <$> h !! l) e ls -> (length ls <= size h)%nat.
Proof.
  intros H. pose proof (linked_NoDup _ _ _ H) as Hnd.
  rewrite <- size_dom, <- (size_list_to_set (C := gset loc)) by done.
  apply subseteq_size. intros l Hl. apply elem_of_list_to_set in Hl.
  apply elem_of_dom. eapply linked_live in Hl as [e' He]; [|done]. cbn in He.
  destruct (h !! l); [by eexists|done].
Qed.

End Linked.

(** ** Doubly-linked lists *)

Section Dll.
Implicit Types next prev : loc -> option (option loc).

Lemma dseg_nil_iff next prev pp e q qn :
  dseg next prev pp e q qn [] <-> e = qn /\ q = pp.
Proof. split; [by inversion 1|]. intros [-> ->]. constructor. Qed.

Lemma dseg_cons_iff next prev pp e q qn l ls :
  dseg next prev pp e q qn (l :: ls) <->
  e = Some l /\ prev l = Some pp /\
  exists e', next l = Some e' /\ dseg next prev (Some l) e' q qn ls.
Proof.
  split; [inversion 1; simplify_eq; eauto|]. intros (-> & Hp & e' & Hn & H). by econstructor.
Qed.

Lemma dseg_linked next prev pp e q ls :
  dseg next prev pp e q None ls -> linked next e ls.
Proof.
  intros H. remember (@None loc) as qn eqn:E.
  induction H; subst; [constructor|]. econstructor; [done|]. by apply IHdseg.
Qed.

Lemma dseg_mono next next' prev prev' pp e q qn ls :
  (forall l, l ∈ ls -> next' l = next l) -> (forall l, l ∈ ls -> prev' l = prev l) ->
  dseg next prev pp e q qn ls -> dseg next' prev' pp e q qn ls.
Proof.
  intros Hn Hp H. induction H; [constructor|]. econstructor.
  - rewrite Hp by left. done.
  - rewrite Hn by left. done.
  - apply IHdseg; intros; [apply Hn|apply Hp]; by right.
Qed.

Lemma dseg_app next prev pp e q qn ls1 ls2 :
  dseg next prev pp e q qn (ls1 ++ ls2) <->
  exists m n, dseg next prev pp e m n ls1 /\ dseg next prev m n q qn ls2.
Proof.
  revert pp e. induction ls1 as [|l ls1 IH]; intros pp e; cbn.
  - setoid_rewrite dseg_nil_iff. naive_solver.
  - rewrite dseg_cons_iff. setoid_rewrite dseg_cons_iff. setoid_rewrite IH. naive_solver.
Qed.

(** The pointer to the first node of a list, or to what follows it. *)
Definition first (ls : list loc) (qn : option loc) : option loc :=
  match ls with [] => qn | l :: _ => Some l end.
Definition final (ls : list loc) (pp : option loc) : option loc :=
  match last ls with None => pp | Some l => Some l end.

Lemma dseg_first next prev pp e q qn ls :
  dseg next prev pp e q qn ls -> e = first ls qn.
Proof. by destruct 1. Qed.

Lemma dseg_final next prev pp e q qn ls :
  dseg next prev pp e q qn ls -> q = final ls pp.
Proof.
  intros H. induction H as [|pp l e q qn ls Hp Hn H IH]; [done|].
  rewrite IH. unfold final. rewrite last_cons. by destruct (last ls).
Qed.

Lemma dseg_live next prev pp e q qn ls l :
  dseg next prev pp e q qn ls -> l ∈ ls -> is_Some (next l) /\ is_Some (prev l).
Proof.
  intros H. induction H; intros Hin; [by apply not_elem_of_nil in Hin|].
  apply elem_of_cons in Hin as [->|Hin]; [|by apply IHdseg]. split; by eexists.
Qed.

(** The links of a node in the middle of a list. *)
Lemma dseg_at next prev pp e q qn ls1 l ls2 :
  dseg next prev pp e q qn (ls1 ++ l :: ls2) <->
  dseg next prev pp e (final ls1 pp) (Some l) ls1 /\
  prev l = Some (final ls1 pp) /\ next l = Some (first ls2 qn) /\
  dseg next prev (Some l) (first ls2 qn) q qn ls2.
Proof.
  rewrite dseg_app. setoid_rewrite dseg_cons_iff. split.
  - intros (m & n & H1 & -> & Hp & e' & Hn & H2).
    pose proof (dseg_final _ _ _ _ _ _ _ H1) as ->.
    pose proof (dseg_first _ _ _ _ _ _ _ H2) as ->. done.
  - intros (H1 & Hp & Hn & H2). naive_solver.
Qed.

End Dll.

(** ** Relinking

    A segment stays one when its last [next] or its first [prev] is redirected. *)

Section Relink.
Implicit Types next prev : loc -> option (option loc).

Lemma dseg_end next prev next' prev' pp e q qn qn' ls :
  dseg next prev pp e q qn ls -> NoDup ls ->
  (forall x, x ∈ ls -> next' x = if decide (last ls = Some x) then Some qn' else next x) ->
  (forall x, x ∈ ls -> prev' x = prev x) ->
  dseg next' prev' pp (first ls qn') q qn' ls.
Proof.
  intros H Hnd Hn Hp. destruct ls as [|x ls _] using rev_ind.
  { apply dseg_nil_iff in H as [-> ->]. constructor. }
  apply NoDup_app in Hnd as (Hnd & Hx & _). apply dseg_app in H as (m & n & H1 & H2).
  apply dseg_cons_iff in H2 as (-> & Hpx & e' & Hnx & [-> ->]%dseg_nil_iff).
  assert (dseg next' prev' pp e m (Some x) ls) as H1'.
  { eapply dseg_mono; [..|exact H1]; intros y Hy.
    - rewrite Hn by (apply elem_of_app; by left). rewrite decide_False; [done|].
      rewrite last_snoc. intros [= ->]. apply (Hx _ Hy). by left.
    - apply Hp, elem_of_app. by left. }
  assert (first (ls ++ [x]) qn' = e) as ->.
  { rewrite (dseg_first _ _ _ _ _ _ _ H1). by destruct ls. }
  apply dseg_app. exists m, (Some x). split; [done|]. econstructor; [..|constructor].
  - rewrite Hp; [done|]. apply elem_of_app. right. by left.
  - rewrite Hn by (apply elem_of_app; right; by left). by rewrite last_snoc, decide_True.
Qed.

Lemma dseg_start next prev next' prev' pp pp' e q qn ls :
  dseg next prev pp e q qn ls -> NoDup ls ->
  (forall x, x ∈ ls -> next' x = next x) ->
  (forall x, x ∈ ls -> prev' x = if decide (head ls = Some x) then Some pp' else prev x) ->
  dseg next' prev' pp' e (final ls pp') qn ls.
Proof.
  intros H Hnd Hn Hp. destruct ls as [|x ls].
  { apply dseg_nil_iff in H as [-> ->]. constructor. }
  apply NoDup_cons in Hnd as [Hx Hnd].
  apply dseg_cons_iff in H as (-> & Hpx & e' & Hnx & H).
  assert (final (x :: ls) pp' = q) as ->.
  { rewrite (dseg_final _ _ _ _ _ _ _ H). unfold final. rewrite last_cons. by destruct (last ls). }
  econstructor.
  - rewrite Hp by left. by rewrite decide_True.
  - rewrite Hn by left. done.
  - eapply dseg_mono; [..|exact H]; intros y Hy; [apply Hn; by right|].
    rewrite Hp by by right. rewrite decide_False; [done|]. intros [= ->]. done.
Qed.

(** Removal of a node: the node before it and the node after it, or the head
    and the tail pointer, are redirected. *)
Lemma dll_remove next prev next' prev' h t ls1 l ls2 :
  dll next prev h t (ls1 ++ l :: ls2) ->
  (forall x, x ∈ ls1 ++ ls2 ->
     next' x = if decide (last ls1 = Some x) then Some (head ls2) else next x) ->
  (forall x, x ∈ ls1 ++ ls2 ->
     prev' x = if decide (head ls2 = Some x) then Some (last ls1) else prev x) ->
  dll next' prev' (head (ls1 ++ ls2)) (last (ls1 ++ ls2)) (ls1 ++ ls2).
Proof.
  intros [H Hnd] Hn Hp. apply NoDup_app in Hnd as (Hnd1 & Hd & [Hl Hnd2]%NoDup_cons).
  apply dseg_at in H as (H1 & _ & _ & H2).
  assert (forall x, x ∈ ls1 -> x ∉ ls2) as Hd' by (intros x Hx Hx'; apply (Hd x Hx); by right).
  split.
  - apply (dseg_end _ _ next' prev' _ _ _ _ (head ls2)) in H1; [|done|..].
    2: { intros x Hx. rewrite Hn by (apply elem_of_app; by left). done. }
    2: { intros x Hx. rewrite Hp by (apply elem_of_app; by left). rewrite decide_False; [done|].
         intros E. apply (Hd' _ Hx). destruct ls2; [done|]. injection E as ->. by left. }
    apply (dseg_start _ _ next' prev' _ (last ls1)) in H2; [|done|..].
    2: { intros x Hx. rewrite Hn by (apply elem_of_app; by right). rewrite decide_False; [done|].
         intros E. apply last_Some_elem_of in E. by apply (Hd' _ E). }
    2: { intros x Hx. rewrite Hp by (apply elem_of_app; by right). done. }
    assert (head (ls1 ++ ls2) = first ls1 (head ls2)) as -> by by destruct ls1.
    assert (last (ls1 ++ ls2) = final ls2 (last ls1)) as -> by (rewrite last_app; by unfold final; destruct (last ls2)).
    apply dseg_app. exists (last ls1), (head ls2). split.
    + by replace (last ls1) with (final ls1 None) by (unfold final; by destruct (last ls1)).
    + by replace (head ls2) with (first ls2 None) by by destruct ls2.
  - apply NoDup_app. done.
Qed.

(** Insertion of a node between two parts of a list. *)
Lemma dll_insert next prev next' prev' h t ls1 l ls2 :
  dll next prev h t (ls1 ++ ls2) -> l ∉ ls1 ++ ls2 ->
  (forall x, x ∈ ls1 ++ ls2 ->
     next' x = if decide (last ls1 = Some x) then Some (Some l) else next x) ->
  (forall x, x ∈ ls1 ++ ls2 ->
     prev' x = if decide (head ls2 = Some x) then Some (Some l) else prev x) ->
  next' l = Some (head ls2) -> prev' l = Some (last ls1) ->
  dll next' prev' (head (ls1 ++ l :: ls2)) (last (ls1 ++ l :: ls2)) (ls1 ++ l :: ls2).
Proof.
  intros [H Hnd] Hl Hn Hp Hnl Hpl. apply NoDup_app in Hnd as (Hnd1 & Hd & Hnd2).
  apply not_elem_of_app in Hl as [Hl1 Hl2].
  apply dseg_app in H as (m & n & H1 & H2). split.
  - apply (dseg_end _ _ next' prev' _ _ _ _ (Some l)) in H1 as H1'; [|done|..].
    2: { intros x Hx. rewrite Hn by (apply elem_of_app; by left). done. }
    2: { intros x Hx. rewrite Hp by (apply elem_of_app; by left). rewrite decide_False; [done|].
         intros E. apply (Hd _ Hx). destruct ls2; [done|]. injection E as ->. by left. }
    apply (dseg_start _ _ next' prev' _ (Some l)) in H2 as H2'; [|done|..].
    2: { intros x Hx. rewrite Hn by (apply elem_of_app; by right). rewrite decide_False; [done|].
         intros E. apply last_Some_elem_of in E. by apply (Hd _ E). }
    2: { intros x Hx. rewrite Hp by (apply elem_of_app; by right). done. }
    assert (head (ls1 ++ l :: ls2) = first ls1 (Some l)) as -> by by destruct ls1.
    assert (last (ls1 ++ l :: ls2) = final ls2 (Some l)) as ->.
    { rewrite last_app, last_cons. by unfold final; destruct (last ls2). }
    apply dseg_at. rewrite (dseg_final _ _ _ _ _ _ _ H1) in H1'. split_and!.
    + done.
    + rewrite Hpl. unfold final. by destruct (last ls1).
    + rewrite Hnl. by destruct ls2.
    + rewrite (dseg_first _ _ _ _ _ _ _ H2) in H2'. done.
  - apply NoDup_app. split_and!; [done|intros x Hx [->|Hx']%elem_of_cons|by apply NoDup_cons]; [done|].
    by apply (Hd _ Hx).
Qed.

Lemma dll_ends next prev h t ls : dll next prev h t ls -> h = head ls /\ t = last ls.
Proof.
  intros [H _]. split.
  - rewrite (dseg_first _ _ _ _ _ _ _ H). by destruct ls.
  - rewrite (dseg_final _ _ _ _ _ _ _ H). unfold final. by destruct (last ls).
Qed.

Lemma dll_mono next next' prev prev' h t ls :
  (forall l, l ∈ ls -> next' l = next l) -> (forall l, l ∈ ls -> prev' l = prev l) ->
  dll next prev h t ls -> dll next' prev' h t ls.
Proof. intros Hn Hp [H Hnd]. split; [by eapply dseg_mono|done]. Qed.

(** The neighbours of a node. *)
Lemma dll_at next prev h t ls1 l ls2 :
  dll next prev h t (ls1 ++ l :: ls2) -> prev l = Some (last ls1) /\ next l = Some (head ls2).
Proof.
  intros [H _]. apply dseg_at in H as (_ & -> & -> & _). unfold final.
  destruct (last ls1), ls2; done.
Qed.

Lemma dll_det next prev h t ls t' ls' :
  dll next prev h t ls -> dll next prev h t' ls' -> ls = ls'.
Proof. intros [H _] [H' _]. eapply linked_det; by eapply dseg_linked. Qed.

End Relink.
