(* ===== verification/Region.v ===== *)
(** * Regions

    The region tree of src/libxylem.c: lookup, ancestor chains, the flags and
    generations that are pushed towards the root, the flattened module vector
    of a subtree, slot allocation. *)

From S2P Require Import Prelude QMap Status State Machine.
From stdpp Require Import options.
Local Open Scope Z_scope.

Definition XY_SUBTREE_HAS_DENY : Z := 1.
Definition XY_SUBTREE_SECURITY_MASK : Z := XY_SUBTREE_HAS_DENY.
Definition XY_SUBTREE_ANY_MASK : Z := XY_SUBTREE_HAS_DENY.

Section Region.
Context {Q : QMapOps}.

(** [calloc(1, sizeof(xy_region_entry_t))] *)
Definition region_zero : region_entry :=
  RegionEntry 0 0 0 0 None [] [] None None 0 0 None 0 false
    None None None None None [] 0 false [].

Definition set_current_region (id : Z) (entry : option loc) : XM unit :=
  upd_tls (fun t => set_t_region_entry entry (set_t_region_id id t)).

Definition region_lookup (id : Z) : XM (option loc) :=
  hd ← handle rt_region_hd; mret (qget hd id).

(** *** Ancestor chains *)

(** [while (e && n < chain_cap) { chain[n++] = e; e = e->parent; }]; [room] is
    [chain_cap - n]. *)
Fixpoint chain_walk (room : nat) (e : option loc) : XM (list loc) :=
  match e, room with
  | Some l, S room' =>
      r ← region_at l; rest ← chain_walk room' (r_parent r); mret (l :: rest)
  | _, _ => mret []
  end.

(** [for (a = 0, b = n - 1; a < b; a++, b--) swap(chain[a], chain[b]);] *)
Fixpoint swap_ends {A} (turns a b : nat) (chain : list A) : list A :=
  match turns with
  | O => chain
  | S turns' =>
      if decide (a < b)%nat then
        match chain !! a, chain !! b with
        | Some x, Some y => swap_ends turns' (S a) (pred b) (<[b := x]> (<[a := y]> chain))
        | _, _ => chain
        end
      else chain
  end.

Definition reverse_in_place {A} (chain : list A) : list A :=
  swap_ends (length chain) 0 (pred (length chain)) chain.

Definition region_ancestor_chain (start : option loc) (chain_cap : nat) : XM (list loc) :=
  chain ← chain_walk chain_cap start; mret (reverse_in_place chain).

(** *** Loops towards the root *)

(** [for (e = entry; e; e = e->parent) f(e);] *)
Fixpoint ancestor_loop (fuel : nat) (f : region_entry -> region_entry) (e : option loc)
    : XM unit :=
  match e with
  | None => mret tt
  | Some l =>
      match fuel with
      | O => out_of_fuel
      | S fuel' =>
          upd_region l f;; r ← region_at l; ancestor_loop fuel' f (r_parent r)
      end
  end.

(** The number of live regions bounds the length of a parent chain. *)
Definition for_ancestors (f : region_entry -> region_entry) (e : option loc) : XM unit :=
  n ← gets (fun s => size (st_reg s)); ancestor_loop n f e.

Definition flag_deny (r : region_entry) : region_entry :=
  set_r_subtree_flags (Z.lor (r_subtree_flags r) XY_SUBTREE_HAS_DENY) r.

Definition region_propagate_deny (entry : option loc) : XM unit :=
  for_ancestors flag_deny entry.

(** [e->dispatch_gen++; if (e->dispatch_gen == 0) e->dispatch_gen = 1;] *)
Definition next_gen (g : Z) : Z :=
  let g' := wrap64 (g + 1) in if g' =? 0 then 1 else g'.

Definition bump_gen (r : region_entry) : region_entry :=
  set_r_dispatch_gen (next_gen (r_dispatch_gen r)) r.

Definition region_dispatch_gen_bump (entry : option loc) : XM unit :=
  for_ancestors bump_gen entry.

Definition region_mark_subtree_dirty (entry : option loc) : XM unit :=
  region_dispatch_gen_bump entry;;
  for_ancestors (set_r_subtree_mods_dirty true) entry.

(** *** The flattened module vector of a subtree *)

Definition region_subtree_mods_push (root me : loc) : XM Z :=
  r ← region_at root;
  if Z.of_nat (length (r_subtree_mods r)) >=? r_subtree_mods_cap r then
    ok ← try_alloc;
    if ok : bool then
      upd_region root (fun r =>
        set_r_subtree_mods (r_subtree_mods r ++ [me])
          (set_r_subtree_mods_cap
             (if r_subtree_mods_cap r =? 0 then 8 else r_subtree_mods_cap r * 2) r));;
      mret 0
    else mret (-1)
  else
    upd_region root (fun r => set_r_subtree_mods (r_subtree_mods r ++ [me]) r);;
    mret 0.

(** [for (me = node->mods_head; me; me = me->region_next) push(me)] *)
Fixpoint push_mods (fuel : nat) (root : loc) (e : option loc) : XM Z :=
  match e with
  | None => mret 0
  | Some me =>
      match fuel with
      | O => out_of_fuel
      | S fuel' =>
          rc ← region_subtree_mods_push root me;
          if rc <? 0 then mret (-1)
          else m ← module_at me; push_mods fuel' root (m_region_next m)
      end
  end.

(** [for (child = first; child; child = child->sibling_next) visit(child)] *)
Fixpoint sibling_loop (fuel : nat) (visit : loc -> XM Z) (e : option loc) : XM Z :=
  match e with
  | None => mret 0
  | Some child =>
      match fuel with
      | O => out_of_fuel
      | S fuel' =>
          rc ← visit child;
          if rc <? 0 then mret (-1)
          else c ← region_at child; sibling_loop fuel' visit (r_sibling_next c)
      end
  end.

(** [depth] bounds the recursion, [wm] and [wr] the two loops.  A region is at
    most 64 levels below the root. *)
Fixpoint region_collect_subtree_mods (depth wm wr : nat) (root node : loc) : XM Z :=
  match depth with
  | O => out_of_fuel
  | S depth' =>
      n ← region_at node;
      rc ← push_mods wm root (r_mods_head n);
      if rc <? 0 then mret (-1)
      else
        n ← region_at node;
        sibling_loop wr (region_collect_subtree_mods depth' wm wr root) (r_children_head n)
  end.

Definition region_rebuild_subtree_mods (root : option loc) : XM Z :=
  match root with
  | None => mret 0
  | Some root =>
      upd_region root (set_r_subtree_mods []);;
      nm ← gets (fun s => size (st_mod s));
      nr ← gets (fun s => size (st_reg s));
      rc ← region_collect_subtree_mods 65 nm nr root root;
      if rc <? 0 then mret (-1)
      else upd_region root (set_r_subtree_mods_dirty false);; mret 0
  end.

(** *** The root region *)

Definition region_ensure_root : XM unit :=
  found ← region_lookup XY_REGION_ROOT;
  root ←
    (match found with
     | Some root => mret root
     | None =>
         root ← fresh_loc;
         put_region root (set_r_dispatch_gen 1 region_zero);;
         hd ← handle rt_region_hd;
         upd_rt (set_rt_region_hd (Some (qput hd XY_REGION_ROOT root)));;
         mret root
     end);
  upd_tls (fun t =>
    if decide (t_region_entry t = None \/ t_region_id t = XY_REGION_ROOT)
    then set_t_region_entry (Some root) t else t).

(** *** Slot allocation *)

(** [parent->id | (s << slot_shift)] *)
Definition slot_candidate (id shift s : Z) : Z := Z.lor id (wrap64 (Z.shiftl s shift)).

(** One turn of the do-while loop: [inr] leaves it. *)
Definition slot_turn (taken : Z -> bool) (id shift num_slots s : Z) : Z + Z :=
  let candidate_id := slot_candidate id shift s in
  if negb (taken candidate_id) then inr candidate_id
  else
    let s' := wrap64 (s + 1) in
    if s' =? num_slots then inr XY_REGION_INVALID else inl s'.

Definition region_alloc_slot (parent : loc) (bits : Z) : XM Z :=
  p ← region_at parent;
  let cplen := wrap8 (r_plen p + bits) in
  if 64 <? cplen then mret XY_REGION_INVALID
  else
    let num_slots := if cplen =? 64 then 0 else Z.shiftl 1 bits in
    let slot_shift := if cplen <? 64 then 64 - cplen else 0 in
    hd ← handle rt_region_hd;
    let taken id := bool_decide (is_Some (qget hd id)) in
    match loop_pow 64 (slot_turn taken (r_id p) slot_shift num_slots) 0 with
    | inr id => mret id
    | inl _ => out_of_fuel
    end.

End Region.
