(* ===== verification/RegionTree.v ===== *)
(** * The region tree: invariant and traversals

    The well-formedness of the region heap and the theorems about the
    functions of Region.v on well-formed heaps. *)

From S2P Require Import Prelude QMap Status State Machine Linked Region.
From stdpp Require Import options.
Local Open Scope Z_scope.

(** ** Definitions *)

(** The id lies in the address range of the prefix ([base], [plen]). *)
Definition under (base plen id : Z) : Prop :=
  Z.shiftr id (64 - plen) = Z.shiftr base (64 - plen).

(** No bit is set beyond the first [plen]. *)
Definition aligned (plen id : Z) : Prop := id mod 2 ^ (64 - plen) = 0.

#[export] Instance under_dec base plen id : Decision (under base plen id).
Proof. unfold under. apply _. Defined.

#[export] Instance aligned_dec plen id : Decision (aligned plen id).
Proof. unfold aligned. apply _. Defined.

Section Defs.
Context {Q : QMapOps}.

Definition parent_of (reg : gmap loc region_entry) (l : loc) : option (option loc) :=
  r_parent <$> reg !! l.
Definition sibling_of (reg : gmap loc region_entry) (l : loc) : option (option loc) :=
  r_sibling_next <$> reg !! l.
Definition mod_next (mods : gmap loc mod_entry) (l : loc) : option (option loc) :=
  m_region_next <$> mods !! l.
Definition mod_prev (mods : gmap loc mod_entry) (l : loc) : option (option loc) :=
  m_region_prev <$> mods !! l.

(** A region entry is consistent with its neighbours in the tree. *)
Record region_ok (reg : gmap loc region_entry) (l : loc) (r : region_entry) : Prop := {
  ro_u64 : is_u64 (r_id r);
  ro_plen : 0 <= r_depth r <= r_plen r /\ r_plen r <= 64;
  ro_gen : 1 <= r_dispatch_gen r < two64;
  ro_aligned : r_plen r < 64 -> aligned (r_plen r) (r_id r);
  ro_up : match r_parent r with
          | None => r_id r = 0 /\ r_plen r = 0 /\ r_depth r = 0
          | Some p => exists pr, reg !! p = Some pr /\ r_depth r = r_depth pr + 1 /\
              r_plen pr < r_plen r /\ (r_plen r < 64 -> under (r_id pr) (r_plen pr) (r_id r))
          end;
  ro_down : exists ks, linked (sibling_of reg) (r_children_head r) ks /\
              forall k, k ∈ ks <-> parent_of reg k = Some (Some l)
}.

(** The registry [region_hd] and the heap describe the same regions, and one
    of them is the root. *)
Record tree_ok (s : state) : Prop := {
  to_hd : exists hd, rt_region_hd (st_rt s) = Some hd /\
            forall id l, qget hd id = Some l <-> exists r, st_reg s !! l = Some r /\ r_id r = id;
  to_root : exists l r, st_reg s !! l = Some r /\ r_id r = XY_REGION_ROOT /\ r_parent r = None;
  to_region : forall l r, st_reg s !! l = Some r -> region_ok (st_reg s) l r;
  to_fresh : forall l, is_Some (st_reg s !! l) -> (l < st_next s)%positive
}.

(** Every region's module list is a doubly-linked list of modules that belong
    to it. *)
Definition mods_ok (s : state) : Prop :=
  forall l r, st_reg s !! l = Some r -> exists ms,
    dll (mod_next (st_mod s)) (mod_prev (st_mod s)) (r_mods_head r) (r_mods_tail r) ms /\
    forall m, m ∈ ms -> m_region_entry <$> st_mod s !! m = Some (Some l).

(** [f] applied to the regions in [ls]. *)
Definition apply_on (f : region_entry -> region_entry) (ls : list loc)
    (reg : gmap loc region_entry) : gmap loc region_entry :=
  map_imap (fun l r => Some (if decide (l ∈ ls) then f r else r)) reg.

(** The pointers that make the tree, and region heaps that agree on them. *)
Definition links (r : region_entry) : option loc * option loc * option loc * option loc :=
  (r_parent r, r_children_head r, r_sibling_next r, r_mods_head r).
Definition agree {T} (f : region_entry -> T) (reg reg' : gmap loc region_entry) : Prop :=
  forall l, f <$> reg !! l = f <$> reg' !! l.

(** What [tree_ok] constrains in a region entry besides its generation, and
    what [tree_ok] and [mods_ok] constrain together. *)
Definition shape (r : region_entry) :=
  (r_id r, r_depth r, r_plen r, r_parent r, r_children_head r, r_sibling_next r).
Definition skel (r : region_entry) := (shape r, (r_mods_head r, r_mods_tail r)).
(** What [mods_ok] constrains in a module. *)
Definition mod_links (m : mod_entry) := (m_region_next m, m_region_prev m, m_region_entry m).
Definition gens_ok (reg : gmap loc region_entry) : Prop :=
  forall l r, reg !! l = Some r -> 1 <= r_dispatch_gen r < two64.

(** The modules of a subtree: a region's own first, then child by child. *)
Inductive preorder (reg : gmap loc region_entry) (mods : gmap loc mod_entry) :
    nat -> loc -> list loc -> Prop :=
| preorder_node h l r ms ks mss :
    reg !! l = Some r ->
    linked (mod_next mods) (r_mods_head r) ms ->
    linked (sibling_of reg) (r_children_head r) ks ->
    preorders reg mods h ks mss ->
    preorder reg mods (S h) l (ms ++ mss)
with preorders (reg : gmap loc region_entry) (mods : gmap loc mod_entry) :
    nat -> list loc -> list loc -> Prop :=
| preorders_nil h : preorders reg mods h [] []
| preorders_cons h k ks ms mss :
    preorder reg mods h k ms -> preorders reg mods h ks mss ->
    preorders reg mods h (k :: ks) (ms ++ mss).

(** The ancestor [n] levels up. *)
Fixpoint up (reg : gmap loc region_entry) (n : nat) (l : loc) : option loc :=
  match n with
  | O => Some l
  | S n' => match parent_of reg l with Some (Some p) => up reg n' p | _ => None end
  end.

(** [a] is [l] or lies below it. *)
Definition descendant (reg : gmap loc region_entry) (a l : loc) : Prop :=
  exists n, up reg n a = Some l.

(** [m] is on the module list of the region [a]. *)
Definition on_list (reg : gmap loc region_entry) (mods : gmap loc mod_entry) (a m : loc) : Prop :=
  exists r ms, reg !! a = Some r /\ linked (mod_next mods) (r_mods_head r) ms /\ m ∈ ms.

End Defs.

Scheme preorder_mind := Induction for preorder Sort Prop
  with preorders_mind := Induction for preorders Sort Prop.
Combined Scheme preorder_mutind from preorder_mind, preorders_mind.

(** ** Reversal in place *)

Lemma insert_middle {A} (l1 l2 : list A) (x y : A) n :
  n = length l1 -> <[n := y]> (l1 ++ x :: l2) = l1 ++ y :: l2.
Proof. intros ->. rewrite insert_app_r_alt, Nat.sub_diag by lia. done. Qed.

(** One turn swaps the two ends of the part that is left. *)
Lemma swap_ends_step {A} (turns : nat) (pre mid post : list A) (x z : A) :
  swap_ends (S turns) (length pre) (S (length pre + length mid)) (pre ++ x :: mid ++ z :: post) =
  swap_ends turns (S (length pre)) (length pre + length mid) (pre ++ z :: mid ++ x :: post).
Proof.
  cbn [swap_ends]. rewrite decide_True by lia.
  rewrite (list_lookup_middle pre) by done.
  change (pre ++ x :: mid ++ z :: post) with (pre ++ (x :: mid) ++ z :: post).
  rewrite (app_assoc pre). rewrite (list_lookup_middle (pre ++ x :: mid))
    by (rewrite length_app; cbn; lia).
  rewrite <- (app_assoc pre). cbn [app]. rewrite (insert_middle pre) by done.
  change (pre ++ z :: mid ++ z :: post) with (pre ++ (z :: mid) ++ z :: post).
  rewrite (app_assoc pre), (insert_middle (pre ++ z :: mid)) by (rewrite length_app; cbn; lia).
  by rewrite <- (app_assoc pre).
Qed.

Lemma swap_ends_rev {A} (turns : nat) (pre mid post : list A) :
  (length mid <= 2 * turns)%nat ->
  swap_ends turns (length pre) (pred (length pre + length mid)) (pre ++ mid ++ post) =
  pre ++ rev mid ++ post.
Proof.
  revert pre mid post. induction turns as [|turns IH]; intros pre mid post Hl.
  { destruct mid; [done|cbn in Hl; lia]. }
  destruct mid as [|x mid]; [|destruct mid as [|z mid _] using rev_ind].
  1,2: cbn [swap_ends]; rewrite decide_False; [done|cbn; lia].
  cbn in Hl. rewrite length_app in Hl. cbn in Hl.
  replace (pred _) with (S (length pre + length mid))
    by (cbn; rewrite length_app; cbn; lia).
  cbn [app]. rewrite <- app_assoc. cbn [app]. rewrite swap_ends_step.
  specialize (IH (pre ++ [z]) mid (x :: post)).
  rewrite length_app, Nat.add_1_r, <- !app_assoc in IH. cbn in IH.
  rewrite IH by lia. cbn. rewrite rev_app_distr. cbn. by rewrite <- app_assoc.
Qed.

Lemma reverse_in_place_rev {A} (l : list A) : reverse_in_place l = rev l.
Proof.
  unfold reverse_in_place. pose proof (swap_ends_rev (length l) [] l []) as H.
  cbn in H. rewrite !app_nil_r in H. apply H. lia.
Qed.

(** ** Chains of ancestors *)

Section Ancestors.
Context {Q : QMapOps}.
Implicit Types (s : state) (l : loc) (r : region_entry) (reg : gmap loc region_entry).

(** Following parent pointers from a region reaches the root, in as many
    steps as the region is deep. *)
Lemma up_chain s l r :
  tree_ok s -> st_reg s !! l = Some r ->
  exists ls, linked (parent_of (st_reg s)) (Some l) ls /\
    length ls = S (Z.to_nat (r_depth r)) /\
    (exists top t, last ls = Some top /\ st_reg s !! top = Some t /\ r_parent t = None) /\
    forall a, a ∈ ls -> is_Some (st_reg s !! a).
Proof.
  intros Hok. remember (Z.to_nat (r_depth r)) as d eqn:Ed. revert l r Ed.
  induction d as [|d IH]; intros l r Ed Hl; destruct (to_region _ Hok _ _ Hl) as [? [? ?] ? ? Hpar ?].
  - destruct (r_parent r) as [p|] eqn:Ep.
    { destruct Hpar as (pr & Hp & Hd & ?). destruct (to_region _ Hok _ _ Hp) as [? [? ?] ? ? ? ?]. lia. }
    exists [l]. split; [|split; [done|split]].
    + econstructor; [unfold parent_of; by rewrite Hl; cbn; rewrite Ep|constructor].
    + eauto.
    + intros a ->%list_elem_of_singleton. eauto.
  - destruct (r_parent r) as [p|] eqn:Ep; [|lia].
    destruct Hpar as (pr & Hp & Hd & ?).
    destruct (IH p pr) as (ls & Hup & Hlen & (top & t & Htop & Ht) & Hlive); [lia|done|].
    exists (l :: ls). split; [|split; [cbn; lia|split]].
    + econstructor; [unfold parent_of; by rewrite Hl; cbn; rewrite Ep|done].
    + exists top, t. split; [|done]. rewrite last_cons. by rewrite Htop.
    + intros a [->|Ha]%elem_of_cons; eauto.
Qed.

Lemma chain_walk_spec s room e ls :
  linked (parent_of (st_reg s)) e ls -> (length ls <= room)%nat ->
  chain_walk room e s = Ok (ls, s).
Proof.
  intros H. revert room. induction H as [|l e ls Hn H IH]; intros room Hl.
  { by destruct room. }
  destruct room as [|room]; [cbn in Hl; lia|]. cbn [chain_walk].
  unfold parent_of in Hn. destruct (st_reg s !! l) as [r|] eqn:Hr; [|done]. cbn in Hn.
  apply wp_eq. do 2 wp_step. wp_step. rewrite wp_Ok. exists ls, s.
  split; [|done]. replace (r_parent r) with e by congruence. apply IH. cbn in Hl. lia.
Qed.

(** The chain of a region is complete and fits the 65 entries that
    [xy_call] has room for. *)
Lemma region_ancestor_chain_spec s l r :
  tree_ok s -> st_reg s !! l = Some r ->
  exists ls, linked (parent_of (st_reg s)) (Some l) ls /\
    region_ancestor_chain (Some l) 65 s = Ok (rev ls, s) /\
    length ls = S (Z.to_nat (r_depth r)) /\ (length ls <= 65)%nat.
Proof.
  intros Hok Hl. destruct (up_chain _ _ _ Hok Hl) as (ls & H1 & H2 & _ & _).
  destruct (to_region _ Hok _ _ Hl) as [_ [? ?] _ _ _ _].
  exists ls. split; [done|]. split; [|lia].
  unfold region_ancestor_chain. erewrite bind_Ok by (apply chain_walk_spec; [done|lia]).
  by rewrite reverse_in_place_rev.
Qed.

(** *** Loops towards the root *)

Lemma lookup_apply_on f ls reg a :
  apply_on f ls reg !! a = (fun r => if decide (a ∈ ls) then f r else r) <$> reg !! a.
Proof. unfold apply_on. rewrite map_lookup_imap. by destruct (reg !! a). Qed.

Lemma apply_on_cons f l ls reg r :
  l ∉ ls -> reg !! l = Some r ->
  apply_on f (l :: ls) reg = apply_on f ls (<[l := f r]> reg).
Proof.
  intros Hl Hr. apply map_eq. intros a. rewrite !lookup_apply_on.
  destruct (decide (a = l)) as [->|Hne].
  - rewrite lookup_insert_eq, Hr. cbn. rewrite decide_True by by left.
    by rewrite decide_False.
  - rewrite lookup_insert_ne by done. destruct (reg !! a); cbn; [|done].
    f_equal. destruct (decide (a ∈ ls)).
    + rewrite decide_True by by right. done.
    + rewrite decide_False; [done|]. by intros [?|?]%elem_of_cons.
Qed.

Lemma apply_on_nil f reg : apply_on f [] reg = reg.
Proof.
  apply map_eq. intros a. rewrite lookup_apply_on. destruct (reg !! a); [|done]. cbn.
  by rewrite decide_False by apply not_elem_of_nil.
Qed.

Lemma set_st_reg_id s : set_st_reg (st_reg s) s = s.
Proof. by destruct s. Qed.

Lemma parent_of_insert reg l r r' a :
  reg !! l = Some r -> r_parent r' = r_parent r ->
  parent_of (<[l := r']> reg) a = parent_of reg a.
Proof.
  intros Hr Hp. unfold parent_of. destruct (decide (a = l)) as [->|].
  - rewrite lookup_insert_eq, Hr. cbn. by rewrite Hp.
  - by rewrite lookup_insert_ne.
Qed.

Lemma ancestor_loop_spec f e ls fuel s :
  (forall r, r_parent (f r) = r_parent r) ->
  linked (parent_of (st_reg s)) e ls -> (length ls <= fuel)%nat ->
  ancestor_loop fuel f e s = Ok (tt, set_st_reg (apply_on f ls (st_reg s)) s).
Proof.
  intros Hf. revert e fuel s. induction ls as [|l ls IH]; intros e fuel s H Hl.
  { apply linked_nil_iff in H as ->. rewrite apply_on_nil, set_st_reg_id. by destruct fuel. }
  pose proof (linked_NoDup _ _ _ H) as [Hnl _]%NoDup_cons.
  apply linked_cons_iff in H as (-> & e' & Hn & H).
  destruct fuel as [|fuel]; [cbn in Hl; lia|]. cbn [ancestor_loop].
  unfold parent_of in Hn. destruct (st_reg s !! l) as [r|] eqn:Hr; [|done]. cbn in Hn.
  injection Hn as Hn.
  apply wp_eq. wp_step. eapply wp_upd_region; [done|]. wp_step.
  eapply wp_region_at; [cbn; apply lookup_insert_eq|]. apply wp_eq.
  rewrite Hf, Hn, IH; cbn.
  - by erewrite apply_on_cons.
  - eapply linked_mono; [|done]. intros a _. by eapply parent_of_insert.
  - cbn in Hl. lia.
Qed.

Lemma for_ancestors_spec f e ls s :
  (forall r, r_parent (f r) = r_parent r) -> linked (parent_of (st_reg s)) e ls ->
  for_ancestors f e s = Ok (tt, set_st_reg (apply_on f ls (st_reg s)) s).
Proof.
  intros Hf H. unfold for_ancestors. erewrite bind_Ok by done.
  apply ancestor_loop_spec; [done..|]. by eapply linked_length.
Qed.

End Ancestors.

(** ** The module vector of a subtree *)

Section Preorder.
Context {Q : QMapOps}.
Implicit Types (s : state) (l : loc) (r : region_entry) (reg : gmap loc region_entry).

#[export] Instance agree_equiv {T} (f : region_entry -> T) : Equivalence (agree f).
Proof.
  split.
  - by intros reg l.
  - intros reg reg' H l. by rewrite H.
  - intros r1 r2 r3 H1 H2 l. by rewrite H1.
Qed.

Lemma agree_lookup {T} (f : region_entry -> T) reg reg' l r :
  agree f reg reg' -> reg !! l = Some r -> exists r', reg' !! l = Some r' /\ f r' = f r.
Proof.
  intros H Hr. specialize (H l). rewrite Hr in H. cbn in H.
  destruct (reg' !! l) as [r'|]; [|done]. exists r'. split; [done|]. by inversion H.
Qed.

Lemma agree_insert {T} (f : region_entry -> T) reg l r r' :
  reg !! l = Some r -> f r' = f r -> agree f reg (<[l := r']> reg).
Proof.
  intros Hr Hl a. destruct (decide (a = l)) as [->|].
  - by rewrite lookup_insert_eq, Hr; cbn; rewrite Hl.
  - by rewrite lookup_insert_ne.
Qed.

Lemma agree_apply_on {T} (f : region_entry -> T) g ls reg :
  (forall r, f (g r) = f r) -> agree f reg (apply_on g ls reg).
Proof.
  intros Hf l. rewrite lookup_apply_on. destruct (reg !! l); [|done]. cbn. case_decide; [|done].
  by rewrite Hf.
Qed.

(** Agreement on [f] is agreement on what [f] determines. *)
Lemma agree_weaken {T U} (f : region_entry -> T) (g : region_entry -> U) reg reg' :
  (forall r r', f r = f r' -> g r = g r') -> agree f reg reg' -> agree g reg reg'.
Proof.
  intros Hfg H l. specialize (H l). destruct (reg !! l), (reg' !! l); cbn in *; try done.
  f_equal. apply Hfg. by inversion H.
Qed.

Lemma skel_links reg reg' : agree skel reg reg' -> agree links reg reg'.
Proof. apply agree_weaken. unfold skel, shape, links. intros r r'. congruence. Qed.

Lemma skel_shape reg reg' : agree skel reg reg' -> agree shape reg reg'.
Proof. apply agree_weaken. unfold skel. intros r r'. congruence. Qed.

#[export] Instance sibling_of_proper : Proper (agree links ==> eq ==> eq) sibling_of.
Proof.
  intros reg reg' H l ? <-. apply (agree_weaken links r_sibling_next); [|done].
  unfold links. congruence.
Qed.

#[export] Instance parent_of_proper : Proper (agree links ==> eq ==> eq) parent_of.
Proof.
  intros reg reg' H l ? <-. apply (agree_weaken links r_parent); [|done]. unfold links. congruence.
Qed.

Lemma shape_parent reg reg' l : agree shape reg reg' -> parent_of reg l = parent_of reg' l.
Proof. intros H. apply (agree_weaken shape r_parent); [|done]. unfold shape. congruence. Qed.

Lemma shape_sibling reg reg' l : agree shape reg reg' -> sibling_of reg l = sibling_of reg' l.
Proof. intros H. apply (agree_weaken shape r_sibling_next); [|done]. unfold shape. congruence. Qed.

(** A parent chain survives whatever keeps the shape of the tree. *)
Lemma shape_chain reg reg' e ls :
  agree shape reg reg' -> linked (parent_of reg) e ls -> linked (parent_of reg') e ls.
Proof. intros H. apply linked_mono. intros l _. by rewrite (shape_parent _ _ l H). Qed.

Lemma preorder_links reg reg' mods :
  agree links reg reg' ->
  (forall h l ms, preorder reg mods h l ms -> preorder reg' mods h l ms) /\
  (forall h ks ms, preorders reg mods h ks ms -> preorders reg' mods h ks ms).
Proof.
  intros H. apply (preorder_mutind _ reg mods
    (fun h l ms _ => preorder reg' mods h l ms) (fun h ks ms _ => preorders reg' mods h ks ms)).
  - intros h l r ms ks mss Hr Hms Hks _ IH.
    destruct (agree_lookup links _ _ _ _ H Hr) as (r' & Hr' & E).
    injection E as _ E1 _ E2. econstructor; [done|by rewrite E2| |done].
    rewrite E1. eapply linked_mono; [|done]. intros a _. by rewrite <- H.
  - constructor.
  - intros. by constructor.
Qed.

#[export] Instance preorder_proper : Proper (agree links ==> eq ==> eq ==> eq ==> eq ==> iff) preorder.
Proof.
  intros reg reg' H mods ? <- h ? <- l ? <- ms ? <-.
  split; apply preorder_links; [done|by symmetry].
Qed.

(** [s'] is [s] with [ms] added to the vector of [root]. *)
Definition pushed (root : loc) (ms : list loc) (s s' : state) : Prop :=
  exists r c, st_reg s !! root = Some r /\
    s' = set_st_reg (<[root := set_r_subtree_mods (r_subtree_mods r ++ ms)
                                 (set_r_subtree_mods_cap c r)]> (st_reg s)) s.

Lemma pushed_nil root s : is_Some (st_reg s !! root) -> pushed root [] s s.
Proof.
  intros [r Hr]. exists r, (r_subtree_mods_cap r). split; [done|].
  rewrite app_nil_r. assert (set_r_subtree_mods _ _ = r) as -> by by destruct r.
  by rewrite insert_id, set_st_reg_id.
Qed.

Lemma pushed_trans root ms ms' s s1 s2 :
  pushed root ms s s1 -> pushed root ms' s1 s2 -> pushed root (ms ++ ms') s s2.
Proof.
  intros (r & c & Hr & ->) (r' & c' & Hr' & ->). cbn in *.
  rewrite lookup_insert_eq in Hr'. injection Hr' as <-.
  exists r, c'. split; [done|]. rewrite insert_insert_eq. cbn. by rewrite app_assoc.
Qed.

Lemma pushed_links root ms s s' : pushed root ms s s' -> agree links (st_reg s) (st_reg s').
Proof. intros (r & c & Hr & ->). cbn. by apply (agree_insert links _ _ r). Qed.

Lemma pushed_frame root ms s s' :
  pushed root ms s s' -> st_mod s' = st_mod s /\ st_alloc s' = st_alloc s /\
  is_Some (st_reg s' !! root).
Proof. intros (r & c & Hr & ->). cbn. by rewrite lookup_insert_eq. Qed.

Lemma region_subtree_mods_push_spec root me s :
  is_Some (st_reg s !! root) -> st_alloc s = [] ->
  wp (region_subtree_mods_push root me) s (fun rc s' => rc = 0 /\ pushed root [me] s s').
Proof.
  intros [r Hr] Ha. unfold region_subtree_mods_push. do 2 wp_step.
  case_match.
  - do 2 wp_step. cbn. do 2 wp_step. wp_step. split; [done|]. by eexists _, _.
  - do 2 wp_step. wp_step. split; [done|]. exists r, (r_subtree_mods_cap r). split; [done|].
    by destruct r.
Qed.

Lemma push_mods_spec fuel root e ms s :
  linked (mod_next (st_mod s)) e ms -> (length ms <= fuel)%nat ->
  is_Some (st_reg s !! root) -> st_alloc s = [] ->
  wp (push_mods fuel root e) s (fun rc s' => rc = 0 /\ pushed root ms s s').
Proof.
  revert e fuel s. induction ms as [|m ms IH]; intros e fuel s H Hl Hroot Ha.
  { apply linked_nil_iff in H as ->. destruct fuel; (split; [done|by apply pushed_nil]). }
  apply linked_cons_iff in H as (-> & e' & Hn & H).
  destruct fuel as [|fuel]; [cbn in Hl; lia|]. cbn [push_mods]. wp_step.
  eapply wp_mono; [by apply region_subtree_mods_push_spec|].
  intros rc s1 [-> Hp]. cbn. destruct (pushed_frame _ _ _ _ Hp) as (Em & Ea & Hr).
  unfold mod_next in Hn. destruct (st_mod s !! m) as [me|] eqn:Hm; [|done].
  cbn in Hn. injection Hn as Hn.
  wp_step. eapply wp_module_at; [by rewrite Em|].
  eapply wp_mono; [apply IH|].
  - by rewrite Hn, Em.
  - cbn in Hl. lia.
  - done.
  - by rewrite Ea.
  - intros rc s2 [-> Hp2]. split; [done|]. by apply (pushed_trans _ [m] ms _ s1).
Qed.

(** What both the recursion and the loop over children establish. *)
Definition collects (root : loc) (reg : gmap loc region_entry) (mods : gmap loc mod_entry)
    (ms : list loc) (m : XM Z) : Prop :=
  forall s, agree links reg (st_reg s) -> st_mod s = mods -> is_Some (st_reg s !! root) ->
    st_alloc s = [] -> wp m s (fun rc s' => rc = 0 /\ pushed root ms s s').

Lemma collects_seq root reg mods ms ms' (m : XM Z) (k : XM Z) :
  collects root reg mods ms m -> collects root reg mods ms' k ->
  collects root reg mods (ms ++ ms') (rc ← m; if rc <? 0 then mret (-1) else k).
Proof.
  intros Hm Hk s Hl Em Hr Ha. wp_step. eapply wp_mono; [by apply Hm|].
  intros rc s1 [-> Hp]. cbn. destruct (pushed_frame _ _ _ _ Hp) as (Em1 & Ea1 & Hr1).
  eapply wp_mono; [apply Hk|].
  - etransitivity; [done|by eapply pushed_links].
  - by rewrite Em1.
  - done.
  - by rewrite Ea1.
  - intros rc s2 [-> Hp2]. split; [done|]. by eapply pushed_trans.
Qed.

Lemma region_collect_subtree_mods_spec root reg mods wm wr :
  (size mods <= wm)%nat -> (size reg <= wr)%nat ->
  (forall h l ms, preorder reg mods h l ms -> forall depth, (h <= depth)%nat ->
     collects root reg mods ms (region_collect_subtree_mods depth wm wr root l)) /\
  (forall h ks ms, preorders reg mods h ks ms -> forall depth fuel e, (h <= depth)%nat ->
     linked (sibling_of reg) e ks -> (length ks <= fuel)%nat ->
     collects root reg mods ms
       (sibling_loop fuel (region_collect_subtree_mods depth wm wr root) e)).
Proof.
  intros Hwm Hwr. apply (preorder_mutind _ reg mods
    (fun h l ms _ => forall depth, (h <= depth)%nat -> collects root reg mods ms _)
    (fun h ks ms _ => forall depth fuel e, (h <= depth)%nat -> linked (sibling_of reg) e ks ->
       (length ks <= fuel)%nat -> collects root reg mods ms _)).
  - intros h l r ms ks mss Hr Hms Hks _ IH [|depth] Hd; [lia|].
    intros s Hl Em Hroot Ha. cbn [region_collect_subtree_mods].
    destruct (agree_lookup links _ _ _ _ Hl Hr) as (r' & Hr' & E). injection E as _ E1 _ E2.
    do 2 wp_step. apply (collects_seq root reg mods ms mss); [| |done..].
    + intros s1 Hl1 Em1 Hroot1 Ha1. apply push_mods_spec; [by rewrite E2, Em1| |done..].
      etransitivity; [by eapply linked_length|]. done.
    + intros s1 Hl1 Em1 Hroot1 Ha1.
      destruct (agree_lookup links _ _ _ _ Hl1 Hr) as (r1 & Hr1 & E). injection E as _ E3 _ _.
      do 2 wp_step. rewrite E3. apply IH; [lia|done| |done..].
      etransitivity; [by eapply linked_length|]. done.
  - intros h depth fuel e _ H _ s Hl Em Hroot Ha. apply linked_nil_iff in H as ->.
    destruct fuel; (split; [done|by apply pushed_nil]).
  - intros h k ks ms mss _ IHk _ IHks depth fuel e Hd H Hf.
    apply linked_cons_iff in H as (-> & e' & Hn & H).
    destruct fuel as [|fuel]; [cbn in Hf; lia|]. cbn [sibling_loop].
    apply (collects_seq root reg mods ms mss); [by apply IHk|].
    intros s Hl Em Hroot Ha. unfold sibling_of in Hn.
    destruct (reg !! k) as [r|] eqn:Hk; [|done]. cbn in Hn. injection Hn as Hn.
    destruct (agree_lookup links _ _ _ _ Hl Hk) as (r' & Hr' & E). injection E as _ _ E _.
    do 2 wp_step. rewrite E, Hn. apply IHks; [done..| |done|done|done|done]. cbn in Hf. lia.
Qed.

(** The order in which the modules of a subtree are visited is determined. *)
Lemma preorder_det reg mods :
  (forall h l ms, preorder reg mods h l ms -> forall h' ms', preorder reg mods h' l ms' -> ms = ms') /\
  (forall h ks ms, preorders reg mods h ks ms ->
     forall h' ms', preorders reg mods h' ks ms' -> ms = ms').
Proof.
  apply (preorder_mutind _ reg mods
    (fun h l ms _ => forall h' ms', preorder reg mods h' l ms' -> ms = ms')
    (fun h ks ms _ => forall h' ms', preorders reg mods h' ks ms' -> ms = ms')).
  - intros h l r ms ks mss Hr Hms Hks _ IH h' ms' H. inversion H; simplify_eq.
    f_equal; [by eapply linked_det|].
    match goal with H1 : linked (sibling_of _) _ ?ks' |- _ =>
      assert (ks' = ks) as -> by by eapply linked_det end. by eapply IH.
  - intros h h' ms' H. by inversion H.
  - intros h k ks ms mss _ IHk _ IHks h' ms' H. inversion H; simplify_eq.
    f_equal; [by eapply IHk|by eapply IHks].
Qed.

(** Every region of a well-formed tree has such an order. *)
Lemma preorder_exists s l r :
  tree_ok s -> mods_ok s -> st_reg s !! l = Some r ->
  exists ms, preorder (st_reg s) (st_mod s) (65 - Z.to_nat (r_depth r)) l ms.
Proof.
  intros Hok Hmods. remember (64 - Z.to_nat (r_depth r))%nat as n eqn:En. revert l r En.
  induction n as [n IH] using lt_wf_ind. intros l r En Hl.
  destruct (to_region _ Hok _ _ Hl) as [? [[Hd0 Hd1] Hp] ? ? ? (ks & Hks & Hkids)].
  destruct (Hmods _ _ Hl) as (ms & [Hdll _] & _). apply dseg_linked in Hdll.
  assert (exists mss, preorders (st_reg s) (st_mod s) (64 - Z.to_nat (r_depth r)) ks mss)
    as [mss Hmss].
  { assert (forall k, k ∈ ks -> parent_of (st_reg s) k = Some (Some l)) as Hk by apply Hkids.
    clear Hks Hkids. induction ks as [|k ks IHks]; [exists []; constructor|].
    destruct IHks as [mss Hmss]; [intros; apply Hk; by right|].
    assert (parent_of (st_reg s) k = Some (Some l)) as Hkp by (apply Hk; left).
    unfold parent_of in Hkp. destruct (st_reg s !! k) as [kr|] eqn:Hkr; [|done].
    cbn in Hkp. injection Hkp as Hkp.
    destruct (to_region _ Hok _ _ Hkr) as [? [[? ?] ?] ? ? Hup ?]. rewrite Hkp in Hup.
    destruct Hup as (pr & Hpr & Hkd & Hkl & _). simplify_eq.
    destruct (IH (64 - Z.to_nat (r_depth kr))%nat) with (l := k) (r := kr) as [kms Hkms];
      [lia|done..|].
    exists (kms ++ mss). constructor; [|done].
    by replace (64 - Z.to_nat (r_depth r))%nat with (65 - Z.to_nat (r_depth kr))%nat by lia. }
  exists (ms ++ mss).
  replace (65 - Z.to_nat (r_depth r))%nat with (S (64 - Z.to_nat (r_depth r))) by lia.
  by econstructor.
Qed.

End Preorder.

(** ** Who is below whom *)

Section Descendants.
Context {Q : QMapOps}.
Implicit Types (s : state) (l a : loc) (r : region_entry) (reg : gmap loc region_entry).

Lemma up_add reg n m a b : up reg n a = Some b -> up reg (n + m) a = up reg m b.
Proof.
  revert a. induction n as [|n IH]; intros a H; cbn in *; [by injection H as ->|].
  destruct (parent_of reg a) as [[p|]|]; try done. by apply IH.
Qed.

Lemma parent_depth s a ra p :
  tree_ok s -> st_reg s !! a = Some ra -> parent_of (st_reg s) a = Some (Some p) ->
  exists rp, st_reg s !! p = Some rp /\ r_depth ra = r_depth rp + 1.
Proof.
  intros Hok Ha Hp. unfold parent_of in Hp. rewrite Ha in Hp. cbn in Hp. injection Hp as Hp.
  pose proof (ro_up _ _ _ (to_region _ Hok _ _ Ha)) as Hup. rewrite Hp in Hup. naive_solver.
Qed.

Lemma up_depth s n a ra l :
  tree_ok s -> st_reg s !! a = Some ra -> up (st_reg s) n a = Some l ->
  exists rl, st_reg s !! l = Some rl /\ r_depth ra = r_depth rl + Z.of_nat n.
Proof.
  intros Hok. revert a ra. induction n as [|n IH]; intros a ra Ha H; cbn in H.
  { injection H as ->. exists ra. split; [done|lia]. }
  destruct (parent_of (st_reg s) a) as [[p|]|] eqn:Hp; try done.
  destruct (parent_depth _ _ _ _ Hok Ha Hp) as (rp & Hrp & Hd).
  destruct (IH _ _ Hrp H) as (rl & Hl & Hd'). exists rl. split; [done|lia].
Qed.

(** Two regions on the same level with a common descendant are the same. *)
Lemma descendant_same_depth s a l1 l2 r1 r2 :
  tree_ok s -> is_Some (st_reg s !! a) ->
  descendant (st_reg s) a l1 -> descendant (st_reg s) a l2 ->
  st_reg s !! l1 = Some r1 -> st_reg s !! l2 = Some r2 -> r_depth r1 = r_depth r2 -> l1 = l2.
Proof.
  intros Hok [ra Ha] [n H1] [n' H2] Hr1 Hr2 Hd.
  destruct (up_depth _ _ _ _ _ Hok Ha H1) as (? & ? & ?).
  destruct (up_depth _ _ _ _ _ Hok Ha H2) as (? & ? & ?). simplify_eq.
  assert (n = n') as -> by lia. congruence.
Qed.

Lemma descendant_parent reg a k l :
  descendant reg a k -> parent_of reg k = Some (Some l) -> descendant reg a l.
Proof. intros [n H] Hp. exists (n + 1)%nat. rewrite (up_add _ _ _ _ _ H). cbn. by rewrite Hp. Qed.

Lemma descendant_case reg a l :
  descendant reg a l ->
  a = l \/ exists k, descendant reg a k /\ parent_of reg k = Some (Some l).
Proof.
  intros [n H]. destruct n as [|n]; [left; by injection H|]. right.
  revert a H. induction n as [|n IH]; intros a H.
  - cbn in H. destruct (parent_of reg a) as [[p|]|] eqn:Hp; try done. injection H as ->.
    exists a. split; [by exists 0%nat|done].
  - cbn [up] in H. destruct (parent_of reg a) as [[p|]|] eqn:Hp; try done.
    destruct (IH p H) as (k & [m Hk] & Hkl). exists k. split; [|done].
    exists (S m). cbn. by rewrite Hp.
Qed.

(** [m] is listed in [l] or below it. *)
Definition listed_below (s : state) (l m : loc) : Prop :=
  exists a, descendant (st_reg s) a l /\ on_list (st_reg s) (st_mod s) a m.

Lemma on_list_entry s a m :
  mods_ok s -> on_list (st_reg s) (st_mod s) a m -> m_region_entry <$> st_mod s !! m = Some (Some a).
Proof.
  intros Hmods (r & ms & Hr & Hms & Hm). destruct (Hmods _ _ Hr) as (ms' & [Hdll _] & Hall).
  apply dseg_linked in Hdll. rewrite (linked_det _ _ _ _ Hms Hdll) in Hm. by apply Hall.
Qed.

(** A module below a region is listed there, or below one of its children. *)
Lemma listed_below_case s l r (ms ks : list loc) m :
  st_reg s !! l = Some r -> linked (mod_next (st_mod s)) (r_mods_head r) ms ->
  (forall k, k ∈ ks <-> parent_of (st_reg s) k = Some (Some l)) ->
  listed_below s l m <-> m ∈ ms \/ exists k, k ∈ ks /\ listed_below s k m.
Proof.
  intros Hr Hms Hkids. split.
  - intros (a & Ha & Hma). apply descendant_case in Ha as [->|(k & Ha & Hk)].
    + left. destruct Hma as (r' & ms' & Hr' & Hms' & Hm). simplify_eq.
      by rewrite (linked_det _ _ _ _ Hms Hms').
    + right. exists k. split; [by apply Hkids|by exists a].
  - intros [Hm|(k & Hk & a & Ha & Hma)].
    + exists l. split; [by exists 0%nat|by exists r, ms].
    + exists a. split; [|done]. eapply descendant_parent; [done|by apply Hkids].
Qed.

(** No module of a region is listed below one of its children. *)
Lemma listed_child_disjoint s l r k m :
  tree_ok s -> mods_ok s -> st_reg s !! l = Some r -> parent_of (st_reg s) k = Some (Some l) ->
  on_list (st_reg s) (st_mod s) l m -> ~ listed_below s k m.
Proof.
  intros Hok Hmods Hr Hk Hm (a & [n Hn] & Hma).
  pose proof (on_list_entry _ _ _ Hmods Hm) as E. rewrite (on_list_entry _ _ _ Hmods Hma) in E.
  injection E as ->. destruct (up_depth _ _ _ _ _ Hok Hr Hn) as (rk & Hrk & Hd).
  destruct (parent_depth _ _ _ _ Hok Hrk Hk) as (? & ? & ?). simplify_eq. lia.
Qed.

(** Modules below two children of one region are different. *)
Lemma siblings_disjoint s l k k' m :
  tree_ok s -> mods_ok s -> parent_of (st_reg s) k = Some (Some l) ->
  parent_of (st_reg s) k' = Some (Some l) ->
  listed_below s k m -> listed_below s k' m -> k = k'.
Proof.
  intros Hok Hmods P1 P2 (a & Ha & Hma) (a' & Ha' & Hma').
  pose proof (on_list_entry _ _ _ Hmods Hma) as E. rewrite (on_list_entry _ _ _ Hmods Hma') in E.
  injection E as ->. destruct Hma as (ra & _ & Hra & _).
  destruct (st_reg s !! k) as [rk|] eqn:Hrk; [|by unfold parent_of in P1; rewrite Hrk in P1].
  destruct (st_reg s !! k') as [rk'|] eqn:Hrk'; [|by unfold parent_of in P2; rewrite Hrk' in P2].
  destruct (parent_depth _ _ _ _ Hok Hrk P1) as (? & ? & ?).
  destruct (parent_depth _ _ _ _ Hok Hrk' P2) as (? & ? & ?). simplify_eq.
  eapply (descendant_same_depth s a k k' rk rk'); eauto; congruence.
Qed.

(** The vector of a subtree holds exactly the modules that are listed in the
    region or below it, each once. *)
Lemma preorder_members s :
  tree_ok s -> mods_ok s ->
  (forall h l ms, preorder (st_reg s) (st_mod s) h l ms ->
     NoDup ms /\ forall m, m ∈ ms <-> listed_below s l m) /\
  (forall h ks ms, preorders (st_reg s) (st_mod s) h ks ms ->
     forall l, NoDup ks -> (forall k, k ∈ ks -> parent_of (st_reg s) k = Some (Some l)) ->
     NoDup ms /\ forall m, m ∈ ms <-> exists k, k ∈ ks /\ listed_below s k m).
Proof.
  intros Hok Hmods.
  apply (preorder_mutind _ (st_reg s) (st_mod s)
    (fun h l ms _ => NoDup ms /\ forall m, m ∈ ms <-> listed_below s l m)
    (fun h ks ms _ => forall l, NoDup ks ->
       (forall k, k ∈ ks -> parent_of (st_reg s) k = Some (Some l)) ->
     NoDup ms /\ forall m, m ∈ ms <-> exists k, k ∈ ks /\ listed_below s k m)).
  - intros h l r ms ks mss Hr Hms Hks _ IH.
    destruct (ro_down _ _ _ (to_region _ Hok _ _ Hr)) as (ks' & Hks' & Hkids).
    rewrite (linked_det _ _ _ _ Hks' Hks) in Hkids.
    destruct (IH l) as [Hnd Hin]; [by eapply linked_NoDup|by apply Hkids|]. split.
    + apply NoDup_app. split; [by eapply linked_NoDup|split; [|done]].
      intros m Hm (k & Hk & Hmk)%Hin.
      refine (listed_child_disjoint s l r k m Hok Hmods Hr _ _ Hmk); [by apply Hkids|by exists r, ms].
    + intros m. rewrite elem_of_app, Hin. by rewrite (listed_below_case s l r ms ks m Hr Hms Hkids).
  - intros h l _ _. split; [constructor|]. intros m. split; [by intros ?%not_elem_of_nil|].
    by intros (k & Hk%not_elem_of_nil & _).
  - intros h k ks ms mss _ [IHk1 IHk2] _ IHks l [Hk Hnd]%NoDup_cons Hp.
    destruct (IHks l Hnd) as [IH1 IH2]; [intros; apply Hp; by right|]. split.
    + apply NoDup_app. split; [done|split; [|done]].
      intros m Hm%IHk2 (k' & Hk' & Hm')%IH2. destruct Hk.
      by rewrite (siblings_disjoint s l k k' m Hok Hmods (Hp k ltac:(by left)) (Hp k' ltac:(by right)) Hm Hm').
    + intros m. rewrite elem_of_app, IHk2, IH2. setoid_rewrite elem_of_cons. naive_solver.
Qed.

End Descendants.

(** ** What the traversals do on a well-formed tree *)

Section Results.
Context {Q : QMapOps}.

(** The rebuilt vector is the preorder of the subtree. *)
Lemma rebuild_preorder_eq s h l r ms :
  preorder (st_reg s) (st_mod s) h l ms -> (h <= 65)%nat -> st_alloc s = [] ->
  st_reg s !! l = Some r ->
  exists c, region_rebuild_subtree_mods (Some l) s =
    Ok (0, set_st_reg (<[l := set_r_subtree_mods_dirty false
                                (set_r_subtree_mods ms (set_r_subtree_mods_cap c r))]>
                         (st_reg s)) s).
Proof.
  intros Hpre Hh Ha Hr.
  set (r0 := set_r_subtree_mods [] r). set (s0 := set_st_reg (<[l := r0]> (st_reg s)) s).
  assert (agree links (st_reg s) (st_reg s0)) as Hl by by apply (agree_insert links _ _ r).
  assert (collects l (st_reg s) (st_mod s) ms
            (region_collect_subtree_mods 65 (size (st_mod s)) (size (st_reg s)) l l)) as Hc.
  { eapply (proj1 (region_collect_subtree_mods_spec l (st_reg s) (st_mod s) _ _
      ltac:(reflexivity) ltac:(reflexivity))); [done|lia]. }
  assert (is_Some (st_reg s0 !! l)) as Hroot by (cbn; by rewrite lookup_insert_eq).
  specialize (Hc s0 Hl eq_refl Hroot Ha).
  apply wp_Ok in Hc as (rc & s1 & Hrun & -> & (r1 & c & Hr1 & ->)).
  cbn in Hr1. rewrite lookup_insert_eq in Hr1. injection Hr1 as <-.
  exists c. unfold region_rebuild_subtree_mods. apply wp_eq. wp_step. eapply wp_upd_region; [done|].
  fold r0 s0. do 4 wp_step. assert (size (st_reg s0) = size (st_reg s)) as ->.
  { cbn. apply map_size_insert_Some. by eexists. }
  wp_step. apply wp_Ok. do 2 eexists. split; [exact Hrun|]. cbn. wp_step.
  eapply wp_upd_region; [cbn; apply lookup_insert_eq|]. split; [done|]. cbn.
  by rewrite !insert_insert_eq.
Qed.

(** C22: on a well-formed tree and module lists, [region_rebuild_subtree_mods]
    finishes and leaves in the region's vector exactly the modules listed in
    the region or in a region below it, each once, the region's own first and
    in list order; it clears the dirty flag and changes nothing else. *)
Theorem region_rebuild_subtree_mods_correct (s : state) (l : loc) (r : region_entry) :
  tree_ok s -> mods_ok s -> st_alloc s = [] -> st_reg s !! l = Some r ->
  exists own below c,
    linked (mod_next (st_mod s)) (r_mods_head r) own /\
    NoDup (own ++ below) /\
    (forall m, m ∈ own ++ below <->
       exists a, descendant (st_reg s) a l /\ on_list (st_reg s) (st_mod s) a m) /\
    region_rebuild_subtree_mods (Some l) s =
      Ok (0, set_st_reg (<[l := set_r_subtree_mods_dirty false
                                  (set_r_subtree_mods (own ++ below)
                                     (set_r_subtree_mods_cap c r))]> (st_reg s)) s).
Proof.
  intros Hok Hmods Ha Hr. destruct (preorder_exists _ _ _ Hok Hmods Hr) as [ms Hpre].
  destruct (proj1 (preorder_members s Hok Hmods) _ _ _ Hpre) as [Hnd Hin].
  destruct (rebuild_preorder_eq _ _ _ _ _ Hpre ltac:(lia) Ha Hr) as [c Hrun].
  inversion Hpre as [h l' r' own ks below Hr' Hown Hks Hbelow]; simplify_eq.
  by exists own, below, c.
Qed.

End Results.

(** ** Updates that keep the invariants *)

Section Frame.
Context {Q : QMapOps}.
Implicit Types (s : state) (l a : loc) (r : region_entry) (reg : gmap loc region_entry).

Lemma tree_ok_gens s : tree_ok s -> gens_ok (st_reg s).
Proof. intros Hok l r Hr. apply (ro_gen _ _ _ (to_region _ Hok _ _ Hr)). Qed.

Lemma gens_ok_apply_on f ls reg :
  gens_ok reg -> (forall r, 1 <= r_dispatch_gen r < two64 -> 1 <= r_dispatch_gen (f r) < two64) ->
  gens_ok (apply_on f ls reg).
Proof.
  intros H Hf l r. rewrite lookup_apply_on. destruct (reg !! l) as [r0|] eqn:E; [|done].
  intros [= <-]. case_decide; [apply Hf|]; by eapply H.
Qed.

Lemma gens_ok_insert reg l r :
  gens_ok reg -> 1 <= r_dispatch_gen r < two64 -> gens_ok (<[l := r]> reg).
Proof. intros H Hr a ra [[-> <-]|[? ?]]%lookup_insert_Some; [done|by eapply H]. Qed.

Lemma tree_ok_frame s s' :
  tree_ok s -> agree shape (st_reg s) (st_reg s') -> gens_ok (st_reg s') ->
  rt_region_hd (st_rt s') = rt_region_hd (st_rt s) -> (st_next s <= st_next s')%positive ->
  tree_ok s'.
Proof.
  intros Hok Hsk Hg Hhd Hn.
  assert (agree shape (st_reg s') (st_reg s)) as Hsk' by by symmetry.
  split.
  - destruct (to_hd _ Hok) as (hd & H1 & H2). exists hd. rewrite Hhd. split; [done|].
    intros id l. rewrite H2. split; intros (r & Hr & <-).
    + destruct (agree_lookup shape _ _ _ _ Hsk Hr) as (r' & ? & E). injection E. eauto.
    + destruct (agree_lookup shape _ _ _ _ Hsk' Hr) as (r' & ? & E). injection E. eauto.
  - destruct (to_root _ Hok) as (l & r & Hr & H1 & H2).
    destruct (agree_lookup shape _ _ _ _ Hsk Hr) as (r' & ? & E). injection E as E1 _ _ E2 _ _.
    exists l, r'. split_and!; [done|congruence..].
  - intros l r' Hr'. destruct (agree_lookup shape _ _ _ _ Hsk' Hr') as (r & Hr & E).
    injection E as E1 E2 E3 E4 E5 _. destruct (to_region _ Hok _ _ Hr) as [H1 H2 _ H4 H5 H6].
    rewrite E1, E2, E3, E4, E5 in *. split; [done..|by eapply Hg|done| |].
    + destruct (r_parent r') as [p|]; [|done]. destruct H5 as (pr & Hp & ? & ? & ?).
      destruct (agree_lookup shape _ _ _ _ Hsk Hp) as (pr' & ? & E).
      injection E as F1 F2 F3 _ _ _. exists pr'. rewrite F1, F2, F3. done.
    + destruct H6 as (ks & Hks & Hin). exists ks. split.
      * eapply linked_mono; [|done]. intros k _. by apply shape_sibling.
      * intros k. rewrite Hin. by rewrite (shape_parent _ _ _ Hsk).
  - intros l [r' Hr']. destruct (agree_lookup shape _ _ _ _ Hsk' Hr') as (r & Hr & _).
    apply Pos.lt_le_trans with (st_next s); [|done]. eapply to_fresh; eauto.
Qed.

Lemma mods_ok_frame s s' :
  mods_ok s -> agree skel (st_reg s) (st_reg s') ->
  (forall x, mod_links <$> st_mod s' !! x = mod_links <$> st_mod s !! x) -> mods_ok s'.
Proof.
  intros Hm Hsk Em l r' Hr'. symmetry in Hsk.
  destruct (agree_lookup skel _ _ _ _ Hsk Hr') as (r & Hr & E).
  injection E as _ _ _ _ _ _ E1 E2. rewrite <- E1, <- E2.
  assert (forall T (f : mod_entry -> T), (forall m m', mod_links m = mod_links m' -> f m = f m') ->
            forall x, f <$> st_mod s' !! x = f <$> st_mod s !! x) as Hf.
  { intros T f Hf x. specialize (Em x). destruct (st_mod s' !! x), (st_mod s !! x); try done.
    cbn in *. f_equal. apply Hf. congruence. }
  destruct (Hm _ _ Hr) as (ms & Hd & Ho). exists ms. split.
  - eapply dll_mono; [..|exact Hd]; intros x _; apply Hf; unfold mod_links; congruence.
  - intros m Hin. rewrite Hf; [by apply Ho|]. unfold mod_links. congruence.
Qed.

Lemma next_gen_range g : 1 <= next_gen g < two64.
Proof.
  unfold next_gen. pose proof (wrap64_u64 (g + 1)) as H. unfold is_u64 in H.
  destruct (Z.eqb_spec (wrap64 (g + 1)) 0); [done|lia].
Qed.

(** A bumped generation differs from the one before it. *)
Lemma next_gen_ne g : 1 <= g < two64 -> next_gen g <> g.
Proof.
  intros Hg. unfold next_gen. destruct (decide (g = two64 - 1)) as [->|].
  - done.
  - rewrite wrap64_small by (unfold is_u64; lia). destruct (Z.eqb_spec (g + 1) 0); lia.
Qed.

End Frame.
