(* ===== verification/RegionSlots.v ===== *)
(** * Region slots: what [region_alloc_slot] allocates

    The theorems about slot allocation: which id it returns, where that id
    lies, and when there is none. *)

From S2P Require Import Prelude QMap Status State Machine Linked Region RegionTree.
From stdpp Require Import options.
Local Open Scope Z_scope.

(** ** Definitions *)

(** How many slot numbers the loop goes through: the counter is compared with
    0, which it reaches by wrapping, when the child is 64 bits deep. *)
Definition slot_count (num_slots : Z) : Z := if num_slots =? 0 then two64 else num_slots.

(** The outcome of a search from slot [s] over at most [turns] slots. *)
Definition slot_search (taken : Z -> bool) (id shift num turns s : Z) (out : Z + Z) : Prop :=
  (exists j, s <= j < slot_count num /\ j < s + turns /\
     taken (slot_candidate id shift j) = false /\
     (forall i, s <= i < j -> taken (slot_candidate id shift i) = true) /\
     out = inr (slot_candidate id shift j)) \/
  ((forall i, s <= i < slot_count num -> i < s + turns ->
      taken (slot_candidate id shift i) = true) /\
   ((slot_count num <= s + turns /\ out = inr XY_REGION_INVALID) \/
    (s + turns < slot_count num /\ out = inl (s + turns)))).

(** ** The loop *)

Lemma slot_turn_search taken id shift num s :
  0 <= num < two64 -> 0 <= s < slot_count num ->
  slot_search taken id shift num 1 s (slot_turn taken id shift num s).
Proof.
  intros Hnum Hs. unfold slot_search, slot_turn. destruct (taken _) eqn:Ht; cbn [negb].
  - right. split.
    + intros i Hi Hi'. by replace i with s by lia.
    + unfold slot_count in *. destruct (Z.eqb_spec num 0) as [->|Hn].
      * destruct (decide (s = two64 - 1)) as [->|Hne].
        { left. change (wrap64 (two64 - 1 + 1)) with 0. split; [lia|done]. }
        right. rewrite wrap64_small by (unfold is_u64; lia).
        destruct (Z.eqb_spec (s + 1) 0); [lia|]. split; [lia|done].
      * rewrite wrap64_small by (unfold is_u64; lia).
        destruct (Z.eqb_spec (s + 1) num) as [->|]; [left|right]; (split; [lia|done]).
  - left. exists s. split_and!; try done; lia.
Qed.

Lemma loop_pow_search taken id shift num k s :
  0 <= num < two64 -> 0 <= s < slot_count num ->
  slot_search taken id shift num (2 ^ Z.of_nat k) s
    (loop_pow k (slot_turn taken id shift num) s).
Proof.
  intros Hnum. revert s. induction k as [|k IH]; intros s Hs; [by apply slot_turn_search|].
  cbn [loop_pow]. rewrite Nat2Z.inj_succ, Z.pow_succ_r by lia.
  pose proof (Z.pow_pos_nonneg 2 (Z.of_nat k) ltac:(lia) ltac:(lia)) as Hpos.
  destruct (IH s Hs) as [(j & Hj & Hj' & Hf & Hall & ->)|[Hall [[Hle ->]|[Hlt ->]]]].
  - left. exists j. split_and!; try done; lia.
  - right. split; [intros; apply Hall; lia|]. left. split; [lia|done].
  - destruct (IH (s + 2 ^ Z.of_nat k)) as [(j & Hj & Hj' & Hf & Hall' & ->)|[Hall' Hend]]; [lia|..].
    + left. exists j. split_and!; try done; [lia..|]. intros i Hi.
      destruct (decide (i < s + 2 ^ Z.of_nat k)); [apply Hall|apply Hall']; lia.
    + right. split.
      * intros i Hi Hi'. destruct (decide (i < s + 2 ^ Z.of_nat k)); [apply Hall|apply Hall']; lia.
      * destruct Hend as [[? ->]|[? ->]]; [left|right]; (split; [lia|]); [done|f_equal; lia].
Qed.

(** ** Candidate ids *)

Lemma lor_low (a b k : Z) : 0 <= k -> a mod 2 ^ k = 0 -> 0 <= b < 2 ^ k -> Z.lor a b = a + b.
Proof.
  intros Hk Ha Hb. assert (Z.land a b = 0) as Hl.
  { apply Z.bits_inj'. intros n Hn. rewrite Z.land_spec, Z.bits_0.
    destruct (decide (n < k)).
    - rewrite <- (Z.mod_pow2_bits_low a k n) by lia. rewrite Ha, Z.bits_0. done.
    - rewrite <- (Z.mod_small b (2 ^ k)) by done.
      rewrite Z.mod_pow2_bits_high by lia. apply andb_false_r. }
  by rewrite <- Z.lxor_lor, <- Z.add_nocarry_lxor.
Qed.

Lemma mod_pow2_divide (a k : Z) : 0 <= k -> a mod 2 ^ k = 0 <-> (2 ^ k | a).
Proof. intros Hk. apply Z.mod_divide. apply Z.pow_nonzero; lia. Qed.

Section Candidate.
Context (id plen bits j : Z).
Context (Hid : is_u64 id) (Hplen : 0 <= plen) (Hbits : 1 <= bits) (Hlen : plen + bits <= 64).
Context (Hal : aligned plen id) (Hj : 0 <= j < 2 ^ bits).

Local Lemma pow_split : 2 ^ (64 - plen) = 2 ^ bits * 2 ^ (64 - (plen + bits)).
Proof using Hplen Hbits Hlen. rewrite <- Z.pow_add_r by lia. f_equal. lia. Qed.

Local Lemma offset_bound : 0 <= j * 2 ^ (64 - (plen + bits)) < 2 ^ (64 - plen).
Proof using Hplen Hbits Hlen Hj.
  rewrite pow_split.
  pose proof (Z.pow_pos_nonneg 2 (64 - (plen + bits)) ltac:(lia) ltac:(lia)). nia.
Qed.

Local Lemma id_room : id + 2 ^ (64 - plen) <= two64.
Proof using Hid Hplen Hal Hbits Hlen.
  unfold aligned, is_u64 in *. rewrite mod_pow2_divide in Hal by lia. destruct Hal as [q Hq].
  assert (two64 = 2 ^ plen * 2 ^ (64 - plen)) as E
    by (unfold two64; rewrite <- Z.pow_add_r by lia; f_equal; lia).
  pose proof (Z.pow_pos_nonneg 2 (64 - plen) ltac:(lia) ltac:(lia)) as Hx.
  rewrite Hq, E in *. set (X := 2 ^ (64 - plen)) in *.
  assert (q < 2 ^ plen) by (apply (Z.mul_lt_mono_pos_r X); lia). nia.
Qed.

Lemma slot_candidate_sum :
  slot_candidate id (64 - (plen + bits)) j = id + j * 2 ^ (64 - (plen + bits)).
Proof using Hid Hplen Hbits Hlen Hal Hj.
  pose proof offset_bound. pose proof id_room. unfold slot_candidate, is_u64 in *.
  rewrite Z.shiftl_mul_pow2 by lia. rewrite wrap64_small by (unfold is_u64; lia).
  apply (lor_low _ _ (64 - plen)); [lia|done|lia].
Qed.

Lemma slot_candidate_u64 : is_u64 (slot_candidate id (64 - (plen + bits)) j).
Proof using Hid Hplen Hbits Hlen Hal Hj.
  rewrite slot_candidate_sum. pose proof offset_bound. pose proof id_room.
  unfold is_u64 in *. lia.
Qed.

Lemma slot_candidate_under : under id plen (slot_candidate id (64 - (plen + bits)) j).
Proof using Hid Hplen Hbits Hlen Hal Hj.
  rewrite slot_candidate_sum. unfold under. rewrite !Z.shiftr_div_pow2 by lia.
  pose proof offset_bound as Ho. unfold aligned in Hal. rewrite mod_pow2_divide in Hal by lia.
  destruct Hal as [q Hq]. rewrite Hq, Z.add_comm, Z.div_add by lia.
  rewrite (Z.div_small _ _ Ho), Z.div_mul by lia. done.
Qed.

Lemma slot_candidate_aligned :
  aligned (plen + bits) (slot_candidate id (64 - (plen + bits)) j).
Proof using Hid Hplen Hbits Hlen Hal Hj.
  rewrite slot_candidate_sum. unfold aligned in *. rewrite mod_pow2_divide in * by lia.
  apply Z.divide_add_r; [|apply Z.divide_factor_r].
  etransitivity; [|done]. rewrite pow_split. apply Z.divide_factor_r.
Qed.

(** Below 64 bits a candidate is never mistaken for the failure value. *)
Lemma slot_candidate_valid :
  plen + bits < 64 -> slot_candidate id (64 - (plen + bits)) j <> XY_REGION_INVALID.
Proof using Hid Hplen Hbits Hlen Hal Hj.
  intros Hlt. pose proof slot_candidate_aligned as Ha. unfold aligned in Ha. intros E. rewrite E in Ha.
  apply mod_pow2_divide in Ha; [|lia]. destruct Ha as [q Hq].
  replace (64 - (plen + bits)) with (Z.succ (63 - (plen + bits))) in Hq by lia.
  rewrite Z.pow_succ_r in Hq by lia. unfold XY_REGION_INVALID, two64 in Hq.
  change (2 ^ 64) with (2 * 2 ^ 63) in Hq. lia.
Qed.

End Candidate.

Lemma slot_candidate_0 (id shift : Z) : slot_candidate id shift 0 = id.
Proof. unfold slot_candidate. by rewrite Z.shiftl_0_l, Z.lor_0_r. Qed.

(** At 64 bits the number of a slot is or-ed with the whole id. *)
Lemma slot_candidate_64 (id j : Z) : 0 <= j < two64 -> slot_candidate id 0 j = Z.lor id j.
Proof. intros Hj. unfold slot_candidate. by rewrite Z.shiftl_0_r, wrap64_small by (unfold is_u64; lia). Qed.

(** One that keeps the parent's prefix is that of a number within the granted bits. *)
Lemma lor_under (id plen j : Z) :
  0 <= plen <= 64 -> 0 <= id -> 0 <= j -> under id plen (Z.lor id j) ->
  Z.lor id j = Z.lor id (j mod 2 ^ (64 - plen)).
Proof.
  intros Hp Hid Hj Hu. apply Z.bits_inj'. intros n Hn. rewrite !Z.lor_spec.
  destruct (decide (n < 64 - plen)) as [Hlt|Hge].
  - by rewrite Z.mod_pow2_bits_low by lia.
  - rewrite Z.mod_pow2_bits_high by lia. rewrite orb_false_r, <- Z.lor_spec.
    unfold under in Hu. apply (f_equal (fun z => Z.testbit z (n - (64 - plen)))) in Hu.
    rewrite !Z.shiftr_spec in Hu by lia. by replace (n - (64 - plen) + (64 - plen)) with n in Hu by lia.
Qed.

(** ** [region_alloc_slot] *)

Section Alloc.
Context {Q : QMapOps}.

Definition registered (s : state) (id : Z) : Prop :=
  exists l r, st_reg s !! l = Some r /\ r_id r = id.

Definition slot_shift (cplen : Z) : Z := if cplen <? 64 then 64 - cplen else 0.
Definition slot_limit (cplen bits : Z) : Z := if cplen =? 64 then two64 else 2 ^ bits.

(** The loop always ends: with the first slot whose id is not registered, or
    with no slot when every id it goes through is registered. *)
Lemma region_alloc_slot_spec (s : state) (l : loc) (r : region_entry) (bits : Z) :
  tree_ok s -> st_reg s !! l = Some r -> 1 <= bits <= 64 ->
  exists c, region_alloc_slot l bits s = Ok (c, s) /\
    if decide (64 < r_plen r + bits) then c = XY_REGION_INVALID
    else
      let cand := slot_candidate (r_id r) (slot_shift (r_plen r + bits)) in
      let limit := slot_limit (r_plen r + bits) bits in
      (exists j, 0 <= j < limit /\ c = cand j /\ ~ registered s c /\
         forall i, 0 <= i < j -> registered s (cand i)) \/
      (c = XY_REGION_INVALID /\ forall j, 0 <= j < limit -> registered s (cand j)).
Proof.
  intros Hok Hl Hb. destruct (to_region _ Hok _ _ Hl) as [_ [[? ?] ?] _ _ _ _].
  destruct (to_hd _ Hok) as (hd & Hhd & Hmap).
  assert (forall id, bool_decide (is_Some (qget hd id)) = true <-> registered s id) as Hreg.
  { intros id. rewrite bool_decide_eq_true. unfold registered, is_Some. by setoid_rewrite Hmap. }
  assert (region_at l s = Ok (r, s)) as Hat by (apply wp_eq; by eapply wp_region_at).
  assert (handle rt_region_hd s = Ok (hd, s)) as Hh by (apply wp_eq; by eapply wp_handle).
  unfold region_alloc_slot. rewrite (bind_Ok _ _ _ _ _ Hat).
  rewrite (wrap8_small (r_plen r + bits)) by (unfold is_u8, two8; lia). cbv zeta.
  destruct (decide _) as [Hbig|Hsmall].
  { eexists. split; [|done]. by destruct (Z.ltb_spec 64 (r_plen r + bits)); [|lia]. }
  destruct (Z.ltb_spec 64 (r_plen r + bits)); [lia|]. rewrite (bind_Ok _ _ _ _ _ Hh).
  fold (slot_shift (r_plen r + bits)). set (sh := slot_shift _).
  set (num := if r_plen r + bits =? 64 then 0 else Z.shiftl 1 bits).
  assert (0 <= num < two64 /\ slot_count num = slot_limit (r_plen r + bits) bits) as [Hnum Hcount].
  { subst num. unfold slot_limit. destruct (Z.eqb_spec (r_plen r + bits) 64); [done|].
    rewrite Z.shiftl_1_l. unfold slot_count, two64.
    pose proof (Z.pow_pos_nonneg 2 bits ltac:(lia) ltac:(lia)).
    pose proof (Z.pow_lt_mono_r 2 bits 64 ltac:(lia) ltac:(lia) ltac:(lia)).
    destruct (Z.eqb_spec (2 ^ bits) 0); lia. }
  assert (0 < slot_count num <= two64) as Hpos.
  { unfold slot_count. destruct (Z.eqb_spec num 0); [done|lia]. }
  destruct (loop_pow_search (fun id => bool_decide (is_Some (qget hd id))) (r_id r) sh num 64 0
    Hnum ltac:(lia)) as [(j & Hj & _ & Hf & Hall & ->)|[Hall [[_ ->]|[Hlt _]]]].
  - eexists. split; [done|]. left. exists j. rewrite <- Hcount. split_and!; try done; [lia..| |].
    + intros Hc%Hreg. by rewrite Hf in Hc.
    + intros i Hi. by apply Hreg, Hall.
  - eexists. split; [done|]. right. split; [done|]. rewrite <- Hcount. intros j Hj.
    apply Hreg, Hall; [done|]. change (2 ^ Z.of_nat 64) with two64. lia.
  - change (2 ^ Z.of_nat 64) with two64 in Hlt. lia.
Qed.

Lemma lor_u64 (a b : Z) : is_u64 a -> is_u64 b -> is_u64 (Z.lor a b).
Proof.
  unfold is_u64, two64. intros Ha Hb.
  assert (0 <= Z.lor a b) by (apply Z.lor_nonneg; lia). split; [done|].
  destruct (decide (Z.lor a b = 0)) as [->|]; [done|]. apply Z.log2_lt_pow2; [lia|].
  rewrite Z.log2_lor by lia. apply Z.max_lub_lt.
  - destruct (decide (a = 0)) as [->|]; [done|]. apply Z.log2_lt_pow2; lia.
  - destruct (decide (b = 0)) as [->|]; [done|]. apply Z.log2_lt_pow2; lia.
Qed.

(** What every allocated id satisfies, the 64-bit ones included. *)
Lemma alloc_slot_id (s : state) (l : loc) (r : region_entry) (bits : Z) :
  tree_ok s -> st_reg s !! l = Some r -> 1 <= bits <= 64 ->
  exists c, region_alloc_slot l bits s = Ok (c, s) /\
    (c <> XY_REGION_INVALID ->
     is_u64 c /\ ~ registered s c /\ r_plen r + bits <= 64 /\
     (r_plen r + bits < 64 -> aligned (r_plen r + bits) c /\ under (r_id r) (r_plen r) c)).
Proof.
  intros Hok Hl Hb. destruct (to_region _ Hok _ _ Hl) as [Hid [[? ?] ?] _ Hal _ _].
  destruct (region_alloc_slot_spec s l r bits Hok Hl Hb) as (c & Hc & Hspec).
  exists c. split; [done|]. intros Hne. destruct (decide _) as [|Hlen]; [done|].
  destruct Hspec as [(j & Hj & -> & Hfree & _)|[? _]]; [|done].
  unfold slot_shift, slot_limit in *.
  destruct (Z.ltb_spec (r_plen r + bits) 64), (Z.eqb_spec (r_plen r + bits) 64); try lia.
  - specialize (Hal ltac:(lia)). split_and!; [|done|lia|intros _; split].
    + apply slot_candidate_u64; done || lia.
    + apply slot_candidate_aligned; done || lia.
    + apply slot_candidate_under; done || lia.
  - split_and!; [|done|lia|lia]. apply lor_u64; [done|apply wrap64_u64].
Qed.

(** The outcome with the candidates of a child of [bits] more bits. *)
Lemma alloc_slot_cases s l r bits :
  tree_ok s -> st_reg s !! l = Some r -> 1 <= bits <= 64 ->
  exists c, region_alloc_slot l bits s = Ok (c, s) /\
    let cplen := r_plen r + bits in
    let cand := slot_candidate (r_id r) (64 - cplen) in
    (64 < cplen /\ c = XY_REGION_INVALID) \/
    (cplen <= 64 /\ exists j, 0 <= j < slot_limit cplen bits /\ c = cand j /\ ~ registered s c /\
       forall i, 0 <= i < j -> registered s (cand i)) \/
    (cplen <= 64 /\ c = XY_REGION_INVALID /\
       forall j, 0 <= j < slot_limit cplen bits -> registered s (cand j)).
Proof.
  intros Hok Hl Hb. destruct (region_alloc_slot_spec s l r bits Hok Hl Hb) as (c & Hc & Hspec).
  exists c. split; [done|]. cbv zeta. destruct (decide _) as [Hbig|Hsmall]; [by left|right].
  replace (slot_shift (r_plen r + bits)) with (64 - (r_plen r + bits)) in Hspec.
  2: { unfold slot_shift. destruct (Z.ltb_spec (r_plen r + bits) 64); lia. }
  destruct Hspec as [H|H]; [left|right]; (split; [lia|exact H]).
Qed.

Lemma slot_limit_bits cplen bits : 1 <= bits <= 64 -> cplen <= 64 ->
  2 ^ bits <= slot_limit cplen bits /\ (cplen < 64 -> slot_limit cplen bits = 2 ^ bits).
Proof.
  intros Hb Hc. unfold slot_limit. pose proof (Z.pow_le_mono_r 2 bits 64 ltac:(lia) ltac:(lia)).
  unfold two64. destruct (Z.eqb_spec cplen 64); lia.
Qed.

(** C24: for 1 to 64 bits, the range that a claim handler can grant,
    [region_alloc_slot] returns.  What it returns, unless it is the failure value,
    is an id of at most 64 bits that is not registered, is not the parent's own id
    and has no bit beyond its own prefix.  It is that of the first free slot of the
    parent, and then within the parent's prefix; except that for a child of
    exactly 64 bits, once all slots of the parent are taken, the search goes on
    and the id lies outside the parent's prefix. *)
Theorem region_alloc_slot_fresh s l r bits :
  tree_ok s -> st_reg s !! l = Some r -> 1 <= bits <= 64 ->
  exists c, region_alloc_slot l bits s = Ok (c, s) /\
    (c <> XY_REGION_INVALID ->
     let slot j := r_id r + j * 2 ^ (64 - (r_plen r + bits)) in
     r_plen r + bits <= 64 /\ is_u64 c /\ ~ registered s c /\ c <> r_id r /\
     aligned (r_plen r + bits) c /\
     ((exists j, 1 <= j < 2 ^ bits /\ c = slot j /\ under (r_id r) (r_plen r) c /\
         forall i, 0 <= i < j -> registered s (slot i)) \/
      (r_plen r + bits = 64 /\ ~ under (r_id r) (r_plen r) c /\
         forall i, 0 <= i < 2 ^ bits -> registered s (slot i)))).
Proof.
  intros Hok Hl Hb. destruct (to_region _ Hok _ _ Hl) as [Hid [[? ?] ?] _ Hal _ _].
  destruct (alloc_slot_cases s l r bits Hok Hl Hb) as (c & Hc & Hcase). exists c. split; [done|]. intros Hne.
  cbv zeta in *. destruct Hcase as [[_ ?]|[(Hlen & j & Hj & Ej & Hfree & Hall)|(_ & ? & _)]]; [done| |done].
  specialize (Hal ltac:(lia)). destruct (slot_limit_bits (r_plen r + bits) bits) as [Hle Hlt]; [lia..|].
  assert (registered s (r_id r)) as Hself by by eexists _, _.
  assert (j <> 0) as Hj0. { intros ->. rewrite slot_candidate_0 in Ej. congruence. }
  destruct (decide (j < 2 ^ bits)) as [Hin|Hout].
  - subst c. split_and!; [lia|apply slot_candidate_u64; done || lia|done|intros E; by rewrite E in Hfree|
      apply slot_candidate_aligned; done || lia|].
    left. exists j. split_and!; [lia..|apply slot_candidate_sum; done || lia|apply slot_candidate_under; done || lia|].
    intros i Hi. rewrite <- slot_candidate_sum by (done || lia). by apply Hall.
  - assert (r_plen r + bits = 64) as E64 by lia. rewrite E64 in *. change (64 - 64) with 0 in *.
    change (slot_limit 64 bits) with two64 in Hj. rewrite slot_candidate_64 in Ej by lia.
    assert (forall i, 0 <= i < 2 ^ bits -> registered s (Z.lor (r_id r) i)) as Hreg.
    { intros i Hi. rewrite <- slot_candidate_64 by lia. apply Hall. lia. }
    assert (forall i, 0 <= i < 2 ^ bits -> Z.lor (r_id r) i = r_id r + i * 2 ^ 0) as Hsum.
    { intros i Hi. pose proof (slot_candidate_sum (r_id r) (r_plen r) bits i Hid ltac:(lia) ltac:(lia)
        ltac:(lia) Hal Hi) as E. rewrite E64 in E. by rewrite <- slot_candidate_64 by lia. }
    split_and!; [lia|subst c; apply lor_u64; [done|unfold is_u64; lia]|done|intros E; by rewrite E in Hfree|
      unfold aligned; apply Z.mod_1_r|].
    right. split_and!; [done| |intros i Hi; rewrite <- Hsum by done; by apply Hreg].
    intros Hu. subst c. apply Hfree. rewrite (lor_under _ (r_plen r) j) by (done || (unfold is_u64 in Hid; lia)).
    apply Hreg. replace (64 - r_plen r) with bits by lia. apply Z.mod_pos_bound. lia.
Qed.

(** C25: for 1 to 64 bits [region_alloc_slot] ends, and changes nothing.  It
    answers the failure value for a child of more than 64 bits.  Below 64 bits it
    answers it exactly when every slot of that width is taken.  For a child of
    exactly 64 bits the search goes through all 2^64 numbers, and it answers the
    failure value exactly when there is no free id before the one that is equal to
    the failure value. *)
Theorem region_alloc_slot_full s l r bits :
  tree_ok s -> st_reg s !! l = Some r -> 1 <= bits <= 64 ->
  exists c, region_alloc_slot l bits s = Ok (c, s) /\
    (64 < r_plen r + bits -> c = XY_REGION_INVALID) /\
    (r_plen r + bits < 64 ->
     c = XY_REGION_INVALID <->
     forall j, 0 <= j < 2 ^ bits -> registered s (r_id r + j * 2 ^ (64 - (r_plen r + bits)))) /\
    (r_plen r + bits = 64 ->
     c = XY_REGION_INVALID <->
     forall j, 0 <= j < two64 -> ~ registered s (Z.lor (r_id r) j) ->
       exists i, 0 <= i <= j /\ Z.lor (r_id r) i = XY_REGION_INVALID /\ ~ registered s XY_REGION_INVALID).
Proof.
  intros Hok Hl Hb. destruct (to_region _ Hok _ _ Hl) as [Hid [[? ?] ?] _ Hal _ _].
  destruct (alloc_slot_cases s l r bits Hok Hl Hb) as (c & Hc & Hcase). exists c. split; [done|].
  cbv zeta in Hcase. destruct Hcase as [[? ->]|Hcase].
  { split_and!; [done|lia..]. }
  assert (r_plen r + bits <= 64) as Hlen by (destruct Hcase as [[? _]|[? _]]; done).
  specialize (Hal ltac:(lia)). destruct (slot_limit_bits (r_plen r + bits) bits) as [_ Hlt]; [lia..|].
  split_and!; [lia| |].
  - intros Hsmall. rewrite (Hlt Hsmall) in Hcase. destruct Hcase as [(_ & j & Hj & -> & Hfree & _)|(_ & -> & Hall)].
    + split; [intros E; by destruct (slot_candidate_valid (r_id r) (r_plen r) bits j Hid ltac:(lia) ltac:(lia) Hlen Hal Hj)|].
      intros Hreg. destruct Hfree. rewrite slot_candidate_sum by (done || lia). by apply Hreg.
    + split; [|done]. intros _ j Hj. rewrite <- slot_candidate_sum by (done || lia). by apply Hall.
  - intros E64. rewrite E64 in Hcase. change (64 - 64) with 0 in Hcase.
    change (slot_limit 64 bits) with two64 in Hcase.
    destruct Hcase as [(_ & j & Hj & -> & Hfree & Hall)|(_ & -> & Hall)].
    + rewrite slot_candidate_64 in * by lia.
      assert (forall i, 0 <= i < j -> registered s (Z.lor (r_id r) i)) as Hall'.
      { intros i Hi. rewrite <- slot_candidate_64 by lia. by apply Hall. }
      split.
      * intros E i Hi Hfi. exists j. rewrite <- E. split_and!; [lia| |done..].
        destruct (decide (i < j)); [|lia]. destruct Hfi. apply Hall'. lia.
      * intros Hx. destruct (Hx j Hj Hfree) as (i & Hi & E & Hn). destruct (decide (i = j)) as [->|Hne]; [done|].
        destruct Hn. rewrite <- E. apply Hall'. lia.
    + split; [|done]. intros _ j Hj Hfj. destruct Hfj. rewrite <- slot_candidate_64 by lia. by apply Hall.
Qed.

End Alloc.
