(* ===== verification/Runtime.v ===== *)
(** * Runtime start-up

    [xy_runtime_bootstrap] and [xy_runtime_ensure] of src/libxylem-runtime.c,
    the initial state of a process, and the state a started runtime is in. *)

From S2P Require Import Prelude QMap Status State Machine Linked Region RegionTree.
From stdpp Require Import options.
Local Open Scope Z_scope.

Section Runtime.
Context {Q : QMapOps}.

Definition open_once {A} (fresh : A) (hd : option A) : option A :=
  match hd with None => Some fresh | Some _ => hd end.

(** The maps that outlive a shutdown are opened once, the others every time. *)
Definition open_maps (rt : runtime) : runtime :=
  let rt := set_rt_sica_hd (open_once qopen (rt_sica_hd rt)) rt in
  let rt := set_rt_hook_id_hd (open_once qopen (rt_hook_id_hd rt)) rt in
  let rt := set_rt_path_intern_hd (open_once qopen (rt_path_intern_hd rt)) rt in
  let rt := set_rt_mod_hd (Some qopen) rt in
  let rt := set_rt_mod_by_region_hd (Some qmopen) rt in
  set_rt_region_hd (Some qopen) rt.

(** The function table of the host's own [xy]. *)
Definition fill_host_table (x : xy_t) : xy_t :=
  let x := set_x_areg (Some Api_areg) x in
  let x := set_x_call (Some Api_call) x in
  let x := set_x_load (Some Api_load) x in
  let x := set_x_err (Some Api_errno) x in
  let x := set_x_strerror (Some Api_strerror) x in
  let x := set_x_deny (Some Api_deny) x in
  let x := set_x_require_claim (Some Api_require_claim) x in
  let x := set_x_region_each (Some Api_region_each) x in
  let x := set_x_with_region (Some Api_with_region) x in
  let x := set_x_current_region (Some Api_current_region) x in
  let x := set_x_unload (Some Api_unload) x in
  set_x_reload (Some Api_reload) x.

Definition xy_runtime_bootstrap : XM Z :=
  upd_rt open_maps;;
  upd_xy fill_host_table;;
  region_ensure_root;;
  upd_rt (set_rt_inited true);;
  mret XY_OK.

Definition xy_runtime_ensure : XM Z :=
  inited ← gets (fun s => rt_inited (st_rt s));
  if inited : bool then mret XY_OK else xy_runtime_bootstrap.

(** [int enter_ret = xy_runtime_ensure(); if (enter_ret != XY_OK) ...; body] *)
Definition with_runtime (body : XM Z) : XM Z :=
  enter_ret ← xy_runtime_ensure;
  if decide (enter_ret = XY_OK) then body else return_err enter_ret.

Definition xy_init : XM unit :=
  ret ← xy_runtime_ensure; XY_SET_ERR ret.

(** *** The state of a process before any call *)

Definition xy_t_zero : xy_t :=
  XyT None None None None None None None None None 0 None None None None None None None None.

Definition tls_zero : tls := Tls 0 None XY_REGION_ROOT None None None.

Definition runtime_zero : runtime := Runtime None None None None None None 0 [] false 0.

(** The adapters and the buffers are static data of the program; [first] is
    above all their addresses. *)
Definition process_start (adps : gmap loc adapter) (mem : gmap loc (list Z)) (first : loc)
    (al : list bool) : state :=
  State runtime_zero xy_t_zero tls_zero 0 false ∅ ∅ ∅ adps ∅ ∅ mem first al [].

(** The runtime has not been started, or has been torn down. *)
Definition cold (s : state) : Prop :=
  rt_inited (st_rt s) = false /\ st_reg s = ∅ /\ st_mod s = ∅ /\
  t_region_id (st_tls s) = XY_REGION_ROOT.

(** The thread's region id and region pointer name the same live region. *)
Definition region_synced (s : state) : Prop :=
  exists l r, t_region_entry (st_tls s) = Some l /\ st_reg s !! l = Some r /\
    r_id r = t_region_id (st_tls s).

(** A runtime that is up and consistent. *)
Record running (s : state) : Prop := {
  run_inited : rt_inited (st_rt s) = true;
  run_tree : tree_ok s;
  run_mods : mods_ok s
}.

End Runtime.

(** ** Theorems *)

Section RuntimeFacts.
Context {Q : QMapOps} {QL : QMapLaws Q}.

Lemma region_zero_root_ok l :
  region_ok {[ l := set_r_dispatch_gen 1 region_zero ]} l (set_r_dispatch_gen 1 region_zero).
Proof.
  split; cbn; try done.
  - exists []. split; [constructor|]. intros k. split; [by intros ?%not_elem_of_nil|].
    unfold parent_of. intros H. destruct (decide (k = l)) as [->|].
    + by rewrite lookup_singleton_eq in H.
    + by rewrite lookup_singleton_ne in H.
Qed.

(** A tree that consists of the root alone. *)
Lemma tree_ok_root s l :
  st_reg s = {[ l := set_r_dispatch_gen 1 region_zero ]} ->
  (exists hd, rt_region_hd (st_rt s) = Some hd /\
     forall id l', qget hd id = Some l' <-> id = XY_REGION_ROOT /\ l' = l) ->
  (l < st_next s)%positive -> tree_ok s.
Proof.
  intros Hreg (hd & Hhd & Hget) Hfresh.
  assert (forall l' r, st_reg s !! l' = Some r ->
            l' = l /\ r = set_r_dispatch_gen 1 region_zero) as Hone.
  { intros l' r. rewrite Hreg. by intros [-> ->]%lookup_singleton_Some. }
  split.
  - exists hd. split; [done|]. intros id l'. rewrite Hget. split.
    + intros [-> ->]. eexists. by rewrite Hreg, lookup_singleton_eq.
    + by intros (r & [-> ->]%Hone & <-).
  - eexists l, _. by rewrite Hreg, lookup_singleton_eq.
  - intros l' r [-> ->]%Hone. rewrite Hreg. apply region_zero_root_ok.
  - intros l' [r [-> _]%Hone]. done.
Qed.

Lemma mods_ok_no_heads s :
  (forall l r, st_reg s !! l = Some r -> r_mods_head r = None /\ r_mods_tail r = None) -> mods_ok s.
Proof.
  intros H l r Hr. destruct (H _ _ Hr) as [-> ->]. exists [].
  split; [split; constructor|]. by intros m ?%not_elem_of_nil.
Qed.

(** What [region_ensure_root] does when the root is not registered yet. *)
Definition root_made (hd : qmap Z loc) (s : state) : state :=
  let l := st_next s in
  let t := st_tls s in
  set_st_tls (if decide (t_region_entry t = None \/ t_region_id t = XY_REGION_ROOT)
              then set_t_region_entry (Some l) t else t)
    (set_st_rt (set_rt_region_hd (Some (qput hd XY_REGION_ROOT l)) (st_rt s))
      (set_st_reg (<[l := set_r_dispatch_gen 1 region_zero]> (st_reg s))
        (set_st_next (Pos.succ l) s))).

Lemma region_ensure_root_new s hd :
  rt_region_hd (st_rt s) = Some hd -> qget hd XY_REGION_ROOT = None ->
  region_ensure_root s = Ok (tt, root_made hd s).
Proof.
  intros Hhd Hget. apply wp_eq. unfold region_ensure_root, region_lookup. repeat wp_step.
  rewrite Hget. by repeat wp_step.
Qed.

(** The state [xy_runtime_bootstrap] leaves when the region map is reopened. *)
Definition opened (s : state) : state :=
  let s1 := set_st_rt (open_maps (st_rt s)) s in
  set_st_xy (fill_host_table (st_xy s1)) s1.
Definition started (s : state) : state :=
  let s2 := root_made qopen (opened s) in
  set_st_rt (set_rt_inited true (st_rt s2)) s2.

Lemma xy_runtime_bootstrap_eq s : xy_runtime_bootstrap s = Ok (XY_OK, started s).
Proof using QL.
  assert (region_ensure_root (opened s) = Ok (tt, root_made qopen (opened s))) as H.
  { apply region_ensure_root_new; [done|apply qget_open]. }
  unfold xy_runtime_bootstrap.
  rewrite (bind_Ok (upd_rt open_maps) _ _ (set_st_rt (open_maps (st_rt s)) s) tt eq_refl).
  rewrite (bind_Ok (upd_xy fill_host_table) _ _ (opened s) tt eq_refl).
  by rewrite (bind_Ok _ _ _ _ _ H).
Qed.

Lemma started_reg s :
  st_reg s = ∅ -> st_reg (started s) = {[ st_next s := set_r_dispatch_gen 1 region_zero ]}.
Proof.
  intros H. change (st_reg (started s)) with
    (<[st_next s := set_r_dispatch_gen 1 region_zero]> (st_reg s)). by rewrite H.
Qed.

Lemma started_tree s : st_reg s = ∅ -> tree_ok (started s).
Proof using QL.
  intros H. apply (tree_ok_root _ _ (started_reg _ H)).
  - exists (qput qopen XY_REGION_ROOT (st_next s)). split; [done|].
    intros id l'. rewrite qget_put, qget_open. case_decide; naive_solver.
  - change (st_next (started s)) with (Pos.succ (st_next s)). lia.
Qed.

Lemma started_mods s : st_reg s = ∅ -> mods_ok (started s).
Proof.
  intros H. apply mods_ok_no_heads. intros l r. rewrite (started_reg _ H).
  by intros [_ <-]%lookup_singleton_Some.
Qed.

Lemma started_tls s :
  t_region_id (st_tls s) = XY_REGION_ROOT ->
  st_tls (started s) = set_t_region_entry (Some (st_next s)) (st_tls s).
Proof.
  intros H. change (st_tls (started s)) with
    (if decide (t_region_entry (st_tls s) = None \/ t_region_id (st_tls s) = XY_REGION_ROOT)
     then set_t_region_entry (Some (st_next s)) (st_tls s) else st_tls s).
  by rewrite decide_True by by right.
Qed.

(** C29: starting the runtime from a cold state (process start, or after a
    shutdown) succeeds, and leaves a consistent runtime whose only region is
    the root, with no module, and whose calling thread is in the root. *)
Theorem xy_runtime_ensure_starts (s : state) :
  cold s ->
  exists s', xy_runtime_ensure s = Ok (XY_OK, s') /\ running s' /\
    st_reg s' = {[ st_next s := set_r_dispatch_gen 1 region_zero ]} /\ st_mod s' = ∅ /\
    t_region_id (st_tls s') = XY_REGION_ROOT /\ region_synced s' /\
    exists hd, rt_mod_hd (st_rt s') = Some hd /\ forall k, qget hd k = None.
Proof using QL.
  intros (Hi & Hreg & Hmod & Htls). exists (started s).
  split; [|split; [split|]].
  - unfold xy_runtime_ensure. erewrite bind_Ok by done. rewrite Hi.
    apply xy_runtime_bootstrap_eq.
  - done.
  - by apply started_tree.
  - by apply started_mods.
  - rewrite (started_reg _ Hreg). unfold region_synced.
    rewrite (started_tls _ Htls), (started_reg _ Hreg). split_and!; [done..| |].
    + exists (st_next s), (set_r_dispatch_gen 1 region_zero). by rewrite lookup_singleton_eq.
    + exists qopen. split; [done|]. intros. apply qget_open.
Qed.

(** A second start changes nothing. *)
Lemma xy_runtime_ensure_inited s :
  rt_inited (st_rt s) = true -> xy_runtime_ensure s = Ok (XY_OK, s).
Proof. intros H. unfold xy_runtime_ensure. erewrite bind_Ok by done. by rewrite H. Qed.

Lemma with_runtime_inited body s :
  rt_inited (st_rt s) = true -> with_runtime body s = body s.
Proof.
  intros H. unfold with_runtime. erewrite bind_Ok by by apply xy_runtime_ensure_inited.
  done.
Qed.

Lemma running_frame s s' :
  running s -> agree skel (st_reg s) (st_reg s') -> gens_ok (st_reg s') ->
  rt_region_hd (st_rt s') = rt_region_hd (st_rt s) ->
  rt_inited (st_rt s') = rt_inited (st_rt s) ->
  (st_next s <= st_next s')%positive ->
  (forall x, mod_links <$> st_mod s' !! x = mod_links <$> st_mod s !! x) -> running s'.
Proof.
  intros [Hi Ht Hm] Hsk Hg Hhd Hi' Hn Em. split.
  - by rewrite Hi'.
  - eapply tree_ok_frame; [done|by apply skel_shape|done..].
  - by eapply mods_ok_frame.
Qed.

Lemma running_same s s' :
  running s -> st_reg s' = st_reg s -> st_mod s' = st_mod s -> st_rt s' = st_rt s ->
  st_next s' = st_next s -> running s'.
Proof.
  intros Hrun Er Em Et En. eapply running_frame; [exact Hrun|by rewrite Er| | | | |].
  - rewrite Er. apply tree_ok_gens, Hrun.
  - by rewrite Et.
  - by rewrite Et.
  - by rewrite En.
  - by rewrite Em.
Qed.

Lemma running_err s e : running s -> running (set_st_err e s).
Proof.
  intros Hrun. eapply running_frame; [exact Hrun|done| |done..].
  change (gens_ok (st_reg s)). apply tree_ok_gens, Hrun.
Qed.

End RuntimeFacts.
