(* ===== verification/Decide.v ===== *)
(** * Checking the invariants of a concrete state

    A decision procedure for [running], for states whose maps are the finite
    maps of QMap.v, with its soundness.  It evaluates, so a state that a run
    of the model ends in can be checked. *)

From S2P Require Import Prelude QMap Status State Machine Linked Region RegionTree Runtime.
From stdpp Require Import options.
Local Open Scope Z_scope.

(** ** Lists *)

Fixpoint walk (next : loc -> option (option loc)) (fuel : nat) (e : option loc)
    : option (list loc) :=
  match e with
  | None => Some []
  | Some l =>
      match fuel, next l with
      | S fuel', Some e' => cons l <$> walk next fuel' e'
      | _, _ => None
      end
  end.

Fixpoint prevs (prev : loc -> option (option loc)) (pp : option loc) (ls : list loc) : bool :=
  match ls with
  | [] => true
  | l :: ls' => bool_decide (prev l = Some pp) && prevs prev (Some l) ls'
  end.

Lemma walk_linked next fuel e ls : walk next fuel e = Some ls -> linked next e ls.
Proof.
  revert e ls. induction fuel as [|fuel IH]; intros [l|] ls; cbn; try done;
    try (intros [= <-]; constructor).
  destruct (next l) as [e'|] eqn:Hn; [|done]. intros (ls' & Hw & ->)%fmap_Some.
  econstructor; [done|by apply IH].
Qed.

Lemma prevs_dseg next prev pp e ls :
  linked next e ls -> prevs prev pp ls = true -> dseg next prev pp e (final ls pp) None ls.
Proof.
  intros H. revert pp. induction H as [|l e ls Hn H IH]; intros pp; cbn [prevs].
  - intros _. constructor.
  - intros [Hp%bool_decide_eq_true Hr]%andb_true_iff. econstructor; [done..|].
    replace (final (l :: ls) pp) with (final ls (Some l)); [by apply IH|].
    unfold final. rewrite last_cons. by destruct (last ls).
Qed.

Section Decide.
Local Existing Instance gmap_ops.
Implicit Types (reg : gmap loc region_entry) (mods : gmap loc mod_entry) (r : region_entry).

(** ** Regions *)

Definition up_ok reg r : bool :=
  match r_parent r with
  | None => bool_decide (r_id r = 0 /\ r_plen r = 0 /\ r_depth r = 0)
  | Some p =>
      match reg !! p with
      | Some pr => bool_decide (r_depth r = r_depth pr + 1 /\ r_plen pr < r_plen r /\
          (r_plen r < 64 -> under (r_id pr) (r_plen pr) (r_id r)))
      | None => false
      end
  end.

Definition down_ok reg l r : bool :=
  match walk (sibling_of reg) (size reg) (r_children_head r) with
  | Some ks =>
      bool_decide (Forall (fun k => parent_of reg k = Some (Some l)) ks) &&
      bool_decide (map_Forall (fun k rk => r_parent rk = Some l -> k ∈ ks) reg)
  | None => false
  end.

Definition region_okb reg l r : bool :=
  bool_decide ((0 <= r_id r /\ r_id r < two64) /\
    ((0 <= r_depth r /\ r_depth r <= r_plen r) /\ r_plen r <= 64) /\
    (1 <= r_dispatch_gen r /\ r_dispatch_gen r < two64) /\
    (r_plen r < 64 -> aligned (r_plen r) (r_id r))) &&
  up_ok reg r && down_ok reg l r.

Lemma region_okb_sound reg l r : region_okb reg l r = true -> region_ok reg l r.
Proof.
  unfold region_okb. rewrite !andb_true_iff.
  intros [[(H1 & H2 & H3 & H4)%bool_decide_eq_true Hup] Hdown].
  split; try done.
  - unfold up_ok in Hup. destruct (r_parent r) as [p|]; [|by apply bool_decide_eq_true in Hup].
    destruct (reg !! p) as [pr|] eqn:Hp; [|done]. apply bool_decide_eq_true in Hup. by exists pr.
  - unfold down_ok in Hdown. destruct (walk _ _ _) as [ks|] eqn:Hw; [|done].
    apply andb_true_iff in Hdown as [Hf%bool_decide_eq_true Hb%bool_decide_eq_true].
    exists ks. split; [by eapply walk_linked|]. intros k. rewrite Forall_forall in Hf.
    split; [apply Hf|]. unfold parent_of. destruct (reg !! k) as [rk|] eqn:Hk; [|done].
    cbn. intros [= E]. by eapply Hb.
Qed.

(** ** Modules *)

Definition mods_okb mods l r : bool :=
  match walk (mod_next mods) (size mods) (r_mods_head r) with
  | Some ms =>
      prevs (mod_prev mods) None ms && bool_decide (r_mods_tail r = last ms) &&
      bool_decide (Forall (fun m => m_region_entry <$> mods !! m = Some (Some l)) ms)
  | None => false
  end.

Lemma mods_okb_sound mods l r :
  mods_okb mods l r = true -> exists ms,
    dll (mod_next mods) (mod_prev mods) (r_mods_head r) (r_mods_tail r) ms /\
    forall m, m ∈ ms -> m_region_entry <$> mods !! m = Some (Some l).
Proof.
  unfold mods_okb. destruct (walk _ _ _) as [ms|] eqn:Hw; [|done]. rewrite !andb_true_iff.
  intros [[Hp Ht%bool_decide_eq_true] Hf%bool_decide_eq_true]. exists ms.
  apply walk_linked in Hw. rewrite Ht. split; [split|by rewrite <- Forall_forall].
  - pose proof (prevs_dseg _ _ _ _ _ Hw Hp) as H. unfold final in H. by destruct (last ms).
  - by eapply linked_NoDup.
Qed.

(** ** The whole state *)

Definition hd_okb (hd : gmap Z loc) reg : bool :=
  bool_decide (map_Forall (fun l r => hd !! r_id r = Some l) reg) &&
  bool_decide (map_Forall (fun id l => r_id <$> reg !! l = Some id) hd).

Definition root_okb (hd : gmap Z loc) reg : bool :=
  match hd !! XY_REGION_ROOT with
  | Some l => bool_decide (r_parent <$> reg !! l = Some None)
  | None => false
  end.

Definition runningb (s : state) : bool :=
  rt_inited (st_rt s) &&
  match rt_region_hd (st_rt s) with
  | None => false
  | Some hd => hd_okb hd (st_reg s) && root_okb hd (st_reg s)
  end &&
  bool_decide (map_Forall (fun l r => region_okb (st_reg s) l r = true) (st_reg s)) &&
  bool_decide (map_Forall (fun l r => mods_okb (st_mod s) l r = true) (st_reg s)) &&
  bool_decide (map_Forall (fun l _ => (l < st_next s)%positive) (st_reg s)).

Lemma runningb_sound s : runningb s = true -> running s.
Proof.
  unfold runningb. rewrite !andb_true_iff.
  intros [[[[Hi Hhd] Hr%bool_decide_eq_true] Hm%bool_decide_eq_true] Hf%bool_decide_eq_true].
  destruct (rt_region_hd (st_rt s)) as [hd|] eqn:Ehd; [|done].
  change (gmap Z loc) in hd.
  apply andb_true_iff in Hhd as [Hhd Hroot].
  apply andb_true_iff in Hhd as [H1%bool_decide_eq_true H2%bool_decide_eq_true].
  assert (forall id l, hd !! id = Some l <-> exists r, st_reg s !! l = Some r /\ r_id r = id) as Hget.
  { intros id l. split.
    - intros H. specialize (H2 _ _ H). cbn in H2. apply fmap_Some in H2 as (r & ? & ->). eauto.
    - intros (r & Hl & <-). by apply H1. }
  split; [done|split|].
  - by exists hd.
  - unfold root_okb in Hroot. destruct (hd !! XY_REGION_ROOT) as [l|] eqn:El; [|done].
    apply bool_decide_eq_true in Hroot. apply Hget in El as (r & Hl & E). exists l, r.
    rewrite Hl in Hroot. cbn in Hroot. split_and!; [done..|congruence].
  - intros l r Hl. apply region_okb_sound. by apply Hr.
  - intros l [r Hl]. apply (Hf _ _ Hl).
  - intros l r Hl. apply mods_okb_sound. by apply (Hm _ _ Hl).
Qed.

End Decide.
