(* ===== verification/ModList.v ===== *)
(** * Module lists

    The doubly-linked list of the modules of a region: [module_region_detach],
    [module_region_insert_after], [module_region_append] of src/libxylem.c,
    and their refinement to operations on sequences. *)

From S2P Require Import Prelude QMap Status State Machine Linked Region RegionTree Runtime.
From stdpp Require Import options.
Local Open Scope Z_scope.

Section ModList.
Context {Q : QMapOps}.

(** [if (p) p->region_next = v; else re->mods_head = v;] *)
Definition set_next_or_head (re : loc) (p v : option loc) : XM unit :=
  match p with
  | Some p => upd_module p (set_m_region_next v)
  | None => upd_region re (set_r_mods_head v)
  end.

(** [if (n) n->region_prev = v; else re->mods_tail = v;] *)
Definition set_prev_or_tail (re : loc) (n v : option loc) : XM unit :=
  match n with
  | Some n => upd_module n (set_m_region_prev v)
  | None => upd_region re (set_r_mods_tail v)
  end.

Definition module_region_detach (entry : loc) : XM unit :=
  m ← module_at entry;
  match m_region_entry m with
  | None => mret tt
  | Some re =>
      set_next_or_head re (m_region_prev m) (m_region_next m);;
      m ← module_at entry;
      set_prev_or_tail re (m_region_next m) (m_region_prev m);;
      upd_module entry (set_m_region_prev None);;
      upd_module entry (set_m_region_next None);;
      region_mark_subtree_dirty (Some re)
  end.

Definition module_region_insert_after (re : option loc) (entry : loc) (after : option loc)
    : XM unit :=
  match re with
  | None => mret tt
  | Some re =>
      upd_module entry (set_m_region_entry (Some re));;
      (match after with
       | None =>
           r ← region_at re;
           upd_module entry (set_m_region_prev None);;
           upd_module entry (set_m_region_next (r_mods_head r));;
           set_prev_or_tail re (r_mods_head r) (Some entry);;
           upd_region re (set_r_mods_head (Some entry))
       | Some after =>
           a ← module_at after;
           upd_module entry (set_m_region_prev (Some after));;
           upd_module entry (set_m_region_next (m_region_next a));;
           set_prev_or_tail re (m_region_next a) (Some entry);;
           upd_module after (set_m_region_next (Some entry))
       end);;
      region_mark_subtree_dirty (Some re)
  end.

Definition module_region_append (re : option loc) (entry : loc) : XM unit :=
  tail ← (match re with
          | Some l => r ← region_at l; mret (r_mods_tail r)
          | None => mret None
          end);
  module_region_insert_after re entry tail.

(** *** Specification *)

(** The modules of the region [a], in order. *)
Definition mod_list (s : state) (a : loc) (ms : list loc) : Prop :=
  exists r, st_reg s !! a = Some r /\
    dll (mod_next (st_mod s)) (mod_prev (st_mod s)) (r_mods_head r) (r_mods_tail r) ms.

Definition owner_of (s : state) (m : loc) : option (option loc) :=
  m_region_entry <$> st_mod s !! m.

Definition on_no_list (s : state) (m : loc) : Prop := forall a ms, mod_list s a ms -> m ∉ ms.

(** What the list operations leave alone in a module and in a region. *)
Definition mod_core (m : mod_entry) : mod_entry :=
  set_m_region_entry None (set_m_region_prev None (set_m_region_next None m)).
Definition reg_core (r : region_entry) : region_entry :=
  set_r_mods_head None (set_r_mods_tail None
    (set_r_dispatch_gen 0 (set_r_subtree_mods_dirty false r))).

(** The region heap after [region_mark_subtree_dirty] along the chain [ls]. *)
Definition dirtied (ls : list loc) (reg : gmap loc region_entry) : gmap loc region_entry :=
  apply_on (set_r_subtree_mods_dirty true) ls (apply_on bump_gen ls reg).

(** [s'] differs from [s] in the two heaps, and there in nothing but the links
    and the caches' validity; the regions of the chain [ls] are dirty and have
    a new dispatch generation. *)
Record list_step (ls : list loc) (s s' : state) : Prop := {
  lst_state : s' = set_st_reg (st_reg s') (set_st_mod (st_mod s') s);
  lst_core : forall x, mod_core <$> st_mod s' !! x = mod_core <$> st_mod s !! x;
  lst_reg : agree reg_core (st_reg s) (st_reg s');
  lst_dirty : forall a r', a ∈ ls -> st_reg s' !! a = Some r' ->
    r_subtree_mods_dirty r' = true /\
    exists r, st_reg s !! a = Some r /\ r_dispatch_gen r' = next_gen (r_dispatch_gen r);
  lst_clean : forall a r', st_reg s' !! a = Some r' -> r_subtree_mods_dirty r' = false ->
    r_subtree_mods_dirty <$> st_reg s !! a = Some false
}.

(** The region [l] has a new dispatch generation. *)
Definition renewed (l : loc) (reg reg' : gmap loc region_entry) : Prop :=
  forall r r', reg !! l = Some r -> reg' !! l = Some r' ->
    r_dispatch_gen r' = next_gen (r_dispatch_gen r).

(** The other modules differ in their links at most. *)
Definition others_kept (e : loc) (mods mods' : gmap loc mod_entry) : Prop :=
  forall x, x <> e -> mod_core <$> mods' !! x = mod_core <$> mods !! x.

End ModList.

(** ** The effect on the heaps *)

Section Heaps.
Context {Q : QMapOps}.
Implicit Types (s : state) (mods : gmap loc mod_entry) (reg : gmap loc region_entry).

Lemma list_step_renewed ls s s' l : list_step ls s s' -> l ∈ ls -> renewed l (st_reg s) (st_reg s').
Proof.
  intros Hs Hl r r' Hr Hr'. destruct (lst_dirty _ _ _ Hs _ _ Hl Hr') as (_ & r0 & Hr0 & E).
  by rewrite Hr in Hr0; injection Hr0 as <-.
Qed.

(** [module_region_detach] and [module_region_insert_after], as functions of
    the heaps. *)
Definition link_next (p v : option loc) mods : gmap loc mod_entry :=
  match p with Some p => alter (set_m_region_next v) p mods | None => mods end.
Definition link_prev (n v : option loc) mods : gmap loc mod_entry :=
  match n with Some n => alter (set_m_region_prev v) n mods | None => mods end.
Definition link_head (re : loc) (p v : option loc) reg : gmap loc region_entry :=
  match p with Some _ => reg | None => alter (set_r_mods_head v) re reg end.
Definition link_tail (re : loc) (n v : option loc) reg : gmap loc region_entry :=
  match n with Some _ => reg | None => alter (set_r_mods_tail v) re reg end.

Definition live {A} (h : gmap loc A) (p : option loc) : Prop :=
  forall l, p = Some l -> is_Some (h !! l).

Lemma insert_alter {A} (f : A -> A) (l : loc) (x : A) (h : gmap loc A) :
  h !! l = Some x -> <[l := f x]> h = alter f l h.
Proof.
  intros H. apply map_eq. intros i. rewrite lookup_insert, lookup_alter.
  case_decide; [|done]. subst. by rewrite H.
Qed.

Lemma upd_module_eq l f s :
  is_Some (st_mod s !! l) -> upd_module l f s = Ok (tt, set_st_mod (alter f l (st_mod s)) s).
Proof.
  intros [m Hm]. rewrite <- (insert_alter f l m) by done. apply wp_eq. by eapply wp_upd_module.
Qed.

Lemma upd_region_eq l f s :
  is_Some (st_reg s !! l) -> upd_region l f s = Ok (tt, set_st_reg (alter f l (st_reg s)) s).
Proof.
  intros [m Hm]. rewrite <- (insert_alter f l m) by done. apply wp_eq. by eapply wp_upd_region.
Qed.

Lemma set_st_mod_id s : set_st_mod (st_mod s) s = s.
Proof. by destruct s. Qed.

Lemma set_next_or_head_eq re p v s :
  live (st_mod s) p -> is_Some (st_reg s !! re) ->
  set_next_or_head re p v s =
    Ok (tt, set_st_reg (link_head re p v (st_reg s)) (set_st_mod (link_next p v (st_mod s)) s)).
Proof.
  intros Hp Hr. destruct p as [p|]; cbn.
  - rewrite upd_module_eq by by apply Hp. by destruct s.
  - rewrite upd_region_eq by done. by destruct s.
Qed.

Lemma set_prev_or_tail_eq re n v s :
  live (st_mod s) n -> is_Some (st_reg s !! re) ->
  set_prev_or_tail re n v s =
    Ok (tt, set_st_reg (link_tail re n v (st_reg s)) (set_st_mod (link_prev n v (st_mod s)) s)).
Proof.
  intros Hp Hr. destruct n as [n|]; cbn.
  - rewrite upd_module_eq by by apply Hp. by destruct s.
  - rewrite upd_region_eq by done. by destruct s.
Qed.

Lemma mark_subtree_dirty_eq l ls s :
  linked (parent_of (st_reg s)) (Some l) ls ->
  region_mark_subtree_dirty (Some l) s = Ok (tt, set_st_reg (dirtied ls (st_reg s)) s).
Proof.
  intros Hls. unfold region_mark_subtree_dirty, region_dispatch_gen_bump.
  rewrite (bind_Ok _ _ _ _ _ (for_ancestors_spec bump_gen _ ls s (fun _ => eq_refl) Hls)).
  rewrite (for_ancestors_spec (set_r_subtree_mods_dirty true) _ ls _ (fun _ => eq_refl)); [done|].
  eapply shape_chain; [|exact Hls]. cbn. by apply agree_apply_on.
Qed.

(** *** Reading the new heaps *)

Lemma lookup_alter_fmap {A B} (g : A -> B) f (l x : loc) (h : gmap loc A) :
  g <$> alter f l h !! x = if decide (l = x) then (g ∘ f) <$> h !! x else g <$> h !! x.
Proof.
  rewrite lookup_alter. case_decide; [|done]. subst. by destruct (h !! x).
Qed.

Lemma is_Some_alter {A} f (l x : loc) (h : gmap loc A) :
  is_Some (alter f l h !! x) <-> is_Some (h !! x).
Proof. rewrite lookup_alter. case_decide; [|done]. subst. apply fmap_is_Some. Qed.

Lemma is_Some_link_next p v mods x :
  is_Some (link_next p v mods !! x) <-> is_Some (mods !! x).
Proof. destruct p; [apply is_Some_alter|done]. Qed.

Lemma is_Some_link_prev n v mods x :
  is_Some (link_prev n v mods !! x) <-> is_Some (mods !! x).
Proof. destruct n; [apply is_Some_alter|done]. Qed.

Lemma is_Some_link_head re p v reg x :
  is_Some (link_head re p v reg !! x) <-> is_Some (reg !! x).
Proof. destruct p; [done|apply is_Some_alter]. Qed.

Lemma is_Some_link_tail re n v reg x :
  is_Some (link_tail re n v reg !! x) <-> is_Some (reg !! x).
Proof. destruct n; [done|apply is_Some_alter]. Qed.

Lemma alter_alter {A} (f g : A -> A) (l : loc) (h : gmap loc A) :
  alter f l (alter g l h) = alter (f ∘ g) l h.
Proof.
  apply map_eq. intros i. destruct (decide (l = i)) as [->|].
  - rewrite !lookup_alter_eq. by destruct (h !! i).
  - by rewrite !lookup_alter_ne.
Qed.

(** A function of a module that the update does not touch. *)
Lemma alter_fmap_same {A B} (g : A -> B) f (l x : loc) (h : gmap loc A) :
  (forall a, g (f a) = g a) -> g <$> alter f l h !! x = g <$> h !! x.
Proof.
  intros Hg. rewrite lookup_alter_fmap. case_decide; [|done]. destruct (h !! x); [|done].
  cbn. by rewrite Hg.
Qed.

Lemma link_next_same {B} (g : mod_entry -> B) p v mods x :
  (forall a w, g (set_m_region_next w a) = g a) ->
  g <$> link_next p v mods !! x = g <$> mods !! x.
Proof. intros H. destruct p; [|done]. by apply alter_fmap_same. Qed.

Lemma link_prev_same {B} (g : mod_entry -> B) n v mods x :
  (forall a w, g (set_m_region_prev w a) = g a) ->
  g <$> link_prev n v mods !! x = g <$> mods !! x.
Proof. intros H. destruct n; [|done]. by apply alter_fmap_same. Qed.

Lemma mod_next_link_next p v mods x :
  is_Some (mods !! x) ->
  mod_next (link_next p v mods) x = if decide (p = Some x) then Some v else mod_next mods x.
Proof.
  intros [m Hm]. unfold mod_next, link_next. destruct p as [p|]; [|done].
  rewrite lookup_alter_fmap, Hm. repeat case_decide; naive_solver.
Qed.

Lemma mod_prev_link_prev n v mods x :
  is_Some (mods !! x) ->
  mod_prev (link_prev n v mods) x = if decide (n = Some x) then Some v else mod_prev mods x.
Proof.
  intros [m Hm]. unfold mod_prev, link_prev. destruct n as [n|]; [|done].
  rewrite lookup_alter_fmap, Hm. repeat case_decide; naive_solver.
Qed.

Lemma agree_alter {T} (f : region_entry -> T) g l reg :
  (forall r, f (g r) = f r) -> agree f reg (alter g l reg).
Proof. intros H x. symmetry. by apply alter_fmap_same. Qed.

Lemma agree_link_head {T} (f : region_entry -> T) re p v reg :
  (forall r w, f (set_r_mods_head w r) = f r) -> agree f reg (link_head re p v reg).
Proof. intros H. destruct p; [done|]. by apply agree_alter. Qed.

Lemma agree_link_tail {T} (f : region_entry -> T) re n v reg :
  (forall r w, f (set_r_mods_tail w r) = f r) -> agree f reg (link_tail re n v reg).
Proof. intros H. destruct n; [done|]. by apply agree_alter. Qed.

Lemma agree_dirtied {T} (f : region_entry -> T) ls reg :
  (forall r, f (set_r_subtree_mods_dirty true r) = f r) -> (forall r, f (bump_gen r) = f r) ->
  agree f reg (dirtied ls reg).
Proof. intros H1 H2. unfold dirtied. etransitivity; by apply agree_apply_on. Qed.

Lemma dirtied_lookup ls reg a r' :
  a ∈ ls -> dirtied ls reg !! a = Some r' ->
  exists r, reg !! a = Some r /\ r' = set_r_subtree_mods_dirty true (bump_gen r).
Proof.
  intros Ha. unfold dirtied. rewrite !lookup_apply_on. destruct (reg !! a); [|done]. cbn.
  rewrite !decide_True by done. intros [= <-]. eauto.
Qed.

Lemma dirtied_gens ls reg : gens_ok reg -> gens_ok (dirtied ls reg).
Proof.
  intros H. apply gens_ok_apply_on; [|done]. apply gens_ok_apply_on; [done|].
  intros r _. apply next_gen_range.
Qed.

End Heaps.

(** ** Refinement to sequences *)

Section Refinement.
Context {Q : QMapOps}.
Implicit Types (s : state) (mods : gmap loc mod_entry) (reg : gmap loc region_entry).

Lemma mod_list_det s a ms ms' : mod_list s a ms -> mod_list s a ms' -> ms = ms'.
Proof. intros (r & Hr & H) (r' & Hr' & H'). simplify_eq. by eapply dll_det. Qed.

Lemma mod_list_live s a ms m : mod_list s a ms -> m ∈ ms -> is_Some (st_mod s !! m).
Proof.
  intros (r & Hr & [H _]) Hm. destruct (dseg_live _ _ _ _ _ _ _ _ H Hm) as [[x Hx] _].
  unfold mod_next in Hx. by destruct (st_mod s !! m).
Qed.

Lemma mods_ok_list s a r :
  mods_ok s -> st_reg s !! a = Some r ->
  exists ms, mod_list s a ms /\ forall m, m ∈ ms -> owner_of s m = Some (Some a).
Proof. intros Hm Hr. destruct (Hm _ _ Hr) as (ms & H & Ho). exists ms. split; [by exists r|done]. Qed.

Lemma mod_list_owner s a ms m :
  mods_ok s -> mod_list s a ms -> m ∈ ms -> owner_of s m = Some (Some a).
Proof.
  intros Hm Hl. pose proof Hl as (r & Hr & _). destruct (mods_ok_list _ _ _ Hm Hr) as (ms' & H & Ho).
  rewrite (mod_list_det _ _ _ _ Hl H). apply Ho.
Qed.

(** The lists of two regions have no module in common. *)
Lemma mod_list_disjoint s a b ms ms' m :
  mods_ok s -> mod_list s a ms -> mod_list s b ms' -> m ∈ ms -> m ∈ ms' -> a = b.
Proof.
  intros Hm Ha Hb Hi Hi'. pose proof (mod_list_owner _ _ _ _ Hm Ha Hi).
  pose proof (mod_list_owner _ _ _ _ Hm Hb Hi'). congruence.
Qed.

Lemma agree_core {T} (f : region_entry -> T) reg reg' :
  (forall r, f (reg_core r) = f r) -> agree reg_core reg reg' -> agree f reg reg'.
Proof.
  intros H. apply agree_weaken. intros r r' E. by rewrite <- (H r), <- (H r'), E.
Qed.

(** The invariants after a list step that gives the region [l] the list [ms']
    and leaves the other lists alone. *)
Lemma running_list_step s s' ls l ms' :
  running s -> list_step ls s s' -> gens_ok (st_reg s') ->
  mod_list s' l ms' -> (forall m, m ∈ ms' -> owner_of s' m = Some (Some l)) ->
  (forall a ms, a <> l -> mod_list s a ms ->
     mod_list s' a ms /\ forall m, m ∈ ms -> owner_of s' m = owner_of s m) ->
  running s'.
Proof.
  intros Hrun [Hst _ Hreg _] Hg Hl Ho Hother.
  split; [rewrite Hst; apply Hrun|eapply tree_ok_frame; [apply Hrun| |done|..]|].
  - by apply (agree_core shape).
  - by rewrite Hst.
  - by rewrite Hst.
  - intros a r' Hr'. destruct (decide (a = l)) as [->|Hne].
    { destruct Hl as (r & Hr & Hd). simplify_eq. eauto. }
    symmetry in Hreg. destruct (agree_lookup _ _ _ _ _ Hreg Hr') as (r & Hr & _).
    destruct (mods_ok_list _ _ _ (run_mods _ Hrun) Hr) as (ms & Hms & Hown).
    destruct (Hother _ _ Hne Hms) as [(r1 & Hr1 & Hd) Hsame]. simplify_eq.
    exists ms. split; [done|]. intros m Hm.
    change (owner_of s' m = Some (Some a)). rewrite Hsame by done. by apply Hown.
Qed.

(** *** Detaching *)

Definition detached (e l : loc) (p n : option loc) (ls : list loc) s : state :=
  set_st_reg (dirtied ls (link_tail l n p (link_head l p n (st_reg s))))
    (set_st_mod (alter (set_m_region_next None) e (alter (set_m_region_prev None) e
       (link_prev n p (link_next p n (st_mod s))))) s).

(** The heaps once the neighbours of [e] are linked to each other. *)
Definition unlinked (l : loc) (p n : option loc) s : state :=
  set_st_reg (link_tail l n p (link_head l p n (st_reg s)))
    (set_st_mod (link_prev n p (link_next p n (st_mod s))) s).

(** The common part of [module_region_detach] and the abort of a load. *)
Lemma unlink_eq {A} s e l m (k : XM A) :
  st_mod s !! e = Some m -> is_Some (st_reg s !! l) ->
  live (st_mod s) (m_region_prev m) -> live (st_mod s) (m_region_next m) ->
  m_region_prev m <> Some e ->
  (set_next_or_head l (m_region_prev m) (m_region_next m);;
   m ← module_at e;
   set_prev_or_tail l (m_region_next m) (m_region_prev m);; k) s =
  k (unlinked l (m_region_prev m) (m_region_next m) s).
Proof.
  intros Hm Hl Hp Hn Hpe. set (p := m_region_prev m) in *. set (n := m_region_next m) in *.
  rewrite (bind_Ok _ _ _ _ _ (set_next_or_head_eq l p n s Hp Hl)).
  set (s1 := set_st_reg _ _).
  assert (st_mod s1 !! e = Some m) as Hm1.
  { cbn. unfold link_next. destruct p; [|done]. rewrite lookup_alter_ne; [done|congruence]. }
  rewrite (bind_Ok (module_at e) _ s1 s1 m) by (apply wp_eq; by eapply wp_module_at).
  fold p n.
  assert (is_Some (st_reg s1 !! l)) as Hl1 by by apply is_Some_link_head.
  assert (live (st_mod s1) n) as Hn1 by (intros x Hx; apply is_Some_link_next; by apply Hn).
  by rewrite (bind_Ok _ _ _ _ _ (set_prev_or_tail_eq l n p s1 Hn1 Hl1)).
Qed.

Lemma is_Some_unlinked l p n s e : is_Some (st_mod s !! e) -> is_Some (st_mod (unlinked l p n s) !! e).
Proof. intros H. by apply is_Some_link_prev, is_Some_link_next. Qed.

Lemma unlinked_chain l p n s mods a ls :
  linked (parent_of (st_reg s)) a ls ->
  linked (parent_of (st_reg (set_st_mod mods (unlinked l p n s)))) a ls.
Proof.
  intros Hls. eapply shape_chain; [|exact Hls]. cbn. etransitivity; [by apply agree_link_head|by apply agree_link_tail].
Qed.

Lemma module_region_detach_eq s e l m ls :
  st_mod s !! e = Some m -> m_region_entry m = Some l -> is_Some (st_reg s !! l) ->
  live (st_mod s) (m_region_prev m) -> live (st_mod s) (m_region_next m) ->
  m_region_prev m <> Some e -> m_region_next m <> Some e ->
  linked (parent_of (st_reg s)) (Some l) ls ->
  module_region_detach e s = Ok (tt, detached e l (m_region_prev m) (m_region_next m) ls s).
Proof.
  intros Hm Hre Hl Hp Hn Hpe Hne Hls. unfold module_region_detach.
  rewrite (bind_Ok (module_at e) _ s s m) by (apply wp_eq; by eapply wp_module_at). rewrite Hre.
  rewrite (unlink_eq s e l m _ Hm Hl Hp Hn Hpe).
  set (p := m_region_prev m) in *. set (n := m_region_next m) in *. set (s2 := unlinked l p n s).
  assert (is_Some (st_mod s2 !! e)) as Hm2 by by apply is_Some_unlinked.
  rewrite (bind_Ok _ _ _ _ _ (upd_module_eq e _ s2 Hm2)).
  assert (is_Some (st_mod (set_st_mod (alter (set_m_region_prev None) e (st_mod s2)) s2) !! e))
    as Hm3 by by apply is_Some_alter.
  rewrite (bind_Ok _ _ _ _ _ (upd_module_eq e _ _ Hm3)).
  erewrite mark_subtree_dirty_eq; [by destruct s|]. by apply unlinked_chain.
Qed.

(** The part of a list operation's effect that all of them share. *)
Lemma list_step_intro s mods reg ls :
  (forall x, mod_core <$> mods !! x = mod_core <$> st_mod s !! x) ->
  agree reg_core (st_reg s) reg -> agree r_dispatch_gen (st_reg s) reg ->
  agree r_subtree_mods_dirty (st_reg s) reg ->
  list_step ls s (set_st_reg (dirtied ls reg) (set_st_mod mods s)).
Proof.
  intros Hm Hr Hg Hd. split.
  - by destruct s.
  - done.
  - cbn. etransitivity; [done|]. by apply agree_dirtied.
  - cbn. intros a r' Ha Hr'. destruct (dirtied_lookup _ _ _ _ Ha Hr') as (r & Hr1 & ->).
    split; [done|]. symmetry in Hg. destruct (agree_lookup _ _ _ _ _ Hg Hr1) as (r0 & ? & E).
    exists r0. split; [done|]. cbn. by rewrite E.
  - cbn. intros a r' Hr' Hc. destruct (decide (a ∈ ls)) as [Ha|Ha].
    + by destruct (dirtied_lookup _ _ _ _ Ha Hr') as (r & _ & ->).
    + rewrite Hd. unfold dirtied in Hr'. rewrite !lookup_apply_on in Hr'.
      destruct (reg !! a); [|done]. cbn in Hr'. rewrite !decide_False in Hr' by done. injection Hr' as ->.
      cbn. by rewrite Hc.
Qed.

(** Heads and tails after a change at [l]. *)
Lemma link_ends l p n vh vt ls reg a :
  (fun r => (r_mods_head r, r_mods_tail r)) <$>
    dirtied ls (link_tail l n vt (link_head l p vh reg)) !! a =
  (fun r => (if decide (a = l /\ p = None) then vh else r_mods_head r,
             if decide (a = l /\ n = None) then vt else r_mods_tail r)) <$> reg !! a.
Proof.
  rewrite <- (agree_dirtied (fun r => (r_mods_head r, r_mods_tail r)) ls _
    (fun _ => eq_refl) (fun _ => eq_refl) a).
  destruct (decide (a = l)) as [->|Hne].
  - unfold link_tail, link_head. destruct p, n; rewrite ?lookup_alter_eq; destruct (reg !! l); cbn;
      by rewrite ?(decide_True (P := l = l /\ None = None)), ?(decide_False (P := l = l /\ Some _ = None))
        by naive_solver.
  - unfold link_tail, link_head. destruct p, n; rewrite ?lookup_alter_ne by done; destruct (reg !! a);
      cbn; by rewrite ?decide_False by by intros [? _].
Qed.

Lemma detached_next e l p n ls s x :
  x <> e -> is_Some (st_mod s !! x) ->
  mod_next (st_mod (detached e l p n ls s)) x =
    if decide (p = Some x) then Some n else mod_next (st_mod s) x.
Proof.
  intros Hx Hlive. unfold mod_next, detached. cbn.
  rewrite !lookup_alter_fmap, !decide_False by done. rewrite link_prev_same by done.
  by apply mod_next_link_next.
Qed.

Lemma detached_prev e l p n ls s x :
  x <> e -> is_Some (st_mod s !! x) ->
  mod_prev (st_mod (detached e l p n ls s)) x =
    if decide (n = Some x) then Some p else mod_prev (st_mod s) x.
Proof.
  intros Hx Hlive. unfold mod_prev, detached. cbn.
  rewrite !lookup_alter_fmap, !decide_False by done.
  etransitivity; [apply mod_prev_link_prev; by apply is_Some_link_next|].
  unfold mod_prev. by rewrite link_next_same.
Qed.

Lemma detached_step e l p n ls s : list_step ls s (detached e l p n ls s).
Proof.
  apply list_step_intro.
  - intros x. rewrite !alter_fmap_same by done. rewrite link_prev_same by done.
    by rewrite link_next_same.
  - etransitivity; [by apply agree_link_head|by apply agree_link_tail].
  - etransitivity; [by apply agree_link_head|by apply agree_link_tail].
  - etransitivity; [by apply agree_link_head|by apply agree_link_tail].
Qed.

Lemma detached_owner e l p n ls s x : owner_of (detached e l p n ls s) x = owner_of s x.
Proof.
  unfold owner_of, detached. cbn. rewrite !alter_fmap_same by done.
  rewrite link_prev_same by done. by rewrite link_next_same.
Qed.

(** A list none of whose modules is relinked. *)
Lemma mod_list_keep s s' a ms :
  mod_list s a ms ->
  (forall m, m ∈ ms -> mod_next (st_mod s') m = mod_next (st_mod s) m) ->
  (forall m, m ∈ ms -> mod_prev (st_mod s') m = mod_prev (st_mod s) m) ->
  (fun r => (r_mods_head r, r_mods_tail r)) <$> st_reg s' !! a =
  (fun r => (r_mods_head r, r_mods_tail r)) <$> st_reg s !! a ->
  mod_list s' a ms.
Proof.
  intros (r & Hr & H) Hn Hp He. rewrite Hr in He.
  destruct (st_reg s' !! a) as [r'|] eqn:Hr'; [|done]. cbn in He. injection He as E1 E2.
  exists r'. split; [done|]. rewrite E1, E2. by eapply dll_mono.
Qed.

(** Heads and tails of the list that changes. *)
Lemma mod_list_intro s a ms h t :
  (fun r => (r_mods_head r, r_mods_tail r)) <$> st_reg s !! a = Some (h, t) ->
  dll (mod_next (st_mod s)) (mod_prev (st_mod s)) h t ms -> mod_list s a ms.
Proof.
  destruct (st_reg s !! a) as [r|] eqn:Hr; [|done]. cbn. intros [= <- <-] H. by exists r.
Qed.

Lemma detached_list s e l ms1 ms2 ls :
  mods_ok s -> mod_list s l (ms1 ++ e :: ms2) ->
  let s' := detached e l (last ms1) (head ms2) ls s in
  mod_list s' l (ms1 ++ ms2) /\
  forall a ms, a <> l -> mod_list s a ms -> mod_list s' a ms.
Proof.
  intros Hm Hl s'. pose proof Hl as (r & Hr & Hd).
  assert (forall m, m ∈ ms1 ++ ms2 -> m <> e /\ is_Some (st_mod s !! m)) as Hne.
  { intros m Hin. destruct Hd as [_ Hnd]. apply NoDup_app in Hnd as (_ & H1 & [H2 _]%NoDup_cons).
    apply elem_of_app in Hin as [Hin|Hin]; (split; [|eapply mod_list_live; [done|]]).
    - intros ->. apply (H1 _ Hin). left.
    - apply elem_of_app. by left.
    - by intros ->.
    - apply elem_of_app. right. by right. }
  destruct (dll_ends _ _ _ _ _ Hd) as [Eh Et]. split.
  - eapply mod_list_intro.
    + subst s'. unfold detached. cbn [st_reg set_st_reg set_st_mod]. rewrite link_ends, Hr. reflexivity.
    + replace (if decide (l = l /\ last ms1 = None) then _ else _) with (head (ms1 ++ ms2)).
      2: { rewrite Eh. destruct ms1 as [|x ms1]; [by rewrite decide_True|].
           rewrite decide_False; [done|]. rewrite last_cons. by destruct (last ms1) as [|] => -[]. }
      replace (if decide (l = l /\ head ms2 = None) then _ else _) with (last (ms1 ++ ms2)).
      2: { rewrite Et. rewrite !last_app, last_cons. destruct ms2 as [|x ms2]; [by rewrite decide_True|].
           rewrite decide_False by by intros [_ ?]. rewrite last_cons. by destruct (last ms2). }
      eapply dll_remove; [exact Hd|..]; intros x Hx; apply Hne in Hx as [? ?].
      * by apply detached_next.
      * by apply detached_prev.
  - intros a ms Ha Hms.
    assert (forall m, m ∈ ms -> m ∉ ms1 ++ e :: ms2) as Hdis.
    { intros m H1 H2. apply Ha. by eapply mod_list_disjoint. }
    subst s'. eapply mod_list_keep; [done|..].
    + intros m Hin. rewrite detached_next.
      * rewrite decide_False; [done|]. intros E%last_Some_elem_of. apply (Hdis _ Hin).
        apply elem_of_app. by left.
      * intros ->. apply (Hdis _ Hin). apply elem_of_app. right. left.
      * by eapply mod_list_live.
    + intros m Hin. rewrite detached_prev.
      * rewrite decide_False; [done|]. intros E%head_Some_elem_of. apply (Hdis _ Hin).
        apply elem_of_app. right. by right.
      * intros ->. apply (Hdis _ Hin). apply elem_of_app. right. left.
      * by eapply mod_list_live.
    + unfold detached. cbn [st_reg set_st_reg set_st_mod]. rewrite link_ends.
      destruct (st_reg s !! a); [|done]. cbn. by rewrite !decide_False by by intros [? _].
Qed.

(** *** Inserting *)

Lemma link_head_tail l p n vh vt reg :
  link_head l p vh (link_tail l n vt reg) = link_tail l n vt (link_head l p vh reg).
Proof.
  destruct p, n; try done. apply map_eq. intros a. cbn. destruct (decide (l = a)) as [->|].
  - rewrite !lookup_alter_eq. by destruct (reg !! a).
  - by rewrite !lookup_alter_ne.
Qed.

Definition put_between (e l : loc) (p n : option loc) (m : mod_entry) : mod_entry :=
  set_m_region_next n (set_m_region_prev p (set_m_region_entry (Some l) m)).

Definition inserted (e l : loc) (p n : option loc) (ls : list loc) s : state :=
  set_st_reg (dirtied ls (link_tail l n (Some e) (link_head l p (Some e) (st_reg s))))
    (set_st_mod (link_next p (Some e) (link_prev n (Some e)
       (alter (put_between e l p n) e (st_mod s)))) s).

(** The three writes to the new module. *)
Lemma place_eq e l p n s :
  is_Some (st_mod s !! e) ->
  (upd_module e (set_m_region_entry (Some l));;
   upd_module e (set_m_region_prev p);; upd_module e (set_m_region_next n)) s =
  Ok (tt, set_st_mod (alter (put_between e l p n) e (st_mod s)) s).
Proof.
  intros He. rewrite (bind_Ok _ _ _ _ _ (upd_module_eq e _ s He)).
  rewrite (bind_Ok _ _ _ _ _ (upd_module_eq e _ (set_st_mod _ s) ltac:(by apply is_Some_alter))).
  rewrite upd_module_eq by by do 2 apply is_Some_alter.
  cbn. by rewrite !alter_alter.
Qed.

(** The writes to the neighbours, and the marking. *)
Lemma link_both_eq e l p n ls s :
  live (st_mod s) p -> live (st_mod s) n -> is_Some (st_reg s !! l) ->
  linked (parent_of (st_reg s)) (Some l) ls ->
  (set_prev_or_tail l n (Some e);; set_next_or_head l p (Some e);;
   region_mark_subtree_dirty (Some l)) s =
  Ok (tt, set_st_reg (dirtied ls (link_tail l n (Some e) (link_head l p (Some e) (st_reg s))))
            (set_st_mod (link_next p (Some e) (link_prev n (Some e) (st_mod s))) s)).
Proof.
  intros Hp Hn Hl Hls.
  rewrite (bind_Ok _ _ _ _ _ (set_prev_or_tail_eq l n (Some e) s Hn Hl)).
  set (s1 := set_st_reg _ (set_st_mod _ s)).
  assert (live (st_mod s1) p) as Hp1 by (intros x Hx; apply is_Some_link_prev; by apply Hp).
  assert (is_Some (st_reg s1 !! l)) as Hl1 by by apply is_Some_link_tail.
  rewrite (bind_Ok _ _ _ _ _ (set_next_or_head_eq l p (Some e) s1 Hp1 Hl1)).
  erewrite mark_subtree_dirty_eq.
  - cbn. rewrite link_head_tail. by destruct s.
  - eapply shape_chain; [|exact Hls]. cbn. etransitivity.
    + by apply agree_link_tail.
    + by apply agree_link_head.
Qed.

Lemma module_region_insert_after_eq s e l p n r ls :
  is_Some (st_mod s !! e) -> st_reg s !! l = Some r ->
  live (st_mod s) p -> live (st_mod s) n ->
  n = match p with None => r_mods_head r | Some p => default None (mod_next (st_mod s) p) end ->
  p <> Some e -> linked (parent_of (st_reg s)) (Some l) ls ->
  module_region_insert_after (Some l) e p s = Ok (tt, inserted e l p n ls s).
Proof.
  intros He Hr Hp Hn En Hpe Hls. unfold module_region_insert_after.
  set (s1 := set_st_mod (alter (set_m_region_entry (Some l)) e (st_mod s)) s).
  set (s3 := set_st_mod (alter (put_between e l p n) e (st_mod s)) s).
  assert ((upd_module e (set_m_region_prev p);; upd_module e (set_m_region_next n)) s1 = Ok (tt, s3))
    as Hplace.
  { pose proof (place_eq e l p n s He) as Hp3.
    by rewrite (bind_Ok _ _ _ _ _ (upd_module_eq e _ s He)) in Hp3. }
  assert ((set_prev_or_tail l n (Some e);; set_next_or_head l p (Some e);;
           region_mark_subtree_dirty (Some l)) s3 = Ok (tt, inserted e l p n ls s)) as Hlink.
  { erewrite link_both_eq; [done| | |by eexists|done].
    - intros x Hx. apply is_Some_alter. by apply Hp.
    - intros x Hx. apply is_Some_alter. by apply Hn. }
  pose proof (bind_Ok _ (fun _ => set_prev_or_tail l n (Some e);; set_next_or_head l p (Some e);;
    region_mark_subtree_dirty (Some l)) _ _ _ Hplace) as Hlink'. cbv beta in Hlink'. rewrite Hlink in Hlink'.
  rewrite (bind_Ok _ _ _ _ _ (upd_module_eq e _ s He)). fold s1.
  destruct p as [p|].
  - destruct (Hp p eq_refl) as [a Ha].
    assert (st_mod s1 !! p = Some a) as Ha1 by (cbn; rewrite lookup_alter_ne; congruence).
    rewrite bind_assoc, (bind_Ok (module_at p) _ s1 s1 a) by (apply wp_eq; by eapply wp_module_at).
    unfold mod_next in En. rewrite Ha in En. cbn in En. rewrite <- En.
    rewrite <- Hlink'.
    rewrite !bind_assoc. apply bind_ext. intros [] s4 _. rewrite !bind_assoc.
    apply bind_ext. intros [] s5 _. by rewrite !bind_assoc.
  - rewrite bind_assoc, (bind_Ok (region_at l) _ s1 s1 r) by (apply wp_eq; by eapply wp_region_at).
    rewrite <- En. rewrite <- Hlink'.
    rewrite !bind_assoc. apply bind_ext. intros [] s4 _. rewrite !bind_assoc.
    apply bind_ext. intros [] s5 _. by rewrite !bind_assoc.
Qed.

Lemma inserted_next e l p n ls s x :
  is_Some (st_mod s !! x) ->
  mod_next (st_mod (inserted e l p n ls s)) x =
    if decide (p = Some x) then Some (Some e)
    else if decide (e = x) then Some n else mod_next (st_mod s) x.
Proof.
  intros Hlive. unfold inserted. cbn [st_mod set_st_reg set_st_mod].
  rewrite mod_next_link_next by by apply is_Some_link_prev, is_Some_alter.
  case_decide; [done|]. unfold mod_next. rewrite link_prev_same by done.
  rewrite lookup_alter_fmap. case_decide; [|done]. subst. by destruct Hlive as [m ->].
Qed.

Lemma inserted_prev e l p n ls s x :
  is_Some (st_mod s !! x) ->
  mod_prev (st_mod (inserted e l p n ls s)) x =
    if decide (n = Some x) then Some (Some e)
    else if decide (e = x) then Some p else mod_prev (st_mod s) x.
Proof.
  intros Hlive. unfold inserted, mod_prev. cbn [st_mod set_st_reg set_st_mod].
  rewrite link_next_same by done. etransitivity; [by apply mod_prev_link_prev, is_Some_alter|].
  unfold mod_prev. rewrite lookup_alter_fmap. repeat case_decide; try done.
  by destruct Hlive as [m ->].
Qed.

Lemma inserted_owner e l p n ls s x :
  is_Some (st_mod s !! x) ->
  owner_of (inserted e l p n ls s) x = if decide (e = x) then Some (Some l) else owner_of s x.
Proof.
  intros [m Hm]. unfold owner_of, inserted. cbn [st_mod set_st_reg set_st_mod].
  rewrite link_next_same, link_prev_same, lookup_alter_fmap by done. by rewrite Hm.
Qed.

Lemma inserted_step e l p n ls s : list_step ls s (inserted e l p n ls s).
Proof.
  apply list_step_intro.
  - intros x. rewrite link_next_same, link_prev_same by done. by apply alter_fmap_same.
  - etransitivity; [by apply agree_link_head|by apply agree_link_tail].
  - etransitivity; [by apply agree_link_head|by apply agree_link_tail].
  - etransitivity; [by apply agree_link_head|by apply agree_link_tail].
Qed.

Lemma inserted_list s e l ms1 ms2 ls :
  mods_ok s -> mod_list s l (ms1 ++ ms2) -> is_Some (st_mod s !! e) -> on_no_list s e ->
  let s' := inserted e l (last ms1) (head ms2) ls s in
  mod_list s' l (ms1 ++ e :: ms2) /\
  forall a ms, a <> l -> mod_list s a ms -> mod_list s' a ms.
Proof.
  intros Hm Hl He Hoff s'. pose proof Hl as (r & Hr & Hd). pose proof (Hoff _ _ Hl) as Hel.
  assert (last ms1 <> Some e) as Hpe.
  { intros E%last_Some_elem_of. apply Hel, elem_of_app. by left. }
  assert (head ms2 <> Some e) as Hne.
  { intros E%head_Some_elem_of. apply Hel, elem_of_app. by right. }
  destruct (dll_ends _ _ _ _ _ Hd) as [Eh Et]. subst s'. split.
  - eapply mod_list_intro.
    + unfold inserted. cbn [st_reg set_st_reg set_st_mod]. rewrite link_ends, Hr. reflexivity.
    + replace (if decide (l = l /\ last ms1 = None) then _ else _) with (head (ms1 ++ e :: ms2)).
      2: { rewrite Eh. destruct ms1 as [|x ms1]; [by rewrite decide_True|].
           rewrite decide_False; [done|]. rewrite last_cons. by destruct (last ms1) as [|] => -[]. }
      replace (if decide (l = l /\ head ms2 = None) then _ else _) with (last (ms1 ++ e :: ms2)).
      2: { rewrite Et. rewrite !last_app, last_cons. destruct ms2 as [|x ms2]; [by rewrite decide_True|].
           rewrite decide_False by by intros [_ ?]. rewrite last_cons. by destruct (last ms2). }
      eapply dll_insert; [exact Hd|done|..].
      * intros x Hx. rewrite inserted_next by by eapply mod_list_live.
        case_decide; [done|]. rewrite decide_False; [done|]. by intros ->.
      * intros x Hx. rewrite inserted_prev by by eapply mod_list_live.
        case_decide; [done|]. rewrite decide_False; [done|]. by intros ->.
      * rewrite inserted_next by done. by rewrite decide_False, decide_True by done.
      * rewrite inserted_prev by done. by rewrite decide_False, decide_True by done.
  - intros a ms Ha Hms.
    assert (forall m, m ∈ ms -> m ∉ ms1 ++ ms2) as Hdis.
    { intros m H1 H2. apply Ha. by eapply mod_list_disjoint. }
    assert (forall m, m ∈ ms -> e <> m) as Hem by (intros m Hin ->; by apply (Hoff _ _ Hms)).
    eapply mod_list_keep; [done|..].
    + intros m Hin. rewrite inserted_next by by eapply mod_list_live.
      rewrite decide_False, decide_False; [done|by apply Hem|].
      intros E%last_Some_elem_of. apply (Hdis _ Hin), elem_of_app. by left.
    + intros m Hin. rewrite inserted_prev by by eapply mod_list_live.
      rewrite decide_False, decide_False; [done|by apply Hem|].
      intros E%head_Some_elem_of. apply (Hdis _ Hin), elem_of_app. by right.
    + unfold inserted. cbn [st_reg set_st_reg set_st_mod]. rewrite link_ends.
      destruct (st_reg s !! a); [|done]. cbn. by rewrite !decide_False by by intros [? _].
Qed.

Lemma list_gens l p n vh vt ls reg :
  gens_ok reg -> gens_ok (dirtied ls (link_tail l n vt (link_head l p vh reg))).
Proof.
  intros Hg. apply dirtied_gens. intros a r' Hr'.
  assert (agree r_dispatch_gen (link_tail l n vt (link_head l p vh reg)) reg) as H.
  { symmetry. etransitivity; [by apply agree_link_head|by apply agree_link_tail]. }
  destruct (agree_lookup _ _ _ _ _ H Hr') as (r & Hr & <-). by eapply Hg.
Qed.

(** *** The operations *)

(** Where a listed module is. *)
Lemma listed_at s l e ms1 ms2 :
  running s -> mod_list s l (ms1 ++ e :: ms2) ->
  exists m, st_mod s !! e = Some m /\ m_region_entry m = Some l /\
    m_region_prev m = last ms1 /\ m_region_next m = head ms2 /\
    live (st_mod s) (last ms1) /\ live (st_mod s) (head ms2) /\
    last ms1 <> Some e /\ head ms2 <> Some e.
Proof.
  intros Hrun Hl. pose proof (run_mods _ Hrun) as Hm. pose proof Hl as (r & Hr & Hd).
  assert (e ∈ ms1 ++ e :: ms2) as Hin by (apply elem_of_app; right; left).
  assert (forall m, m ∈ ms1 ++ e :: ms2 -> is_Some (st_mod s !! m)) as Hlive
    by (intros; by eapply mod_list_live).
  destruct (Hlive _ Hin) as [m Hme]. destruct (dll_at _ _ _ _ _ _ _ Hd) as [Ep En].
  pose proof (mod_list_owner _ _ _ _ Hm Hl Hin) as Eo.
  unfold mod_prev, mod_next, owner_of in *. rewrite Hme in Ep, En, Eo. cbn in Ep, En, Eo.
  injection Ep as Ep. injection En as En. injection Eo as Eo.
  destruct Hd as [_ Hnd]. apply NoDup_app in Hnd as (_ & Hn1 & [Hn2 _]%NoDup_cons).
  exists m. split_and!; [done..| | | |].
  - intros x Hx%last_Some_elem_of. apply Hlive, elem_of_app. by left.
  - intros x Hx%head_Some_elem_of. apply Hlive, elem_of_app. right. by right.
  - intros Hx%last_Some_elem_of. apply (Hn1 _ Hx). left.
  - by intros Hx%head_Some_elem_of.
Qed.

(** [module_region_detach] of a module of a region removes exactly that
    module from the region's sequence; the other regions keep theirs, and the
    region and its ancestors are marked dirty with a new generation. *)
Lemma detach_spec s l e ms1 ms2 :
  running s -> mod_list s l (ms1 ++ e :: ms2) ->
  exists ls s', linked (parent_of (st_reg s)) (Some l) ls /\
    module_region_detach e s = Ok (tt, s') /\ running s' /\ list_step ls s s' /\
    mod_list s' l (ms1 ++ ms2) /\
    (forall a ms, a <> l -> mod_list s a ms -> mod_list s' a ms).
Proof.
  intros Hrun Hl. pose proof (run_mods _ Hrun) as Hm. pose proof Hl as (r & Hr & _).
  destruct (up_chain _ _ _ (run_tree _ Hrun) Hr) as (ls & Hls & _).
  destruct (listed_at s l e ms1 ms2 Hrun Hl) as (m & Hme & Eo & Ep & En & ? & ? & ? & ?).
  destruct (detached_list s e l ms1 ms2 ls Hm Hl) as [Hnew Hother].
  exists ls, (detached e l (last ms1) (head ms2) ls s).
  split_and!; [done| |eapply running_list_step; [done|apply detached_step| |done|..]| |done..].
  - rewrite <- Ep, <- En. by apply module_region_detach_eq; rewrite ?Ep, ?En.
  - apply list_gens, tree_ok_gens, Hrun.
  - intros x Hx. rewrite detached_owner. eapply mod_list_owner; [done..|].
    apply elem_of_app. apply elem_of_app in Hx as [?|?]; [by left|right; by right].
  - intros a ms Ha Hms. split; [by apply Hother|]. intros x _. apply detached_owner.
  - apply detached_step.
Qed.

(** [module_region_insert_after] puts a module that is on no list right
    after the given one, or first when there is none, in the region's sequence;
    the other regions keep theirs. *)
Lemma insert_after_spec s l e ms1 ms2 :
  running s -> mod_list s l (ms1 ++ ms2) -> is_Some (st_mod s !! e) -> on_no_list s e ->
  exists ls s', linked (parent_of (st_reg s)) (Some l) ls /\
    module_region_insert_after (Some l) e (last ms1) s = Ok (tt, s') /\ running s' /\
    list_step ls s s' /\ mod_list s' l (ms1 ++ e :: ms2) /\
    (forall a ms, a <> l -> mod_list s a ms -> mod_list s' a ms).
Proof.
  intros Hrun Hl He Hoff. pose proof (run_mods _ Hrun) as Hm. pose proof Hl as (r & Hr & Hd).
  destruct (up_chain _ _ _ (run_tree _ Hrun) Hr) as (ls & Hls & _).
  assert (forall m, m ∈ ms1 ++ ms2 -> is_Some (st_mod s !! m)) as Hlive
    by (intros; by eapply mod_list_live).
  destruct (inserted_list s e l ms1 ms2 ls Hm Hl He Hoff) as [Hnew Hother].
  exists ls, (inserted e l (last ms1) (head ms2) ls s).
  split_and!; [done| |eapply running_list_step; [done|apply inserted_step| |done|..]| |done..].
  - eapply module_region_insert_after_eq; [done..| | | | |done].
    + intros x Hx%last_Some_elem_of. apply Hlive, elem_of_app. by left.
    + intros x Hx%head_Some_elem_of. apply Hlive, elem_of_app. by right.
    + destruct ms1 as [|x ms1 _] using rev_ind.
      { symmetry. apply (dll_ends _ _ _ _ _ Hd). }
      rewrite last_snoc. rewrite <- app_assoc in Hd. by destruct (dll_at _ _ _ _ _ _ _ Hd) as [_ ->].
    + intros E%last_Some_elem_of. apply (Hoff _ _ Hl), elem_of_app. by left.
  - apply list_gens, tree_ok_gens, Hrun.
  - intros x Hx. destruct (decide (e = x)) as [->|Hne].
    { rewrite inserted_owner by done. by rewrite decide_True. }
    assert (x ∈ ms1 ++ ms2) as Hx'.
    { apply elem_of_app. apply elem_of_app in Hx as [?|[->|?]%elem_of_cons]; [by left|done|by right]. }
    rewrite inserted_owner by by apply Hlive. rewrite decide_False by done. by eapply mod_list_owner.
  - intros a ms Ha Hms. split; [by apply Hother|]. intros x Hx.
    rewrite inserted_owner by by eapply mod_list_live. rewrite decide_False; [done|].
    intros ->. by apply (Hoff _ _ Hms).
  - apply inserted_step.
Qed.

(** Appending puts the module last. *)
Lemma append_spec s l e ms :
  running s -> mod_list s l ms -> is_Some (st_mod s !! e) -> on_no_list s e ->
  exists ls s', linked (parent_of (st_reg s)) (Some l) ls /\
    module_region_append (Some l) e s = Ok (tt, s') /\ running s' /\
    list_step ls s s' /\ mod_list s' l (ms ++ [e]) /\
    (forall a ms, a <> l -> mod_list s a ms -> mod_list s' a ms).
Proof.
  intros Hrun Hl He Hoff. pose proof Hl as (r & Hr & Hd).
  destruct (dll_ends _ _ _ _ _ Hd) as [_ Et]. rewrite <- (app_nil_r ms) in Hl.
  destruct (insert_after_spec s l e ms [] Hrun Hl He Hoff)
    as (ls & s' & H1 & H2 & H3 & H4 & H5 & H6).
  exists ls, s'. split_and!; [done| |done..]. unfold module_region_append.
  rewrite (bind_Ok _ _ s s (r_mods_tail r)); [by rewrite Et|].
  apply wp_eq. wp_step. by eapply wp_region_at.
Qed.

Lemma list_step_live ls s s' m : list_step ls s s' -> is_Some (st_mod s' !! m) <-> is_Some (st_mod s !! m).
Proof.
  intros Hs. pose proof (lst_core _ _ _ Hs m) as E. destruct (st_mod s' !! m), (st_mod s !! m); try done.
Qed.

(** After a detachment, the module and the ones that were on no list are on no
    list. *)
Lemma detached_off s s1 l e e' ms1 ms2 ls :
  running s -> mod_list s l (ms1 ++ e :: ms2) -> list_step ls s s1 -> mod_list s1 l (ms1 ++ ms2) ->
  (forall a ms, a <> l -> mod_list s a ms -> mod_list s1 a ms) ->
  e' = e \/ on_no_list s e' -> on_no_list s1 e'.
Proof.
  intros Hrun Hl Hs1 Hl1 Ho1 Hoff. pose proof Hl as (_ & _ & _ & Hnd).
  apply NoDup_app in Hnd as (_ & Hn1 & [Hn2 _]%NoDup_cons).
  intros a ms Ha Hin. destruct (decide (a = l)) as [->|Hne].
  - rewrite (mod_list_det _ _ _ _ Ha Hl1) in Hin. destruct Hoff as [->|Hoff].
    + apply elem_of_app in Hin as [Hin|Hin]; [|done]. apply (Hn1 _ Hin). left.
    + apply (Hoff _ _ Hl). rewrite elem_of_app, elem_of_cons. apply elem_of_app in Hin. tauto.
  - destruct Ha as (r1 & Hr1 & Hd1). pose proof (lst_reg _ _ _ Hs1) as Hreg. symmetry in Hreg.
    destruct (agree_lookup _ _ _ _ _ Hreg Hr1) as (r & Hr & _).
    destruct (mods_ok_list _ _ _ (run_mods _ Hrun) Hr) as (ms' & Hms' & _).
    pose proof (Ho1 _ _ Hne Hms') as Hms1.
    assert (mod_list s1 a ms) as Ha by by exists r1.
    rewrite (mod_list_det _ _ _ _ Ha Hms1) in Hin.
    destruct Hoff as [->|Hoff]; [|by apply (Hoff _ _ Hms')]. apply Hne.
    eapply mod_list_disjoint; [apply Hrun|exact Hms'|exact Hl|exact Hin|].
    apply elem_of_app. right. left.
Qed.

(** C23: the module lists refine sequences.  Detaching a module removes exactly
    that module from its region's sequence; putting any unlisted module back
    after the old predecessor, as [xy_reload] does, gives it the position the
    first one had; the sequences of the other regions never change. *)
Theorem module_region_replace s l e e' ms1 ms2 :
  running s -> mod_list s l (ms1 ++ e :: ms2) -> is_Some (st_mod s !! e') ->
  e' = e \/ on_no_list s e' ->
  exists s1 s2, module_region_detach e s = Ok (tt, s1) /\
    mod_list s1 l (ms1 ++ ms2) /\
    module_region_insert_after (Some l) e' (last ms1) s1 = Ok (tt, s2) /\
    mod_list s2 l (ms1 ++ e' :: ms2) /\ running s2 /\
    (forall a ms, a <> l -> mod_list s a ms -> mod_list s2 a ms).
Proof.
  intros Hrun Hl Hlive Hoff.
  destruct (detach_spec s l e ms1 ms2 Hrun Hl) as (ls & s1 & _ & E1 & Hrun1 & Hs1 & Hl1 & Ho1).
  pose proof (detached_off s s1 l e e' ms1 ms2 ls Hrun Hl Hs1 Hl1 Ho1 Hoff) as Hoff1.
  assert (is_Some (st_mod s1 !! e')) as Hlive1 by by apply (list_step_live _ _ _ _ Hs1).
  destruct (insert_after_spec s1 l e' ms1 ms2 Hrun1 Hl1 Hlive1 Hoff1)
    as (ls' & s2 & _ & E2 & Hrun2 & _ & Hl2 & Ho2).
  exists s1, s2. split_and!; [done..|]. intros a ms Ha Hms. by apply Ho2, Ho1.
Qed.

(** Appending a module that is on no list puts it last in its region's
    sequence, leaves the other regions' sequences, and marks the region and
    its ancestors dirty with a new dispatch generation. *)
Theorem module_region_append_last s l e ms :
  running s -> mod_list s l ms -> is_Some (st_mod s !! e) -> on_no_list s e ->
  exists s', module_region_append (Some l) e s = Ok (tt, s') /\ running s' /\
    mod_list s' l (ms ++ [e]) /\ owner_of s' e = Some (Some l) /\
    (forall a ms, a <> l -> mod_list s a ms -> mod_list s' a ms) /\
    (forall a r r', descendant (st_reg s) l a -> st_reg s !! a = Some r ->
       st_reg s' !! a = Some r' ->
       r_subtree_mods_dirty r' = true /\ r_dispatch_gen r' <> r_dispatch_gen r).
Proof.
  intros Hrun Hl He Hoff.
  destruct (append_spec s l e ms Hrun Hl He Hoff) as (ls & s' & Hls & E & Hrun' & Hs & Hl' & Ho).
  exists s'. split_and!; [done..| |done|].
  - eapply mod_list_owner; [apply Hrun'|exact Hl'|]. apply elem_of_app. right. left.
  - intros a r r' [n Hn] Hr Hr'.
    assert (a ∈ ls) as Ha.
    { clear -Hls Hn. revert l ls Hls Hn. induction n as [|n IH]; intros l ls Hls Hn; cbn in Hn.
      - injection Hn as ->. inversion Hls; left.
      - inversion Hls as [|l' p ls' Hp Hls']; subst. rewrite Hp in Hn.
        destruct p as [p|]; [|done]. right. by eapply IH. }
    destruct (lst_dirty _ _ _ Hs _ _ Ha Hr') as (Hd & r0 & Hr0 & Eg). split; [done|].
    simplify_eq. rewrite Eg. apply next_gen_ne. by apply (tree_ok_gens _ (run_tree _ Hrun) a).
Qed.

End Refinement.
