(* ===== verification/Vectors.v ===== *)
(** * The module vectors of the regions

    Each region caches the modules of its subtree in a vector.  This file says
    when the vectors are right, what a refresh does when an allocation may fail,
    and that a change of a list leaves right vectors right, because it marks
    those dirty that it makes wrong. *)

From S2P Require Import Prelude QMap Status State Machine Linked Region RegionTree Runtime ModList.
From stdpp Require Import options.
Local Open Scope Z_scope.

Section Defs.
Context {Q : QMapOps}.

(** The module vector of [r] is [ms], unless it is marked dirty. *)
Definition vector_ok (ms : list loc) (r : region_entry) : Prop :=
  r_subtree_mods_dirty r = false -> r_subtree_mods r = ms.

(** Every vector that is not dirty holds the modules of the region's subtree, in
    order. *)
Definition vectors (s : state) : Prop :=
  forall l r h ms, st_reg s !! l = Some r -> preorder (st_reg s) (st_mod s) h l ms -> vector_ok ms r.

(** [r'] has the vector of [r], or is dirty. *)
Definition vec_kept (r r' : region_entry) : Prop :=
  r_subtree_mods_dirty r' = false ->
  r_subtree_mods_dirty r = false /\ r_subtree_mods r' = r_subtree_mods r.

(** A region without its vector. *)
Definition no_vec (r : region_entry) : region_entry := set_r_subtree_mods [] (set_r_subtree_mods_cap 0 r).

(** Only the vector of [root] changes, and the allocations to come. *)
Record filling (root : loc) (s s' : state) : Prop := {
  fi_state : s' = set_st_alloc (st_alloc s') (set_st_reg (st_reg s') s);
  fi_other : forall l, l <> root -> st_reg s' !! l = st_reg s !! l;
  fi_root : no_vec <$> st_reg s' !! root = no_vec <$> st_reg s !! root
}.

#[export] Instance filling_refl root : Reflexive (filling root).
Proof. intros s. split; [by destruct s|done..]. Qed.

#[export] Instance filling_trans root : Transitive (filling root).
Proof.
  intros s1 s2 s3 [A1 A2 A3] [B1 B2 B3]. split; [rewrite B1; by rewrite A1| |by rewrite B3].
  intros l Hl. by rewrite B2, A2.
Qed.

(** What is in the vector of [root]. *)
Definition vector_of (root : loc) (s : state) : option (list loc) := r_subtree_mods <$> st_reg s !! root.

End Defs.

(** ** A refresh *)

Section Refresh.
Context {Q : QMapOps}.
Implicit Types (s : state) (l root me : loc) (ms : list loc).

Lemma filling_links root s s' : filling root s s' -> agree links (st_reg s) (st_reg s').
Proof.
  intros [_ Ho Hr] l. destruct (decide (l = root)) as [->|Hl]; [|by rewrite Ho].
  destruct (st_reg s' !! root) as [r'|], (st_reg s !! root) as [r|]; try done. cbn in *.
  apply (inj Some) in Hr. f_equal. change (links (no_vec r) = links (no_vec r')). by rewrite Hr.
Qed.

Lemma filling_mod root s s' : filling root s s' -> st_mod s' = st_mod s.
Proof. intros [-> _ _]. done. Qed.

Lemma filling_put root s r r' :
  st_reg s !! root = Some r -> no_vec r' = no_vec r ->
  filling root s (set_st_reg (<[root := r']> (st_reg s)) s).
Proof.
  intros Hr E. split; [by destruct s|intros l Hl; by apply lookup_insert_ne|].
  cbn. rewrite lookup_insert_eq, Hr. cbn. by rewrite E.
Qed.

Lemma try_alloc_inv s b s' : try_alloc s = Ok (b, s') -> s' = set_st_alloc (st_alloc s') s.
Proof. unfold try_alloc. intros H. destruct (st_alloc s); injection H as _ <-; by destruct s. Qed.

(** A program that adds [ms] to the vector of [root], or fails. *)
Definition gathers (root : loc) ms (m : XM Z) s : Prop :=
  forall rc s', m s = Ok (rc, s') -> filling root s s' /\
    (0 <= rc -> vector_of root s' = (fun v => v ++ ms) <$> vector_of root s).

Lemma gathers_push root me s : gathers root [me] (region_subtree_mods_push root me) s.
Proof.
  intros rc s' H. unfold region_subtree_mods_push in H. binv H r s1 E. apply region_at_inv in E as [Hr ->].
  assert (forall c s1, s1 = set_st_alloc (st_alloc s1) s ->
    let r' := set_r_subtree_mods (r_subtree_mods r ++ [me]) (set_r_subtree_mods_cap c r) in
    let s2 := set_st_reg (<[root := r']> (st_reg s1)) s1 in
    filling root s s2 /\ vector_of root s2 = (fun v => v ++ [me]) <$> vector_of root s) as Hput.
  { intros c s1 ->. split; [|unfold vector_of; cbn; by rewrite lookup_insert_eq, Hr]. cbn.
    split; [done|intros l Hl; by apply lookup_insert_ne|]. cbn. by rewrite lookup_insert_eq, Hr. }
  destruct (_ >=? _).
  - binv H b s1 E. apply try_alloc_inv in E. destruct b.
    + binv H u s2 E2. injection H as <- <-. apply upd_region_inv in E2 as (r1 & Hr1 & ->).
      assert (r1 = r) as -> by (rewrite E in Hr1; cbn in Hr1; congruence).
      destruct (Hput (if r_subtree_mods_cap r =? 0 then 8 else r_subtree_mods_cap r * 2) s1 E). by split.
    + injection H as <- <-. split; [rewrite E; by split|lia].
  - binv H u s2 E2. injection H as <- <-. apply upd_region_inv in E2 as (r1 & Hr1 & ->).
    assert (r1 = r) as -> by congruence.
    destruct (Hput (r_subtree_mods_cap r) s ltac:(by destruct s)) as [Hf Hv].
    replace (set_r_subtree_mods_cap (r_subtree_mods_cap r) r) with r in Hf, Hv by by destruct r. by split.
Qed.

Lemma gathers_nil root s : gathers root [] (mret 0) s.
Proof.
  intros rc s' [= <- <-]. split; [done|]. intros _. destruct (vector_of root s); cbn; [|done].
  by rewrite app_nil_r.
Qed.

Lemma gathers_seq root ms ms' (m k : XM Z) s :
  gathers root ms m s -> (forall s', filling root s s' -> gathers root ms' k s') ->
  gathers root (ms ++ ms') (rc ← m; if rc <? 0 then mret (-1) else k) s.
Proof.
  intros Hm Hk rc s' H. binv H rc1 s1 E. destruct (Hm _ _ E) as [Hf1 Hv1].
  destruct (Z.ltb_spec rc1 0); [injection H as <- <-; by split; [|lia]|].
  destruct (Hk _ Hf1 _ _ H) as [Hf2 Hv2]. split; [by etransitivity|]. intros Hrc.
  rewrite Hv2, Hv1 by done. destruct (vector_of root s); [|done]. cbn. by rewrite app_assoc.
Qed.

Lemma gathers_bind {A} root ms (m : XM A) (k : A -> XM Z) s :
  (forall a s', m s = Ok (a, s') -> s' = s /\ gathers root ms (k a) s) -> gathers root ms (a ← m; k a) s.
Proof. intros Hm rc s' H. binv H a s1 E. destruct (Hm _ _ E) as [-> Hk]. by apply Hk. Qed.

Lemma gathers_push_mods root fuel e ms s :
  linked (mod_next (st_mod s)) e ms -> gathers root ms (push_mods fuel root e) s.
Proof.
  revert e ms s. induction fuel as [|fuel IH]; intros e ms s H.
  { destruct e; [done|]. inversion H; subst. apply gathers_nil. }
  destruct e as [me|]; [|inversion H; subst; apply gathers_nil].
  inversion H as [|? e' ms' Hn Hl]; subst. cbn [push_mods].
  apply (gathers_seq root [me] ms'); [apply gathers_push|]. intros s1 Hf. apply gathers_bind.
  intros m s2 [Hm ->]%module_at_inv. split; [done|]. unfold mod_next in Hn.
  rewrite (filling_mod _ _ _ Hf) in Hm. rewrite Hm in Hn. injection Hn as ->.
  apply IH. by rewrite (filling_mod _ _ _ Hf).
Qed.

Lemma gathers_collect root wm wr reg mods :
  (forall h l ms, preorder reg mods h l ms -> forall depth s, agree links reg (st_reg s) ->
     st_mod s = mods -> gathers root ms (region_collect_subtree_mods depth wm wr root l) s) /\
  (forall h ks ms, preorders reg mods h ks ms -> forall depth fuel e s, agree links reg (st_reg s) ->
     st_mod s = mods -> linked (sibling_of reg) e ks ->
     gathers root ms (sibling_loop fuel (region_collect_subtree_mods depth wm wr root) e) s).
Proof.
  apply (preorder_mutind _ reg mods
    (fun h l ms _ => forall depth s, agree links reg (st_reg s) -> st_mod s = mods -> gathers root ms _ s)
    (fun h ks ms _ => forall depth fuel e s, agree links reg (st_reg s) -> st_mod s = mods ->
       linked (sibling_of reg) e ks -> gathers root ms _ s)).
  - intros h l r ms ks mss Hr Hms Hks _ IH [|depth] s Hl Em; [done|]. cbn [region_collect_subtree_mods].
    destruct (agree_lookup links _ _ _ _ Hl Hr) as (r' & Hr' & E). injection E as _ E1 _ E2.
    apply gathers_bind. intros n s2 [Hn ->]%region_at_inv. split; [done|].
    assert (n = r') as -> by congruence. apply (gathers_seq root ms mss).
    + apply gathers_push_mods. by rewrite E2, Em.
    + intros s1 Hf. pose proof (filling_links _ _ _ Hf) as Hl1. apply gathers_bind.
      intros n s2 [Hn1 ->]%region_at_inv. split; [done|].
      destruct (agree_lookup links _ _ _ _ Hl1 Hr') as (r1 & Hr1 & E). injection E as _ E3 _ _.
      assert (n = r1) as -> by congruence. apply IH; [by etransitivity| |by rewrite E3, E1].
      by rewrite (filling_mod _ _ _ Hf).
  - intros h depth fuel e s _ _ H. apply linked_nil_iff in H as ->. destruct fuel; apply gathers_nil.
  - intros h k ks ms mss _ IHk _ IHks depth fuel e s Hl Em H.
    apply linked_cons_iff in H as (-> & e' & Hn & H). destruct fuel as [|fuel]; [done|].
    cbn [sibling_loop]. apply (gathers_seq root ms mss); [by apply IHk|]. intros s1 Hf.
    assert (agree links reg (st_reg s1)) as Hl1 by (etransitivity; [done|by eapply filling_links]).
    apply gathers_bind. intros c s2 [Hc ->]%region_at_inv. split; [done|].
    pose proof (Hl1 k) as E. unfold sibling_of in Hn. rewrite Hc in E.
    destruct (reg !! k) as [rk|]; [|done]. cbn in Hn, E. injection Hn as Hn. injection E as _ _ E _.
    apply IHks; [done| |by rewrite <- E, Hn]. by rewrite (filling_mod _ _ _ Hf).
Qed.

Lemma push_filling root me : preserves (filling root) (region_subtree_mods_push root me).
Proof. intros s rc s' H. by apply (gathers_push root me s rc s' H). Qed.

Lemma read_filling {A} root (m : XM A) :
  (forall s a s', m s = Ok (a, s') -> s' = s) -> preserves (filling root) m.
Proof. intros Hm s a s' ->%Hm. reflexivity. Qed.

Lemma collect_filling depth wm wr root node :
  preserves (filling root) (region_collect_subtree_mods depth wm wr root node).
Proof.
  assert (forall l, preserves (filling root) (region_at l)) as Hr
    by (intros l; apply read_filling; by intros s a s' [_ ->]%region_at_inv).
  assert (forall l, preserves (filling root) (module_at l)) as Hm
    by (intros l; apply read_filling; by intros s a s' [_ ->]%module_at_inv).
  assert (forall fuel e, preserves (filling root) (push_mods fuel root e)) as Hp.
  { induction fuel as [|fuel IH]; intros [me|]; cbn; preserve ltac:(first [apply push_filling|apply Hm|apply IH|done]). }
  revert node. induction depth as [|depth IHd]; intros node; cbn; [done|].
  assert (forall fuel e, preserves (filling root)
    (sibling_loop fuel (region_collect_subtree_mods depth wm wr root) e)) as Hs.
  { induction fuel as [|fuel IH]; intros [k|]; cbn; preserve ltac:(first [apply IHd|apply Hr|apply IH|done]). }
  preserve ltac:(first [apply Hr|apply Hp|apply Hs]).
Qed.

(** A rebuild fills the vector; when that succeeds, the vector is right. *)
Lemma rebuild_inv l s rc s' :
  region_rebuild_subtree_mods (Some l) s = Ok (rc, s') ->
  exists s1, filling l s s1 /\
    (s' = s1 \/ exists r, st_reg s1 !! l = Some r /\
       s' = set_st_reg (<[l := set_r_subtree_mods_dirty false r]> (st_reg s1)) s1 /\
       forall h ms, preorder (st_reg s) (st_mod s) h l ms -> r_subtree_mods r = ms).
Proof.
  intros H. unfold region_rebuild_subtree_mods in H. binv H u s0 E. apply upd_region_inv in E as (r & Hr & ->).
  set (s0 := set_st_reg _ s) in *.
  assert (filling l s s0) as Hf0 by by apply (filling_put l s r).
  binv H nm s1 E. injection E as <- <-. binv H nr s1 E. injection E as <- <-.
  binv H rc1 s1 E. pose proof (collect_filling _ _ _ _ _ _ _ _ E) as Hf1. exists s1.
  split; [by etransitivity|]. destruct (Z.ltb_spec rc1 0); [injection H as _ <-; by left|]. right.
  binv H u2 s2 E2. injection H as _ <-. apply upd_region_inv in E2 as (r1 & Hr1 & ->). exists r1.
  split; [done|]. split; [done|]. intros h ms Hpre.
  destruct (proj1 (gathers_collect l _ _ (st_reg s) (st_mod s)) h l ms Hpre _ s0
    (filling_links _ _ _ Hf0) eq_refl _ _ E) as [_ Hv].
  specialize (Hv ltac:(lia)). unfold vector_of in Hv. cbn in Hv.
  rewrite lookup_insert_eq, Hr1 in Hv. by injection Hv.
Qed.

End Refresh.

(** ** Vectors that stay right *)

Section Steps.
Context {Q : QMapOps}.
Implicit Types (s : state) (l a : loc) (ls ms : list loc).

(** A subtree looks the same from two heaps that agree on the lists and on the
    children of the regions in it. *)
Lemma preorder_transfer reg mods reg' mods' (inside : loc -> Prop) :
  (forall a r, inside a -> reg !! a = Some r -> exists r', reg' !! a = Some r' /\
     (forall ms, linked (mod_next mods) (r_mods_head r) ms -> linked (mod_next mods') (r_mods_head r') ms) /\
     forall ks, linked (sibling_of reg) (r_children_head r) ks ->
       linked (sibling_of reg') (r_children_head r') ks /\ forall k, k ∈ ks -> inside k) ->
  (forall h l ms, preorder reg mods h l ms -> inside l -> preorder reg' mods' h l ms) /\
  (forall h ks ms, preorders reg mods h ks ms -> (forall k, k ∈ ks -> inside k) ->
     preorders reg' mods' h ks ms).
Proof.
  intros Hin. apply (preorder_mutind _ reg mods
    (fun h l ms _ => inside l -> preorder reg' mods' h l ms)
    (fun h ks ms _ => (forall k, k ∈ ks -> inside k) -> preorders reg' mods' h ks ms)).
  - intros h l r ms ks mss Hr Hms Hks _ IH Hl. destruct (Hin l r Hl Hr) as (r' & Hr' & Hm & Hk).
    destruct (Hk ks Hks) as [Hks' Hall]. econstructor; [done|by apply Hm|done|by apply IH].
  - constructor.
  - intros h k ks ms mss _ IHk _ IHks Hall. constructor.
    + apply IHk, Hall. left.
    + apply IHks. intros x Hx. apply Hall. by right.
Qed.

(** The parents of a chain's nodes are on the chain. *)
Lemma linked_closed next e ls k a : linked next e ls -> k ∈ ls -> next k = Some (Some a) -> a ∈ ls.
Proof.
  intros H. induction H as [|l e ls Hn H IH]; [by intros ?%not_elem_of_nil|].
  rewrite !elem_of_cons. intros [->|Hk] Hp.
  - rewrite Hn in Hp. injection Hp as ->. right. inversion H; subst. left.
  - right. by apply IH.
Qed.

(** A change of what is below the regions [ls], if their vectors are taken care
    of. *)
Lemma vectors_moved s s' ls :
  running s -> tree_ok s' ->
  (forall k a, k ∈ ls -> parent_of (st_reg s') k = Some (Some a) -> a ∈ ls) ->
  (forall a r', a ∉ ls -> st_reg s' !! a = Some r' -> exists r, st_reg s !! a = Some r /\
     r_children_head r = r_children_head r' /\ r_sibling_next r = r_sibling_next r' /\ vec_kept r r') ->
  (forall a ms, a ∉ ls -> mod_list s a ms -> mod_list s' a ms) ->
  (forall a r' h ms, a ∈ ls -> st_reg s' !! a = Some r' -> preorder (st_reg s') (st_mod s') h a ms ->
     vector_ok ms r') ->
  vectors s -> vectors s'.
Proof.
  intros Hrun Hok Hup Hreg Hlist Hls Hv l r' h ms Hr' Hpre.
  destruct (decide (l ∈ ls)) as [Hl|Hl]; [by eapply Hls|]. intros Hc.
  destruct (Hreg l r' Hl Hr') as (r & Hr & _ & _ & Hk). destruct (Hk Hc) as [Hd ->].
  apply (Hv l r h ms Hr); [|done].
  refine (proj1 (preorder_transfer _ _ _ _ (fun a => a ∉ ls) _) h l ms Hpre Hl).
  intros a ra' Ha Hra'. destruct (Hreg a ra' Ha Hra') as (ra & Hra & Ech & _ & _). exists ra.
  split; [done|]. split.
  - intros mss Hmss. destruct (mods_ok_list _ _ _ (run_mods _ Hrun) Hra) as (ms0 & Hms0 & _).
    pose proof (Hlist a ms0 Ha Hms0) as (ra1 & Hra1 & [Hd1 _]). assert (ra1 = ra') as -> by congruence.
    apply dseg_linked in Hd1. rewrite (linked_det _ _ _ _ Hmss Hd1).
    destruct Hms0 as (ra0 & Hra0 & [Hd0 _]). assert (ra0 = ra) as -> by congruence. by apply dseg_linked in Hd0.
  - intros ks Hks. destruct (ro_down _ _ _ (to_region _ Hok _ _ Hra')) as (ks' & Hks' & Hkids).
    assert (ks' = ks) as -> by by eapply linked_det.
    assert (forall k, k ∈ ks -> k ∉ ls) as Hout.
    { intros k Hin%Hkids Hkl. by eapply Ha, Hup. }
    split; [|done]. rewrite Ech. eapply linked_mono; [|done]. intros k Hin. unfold sibling_of.
    pose proof (proj1 (Hkids k) Hin) as Hp. unfold parent_of in Hp.
    destruct (st_reg s' !! k) as [rk'|] eqn:Hrk'; [|done].
    destruct (Hreg k rk' (Hout k Hin) Hrk') as (rk & -> & _ & E & _). cbn. by rewrite E.
Qed.

(** Nothing below any region changes. *)
Lemma vectors_same s s' :
  running s -> agree shape (st_reg s) (st_reg s') -> gens_ok (st_reg s') ->
  rt_region_hd (st_rt s') = rt_region_hd (st_rt s) -> (st_next s <= st_next s')%positive ->
  (forall a r r', st_reg s !! a = Some r -> st_reg s' !! a = Some r' -> vec_kept r r') ->
  (forall a ms, mod_list s a ms -> mod_list s' a ms) -> vectors s -> vectors s'.
Proof.
  intros Hrun Hsh Hg Hhd Hn Hk Hlist. apply (vectors_moved s s' []); [done| | | |intros a ms _; apply Hlist|].
  - by apply (tree_ok_frame s); [apply run_tree|..].
  - by intros k a ?%not_elem_of_nil.
  - intros a r' _ Hr'. symmetry in Hsh. destruct (agree_lookup _ _ _ _ _ Hsh Hr') as (r & Hr & E).
    injection E as _ _ _ _ E1 E2. exists r. split_and!; [done..|]. by eapply Hk.
  - by intros a r' h ms ?%not_elem_of_nil.
Qed.

(** A list operation marks the region and its ancestors dirty. *)
Lemma vectors_list_step s s' l ls :
  running s -> running s' -> linked (parent_of (st_reg s)) (Some l) ls -> list_step ls s s' ->
  (forall a mss, a <> l -> mod_list s a mss -> mod_list s' a mss) -> vectors s -> vectors s'.
Proof.
  intros Hrun Hrun' Hls Hst Hoth. pose proof (lst_reg _ _ _ Hst) as Hcore.
  assert (forall a r', st_reg s' !! a = Some r' -> exists r, st_reg s !! a = Some r /\ reg_core r' = reg_core r)
    as Hback.
  { intros a r' Hr'. symmetry in Hcore. destruct (agree_lookup _ _ _ _ _ Hcore Hr') as (r & Hr & E).
    by exists r. }
  apply (vectors_moved s s' ls); [done|apply Hrun'|..].
  - intros k a Hk Hp. eapply linked_closed; [exact Hls|done|]. rewrite <- Hp. unfold parent_of.
    apply (agree_core r_parent); done.
  - intros a r' _ Hr'. destruct (Hback a r' Hr') as (r & Hr & E). exists r. split; [done|].
    assert (forall T (f : region_entry -> T), (forall r, f (reg_core r) = f r) -> f r = f r') as Hf
      by (intros T f Hf; by rewrite <- (Hf r), <- (Hf r'), E).
    split; [by apply Hf|]. split; [by apply Hf|]. intros Hc.
    pose proof (lst_clean _ _ _ Hst a r' Hr' Hc) as Hd. rewrite Hr in Hd. injection Hd as Hd.
    split; [done|]. by symmetry; apply Hf.
  - intros a mss Ha. apply Hoth. intros ->. apply Ha. inversion Hls; subst. left.
  - intros a r' h mss Ha Hr' _ Hc. destruct (lst_dirty _ _ _ Hst a r' Ha Hr') as [Hd _]. congruence.
Qed.

(** A rebuild of a dirty vector. *)
Lemma rebuild_vectors s l r rc s' :
  running s -> st_reg s !! l = Some r -> r_subtree_mods_dirty r = true ->
  region_rebuild_subtree_mods (Some l) s = Ok (rc, s') -> vectors s -> vectors s'.
Proof.
  intros Hrun Hr Hd H Hv. destruct (rebuild_inv _ _ _ _ H) as (s1 & Hf & Hend).
  pose proof (filling_links _ _ _ Hf) as Hl. pose proof (filling_mod _ _ _ Hf) as Em.
  assert (vectors s1) as Hv1.
  { intros a ra h ms Ha Hpre. rewrite Em, <- Hl in Hpre. destruct (decide (a = l)) as [->|Hne].
    - pose proof (fi_root _ _ _ Hf) as E. rewrite Ha, Hr in E. apply (inj Some) in E. intros Hc.
      assert (r_subtree_mods_dirty ra = r_subtree_mods_dirty r) as E2; [|congruence].
      change (r_subtree_mods_dirty (no_vec ra) = r_subtree_mods_dirty (no_vec r)). by rewrite E.
    - rewrite (fi_other _ _ _ Hf a Hne) in Ha. by eapply Hv. }
  destruct Hend as [->|(r1 & Hr1 & -> & Hms)]; [done|].
  intros a ra h ms Ha Hpre. cbn in Ha, Hpre.
  rewrite <- (agree_insert links _ _ r1) in Hpre by done.
  apply lookup_insert_Some in Ha as [[<- <-]|[Hne Ha]]; [|by eapply Hv1].
  intros _. cbn. rewrite Em, <- Hl in Hpre. by eapply Hms.
Qed.

End Steps.
