(* ===== verification/Paths.v ===== *)
(** * Module paths

    Resolution of the shared-library path of a module and interning of paths
    ([module_load_path], [module_path_intern] of src/libxylem.c). *)

From S2P Require Import Prelude QMap Status State Machine.
From stdpp Require Import options.
Local Open Scope Z_scope.

Section Paths.
Context {Q : QMapOps} {P : Platform}.

(** The resolved path when the file exists, else the name with its suffix;
    NULL when there is no memory for the latter. *)
Definition module_load_path (fname : string) : XM (option string) :=
  ok ← try_alloc;
  if ok : bool then
    let buf := String.append fname ".so" in
    mret (Some (default buf (plat_realpath buf)))
  else mret None.

(** Takes over the string [path]; equal strings get the same pointer. *)
Definition module_path_intern (path : option string) : XM (option loc) :=
  match path with
  | None => mret None
  | Some path =>
      upd_rt (fun rt => set_rt_path_intern_hd
        (match rt_path_intern_hd rt with None => Some qopen | hd => hd end) rt);;
      hd ← handle rt_path_intern_hd;
      match qget hd path with
      | Some interned => mret (Some interned)
      | None =>
          l ← fresh_loc;
          modify (fun s => set_st_str (<[l := path]> (st_str s)) s);;
          upd_rt (set_rt_path_intern_hd (Some (qput hd path l)));;
          mret (Some l)
      end
  end.

Definition path_intern_free_all : XM unit := upd_rt (set_rt_path_intern_hd None).

(** The interning table maps each path to the one pointer that holds it. *)
Definition intern_ok (s : state) : Prop :=
  (forall hd p l, rt_path_intern_hd (st_rt s) = Some hd -> qget hd p = Some l ->
     st_str s !! l = Some p) /\
  (forall l, is_Some (st_str s !! l) -> (l < st_next s)%positive).

End Paths.

Section PathsFacts.
Context {Q : QMapOps} {QL : QMapLaws Q} {P : Platform}.

(** The handle after the lazy opening of the table. *)
Definition intern_hd (s : state) : qmap string loc :=
  default qopen (rt_path_intern_hd (st_rt s)).

(** [new] is [old] with an entry for [p]; what [old] holds stays. *)
Definition path_added (old new : qmap string loc) (p : string) : Prop :=
  is_Some (qget new p) /\ forall q, q <> p \/ is_Some (qget old p) -> qget new q = qget old q.

(** Interning touches the table, the strings and the next address only. *)
Lemma module_path_intern_frame s p :
  exists l h strs nx, module_path_intern (Some p) s =
      Ok (Some l, set_st_rt (set_rt_path_intern_hd (Some h) (st_rt s))
                    (set_st_str strs (set_st_next nx s))) /\
    (st_next s <= nx)%positive /\ path_added (intern_hd s) h p.
Proof using QL.
  change (intern_hd s) with (default qopen (rt_path_intern_hd (st_rt s))).
  set (hd := match rt_path_intern_hd (st_rt s) with None => qopen | Some hd => hd end).
  set (s1 := set_st_rt (set_rt_path_intern_hd (Some hd) (st_rt s)) s).
  unfold module_path_intern. rewrite (bind_Ok _ _ s s1 tt).
  2: { unfold upd_rt, modify, s1, hd. by destruct (rt_path_intern_hd (st_rt s)). }
  rewrite (bind_Ok (handle rt_path_intern_hd) _ s1 s1 hd eq_refl).
  replace (default qopen (rt_path_intern_hd (st_rt s))) with hd by by subst hd; destruct (rt_path_intern_hd (st_rt s)).
  destruct (qget hd p) as [l|] eqn:Hp.
  - exists l, hd, (st_str s), (st_next s). split; [by destruct s|]. split; [done|]. split; [by rewrite Hp|done].
  - exists (st_next s), (qput hd p (st_next s)), (<[st_next s := p]> (st_str s)), (Pos.succ (st_next s)).
    split; [done|split; [lia|split]]; [rewrite qget_put_eq; by eexists|].
    intros q [Hq|Hs]; [by apply qget_put_ne|]. rewrite Hp in Hs. by destruct Hs.
Qed.

Lemma intern_open_step s :
  match rt_path_intern_hd (st_rt s) with None => Some qopen | hd => hd end = Some (intern_hd s).
Proof. unfold intern_hd. by destruct (rt_path_intern_hd (st_rt s)). Qed.

Lemma module_path_intern_spec (s : state) (p : string) :
  intern_ok s ->
  exists l s', module_path_intern (Some p) s = Ok (Some l, s') /\ intern_ok s' /\
    st_str s' !! l = Some p /\
    (exists hd, rt_path_intern_hd (st_rt s') = Some hd /\ qget hd p = Some l) /\
    (forall q l', qget (intern_hd s) q = Some l' ->
       qget (intern_hd s') q = Some l' /\ (l' = l <-> q = p)) /\
    st_reg s' = st_reg s /\ st_mod s' = st_mod s /\ st_tls s' = st_tls s.
Proof using QL.
  intros [Hstr Hfresh].
  assert (forall q l', qget (intern_hd s) q = Some l' -> st_str s !! l' = Some q) as Hstr'.
  { intros q l'. unfold intern_hd. destruct (rt_path_intern_hd (st_rt s)) as [hd|] eqn:E; cbn.
    - by apply Hstr.
    - by rewrite qget_open. }
  set (s1 := set_st_rt (set_rt_path_intern_hd (Some (intern_hd s)) (st_rt s)) s).
  assert (module_path_intern (Some p) s =
    match qget (intern_hd s) p with
    | Some l => Ok (Some l, s1)
    | None => Ok (Some (st_next s),
        set_st_rt (set_rt_path_intern_hd (Some (qput (intern_hd s) p (st_next s))) (st_rt s))
          (set_st_str (<[st_next s := p]> (st_str s)) (set_st_next (Pos.succ (st_next s)) s)))
    end) as ->.
  { unfold module_path_intern. rewrite (bind_Ok _ _ s s1 tt).
    2: { unfold upd_rt, modify. by rewrite intern_open_step. }
    rewrite (bind_Ok (handle rt_path_intern_hd) _ s1 s1 (intern_hd s) eq_refl).
    by destruct (qget (intern_hd s) p). }
  destruct (qget (intern_hd s) p) as [l|] eqn:Hp; do 2 eexists; (split; [reflexivity|]).
  - split; [split|split; [by apply Hstr'|split]].
    + intros hd q l' [= <-] Hq. by apply Hstr'.
    + apply Hfresh.
    + by exists (intern_hd s).
    + split; [|done]. intros q l' Hq. split; [done|].
      pose proof (Hstr' _ _ Hp). pose proof (Hstr' _ _ Hq). split; [|intros ->]; congruence.
  - split; [split|split; [apply lookup_insert_eq|split]].
    + intros hd q l' [= <-]. cbn. rewrite qget_put. case_decide as E.
      * intros [= <-]. by rewrite lookup_insert_eq, E.
      * intros Hq%Hstr'. rewrite lookup_insert_ne; [done|]. intros <-.
        assert (is_Some (st_str s !! st_next s)) as H%Hfresh by by rewrite Hq. lia.
    + cbn. intros l. rewrite lookup_insert. case_decide as E; [lia|]. intros H%Hfresh. lia.
    + eexists. split; [done|]. by rewrite qget_put_eq.
    + split; [|done]. intros q l' Hq. cbn. rewrite qget_put. split.
      * rewrite decide_False; [done|]. intros ->. congruence.
      * apply Hstr' in Hq as H. split; [|intros ->; congruence]. intros ->.
        assert (is_Some (st_str s !! st_next s)) as H'%Hfresh by by rewrite H. lia.
Qed.

(** C31: [module_path_intern] returns a pointer to the path; the table stays a
    bijection between interned paths and pointers, so two interned paths are
    equal strings exactly when they are equal pointers. *)
Theorem module_path_intern_correct (s : state) (p : string) :
  intern_ok s ->
  exists l s', module_path_intern (Some p) s = Ok (Some l, s') /\ intern_ok s' /\
    st_str s' !! l = Some p /\
    (exists hd, rt_path_intern_hd (st_rt s') = Some hd /\ qget hd p = Some l) /\
    (forall q l', qget (intern_hd s) q = Some l' ->
       qget (intern_hd s') q = Some l' /\ (l' = l <-> q = p)) /\
    st_reg s' = st_reg s /\ st_mod s' = st_mod s /\ st_tls s' = st_tls s.
Proof using QL. apply module_path_intern_spec. Qed.

End PathsFacts.
