(* ===== verification/Identity.v ===== *)
(** * Module identity

    Lookup of a module by name and region, and the re-keying of a module that
    moves to a claimed region: [module_lookup_from_fname],
    [module_rekey_for_claim] and its helpers in src/libxylem.c. *)

From S2P Require Import Prelude QMap Status State Machine ModKey Linked Region RegionTree ModList.
From S2P Require Import Runtime Paths.
From stdpp Require Import options.
Local Open Scope Z_scope.

(** [xy_lookup_result_t] *)
Record lookup_result := LookupResult {
  lk_entry : option loc;
  lk_key : option string;
  lk_load_path : option string;
  lk_err : Z
}.

Definition lookup_failed (err : Z) : lookup_result := LookupResult None None None err.

Section Identity.
Context {Q : QMapOps} {P : Platform}.

Definition module_lookup_from_fname (fname : string) (region_id : Z) : XM lookup_result :=
  path ← module_load_path fname;
  match path with
  | None => mret (lookup_failed XY_ERR_INVALID)
  | Some path =>
      ok ← try_alloc;
      if ok : bool then
        let key := mod_key (mod_key_len path) path region_id in
        hd ← handle rt_mod_hd;
        mret (LookupResult (qget hd key) (Some key) (Some path) XY_OK)
      else mret (lookup_failed XY_ERR_INVALID)
  end.

Definition MOD_BY_REGION_MAX : nat := 512.

(** The index of [parent_id] is emptied and refilled with at most
    MOD_BY_REGION_MAX of its other modules. *)
Definition reindexed (hd : qmulti Z loc) (me : loc) (parent_id child_id : Z) : qmulti Z loc :=
  let others := take MOD_BY_REGION_MAX (filter (fun e => e <> me) (qmiter hd parent_id)) in
  let hd := foldl (fun hd e => qmput hd parent_id e) (qmdel_all hd parent_id) others in
  qmput hd child_id me.

Definition module_rekey_region_index (me : loc) (parent_id child_id : Z) : XM unit :=
  hd ← handle rt_mod_by_region_hd;
  upd_rt (set_rt_mod_by_region_hd (Some (reindexed hd me parent_id child_id))).

Definition module_rekey_loaded_entry (me : loc) (old_key load_path : string)
    (parent_id child_id : Z) : XM unit :=
  ok ← try_alloc;
  if ok : bool then
    let new_key := mod_key (mod_key_len load_path) load_path child_id in
    upd_module me (set_m_region_id child_id);;
    hd ← handle rt_mod_hd;
    upd_rt (set_rt_mod_hd (Some (qdel (qput hd new_key me) old_key)));;
    upd_module me (set_m_mod_key new_key);;
    module_rekey_region_index me parent_id child_id;;
    m ← module_at me;
    match m_ctx m with
    | Some ctx => upd_ctx ctx (set_x_region_id child_id)
    | None => mret tt
    end
  else mret tt.

Definition module_rekey_for_claim (caller : string) (parent_id child_id : Z) : XM unit :=
  lookup ← module_lookup_from_fname caller parent_id;
  match lk_load_path lookup, lk_entry lookup, lk_key lookup with
  | Some load_path, Some entry, Some key =>
      module_rekey_loaded_entry entry key load_path parent_id child_id
  | _, _, _ => mret tt
  end.

(** The registry holds live modules, whose contexts are live. *)
Record registry_ok (s : state) : Prop := {
  rg_hd : exists hd, rt_mod_hd (st_rt s) = Some hd /\
    forall k l, qget hd k = Some l -> is_Some (st_mod s !! l);
  rg_index : is_Some (rt_mod_by_region_hd (st_rt s));
  rg_ctx : forall l m c, st_mod s !! l = Some m -> m_ctx m = Some c -> is_Some (st_ctx s !! c)
}.

(** The module after a move. *)
Definition rekeyed_mod (child_id : Z) (new_key : string) (m : mod_entry) : mod_entry :=
  set_m_mod_key new_key (set_m_region_id child_id m).

(** What a re-keying leaves in a module. *)
Definition unkeyed (m : mod_entry) : mod_entry := rekeyed_mod 0 "" m.

(** What a re-keying leaves in the state. *)
Record rekey_frame (s s' : state) : Prop := {
  rf_reg : st_reg s' = st_reg s;
  rf_tls : st_tls s' = st_tls s;
  rf_err : st_err s' = st_err s;
  rf_next : st_next s' = st_next s;
  rf_alloc : st_alloc s' = st_alloc s;
  rf_hd : rt_region_hd (st_rt s') = rt_region_hd (st_rt s);
  rf_inited : rt_inited (st_rt s') = rt_inited (st_rt s);
  rf_mod : forall x, unkeyed <$> st_mod s' !! x = unkeyed <$> st_mod s !! x
}.

(** The path a name resolves to. *)
Definition resolved (fname : string) : string :=
  default (String.append fname ".so") (plat_realpath (String.append fname ".so")).

End Identity.

Section IdentityFacts.
Context {Q : QMapOps} {QL : QMapLaws Q} {P : Platform}.
Implicit Types (s : state).

Lemma module_load_path_eq fname s :
  st_alloc s = [] -> module_load_path fname s = Ok (Some (resolved fname), s).
Proof.
  intros Ha. unfold module_load_path. rewrite (bind_Ok _ _ s s true); [done|].
  unfold try_alloc. by rewrite Ha.
Qed.

(** With memory available, a lookup asks the registry for the key of the
    resolved path. *)
Lemma module_lookup_from_fname_eq fname id hd s :
  st_alloc s = [] -> rt_mod_hd (st_rt s) = Some hd ->
  module_lookup_from_fname fname id s =
    Ok (LookupResult (qget hd (registry_key (resolved fname) id))
          (Some (registry_key (resolved fname) id)) (Some (resolved fname)) XY_OK, s).
Proof.
  intros Ha Hhd. unfold module_lookup_from_fname.
  rewrite (bind_Ok _ _ _ _ _ (module_load_path_eq fname s Ha)).
  rewrite (bind_Ok try_alloc _ s s true) by (unfold try_alloc; by rewrite Ha).
  by rewrite (bind_Ok (handle rt_mod_hd) _ s s hd) by (apply wp_eq; by eapply wp_handle).
Qed.

#[export] Instance rekey_frame_refl : Reflexive rekey_frame.
Proof. by intros s. Qed.

Lemma registry_ok_put s hd k me m m' :
  registry_ok s -> rt_mod_hd (st_rt s) = Some hd ->
  st_mod s !! me = Some m -> m_ctx m' = m_ctx m ->
  forall s', rt_mod_hd (st_rt s') = Some (qdel (qput hd (m_mod_key m') me) k) ->
    is_Some (rt_mod_by_region_hd (st_rt s')) -> st_mod s' = <[me := m']> (st_mod s) ->
    (forall c, is_Some (st_ctx s !! c) -> is_Some (st_ctx s' !! c)) -> registry_ok s'.
Proof using QL.
  intros [Hhd Hi Hc] E Hm Em s' E' Hi' Emod Hctx. split.
  - exists (qdel (qput hd (m_mod_key m') me) k). split; [done|]. intros k' l.
    destruct Hhd as (hd' & Eh & Hlive). simplify_eq. rewrite Emod, qget_del.
    case_decide; [done|]. rewrite qget_put. destruct (decide (me = l)) as [->|Hne].
    { by rewrite lookup_insert_eq. }
    rewrite lookup_insert_ne by done. case_decide; [congruence|]. apply Hlive.
  - done.
  - intros l ml c. rewrite Emod. intros [[<- <-]|[? ?]]%lookup_insert_Some ?; apply Hctx.
    + apply (Hc me m); congruence.
    + by eapply Hc.
Qed.

Lemma module_rekey_loaded_entry_spec s me m old path parent_id child_id hd :
  registry_ok s -> st_alloc s = [] -> st_mod s !! me = Some m -> rt_mod_hd (st_rt s) = Some hd ->
  wp (module_rekey_loaded_entry me old path parent_id child_id) s (fun _ s' =>
    rekey_frame s s' /\ registry_ok s' /\
    rt_mod_hd (st_rt s') = Some (qdel (qput hd (registry_key path child_id) me) old) /\
    st_mod s' !! me = Some (rekeyed_mod child_id (registry_key path child_id) m) /\
    forall c cx, m_ctx m = Some c -> st_ctx s !! c = Some cx ->
      st_ctx s' !! c = Some (set_x_region_id child_id cx)).
Proof using QL.
  intros Hok Ha Hm Hhd. destruct (rg_index _ Hok) as [ix Hix].
  unfold module_rekey_loaded_entry. repeat wp_step. unfold module_rekey_region_index.
  repeat wp_step.
  assert (m_ctx (set_m_mod_key (registry_key path child_id) (set_m_region_id child_id m)) = m_ctx m)
    as Ec by done.
  assert (forall x, unkeyed <$> <[me := rekeyed_mod child_id (registry_key path child_id) m]>
     (<[me := set_m_region_id child_id m]> (st_mod s)) !! x = unkeyed <$> st_mod s !! x) as Hu.
  { intros x. rewrite insert_insert_eq, lookup_insert. case_decide; [|done]. subst. by rewrite Hm. }
  cbn. destruct (m_ctx m) as [c|] eqn:Hc.
  - destruct (rg_ctx _ Hok _ _ _ Hm Hc) as [cx Hcx]. unfold upd_ctx. wp_step.
    eapply wp_ctx_at; [exact Hcx|]. wp_step. split_and!.
    + by split.
    + eapply (registry_ok_put s hd old me m (rekeyed_mod child_id (registry_key path child_id) m));
        [done..|by eexists|cbn; by rewrite insert_insert_eq|].
      intros c'. cbn. rewrite lookup_insert. by case_decide.
    + done.
    + cbn. by rewrite lookup_insert_eq.
    + intros c' cx' [= <-] E. cbn. rewrite lookup_insert_eq. congruence.
  - wp_step. split_and!.
    + by split.
    + eapply (registry_ok_put s hd old me m (rekeyed_mod child_id (registry_key path child_id) m));
        [done..|by eexists|cbn; by rewrite insert_insert_eq|done].
    + done.
    + cbn. by rewrite lookup_insert_eq.
    + done.
Qed.

(** Re-keying finishes, and touches nothing but the registry, the module and
    its context. *)
Lemma module_rekey_for_claim_spec s caller parent_id child_id :
  registry_ok s -> st_alloc s = [] ->
  wp (module_rekey_for_claim caller parent_id child_id) s (fun _ s' =>
    rekey_frame s s' /\ registry_ok s').
Proof using QL.
  intros Hok Ha. destruct (rg_hd _ Hok) as (hd & Hhd & Hlive).
  unfold module_rekey_for_claim. apply wp_bind. apply wp_Ok.
  do 2 eexists. split; [by apply module_lookup_from_fname_eq|]. cbn.
  destruct (qget hd _) as [me|] eqn:Hg; [|done].
  destruct (Hlive _ _ Hg) as [m Hm].
  eapply wp_mono; [by eapply module_rekey_loaded_entry_spec|]. naive_solver.
Qed.

End IdentityFacts.
