(* ===== verification/FnCache.v ===== *)
(** * Function caches

    The per-module cache of hook functions and its bit set of implemented
    hooks: [module_ensure_hook_impl_words], [module_mark_hook_implemented],
    [module_ensure_fn_cache_cap], [module_clear_fn_cache_for_handle] of
    src/libxylem.c, [module_has_hook_implemented] of src/libxylem-internal.h,
    [fn_cache_resolve] and [fn_cache_prewarm] of src/libxylem-dispatch.c. *)

From S2P Require Import Prelude QMap Status State Machine ModKey Linked Region RegionTree ModList.
From S2P Require Import Runtime Paths Identity.
From stdpp Require Import options.
Local Open Scope Z_scope.

(** ** The bit set *)

(** [words] 64-bit words, as many as [hook_id] needs. *)
Definition grow_words (hook_id : Z) (ws : list Z) : list Z :=
  ws ++ replicate (Z.to_nat (hook_id / 64 + 1) - length ws) 0.

Definition set_hook_bit (hook_id : Z) (ws : list Z) : list Z :=
  alter (fun w => Z.lor w (Z.shiftl 1 (hook_id mod 64))) (Z.to_nat (hook_id / 64)) ws.

Definition hook_bit (ws : list Z) (hook_id : Z) : bool :=
  match ws !! Z.to_nat (hook_id / 64) with
  | Some w => negb (Z.land w (Z.shiftl 1 (hook_id mod 64)) =? 0)
  | None => false
  end.

Definition module_has_hook_implemented (me : mod_entry) (hook_id : Z) : bool :=
  if hook_id <? 0 then false else hook_bit (m_hook_impl_bits me) hook_id.

(** What [fn_cache_resolve] answers: XY_FN_RESOLVE_OOM, NULL, or a function. *)
Inductive resolution := ResOom | ResNone | ResFn (a : loc).

Section FnCache.
Context {Q : QMapOps} {P : Platform}.

Definition module_ensure_hook_impl_words (me : loc) (hook_id : Z) : XM Z :=
  if hook_id <? 0 then mret (-1)
  else
    m ← module_at me;
    if (Z.to_nat (hook_id / 64 + 1) <=? length (m_hook_impl_bits m))%nat then mret 0
    else
      ok ← try_alloc;
      if ok : bool then
        upd_module me (fun m => set_m_hook_impl_bits (grow_words hook_id (m_hook_impl_bits m)) m);;
        mret 0
      else mret (-1).

Definition module_mark_hook_implemented (me : loc) (hook_id : Z) : XM unit :=
  if hook_id <? 0 then mret tt
  else
    rc ← module_ensure_hook_impl_words me hook_id;
    if rc <? 0 then mret tt
    else upd_module me (fun m => set_m_hook_impl_bits (set_hook_bit hook_id (m_hook_impl_bits m)) m).

Definition module_ensure_fn_cache_cap (me : loc) (needed : Z) : XM Z :=
  m ← module_at me;
  let cap := Z.of_nat (length (m_fn_cache m)) in
  if needed <=? cap then mret 0
  else
    ok ← try_alloc;
    if ok : bool then
      upd_module me (fun m =>
        set_m_fn_cache (m_fn_cache m ++ replicate (Z.to_nat (needed - cap)) FnNull) m);;
      mret 0
    else mret (-1).

(** [me->fn_cache[hook_id] = cb ? cb : XY_FN_NOT_FOUND], within the array. *)
Definition fn_cache_set (me : loc) (hook_id : Z) (cb : option loc) : XM unit :=
  m ← module_at me;
  if decide (0 <= hook_id < Z.of_nat (length (m_fn_cache m))) then
    put_module me (set_m_fn_cache
      (<[Z.to_nat hook_id := match cb with Some a => Fn a | None => FnNotFound end]>
         (m_fn_cache m)) m)
  else undef.

(** The part of [fn_cache_resolve] that asks the loader. *)
Definition resolve_slow (me : loc) (hook_id : Z) (name : string) : XM resolution :=
  m ← module_at me;
  let cb := plat_dlsym (m_handle m) name in
  (if 0 <=? hook_id then fn_cache_set me hook_id cb else mret tt);;
  match cb with
  | Some a =>
      (if 0 <=? hook_id then module_mark_hook_implemented me hook_id else mret tt);;
      mret (ResFn a)
  | None => mret ResNone
  end.

Definition fn_cache_resolve (me : loc) (hook_id : Z) (name : string) : XM resolution :=
  m ← module_at me;
  if (0 <=? hook_id) && (hook_id <? Z.of_nat (length (m_fn_cache m))) then
    match m_fn_cache m !! Z.to_nat hook_id with
    | Some FnNotFound => mret ResNone
    | Some (Fn a) => mret (ResFn a)
    | _ => resolve_slow me hook_id name
    end
  else if 0 <=? hook_id then
    rc ← module_ensure_fn_cache_cap me (hook_id + 16);
    if rc <? 0 then mret ResOom else resolve_slow me hook_id name
  else resolve_slow me hook_id name.

Fixpoint prewarm_loop (me : loc) (hooks : list (string * Z)) : XM unit :=
  match hooks with
  | [] => mret tt
  | (name, hook_id) :: rest =>
      m ← module_at me;
      (if (hook_id <? 0) || (Z.of_nat (length (m_fn_cache m)) <=? hook_id) then mret tt
       else
         match m_fn_cache m !! Z.to_nat hook_id with
         | Some FnNull =>
             let cb := plat_dlsym (m_handle m) name in
             fn_cache_set me hook_id cb;;
             match cb with
             | Some _ => module_mark_hook_implemented me hook_id
             | None => mret tt
             end
         | _ => mret tt
         end);;
      prewarm_loop me rest
  end.

Definition fn_cache_prewarm (me : loc) : XM Z :=
  m ← module_at me;
  match m_handle m with
  | None => mret 0
  | Some _ =>
      needed ← gets (fun s => rt_hook_id_counter (st_rt s));
      if needed <=? 0 then mret 0
      else
        rc ← module_ensure_fn_cache_cap me (needed + 16);
        if rc <? 0 then mret (-1)
        else
          hd ← handle rt_hook_id_hd;
          prewarm_loop me (qiter hd);;
          mret 0
  end.

(** *** Forgetting the functions of an image *)

Definition module_base_from_symbol (sym : option loc) : option loc :=
  match sym with None => None | Some a => plat_dladdr a end.

Definition module_handle_base (hdl : option loc) : option loc :=
  module_base_from_symbol
    (match plat_dlsym hdl "xy_install" with
     | Some a => Some a
     | None => plat_dlsym hdl "get_xy_ptr"
     end).

Definition forget_fn (base : loc) (fp : fnptr) : fnptr :=
  match fp with
  | Fn a => if decide (module_base_from_symbol (Some a) = Some base) then FnNull else fp
  | _ => fp
  end.

Fixpoint clear_loop (entry base : loc) (ms : list (string * loc)) : XM unit :=
  match ms with
  | [] => mret tt
  | (_, m) :: rest =>
      (if decide (m = entry) then mret tt
       else upd_module m (fun e => set_m_fn_cache (forget_fn base <$> m_fn_cache e) e));;
      clear_loop entry base rest
  end.

Definition module_clear_fn_cache_for_handle (entry : loc) : XM unit :=
  e ← module_at entry;
  match m_handle e with
  | None => mret tt
  | Some _ =>
      match module_handle_base (m_handle e) with
      | None => mret tt
      | Some base => hd ← handle rt_mod_hd; clear_loop entry base (qiter hd)
      end
  end.

End FnCache.

(** ** The bit set as a set *)

Lemma land_bit (w k : Z) : 0 <= k -> negb (Z.land w (Z.shiftl 1 k) =? 0) = Z.testbit w k.
Proof.
  intros Hk. rewrite Z.shiftl_1_l. apply eq_true_iff_eq. rewrite negb_true_iff, Z.eqb_neq. split.
  - intros Hne. destruct (Z.testbit w k) eqn:E; [done|]. destruct Hne. apply Z.bits_inj'.
    intros n Hn. rewrite Z.land_spec, Z.bits_0, Z.pow2_bits_eqb by lia.
    destruct (Z.eqb_spec k n) as [<-|]; [by rewrite E|apply andb_false_r].
  - intros Hb H0. apply (f_equal (fun z => Z.testbit z k)) in H0.
    by rewrite Z.land_spec, Z.bits_0, Z.pow2_bits_eqb, Z.eqb_refl, Hb in H0 by lia.
Qed.

Lemma testbit_set_bit (w k k' : Z) :
  0 <= k -> 0 <= k' -> Z.testbit (Z.lor w (Z.shiftl 1 k)) k' = bool_decide (k = k') || Z.testbit w k'.
Proof.
  intros Hk Hk'. rewrite Z.shiftl_1_l, Z.lor_spec, Z.pow2_bits_eqb by lia.
  rewrite orb_comm. f_equal. by destruct (Z.eqb_spec k k'); [rewrite bool_decide_true|rewrite bool_decide_false].
Qed.

Lemma hook_bit_grow h ws h' : hook_bit (grow_words h ws) h' = hook_bit ws h'.
Proof.
  unfold hook_bit, grow_words. destruct (decide (Z.to_nat (h' / 64) < length ws)%nat) as [Hl|Hl].
  - by rewrite lookup_app_l.
  - rewrite lookup_app_r by lia. rewrite (lookup_ge_None_2 ws) by lia.
    destruct (replicate _ _ !! _) as [w|] eqn:E; [|done]. apply lookup_replicate in E as [-> _].
    by rewrite Z.land_0_l.
Qed.

(** Setting a bit adds one element. *)
Lemma hook_bit_set h ws h' :
  0 <= h -> 0 <= h' ->
  hook_bit (set_hook_bit h (grow_words h ws)) h' = bool_decide (h = h') || hook_bit ws h'.
Proof.
  intros Hh Hh'. rewrite <- (hook_bit_grow h ws h').
  assert (Z.to_nat (h / 64) < length (grow_words h ws))%nat as Hl.
  { unfold grow_words. rewrite length_app, length_replicate.
    pose proof (Z.div_pos h 64 ltac:(lia) ltac:(lia)). lia. }
  generalize dependent (grow_words h ws). intros w Hl. unfold hook_bit, set_hook_bit.
  pose proof (Z.mod_pos_bound h 64 ltac:(lia)). pose proof (Z.mod_pos_bound h' 64 ltac:(lia)).
  pose proof (Z.div_mod h 64 ltac:(lia)). pose proof (Z.div_mod h' 64 ltac:(lia)).
  pose proof (Z.div_pos h 64 ltac:(lia) ltac:(lia)). pose proof (Z.div_pos h' 64 ltac:(lia) ltac:(lia)).
  destruct (decide (h / 64 = h' / 64)) as [Eq|Hne].
  - rewrite <- Eq, list_lookup_alter_eq.
    destruct (lookup_lt_is_Some_2 _ _ Hl) as [x Hx]. rewrite Hx. cbn [fmap option_fmap option_map].
    rewrite !land_bit by lia. rewrite testbit_set_bit by lia. f_equal. apply bool_decide_ext. split; lia.
  - rewrite list_lookup_alter_ne by lia. rewrite bool_decide_false by (intros ->; done). done.
Qed.

Section FnCacheFacts.
Context {Q : QMapOps} {QL : QMapLaws Q} {P : Platform}.
Implicit Types (s : state) (m : mod_entry).

(** The cache entry of one hook agrees with the loader and with the bit set. *)
Definition entry_ok (m : mod_entry) (h : Z) (name : string) : Prop :=
  match m_fn_cache m !! Z.to_nat h with
  | Some (Fn a) => plat_dlsym (m_handle m) name = Some a /\ module_has_hook_implemented m h = true
  | Some FnNotFound => plat_dlsym (m_handle m) name = None /\ module_has_hook_implemented m h = false
  | Some FnNull | None => module_has_hook_implemented m h = false
  end.

(** [m'] is [m] but for its cache and bit set, where only the hook [h] has
    changed. *)
Record cache_step (h : Z) (m m' : mod_entry) : Prop := {
  cs_rest : m' = set_m_fn_cache (m_fn_cache m') (set_m_hook_impl_bits (m_hook_impl_bits m') m);
  cs_len : (length (m_fn_cache m) <= length (m_fn_cache m'))%nat;
  cs_other : forall h', 0 <= h' -> h' <> h ->
    default FnNull (m_fn_cache m' !! Z.to_nat h') = default FnNull (m_fn_cache m !! Z.to_nat h') /\
    module_has_hook_implemented m' h' = module_has_hook_implemented m h'
}.

Definition as_fnptr (cb : option loc) : fnptr :=
  match cb with Some a => Fn a | None => FnNotFound end.

Lemma has_hook_eq m h : 0 <= h -> module_has_hook_implemented m h = hook_bit (m_hook_impl_bits m) h.
Proof. intros Hh. unfold module_has_hook_implemented. destruct (Z.ltb_spec h 0); [lia|done]. Qed.

(** With memory, marking sets the bit and nothing else. *)
Lemma mark_hook_eq me m h s :
  st_alloc s = [] -> st_mod s !! me = Some m -> 0 <= h ->
  module_mark_hook_implemented me h s =
    Ok (tt, set_st_mod (<[me := set_m_hook_impl_bits
                                  (set_hook_bit h (grow_words h (m_hook_impl_bits m))) m]>
                          (st_mod s)) s).
Proof.
  intros Ha Hm Hh. unfold module_mark_hook_implemented, module_ensure_hook_impl_words.
  destruct (Z.ltb_spec h 0); [lia|]. apply wp_eq. do 3 wp_step.
  destruct (Nat.leb_spec (Z.to_nat (h / 64 + 1)) (length (m_hook_impl_bits m))) as [Hl|Hl].
  - wp_step. cbn. eapply wp_upd_module; [done|]. split; [done|]. do 3 f_equal.
    unfold grow_words. replace (_ - _)%nat with 0%nat by lia. cbn. by rewrite app_nil_r.
  - repeat wp_step. cbn. eapply wp_upd_module; [apply lookup_insert_eq|]. split; [done|].
    cbn. by rewrite insert_insert_eq.
Qed.

(** What [fn_cache_resolve] and [fn_cache_prewarm] do once there is room. *)
Lemma resolve_slow_eq me m h name s :
  st_alloc s = [] -> st_mod s !! me = Some m -> 0 <= h < Z.of_nat (length (m_fn_cache m)) ->
  let cb := plat_dlsym (m_handle m) name in
  resolve_slow me h name s =
    Ok (match cb with Some a => ResFn a | None => ResNone end,
        set_st_mod (<[me :=
          set_m_hook_impl_bits
            (match cb with
             | Some _ => set_hook_bit h (grow_words h (m_hook_impl_bits m))
             | None => m_hook_impl_bits m
             end)
            (set_m_fn_cache (<[Z.to_nat h := as_fnptr cb]> (m_fn_cache m)) m)]> (st_mod s)) s).
Proof.
  intros Ha Hm Hh cb. unfold resolve_slow.
  rewrite (bind_Ok (module_at me) _ s s m) by (apply wp_eq; by eapply wp_module_at). fold cb.
  destruct (Z.leb_spec 0 h); [|lia].
  set (m1 := set_m_fn_cache (<[Z.to_nat h := as_fnptr cb]> (m_fn_cache m)) m).
  set (s1 := set_st_mod (<[me := m1]> (st_mod s)) s).
  rewrite (bind_Ok (fn_cache_set me h cb) _ s s1 tt).
  2: { apply wp_eq. unfold fn_cache_set. do 2 wp_step. rewrite decide_True by lia. done. }
  destruct cb as [a|] eqn:Ecb.
  - rewrite (bind_Ok _ _ _ _ _ (mark_hook_eq me m1 h s1 Ha ltac:(apply lookup_insert_eq) ltac:(lia))).
    cbn. by rewrite insert_insert_eq.
  - cbn. subst m1 s1. by destruct m.
Qed.

(** The hook is resolved: the cache holds what the loader answers. *)
Definition known (m : mod_entry) (h : Z) (name : string) : Prop :=
  m_fn_cache m !! Z.to_nat h = Some (as_fnptr (plat_dlsym (m_handle m) name)) /\
  module_has_hook_implemented m h = bool_decide (is_Some (plat_dlsym (m_handle m) name)).

Lemma known_entry_ok m h name : known m h name -> entry_ok m h name.
Proof.
  intros [E1 E2]. unfold entry_ok. rewrite E1. destruct (plat_dlsym (m_handle m) name); cbn.
  - split; [done|]. by rewrite E2, bool_decide_true.
  - split; [done|]. by rewrite E2, bool_decide_false by by intros [].
Qed.

Lemma entry_ok_known m h name fp :
  entry_ok m h name -> m_fn_cache m !! Z.to_nat h = Some fp -> fp <> FnNull -> known m h name.
Proof.
  unfold entry_ok, known. intros Hok E Hne. rewrite E in *. destruct fp as [| |a]; [done|..].
  - destruct Hok as [-> ->]. split; [done|]. by rewrite bool_decide_false by by intros [].
  - destruct Hok as [-> ->]. split; [done|]. by rewrite bool_decide_true.
Qed.

Lemma cache_step_refl h m : cache_step h m m.
Proof. split; [by destruct m|lia|done]. Qed.

Lemma cache_step_trans h m1 m2 m3 : cache_step h m1 m2 -> cache_step h m2 m3 -> cache_step h m1 m3.
Proof.
  intros [R1 L1 O1] [R2 L2 O2]. split.
  - rewrite R2. by rewrite R1.
  - lia.
  - intros h' H0 Hne. destruct (O1 h' H0 Hne), (O2 h' H0 Hne). split; congruence.
Qed.

(** A step leaves the other hooks as resolved as they were. *)
Lemma cache_step_handle h m m' : cache_step h m m' -> m_handle m' = m_handle m.
Proof. intros [-> _ _]. done. Qed.

Lemma lookup_default_null (l : list fnptr) i fp :
  default FnNull (l !! i) = fp -> fp <> FnNull -> l !! i = Some fp.
Proof. destruct (l !! i); cbn; congruence. Qed.

Lemma cache_step_known h h' m m' name :
  cache_step h m m' -> 0 <= h' -> h' <> h -> known m h' name -> known m' h' name.
Proof.
  intros Hs H0 Hne [E1 E2]. destruct (cs_other _ _ _ Hs h' H0 Hne) as [F1 F2].
  unfold known. rewrite (cache_step_handle _ _ _ Hs), F2. split; [|done].
  apply lookup_default_null; [by rewrite F1, E1|]. by destruct (plat_dlsym _ _).
Qed.

Lemma cache_step_entry_ok h h' m m' name :
  cache_step h m m' -> 0 <= h' -> h' <> h -> entry_ok m h' name -> entry_ok m' h' name.
Proof.
  intros Hs H0 Hne Hok. destruct (cs_other _ _ _ Hs h' H0 Hne) as [F1 F2].
  unfold entry_ok in *. rewrite (cache_step_handle _ _ _ Hs), F2.
  destruct (m_fn_cache m !! Z.to_nat h') as [[]|], (m_fn_cache m' !! Z.to_nat h') as [[]|];
    cbn in F1; try done; naive_solver.
Qed.

(** The state change of [resolve_slow]. *)
Lemma resolved_step m h name :
  0 <= h < Z.of_nat (length (m_fn_cache m)) -> module_has_hook_implemented m h = false ->
  let cb := plat_dlsym (m_handle m) name in
  let m' := set_m_hook_impl_bits
              (match cb with
               | Some _ => set_hook_bit h (grow_words h (m_hook_impl_bits m))
               | None => m_hook_impl_bits m
               end) (set_m_fn_cache (<[Z.to_nat h := as_fnptr cb]> (m_fn_cache m)) m) in
  cache_step h m m' /\ known m' h name.
Proof.
  intros Hh Hfalse cb m'. split.
  - split; [done|cbn; by rewrite length_insert|]. intros h' H0 Hne.
    split; [cbn; by rewrite list_lookup_insert_ne by lia|].
    rewrite !has_hook_eq by done. cbn. destruct cb; [|done].
    rewrite hook_bit_set by lia. by rewrite bool_decide_false by done.
  - split; [cbn; apply list_lookup_insert_eq; lia|].
    rewrite has_hook_eq in * by lia. change (m_handle m') with (m_handle m). fold cb. cbn.
    destruct cb; [|by rewrite Hfalse, bool_decide_false by by intros []].
    rewrite hook_bit_set by lia. by rewrite !bool_decide_true.
Qed.

(** Growing the cache changes no entry. *)
Lemma ensure_fn_cache_cap_eq me m needed s :
  st_alloc s = [] -> st_mod s !! me = Some m ->
  exists m', module_ensure_fn_cache_cap me needed s =
      Ok (0, set_st_mod (<[me := m']> (st_mod s)) s) /\
    (forall h, cache_step h m m') /\ needed <= Z.of_nat (length (m_fn_cache m')).
Proof.
  intros Ha Hm. unfold module_ensure_fn_cache_cap.
  rewrite (bind_Ok (module_at me) _ s s m) by (apply wp_eq; by eapply wp_module_at).
  destruct (Z.leb_spec needed (Z.of_nat (length (m_fn_cache m)))) as [Hle|Hgt].
  - exists m. split; [|split; [intros; apply cache_step_refl|lia]].
    rewrite insert_id by done. by destruct s.
  - eexists. split.
    { rewrite (bind_Ok try_alloc _ s s true) by (unfold try_alloc; by rewrite Ha).
      apply wp_eq. wp_step. eapply wp_upd_module; [done|]. done. }
    split; [|cbn; rewrite length_app, length_replicate; lia].
    intros h. split; [done|cbn; rewrite length_app; lia|]. intros h' _ _. split; [|done].
    cbn. destruct (m_fn_cache m !! Z.to_nat h') as [fp|] eqn:E.
    { by rewrite (lookup_app_l_Some _ _ _ _ E). }
    rewrite lookup_app_r by by apply lookup_ge_None.
    destruct (replicate _ _ !! _) eqn:E'; [|done]. by apply lookup_replicate in E' as [-> _].
Qed.

Lemma fn_cache_resolve_eq s me m h name :
  st_alloc s = [] -> st_mod s !! me = Some m -> 0 <= h -> entry_ok m h name ->
  exists m', fn_cache_resolve me h name s =
      Ok (match plat_dlsym (m_handle m) name with Some a => ResFn a | None => ResNone end,
          set_st_mod (<[me := m']> (st_mod s)) s) /\
    cache_step h m m' /\ known m' h name.
Proof.
  intros Ha Hm Hh Hok. unfold fn_cache_resolve.
  rewrite (bind_Ok (module_at me) _ s s m) by (apply wp_eq; by eapply wp_module_at).
  destruct (Z.leb_spec 0 h); [|lia]. cbn [andb].
  destruct (Z.ltb_spec h (Z.of_nat (length (m_fn_cache m)))) as [Hlt|Hge].
  - destruct (lookup_lt_is_Some_2 (m_fn_cache m) (Z.to_nat h)) as [fp Hfp]; [lia|]. rewrite Hfp.
    destruct (decide (fp = FnNull)) as [->|Hne].
    + rewrite resolve_slow_eq with (m := m) by done. eexists. split; [done|].
      apply resolved_step; [lia|]. unfold entry_ok in Hok. by rewrite Hfp in Hok.
    + pose proof (entry_ok_known _ _ _ _ Hok Hfp Hne) as Hk. exists m.
      rewrite insert_id, set_st_mod_id by done. split; [|split; [apply cache_step_refl|done]].
      destruct Hk as [E _]. rewrite Hfp in E. injection E as ->. by destruct (plat_dlsym _ _).
  - destruct (ensure_fn_cache_cap_eq me m (h + 16) s Ha Hm) as (m1 & Hrun & Hs & Hlen).
    rewrite (bind_Ok _ _ _ _ _ Hrun). cbn [Z.ltb Z.compare].
    set (s1 := set_st_mod _ s).
    rewrite (resolve_slow_eq me m1 h name s1); [|done|apply lookup_insert_eq|lia].
    rewrite (cache_step_handle _ _ _ (Hs h)). eexists. cbn. rewrite insert_insert_eq.
    split; [done|].
    destruct (resolved_step m1 h name) as [Hs1 Hk]; [lia| |].
    { pose proof (cs_other _ _ _ (Hs (h + 1)) h ltac:(lia) ltac:(lia)) as [_ ->].
      unfold entry_ok in Hok. by rewrite (lookup_ge_None_2 (m_fn_cache m)) in Hok by lia. }
    rewrite (cache_step_handle _ _ _ (Hs h)) in Hs1, Hk.
    split; [by eapply cache_step_trans|done].
Qed.

(** C34: resolving a hook whose cache entry is coherent answers what the loader
    answers, whether or not the answer was cached; afterwards the answer is
    cached, the bit set says whether the hook is implemented, and the other
    hooks' entries and bits are as before. *)
Theorem fn_cache_resolve_correct s me m h name :
  st_alloc s = [] -> st_mod s !! me = Some m -> 0 <= h -> entry_ok m h name ->
  exists m', fn_cache_resolve me h name s =
      Ok (match plat_dlsym (m_handle m) name with Some a => ResFn a | None => ResNone end,
          set_st_mod (<[me := m']> (st_mod s)) s) /\
    cache_step h m m' /\ known m' h name.
Proof. apply fn_cache_resolve_eq. Qed.

(** *** All hooks at once *)

(** Each registered hook has an id of its own below the counter. *)
Definition hooks_ok (s : state) : Prop :=
  exists ids, rt_hook_id_hd (st_rt s) = Some ids /\
    (forall n h, qget ids n = Some h -> 0 <= h < rt_hook_id_counter (st_rt s)) /\
    (forall n n' h, qget ids n = Some h -> qget ids n' = Some h -> n = n').

(** [m'] is [m] but for its cache and bit set, and outside [hs] no hook has
    lost what was known of it. *)
Record cache_steps (hs : list Z) (m m' : mod_entry) : Prop := {
  css_rest : m' = set_m_fn_cache (m_fn_cache m') (set_m_hook_impl_bits (m_hook_impl_bits m') m);
  css_len : (length (m_fn_cache m) <= length (m_fn_cache m'))%nat;
  css_known : forall h n, 0 <= h -> h ∉ hs -> known m h n -> known m' h n;
  css_ok : forall h n, 0 <= h -> h ∉ hs -> entry_ok m h n -> entry_ok m' h n
}.

Lemma cache_step_steps h m m' : cache_step h m m' -> cache_steps [h] m m'.
Proof.
  intros Hs. pose proof Hs as [R L O]. split; [done|done|..]; intros h' n H0 Hne%not_elem_of_cons.
  - eapply cache_step_known; naive_solver.
  - eapply cache_step_entry_ok; naive_solver.
Qed.

(** A step that changes no hook at all. *)
Lemma cache_step_all_steps m m' : (forall h, cache_step h m m') -> cache_steps [] m m'.
Proof.
  intros Hs. destruct (Hs 0) as [R L _]. split; [done|done|..]; intros h n H0 _.
  - apply (cache_step_known (h + 1)); [done|done|lia].
  - apply (cache_step_entry_ok (h + 1)); [done|done|lia].
Qed.

Lemma cache_steps_trans hs hs' m1 m2 m3 :
  cache_steps hs m1 m2 -> cache_steps hs' m2 m3 -> cache_steps (hs ++ hs') m1 m3.
Proof.
  intros [R1 L1 K1 O1] [R2 L2 K2 O2]. split.
  - rewrite R2. by rewrite R1.
  - lia.
  - intros h n H0 [? ?]%not_elem_of_app Hk. by apply K2, K1.
  - intros h n H0 [? ?]%not_elem_of_app Hk. by apply O2, O1.
Qed.

Lemma cache_steps_handle hs m m' : cache_steps hs m m' -> m_handle m' = m_handle m.
Proof. intros [-> _ _ _]. done. Qed.

(** One hook of the loop. *)
Lemma prewarm_turn me m n h rest s :
  st_alloc s = [] -> st_mod s !! me = Some m -> 0 <= h < Z.of_nat (length (m_fn_cache m)) ->
  entry_ok m h n ->
  exists m', prewarm_loop me ((n, h) :: rest) s =
      prewarm_loop me rest (set_st_mod (<[me := m']> (st_mod s)) s) /\
    cache_steps [h] m m' /\ known m' h n.
Proof.
  intros Ha Hm Hh Hok. cbn [prewarm_loop].
  rewrite (bind_Ok (module_at me) _ s s m) by (apply wp_eq; by eapply wp_module_at).
  destruct (Z.ltb_spec h 0), (Z.leb_spec (Z.of_nat (length (m_fn_cache m))) h); try lia. cbn [orb].
  destruct (lookup_lt_is_Some_2 (m_fn_cache m) (Z.to_nat h)) as [fp Hfp]; [lia|]. rewrite Hfp.
  destruct (decide (fp = FnNull)) as [->|Hne].
  - destruct (resolved_step m h n ltac:(lia)) as [Hs Hk].
    { unfold entry_ok in Hok. by rewrite Hfp in Hok. }
    eexists. split; [|split; [by apply cache_step_steps|exact Hk]].
    pose proof (resolve_slow_eq me m h n s Ha Hm ltac:(lia)) as Hrun. cbv zeta in Hrun.
    unfold resolve_slow in Hrun.
    rewrite (bind_Ok (module_at me) _ s s m) in Hrun by (apply wp_eq; by eapply wp_module_at).
    destruct (Z.leb_spec 0 h) in Hrun; [|lia].
    unfold mbind, M_bind in *. destruct (fn_cache_set me h _ s) as [[[] s1]| |]; [|done..].
    destruct (plat_dlsym (m_handle m) n) as [a|].
    + destruct (module_mark_hook_implemented me h s1) as [[[] s2]| |]; [|done..].
      cbn in Hrun |- *. by injection Hrun as ->.
    + cbn in Hrun |- *. by injection Hrun as ->.
  - exists m. rewrite insert_id, set_st_mod_id by done.
    split; [by destruct fp|]. split; [apply cache_step_steps, cache_step_refl|by eapply entry_ok_known].
Qed.

Lemma prewarm_loop_spec me l m s :
  st_alloc s = [] -> st_mod s !! me = Some m -> NoDup l.*2 ->
  (forall n h, (n, h) ∈ l -> 0 <= h < Z.of_nat (length (m_fn_cache m)) /\ entry_ok m h n) ->
  exists m', prewarm_loop me l s = Ok (tt, set_st_mod (<[me := m']> (st_mod s)) s) /\
    cache_steps l.*2 m m' /\ forall n h, (n, h) ∈ l -> known m' h n.
Proof.
  revert m s. induction l as [|[n h] l IH]; intros m s Ha Hm Hnd Hall.
  { exists m. rewrite insert_id, set_st_mod_id by done. split; [done|].
    split; [|by intros n h ?%not_elem_of_nil].
    apply cache_step_all_steps. intros. apply cache_step_refl. }
  cbn in Hnd. apply NoDup_cons in Hnd as [Hh Hnd].
  destruct (Hall n h) as [Hlen Hok]; [left|].
  destruct (prewarm_turn me m n h l s Ha Hm Hlen Hok) as (m1 & -> & Hs1 & Hk1).
  set (s1 := set_st_mod _ s).
  destruct (IH m1 s1) as (m2 & Hrun & Hs2 & Hk2); [done|apply lookup_insert_eq|done|..].
  { intros n' h' Hin. destruct (Hall n' h') as [Hl' Hok']; [by right|].
    split; [pose proof (css_len _ _ _ Hs1); lia|]. apply (css_ok _ _ _ Hs1); [lia| |done].
    intros ->%list_elem_of_singleton. apply Hh, list_elem_of_fmap. by exists (n', h). }
  exists m2. rewrite Hrun. cbn. rewrite insert_insert_eq. split; [done|].
  split; [by apply (cache_steps_trans [h] l.*2 m m1 m2)|].
  intros n' h' [[= -> ->]|Hin]%elem_of_cons; [|by apply Hk2].
  apply (css_known _ _ _ Hs2); [lia|done|done].
Qed.

Lemma fn_cache_prewarm_eq s me m ids :
  st_alloc s = [] -> st_mod s !! me = Some m -> is_Some (m_handle m) -> hooks_ok s ->
  rt_hook_id_hd (st_rt s) = Some ids -> (forall n h, qget ids n = Some h -> entry_ok m h n) ->
  exists m', fn_cache_prewarm me s = Ok (0, set_st_mod (<[me := m']> (st_mod s)) s) /\
    cache_steps (qiter ids).*2 m m' /\ forall n h, qget ids n = Some h -> known m' h n.
Proof using QL.
  intros Ha Hm [hdl Hhdl] (ids' & E & Hrange & Hinj) Hids Hok. rewrite Hids in E. injection E as <-.
  unfold fn_cache_prewarm.
  rewrite (bind_Ok (module_at me) _ s s m) by (apply wp_eq; by eapply wp_module_at). rewrite Hhdl.
  rewrite (bind_Ok _ _ s s (rt_hook_id_counter (st_rt s)) eq_refl).
  destruct (Z.leb_spec (rt_hook_id_counter (st_rt s)) 0) as [Hle|Hpos].
  { assert (qiter ids = []) as Hnil.
    { destruct (qiter ids) as [|[n h] l] eqn:El; [done|].
      assert (qget ids n = Some h) as Hg by (apply qiter_get; rewrite El; left).
      specialize (Hrange _ _ Hg). lia. }
    exists m. rewrite insert_id, set_st_mod_id, Hnil by done. split; [done|]. split.
    - apply cache_step_all_steps. intros. apply cache_step_refl.
    - intros n h Hg%Hrange. lia. }
  destruct (ensure_fn_cache_cap_eq me m (rt_hook_id_counter (st_rt s) + 16) s Ha Hm)
    as (m1 & Hrun & Hs & Hlen).
  rewrite (bind_Ok _ _ _ _ _ Hrun). cbn [Z.ltb Z.compare]. set (s1 := set_st_mod _ s).
  rewrite (bind_Ok (handle rt_hook_id_hd) _ s1 s1 ids) by (apply wp_eq; by eapply wp_handle).
  pose proof (cache_step_all_steps _ _ Hs) as Hs1.
  destruct (prewarm_loop_spec me (qiter ids) m1 s1) as (m2 & Hrun2 & Hs2 & Hk); [done|..].
  - apply lookup_insert_eq.
  - by apply qvalues_nodup.
  - intros n h Hg%qiter_get. pose proof (Hrange _ _ Hg). split; [lia|].
    apply (css_ok _ _ _ Hs1); [lia|apply not_elem_of_nil|by apply Hok].
  - exists m2. rewrite (bind_Ok _ _ _ _ _ Hrun2). cbn. rewrite insert_insert_eq. split; [done|].
    split; [by apply (cache_steps_trans [] _ m m1 m2)|]. intros n h Hg. by apply Hk, qiter_get.
Qed.

(** Prewarming a module whose cache is coherent resolves every registered
    hook: afterwards the cache holds, for each of them, what the loader
    answers, and the bit set says whether it is implemented; nothing else of
    the module changes. *)
Theorem fn_cache_prewarm_complete s me m ids :
  st_alloc s = [] -> st_mod s !! me = Some m -> is_Some (m_handle m) -> hooks_ok s ->
  rt_hook_id_hd (st_rt s) = Some ids -> (forall n h, qget ids n = Some h -> entry_ok m h n) ->
  exists m', fn_cache_prewarm me s = Ok (0, set_st_mod (<[me := m']> (st_mod s)) s) /\
    cache_steps (qiter ids).*2 m m' /\ forall n h, qget ids n = Some h -> known m' h n.
Proof using QL. apply fn_cache_prewarm_eq. Qed.

End FnCacheFacts.
