(* ===== verification/RegionApi.v ===== *)
(** * The region interface offered to modules

    [xy_require_claim], [xy_region_each], [xy_current_region] and
    [xy_with_region] of src/libxylem.c. *)

From S2P Require Import Prelude QMap Status State Machine Linked Region RegionTree Runtime.
From stdpp Require Import options.
Local Open Scope Z_scope.

Section RegionApi.
Context {Q : QMapOps}.

Definition set_claim_handler (fn : option loc) (ud : Z) (r : region_entry) : region_entry :=
  match fn with
  | None =>
      set_r_require_claim false (set_r_claim_handler_ud 0 (set_r_claim_handler None r))
  | Some _ =>
      set_r_require_claim true (set_r_claim_handler_ud ud (set_r_claim_handler fn r))
  end.

Definition xy_require_claim (fn : option loc) (ud : Z) : XM Z :=
  with_runtime (
    cur ← gets (fun s => t_region_id (st_tls s));
    found ← region_lookup cur;
    match found with
    | None => return_err XY_ERR_NOTFOUND
    | Some reg => upd_region reg (set_claim_handler fn ud);; return_err XY_OK
    end).

(** [ret] is the variable of the same name; the callback runs between the two
    reads of the entry. *)
Fixpoint each_loop (exec : executor) (fuel : nat) (fn : loc) (ud : Z) (e : option loc)
    (ret : Z) : XM Z :=
  match e with
  | None => mret ret
  | Some l =>
      match fuel with
      | O => out_of_fuel
      | S fuel' =>
          r ← region_at l;
          out ← exec (CbEach fn (r_id r) ud);
          let ret := int_result out in
          if decide (ret = XY_OK) then
            r ← region_at l; each_loop exec fuel' fn ud (r_sibling_next r) ret
          else mret ret
      end
  end.

(** Children are added in front of the list, so the regions that are live
    before the loop bound what it visits. *)
Definition xy_region_each (exec : executor) (fn : loc) (ud : Z) : XM Z :=
  with_runtime (
    parent_id ← gets (fun s => t_region_id (st_tls s));
    found ← region_lookup parent_id;
    match found with
    | None => return_err XY_ERR_NOTFOUND
    | Some parent =>
        p ← region_at parent;
        n ← gets (fun s => size (st_reg s));
        ret ← each_loop exec n fn ud (r_children_head p) XY_OK;
        XY_SET_ERR XY_OK;;
        mret ret
    end).

Definition xy_current_region : XM Z :=
  enter_ret ← xy_runtime_ensure;
  if decide (enter_ret = XY_OK) then gets (fun s => t_region_id (st_tls s))
  else XY_SET_ERR enter_ret;; mret XY_REGION_INVALID.

Definition xy_with_region (exec : executor) (region_id : Z) (fn : option loc) (ud : Z) : XM Z :=
  with_runtime (
    match fn with
    | None => return_err XY_ERR_INVALID
    | Some fn =>
        found ← region_lookup region_id;
        match found with
        | None => return_err XY_ERR_NOTFOUND
        | Some target =>
            prev_region_id ← gets (fun s => t_region_id (st_tls s));
            prev_region_entry ← gets (fun s => t_region_entry (st_tls s));
            set_current_region region_id (Some target);;
            out ← exec (CbScope fn ud);
            let ret := int_result out in
            set_current_region prev_region_id prev_region_entry;;
            return_err ret
        end
    end).

(** *** Specifications *)

(** The callback run on the children one by one, until it answers something
    other than XY_OK. *)
Fixpoint each_children (exec : executor) (fn : loc) (ud : Z) (ids : list Z) : XM Z :=
  match ids with
  | [] => mret XY_OK
  | id :: rest =>
      out ← exec (CbEach fn id ud);
      if decide (int_result out = XY_OK) then each_children exec fn ud rest
      else mret (int_result out)
  end.

(** Code outside the library leaves the regions that exist where they are: it
    may add regions in front of a child list, but no region disappears, changes
    its id or gets another next sibling. *)
Definition keeps_regions (exec : executor) : Prop :=
  forall cb s out s', exec cb s = Ok (out, s') ->
    forall l r, st_reg s !! l = Some r ->
      exists r', st_reg s' !! l = Some r' /\ r_id r' = r_id r /\
        r_sibling_next r' = r_sibling_next r.

(** [ls] is what is left of a child list, with its ids. *)
Definition listed_as (s : state) (ls : list loc) (ids : list Z) : Prop :=
  Forall2 (fun l id => r_id <$> st_reg s !! l = Some id) ls ids.

End RegionApi.

(** ** Theorems *)

Section RegionApiFacts.
Context {Q : QMapOps} {QL : QMapLaws Q}.
Implicit Types (s : state) (exec : executor).

(** Looking up the region a running thread is in. *)
Lemma region_lookup_eq s id hd :
  rt_region_hd (st_rt s) = Some hd -> region_lookup id s = Ok (qget hd id, s).
Proof. intros H. apply wp_eq. unfold region_lookup. wp_step. by eapply wp_handle. Qed.

Lemma region_lookup_found s l r :
  tree_ok s -> st_reg s !! l = Some r -> region_lookup (r_id r) s = Ok (Some l, s).
Proof.
  intros Hok Hr. destruct (to_hd _ Hok) as (hd & Hhd & Hget).
  rewrite (region_lookup_eq _ _ _ Hhd). do 2 f_equal. apply Hget. eauto.
Qed.

Lemma region_lookup_missing s id :
  tree_ok s -> (forall l r, st_reg s !! l = Some r -> r_id r <> id) ->
  region_lookup id s = Ok (None, s).
Proof.
  intros Hok Hne. destruct (to_hd _ Hok) as (hd & Hhd & Hget).
  rewrite (region_lookup_eq _ _ _ Hhd). do 2 f_equal. apply eq_None_not_Some. intros [l Hl].
  apply Hget in Hl as (r & Hr & E). by eapply Hne.
Qed.

Lemma keeps_regions_linked exec cb s out s' e ls ids :
  keeps_regions exec -> exec cb s = Ok (out, s') ->
  linked (sibling_of (st_reg s)) e ls -> listed_as s ls ids ->
  linked (sibling_of (st_reg s')) e ls /\ listed_as s' ls ids.
Proof.
  intros Hk He Hl Hi. split.
  - eapply linked_mono; [|done]. intros l Hin.
    destruct (linked_live _ _ _ _ Hl Hin) as [x Hx]. unfold sibling_of in *.
    destruct (st_reg s !! l) as [r|] eqn:Hr; [|done].
    destruct (Hk _ _ _ _ He _ _ Hr) as (r' & -> & _ & E). cbn. by rewrite E.
  - eapply Forall2_impl; [done|]. intros l id Hid. cbn beta in Hid.
    destruct (st_reg s !! l) as [r|] eqn:Hr; [|done].
    destruct (Hk _ _ _ _ He _ _ Hr) as (r' & -> & E & _). cbn in *. by rewrite E.
Qed.

Lemma each_loop_children exec fuel fn ud e ls ids s :
  keeps_regions exec -> linked (sibling_of (st_reg s)) e ls -> listed_as s ls ids ->
  (length ls <= fuel)%nat ->
  each_loop exec fuel fn ud e XY_OK s = each_children exec fn ud ids s.
Proof.
  intros Hk. revert fuel e ids s.
  induction ls as [|l ls IH]; intros fuel e ids s Hl Hi Hf.
  { apply linked_nil_iff in Hl as ->. inversion Hi; subst. by destruct fuel. }
  inversion Hi as [|? id ? ids' Hid Hi']; subst.
  apply linked_cons_iff in Hl as (-> & e' & Hn & Hl).
  destruct fuel as [|fuel]; [cbn in Hf; lia|]. cbn [each_loop each_children].
  unfold sibling_of in Hn. destruct (st_reg s !! l) as [r|] eqn:Hr; [|done].
  cbn in Hn, Hid. injection Hn as Hn. injection Hid as Hid.
  rewrite (bind_Ok (region_at l) _ s s r) by (apply wp_eq; by eapply wp_region_at).
  rewrite Hid. apply bind_ext. intros out s1 He.
  destruct (decide _) as [->|]; [|done].
  destruct (Hk _ _ _ _ He _ _ Hr) as (r1 & Hr1 & _ & E1).
  rewrite (bind_Ok (region_at l) _ s1 s1 r1) by (apply wp_eq; by eapply wp_region_at).
  destruct (keeps_regions_linked exec _ _ _ _ _ _ _ Hk He Hl Hi') as [Hl1 Hi1].
  apply IH; [by rewrite E1, Hn|done|cbn in Hf; lia].
Qed.

(** C26: as long as code outside the library keeps the regions, [xy_region_each]
    calls it with the ids of the immediate children of the current region, in
    the order of the child list (the last one claimed first), stops at the
    first answer other than XY_OK, returns that answer, and sets the error to
    XY_OK. *)
Theorem xy_region_each_children (s : state) (exec : executor) (fn : loc) (ud : Z)
    (l : loc) (r : region_entry) :
  running s -> st_reg s !! l = Some r -> r_id r = t_region_id (st_tls s) ->
  keeps_regions exec ->
  exists ks ids, linked (sibling_of (st_reg s)) (r_children_head r) ks /\
    (forall k, k ∈ ks <-> parent_of (st_reg s) k = Some (Some l)) /\
    listed_as s ks ids /\
    xy_region_each exec fn ud s =
      (rc ← each_children exec fn ud ids; XY_SET_ERR XY_OK;; mret rc) s.
Proof.
  intros Hrun Hr Hid Hk. pose proof (run_tree _ Hrun) as Hok.
  destruct (ro_down _ _ _ (to_region _ Hok _ _ Hr)) as (ks & Hks & Hin).
  assert (exists ids, listed_as s ks ids) as [ids Hids].
  { clear Hin. revert Hks. generalize (r_children_head r). induction ks as [|k ks IH]; intros e He.
    { exists []. constructor. }
    apply linked_cons_iff in He as (-> & e' & Hn & He).
    destruct (IH _ He) as [ids Hids]. unfold sibling_of in Hn.
    destruct (st_reg s !! k) as [rk|] eqn:Hrk; [|done].
    exists (r_id rk :: ids). constructor; [by rewrite Hrk|done]. }
  exists ks, ids. split_and!; [done..|]. unfold xy_region_each.
  rewrite with_runtime_inited by apply Hrun.
  rewrite (bind_Ok _ _ s s (t_region_id (st_tls s)) eq_refl), <- Hid.
  rewrite (bind_Ok _ _ _ _ _ (region_lookup_found _ _ _ Hok Hr)).
  rewrite (bind_Ok (region_at l) _ s s r) by (apply wp_eq; by eapply wp_region_at).
  rewrite (bind_Ok _ _ s s (size (st_reg s)) eq_refl).
  unfold mbind, M_bind. erewrite each_loop_children; [done|done|done|done|].
  by eapply linked_length.
Qed.

(** C27: whatever the callback does, [xy_with_region] runs it with the target as
    current region and afterwards puts the caller's region back, id and
    pointer; the callback's answer is returned and becomes the error. *)
Theorem xy_with_region_restores (s s1 : state) (exec : executor) (fn l : loc) (ud : Z)
    (r : region_entry) (out : list Z) :
  running s -> st_reg s !! l = Some r ->
  exec (CbScope fn ud)
    (set_st_tls (set_t_region_entry (Some l) (set_t_region_id (r_id r) (st_tls s))) s) =
    Ok (out, s1) ->
  exists s', xy_with_region exec (r_id r) (Some fn) ud s = Ok (int_result out, s') /\
    t_region_id (st_tls s') = t_region_id (st_tls s) /\
    t_region_entry (st_tls s') = t_region_entry (st_tls s) /\
    st_err s' = int_result out /\ st_reg s' = st_reg s1 /\ st_mod s' = st_mod s1.
Proof.
  intros Hrun Hr He. pose proof (run_tree _ Hrun) as Hok. eexists.
  split.
  { unfold xy_with_region. rewrite with_runtime_inited by apply Hrun.
  rewrite (bind_Ok _ _ _ _ _ (region_lookup_found _ _ _ Hok Hr)).
  rewrite (bind_Ok _ _ s s (t_region_id (st_tls s)) eq_refl).
  rewrite (bind_Ok _ _ s s (t_region_entry (st_tls s)) eq_refl).
  rewrite (bind_Ok (set_current_region _ _) _ s _ tt eq_refl).
  rewrite (bind_Ok _ _ _ _ _ He). reflexivity. }
  split_and!; reflexivity.
Qed.

(** [xy_with_region] of an unknown region, or without a callback, fails and
    changes nothing but the error. *)
Lemma xy_with_region_errors (s : state) (exec : executor) (id ud : Z) (fn : option loc) :
  running s ->
  xy_with_region exec id None ud s = Ok (XY_ERR_INVALID, set_st_err XY_ERR_INVALID s) /\
  ((forall l r, st_reg s !! l = Some r -> r_id r <> id) -> fn <> None ->
   xy_with_region exec id fn ud s = Ok (XY_ERR_NOTFOUND, set_st_err XY_ERR_NOTFOUND s)).
Proof.
  intros Hrun. unfold xy_with_region. rewrite !with_runtime_inited by apply Hrun.
  split; [done|]. intros Hne Hfn. destruct fn as [fn|]; [|done].
  by rewrite (bind_Ok _ _ _ _ _ (region_lookup_missing _ _ (run_tree _ Hrun) Hne)).
Qed.

End RegionApiFacts.
