(* ===== verification/Claim.v ===== *)
(** * Claiming a child region

    [_xy_claim_for_load] of src/libxylem.c: the parent's handler decides how
    many bits the child gets, a slot of that width is allocated, and the child
    region is entered. *)

From S2P Require Import Prelude QMap Status State Machine ModKey Linked Region RegionTree.
From S2P Require Import RegionSlots ModList Runtime Paths Identity RegionApi.
From stdpp Require Import options.
Local Open Scope Z_scope.

Section Claim.
Context {Q : QMapOps} {P : Platform}.

(** [calloc] and the assignments up to [child->parent]. *)
Definition new_child (p : region_entry) (parent : loc) (child_id granted : Z)
    (caller : option string) : region_entry :=
  set_r_parent (Some parent) (set_r_dispatch_gen 1 (set_r_owner_path caller
    (set_r_child_bits granted (set_r_depth (wrap8 (r_depth p + 1))
      (set_r_plen (wrap8 (r_plen p + granted)) (set_r_id child_id region_zero)))))).

(** The handler answers a code and the byte it stored through its third
    argument, which is 0 if it stores none. *)
Definition granted_byte (out : list Z) : Z := wrap8 (default 0 (out !! 1%nat)).

Definition claim_slot (parent : loc) (parent_id granted : Z) (caller : option string) : XM Z :=
  child_id ← region_alloc_slot parent granted;
  if decide (child_id = XY_REGION_INVALID) then return_err XY_ERR_TOOBIG
  else
    child ← fresh_loc;
    p ← region_at parent;
    put_region child (new_child p parent child_id granted caller);;
    hd ← handle rt_region_hd;
    upd_rt (set_rt_region_hd (Some (qput hd child_id child)));;
    p ← region_at parent;
    upd_region child (set_r_sibling_next (r_children_head p));;
    upd_region parent (set_r_children_head (Some child));;
    region_mark_subtree_dirty (Some parent);;
    set_current_region child_id (Some child);;
    (match caller with
     | Some caller => module_rekey_for_claim caller parent_id child_id
     | None => mret tt
     end);;
    return_err XY_OK.

Definition _xy_claim_for_load (exec : executor) (caller : option string) (parent_id bits : Z)
    : XM Z :=
  if (bits =? 0) || (64 <? bits) then return_err XY_ERR_INVALID
  else
    found ← region_lookup parent_id;
    match found with
    | None => return_err XY_ERR_NOTFOUND
    | Some parent =>
        p ← region_at parent;
        match r_claim_handler p with
        | None => return_err XY_ERR_EPERM
        | Some handler =>
            out ← exec (CbClaim handler (default "" caller) bits (r_claim_handler_ud p));
            let granted := granted_byte out in
            if negb (int_result out =? XY_OK) then return_err XY_ERR_EPERM
            else if (granted =? 0) || (64 <? granted) then return_err XY_ERR_EPERM
            else claim_slot parent parent_id granted caller
        end
    end.

(** The region heap with the child [c], [e] its entry, first below [l]. *)
Definition with_child (c l : loc) (e : region_entry) (reg : gmap loc region_entry)
    : gmap loc region_entry :=
  alter (set_r_children_head (Some c)) l (<[c := e]> reg).

End Claim.

(** ** A new leaf in a well-formed tree *)

Section Leaf.
Context {Q : QMapOps} {QL : QMapLaws Q}.
Implicit Types (s : state) (r e : region_entry) (reg : gmap loc region_entry) (l c : loc).

Lemma with_child_lookup c l e reg a :
  c <> l -> with_child c l e reg !! a =
    if decide (a = c) then Some e
    else if decide (a = l) then set_r_children_head (Some c) <$> reg !! l else reg !! a.
Proof.
  intros Hne. unfold with_child. destruct (decide (a = l)) as [->|Hal].
  - rewrite decide_False by done. by rewrite lookup_alter_eq, lookup_insert_ne.
  - rewrite lookup_alter_ne by done. case_decide; [by subst; rewrite lookup_insert_eq|].
    by rewrite lookup_insert_ne.
Qed.

(** The other fields of the regions that were there. *)
Lemma with_child_fmap {T} (f : region_entry -> T) c l e reg a :
  c <> l -> a <> c -> (forall r v, f (set_r_children_head v r) = f r) ->
  f <$> with_child c l e reg !! a = f <$> reg !! a.
Proof.
  intros Hcl Hac Hf. rewrite with_child_lookup, decide_False by done. case_decide; [|done].
  subst. destruct (reg !! l); [|done]. cbn. by rewrite Hf.
Qed.

Section Fresh.
Context (s : state) (c l : loc) (p e : region_entry).
Context (Hok : tree_ok s) (Hl : st_reg s !! l = Some p) (Hc : st_reg s !! c = None).
Context (He_parent : r_parent e = Some l) (He_sib : r_sibling_next e = r_children_head p)
  (He_kids : r_children_head e = None).
Let reg' := with_child c l e (st_reg s).

Local Lemma fresh_ne : c <> l.
Proof using Hl Hc. congruence. Qed.

Lemma with_child_sibling a : a <> c -> sibling_of reg' a = sibling_of (st_reg s) a.
Proof using Hl Hc e. intros. by apply with_child_fmap; [apply fresh_ne|..]. Qed.

Lemma with_child_parent a :
  parent_of reg' a = if decide (a = c) then Some (Some l) else parent_of (st_reg s) a.
Proof using Hl Hc He_parent.
  case_decide as E.
  - subst. unfold parent_of, reg'. rewrite with_child_lookup by apply fresh_ne.
    rewrite decide_True by done. cbn. by rewrite He_parent.
  - by apply with_child_fmap; [apply fresh_ne|..].
Qed.

(** A child list of the old tree is one of the new tree. *)
Lemma with_child_linked a r ks :
  st_reg s !! a = Some r -> linked (sibling_of (st_reg s)) (r_children_head r) ks ->
  linked (sibling_of reg') (r_children_head r) ks.
Proof using Hl Hc e.
  intros Ha Hks. eapply linked_mono; [|done]. intros k Hk. apply with_child_sibling.
  intros ->. destruct (linked_live _ _ _ _ Hks Hk) as [x Hx]. unfold sibling_of in Hx.
  by rewrite Hc in Hx.
Qed.

Lemma with_child_down a r :
  reg' !! a = Some r -> exists ks, linked (sibling_of reg') (r_children_head r) ks /\
    forall k, k ∈ ks <-> parent_of reg' k = Some (Some a).
Proof using All.
  unfold reg' at 1. rewrite with_child_lookup by apply fresh_ne.
  destruct (decide (a = c)) as [->|Hac].
  { intros [= <-]. exists []. rewrite He_kids. split; [constructor|]. intros k.
    split; [by intros ?%not_elem_of_nil|]. rewrite with_child_parent.
    case_decide; [intros [= E]; by destruct fresh_ne|]. unfold parent_of.
    destruct (st_reg s !! k) as [rk|] eqn:Hk; [|done]. cbn. intros [= E].
    pose proof (ro_up _ _ _ (to_region _ Hok _ _ Hk)) as Hup. rewrite E in Hup.
    destruct Hup as (pr & Hpr & _). congruence. }
  destruct (decide (a = l)) as [->|Hal].
  - rewrite Hl. intros [= <-]. cbn.
    destruct (ro_down _ _ _ (to_region _ Hok _ _ Hl)) as (ks & Hks & Hin).
    exists (c :: ks). split.
    + econstructor; [|by eapply with_child_linked]. unfold sibling_of, reg'.
      rewrite with_child_lookup, decide_True by (done || apply fresh_ne). cbn. by rewrite He_sib.
    + intros k. rewrite elem_of_cons, with_child_parent, Hin. case_decide; naive_solver.
  - intros Ha. destruct (ro_down _ _ _ (to_region _ Hok _ _ Ha)) as (ks & Hks & Hin).
    exists ks. split; [by eapply with_child_linked|]. intros k. rewrite with_child_parent, Hin.
    case_decide; [|done]. subst. split; [|congruence]. unfold parent_of. by rewrite Hc.
Qed.

(** The new entry fits below its parent. *)
Record leaf_ok : Prop := {
  lf_u64 : is_u64 (r_id e);
  lf_depth : r_depth e = r_depth p + 1;
  lf_plen : r_plen p < r_plen e <= 64;
  lf_gen : 1 <= r_dispatch_gen e < two64;
  lf_aligned : r_plen e < 64 -> aligned (r_plen e) (r_id e);
  lf_under : r_plen e < 64 -> under (r_id p) (r_plen p) (r_id e);
  lf_fresh : ~ registered s (r_id e)
}.

Lemma with_child_region_ok a r : leaf_ok -> reg' !! a = Some r -> region_ok reg' a r.
Proof using All.
  intros Hleaf Ha. pose proof (with_child_down a r Ha) as Hdown.
  pose proof (fresh_ne) as Hne.
  assert (forall q rq, st_reg s !! q = Some rq -> exists rq', reg' !! q = Some rq' /\
            r_id rq' = r_id rq /\ r_depth rq' = r_depth rq /\ r_plen rq' = r_plen rq) as Hkeep.
  { intros q rq Hq. unfold reg'. rewrite with_child_lookup by done. rewrite decide_False by congruence.
    case_decide; [|by eauto]. subst. rewrite Hq. eexists. by split_and!. }
  destruct (to_region _ Hok _ _ Hl) as [Hu [[? ?] ?] Hg Hal Hup _].
  unfold reg' in Ha. rewrite with_child_lookup in Ha by done. case_decide; [|case_decide].
  - injection Ha as <-. destruct Hleaf. split; [done|lia|done|done| |done].
    rewrite He_parent. destruct (Hkeep _ _ Hl) as (p' & Hp' & E1 & E2 & E3).
    exists p'. rewrite E1, E2, E3. split_and!; [done|done|lia|done].
  - subst. rewrite Hl in Ha. injection Ha as <-. split; cbn; [done..| |done].
    destruct (r_parent p) as [q|]; [|done].
    destruct Hup as (rq & Hq & ? & ? & ?). destruct (Hkeep _ _ Hq) as (q' & ? & E1 & E2 & E3).
    exists q'. by rewrite E1, E2, E3.
  - destruct (to_region _ Hok _ _ Ha) as [? ? ? ? Hup2 _]. split; [done..| |done].
    destruct (r_parent r) as [q|]; [|done].
    destruct Hup2 as (rq & Hq & ? & ? & ?). destruct (Hkeep _ _ Hq) as (q' & ? & E1 & E2 & E3).
    exists q'. by rewrite E1, E2, E3.
Qed.

Lemma with_child_tree s' hd :
  leaf_ok -> st_reg s' = reg' -> rt_region_hd (st_rt s) = Some hd ->
  rt_region_hd (st_rt s') = Some (qput hd (r_id e) c) ->
  (st_next s <= st_next s')%positive -> (c < st_next s')%positive -> tree_ok s'.
Proof using All.
  intros Hleaf Hreg Hhd Hhd' Hn Hcn. pose proof fresh_ne as Hne. split.
  - eexists. split; [done|]. intros id a. destruct (to_hd _ Hok) as (hd0 & E & Hget).
    rewrite Hhd in E. injection E as <-. rewrite qget_put, Hreg. unfold reg'.
    rewrite with_child_lookup by done. case_decide as E1.
    { subst id. split; [intros [= <-]; rewrite decide_True by done; by exists e|].
      intros (r & Hr & E). f_equal. destruct (decide (a = c)) as [->|]; [done|].
      destruct (lf_fresh Hleaf). destruct (decide (a = l)) as [->|]; [|by exists a, r].
      rewrite Hl in Hr. injection Hr as <-. by exists l, p. }
    rewrite Hget. split.
    + intros (r & Hr & <-). rewrite decide_False by congruence.
      case_decide; [|by exists r]. subst. rewrite Hr. by eexists.
    + intros (r & Hr & <-). destruct (decide (a = c)) as [->|]; [congruence|].
      destruct (decide (a = l)) as [->|]; [|by exists r].
      rewrite Hl in Hr |- *. injection Hr as <-. by exists p.
  - destruct (to_root _ Hok) as (a & r & Hr & Hid & Hp).
    rewrite Hreg. unfold reg'. exists a.
    destruct (decide (a = l)) as [->|].
    + exists (set_r_children_head (Some c) p). rewrite with_child_lookup by done.
      rewrite decide_False, decide_True, Hl by congruence. rewrite Hl in Hr. by injection Hr as <-.
    + exists r. rewrite with_child_lookup by done. by rewrite !decide_False by congruence.
  - intros a r. rewrite Hreg. by apply with_child_region_ok.
  - intros a. rewrite Hreg. unfold reg'. rewrite with_child_lookup by done. case_decide; [by subst|].
    assert (is_Some (st_reg s !! a) -> (a < st_next s')%positive) as Hold.
    { intros Ha. eapply Pos.lt_le_trans; [by eapply to_fresh|done]. }
    case_decide; [|done]. subst. intros _. apply Hold. by eexists.
Qed.

End Fresh.
End Leaf.

(** ** Definitions for the theorems *)

Section ClaimDefs.
Context {Q : QMapOps}.

(** The child [c] of the region [l] in [s'], new with respect to [s]: where it
    is, that it is the first child, and that the thread has entered it. *)
Record claimed (s s' : state) (l c : loc) (p : region_entry) (granted : Z) : Prop := {
  cl_new : st_reg s !! c = None;
  cl_entry : exists e, st_reg s' !! c = Some e /\ r_parent e = Some l /\
    r_plen e = r_plen p + granted /\ r_depth e = r_depth p + 1 /\ r_child_bits e = granted /\
    ~ registered s (r_id e) /\ (r_plen e < 64 -> under (r_id p) (r_plen p) (r_id e)) /\
    r_mods_head e = None /\ t_region_id (st_tls s') = r_id e;
  cl_current : t_region_entry (st_tls s') = Some c;
  cl_kids : forall ks, linked (sibling_of (st_reg s)) (r_children_head p) ks ->
    exists p', st_reg s' !! l = Some p' /\ r_subtree_mods_dirty p' = true /\
      linked (sibling_of (st_reg s')) (r_children_head p') (c :: ks);
  cl_rest : forall a r, st_reg s !! a = Some r -> exists r', st_reg s' !! a = Some r' /\
    r_id r' = r_id r /\ r_parent r' = r_parent r /\ r_sibling_next r' = r_sibling_next r /\
    (a <> l -> r_children_head r' = r_children_head r)
}.

End ClaimDefs.

(** ** Theorems *)

Section ClaimFacts.
Context {Q : QMapOps} {QL : QMapLaws Q} {P : Platform}.
Implicit Types (s : state) (exec : executor).

Lemma new_child_leaf s l p id granted caller :
  tree_ok s -> st_reg s !! l = Some p -> 1 <= granted ->
  is_u64 id /\ ~ registered s id /\ r_plen p + granted <= 64 /\
    (r_plen p + granted < 64 -> aligned (r_plen p + granted) id /\ under (r_id p) (r_plen p) id) ->
  r_plen (new_child p l id granted caller) = r_plen p + granted /\
  forall v, leaf_ok s p (set_r_sibling_next v (new_child p l id granted caller)).
Proof.
  intros Hok Hl Hg (Hu & Hfree & Hlen & Hbelow).
  destruct (to_region _ Hok _ _ Hl) as [_ [[? ?] ?] _ _ _ _].
  assert (r_plen (new_child p l id granted caller) = r_plen p + granted) as E.
  { cbn. apply wrap8_small. unfold is_u8, two8. lia. }
  assert (r_depth (new_child p l id granted caller) = r_depth p + 1) as E'.
  { cbn. apply wrap8_small. unfold is_u8, two8. lia. }
  assert (r_id (new_child p l id granted caller) = id) as Eid by done.
  assert (r_dispatch_gen (new_child p l id granted caller) = 1) as Eg by done.
  split; [done|]. intros v. generalize dependent (new_child p l id granted caller).
  intros e E E' Eid Eg. split; cbn; rewrite ?E, ?E', ?Eid, ?Eg; try done; [lia|..].
  - intros. by apply Hbelow.
  - intros. by apply Hbelow.
Qed.

(** The state in which the child exists and is entered, before the module is
    re-keyed. *)
Definition child_state (s : state) (l : loc) (id : Z) (e : region_entry) (ls : list loc) : state :=
  let c := st_next s in
  set_st_tls (set_t_region_entry (Some c) (set_t_region_id id (st_tls s)))
    (set_st_rt (set_rt_region_hd ((fun hd => qput hd id c) <$> rt_region_hd (st_rt s)) (st_rt s))
      (set_st_reg (dirtied ls (with_child c l e (st_reg s)))
        (set_st_next (Pos.succ c) s))).

Definition first_child (p : region_entry) (l : loc) (id granted : Z) (caller : option string)
    : region_entry :=
  set_r_sibling_next (r_children_head p) (new_child p l id granted caller).

Definition claim_state (s : state) (l : loc) (p : region_entry) (id granted : Z)
    (caller : option string) (ls : list loc) : state :=
  child_state s l id (first_child p l id granted caller) ls.

Lemma with_child_chain s l p c e ls :
  st_reg s !! l = Some p -> st_reg s !! c = None ->
  linked (parent_of (st_reg s)) (Some l) ls ->
  linked (parent_of (with_child c l e (st_reg s))) (Some l) ls.
Proof.
  intros Hl Hc Hls. eapply linked_mono; [|exact Hls]. intros a Ha.
  destruct (linked_live _ _ _ _ Hls Ha) as [x Hx].
  assert (a <> c) by (intros ->; unfold parent_of in Hx; by rewrite Hc in Hx).
  apply with_child_fmap; [congruence|done|done].
Qed.

(** [claim_slot] runs through its assignments. *)
Lemma claim_slot_run s l p parent_id id granted caller ls hd :
  st_reg s !! l = Some p -> st_reg s !! st_next s = None ->
  rt_region_hd (st_rt s) = Some hd ->
  linked (parent_of (st_reg s)) (Some l) ls ->
  region_alloc_slot l granted s = Ok (id, s) -> id <> XY_REGION_INVALID ->
  claim_slot l parent_id granted caller s =
    ((match caller with
      | Some caller => module_rekey_for_claim caller parent_id id
      | None => mret tt
      end);; return_err XY_OK) (claim_state s l p id granted caller ls).
Proof.
  intros Hl Hc Hhd Hls Halloc Hid. unfold claim_slot.
  assert (st_next s <> l) as Hcl by congruence.
  rewrite (bind_Ok _ _ _ _ _ Halloc), decide_False by done.
  set (c := st_next s). set (e0 := new_child p l id granted caller).
  set (e := set_r_sibling_next (r_children_head p) e0).
  fold c in Hcl.
  set (s1 := set_st_next (Pos.succ c) s).
  rewrite (bind_Ok fresh_loc _ s s1 c eq_refl).
  rewrite (bind_Ok (region_at l) _ s1 s1 p) by (apply wp_eq; by eapply wp_region_at).
  set (s2 := set_st_reg (<[c := e0]> (st_reg s)) s1).
  rewrite (bind_Ok (put_region c _) _ s1 s2 tt eq_refl).
  rewrite (bind_Ok (handle rt_region_hd) _ s2 s2 hd) by (apply wp_eq; by eapply wp_handle).
  set (s3 := set_st_rt (set_rt_region_hd (Some (qput hd id c)) (st_rt s)) s2).
  rewrite (bind_Ok (upd_rt _) _ s2 s3 tt eq_refl).
  assert (st_reg s3 !! l = Some p) as Hl3 by (cbn; by rewrite lookup_insert_ne).
  rewrite (bind_Ok (region_at l) _ s3 s3 p) by (apply wp_eq; by eapply wp_region_at).
  set (s4 := set_st_reg (<[c := e]> (st_reg s)) s3).
  rewrite (bind_Ok (upd_region c _) _ s3 s4 tt).
  2: { apply wp_eq. eapply wp_upd_region; [cbn; apply lookup_insert_eq|]. split; [done|].
       cbn. by rewrite insert_insert_eq. }
  set (s5 := set_st_reg (with_child c l e (st_reg s)) s4).
  rewrite (bind_Ok (upd_region l _) _ s4 s5 tt).
  2: { rewrite upd_region_eq; [done|]. cbn. by rewrite lookup_insert_ne, Hl by done. }
  rewrite (bind_Ok (region_mark_subtree_dirty (Some l)) _ _ _ _
    (mark_subtree_dirty_eq l ls s5 (with_child_chain s l p c e ls Hl Hc Hls))).
  assert (claim_state s l p id granted caller ls =
    set_st_tls (set_t_region_entry (Some c) (set_t_region_id id (st_tls s)))
      (set_st_reg (dirtied ls (st_reg s5)) s5)) as ->.
  { unfold claim_state, child_state. rewrite Hhd. reflexivity. }
  by rewrite (bind_Ok (set_current_region id (Some c)) _ _ _ tt eq_refl).
Qed.

Lemma next_unused s : tree_ok s -> st_reg s !! st_next s = None.
Proof.
  intros Hok. apply eq_None_not_Some. intros H. apply (to_fresh _ Hok) in H. lia.
Qed.

Lemma claim_state_running s l p id granted caller ls :
  running s -> st_reg s !! l = Some p ->
  leaf_ok s p (set_r_sibling_next (r_children_head p) (new_child p l id granted caller)) ->
  running (claim_state s l p id granted caller ls).
Proof using QL.
  intros Hrun Hl Hleaf. pose proof (run_tree _ Hrun) as Hok. pose proof (next_unused _ Hok) as Hc.
  destruct (to_hd _ Hok) as (hd & Hhd & _).
  set (c := st_next s). set (e := set_r_sibling_next _ _) in *.
  assert (c <> l) as Hcl by (subst c; congruence).
  set (s1 := set_st_reg (with_child c l e (st_reg s)) (claim_state s l p id granted caller ls)).
  assert (tree_ok s1) as Hok1.
  { apply (with_child_tree s c l p e Hok Hl Hc eq_refl eq_refl eq_refl s1 hd Hleaf); [done|done|..].
    - unfold s1, claim_state. cbn. by rewrite Hhd.
    - change (st_next s1) with (Pos.succ (st_next s)). lia.
    - change (st_next s1) with (Pos.succ (st_next s)). subst c. lia. }
  assert (mods_ok s1) as Hm1.
  { intros a r. change (st_reg s1) with (with_child c l e (st_reg s)).
    change (st_mod s1) with (st_mod s). rewrite with_child_lookup by done. case_decide as Eac.
    { intros [= <-]. exists []. split; [split; constructor|]. by intros m ?%not_elem_of_nil. }
    case_decide as Eal; [|apply (run_mods _ Hrun)]. subst a. rewrite Hl. intros [= <-].
    apply (run_mods _ Hrun _ _ Hl). }
  assert (agree skel (st_reg s1) (st_reg (claim_state s l p id granted caller ls))) as Hsk
    by by apply agree_dirtied.
  split; [apply Hrun| |].
  - eapply tree_ok_frame; [exact Hok1|by apply skel_shape| |done|done].
    apply (dirtied_gens ls (st_reg s1)), tree_ok_gens, Hok1.
  - eapply mods_ok_frame; [exact Hm1|done|done].
Qed.

(** The new region is empty, and the lists of the others are as they were. *)
Lemma claim_state_heads s l p id granted caller ls a :
  st_reg s !! l = Some p -> st_reg s !! st_next s = None -> a <> st_next s ->
  (fun r => (r_mods_head r, r_mods_tail r)) <$> st_reg (claim_state s l p id granted caller ls) !! a =
  (fun r => (r_mods_head r, r_mods_tail r)) <$> st_reg s !! a.
Proof.
  intros Hl Hc Ha. assert (st_next s <> l) as Hcl by congruence.
  etransitivity; [|by apply (with_child_fmap _ (st_next s) l
    (first_child p l id granted caller) (st_reg s) a)].
  cbn [claim_state child_state st_reg set_st_tls set_st_rt set_st_reg]. unfold dirtied.
  rewrite !lookup_apply_on. destruct (with_child _ _ _ _ !! a); [|done]. cbn. by case_decide.
Qed.

Lemma claim_state_list s l p id granted caller ls a ms :
  st_reg s !! l = Some p -> st_reg s !! st_next s = None -> mod_list s a ms ->
  mod_list (claim_state s l p id granted caller ls) a ms.
Proof.
  intros Hl Hc Hms. apply (mod_list_keep s); [done..|]. apply claim_state_heads; [done..|].
  intros ->. destruct Hms as (r & Hr & _). congruence.
Qed.

Lemma claim_state_empty s l p id granted caller ls :
  st_reg s !! l = Some p -> st_reg s !! st_next s = None ->
  mod_list (claim_state s l p id granted caller ls) (st_next s) [].
Proof.
  intros Hl Hc. assert (st_next s <> l) as Hcl by congruence.
  assert ((fun r => (r_mods_head r, r_mods_tail r)) <$>
    st_reg (claim_state s l p id granted caller ls) !! st_next s = Some (None, None)) as E.
  { cbn [claim_state child_state st_reg set_st_tls set_st_rt set_st_reg]. unfold dirtied.
    rewrite !lookup_apply_on, with_child_lookup by done. rewrite decide_True by done. cbn. by case_decide. }
  destruct (st_reg (claim_state s l p id granted caller ls) !! st_next s) as [r|] eqn:Er; [|done].
  injection E as E1 E2. exists r. split; [done|]. rewrite E1, E2. split; constructor.
Qed.

Lemma child_state_claimed s l p id granted e ls :
  running s -> st_reg s !! l = Some p -> l ∈ ls -> leaf_ok s p e ->
  r_parent e = Some l -> r_plen e = r_plen p + granted -> r_child_bits e = granted ->
  r_mods_head e = None -> r_id e = id -> r_sibling_next e = r_children_head p ->
  claimed s (child_state s l id e ls) l (st_next s) p granted.
Proof.
  intros Hrun Hl Hin Hleaf F1 F2 F3 F4 F5 F6. pose proof (run_tree _ Hrun) as Hok.
  pose proof (next_unused _ Hok) as Hc.
  set (c := st_next s) in *.
  assert (c <> l) as Hcl by congruence.
  assert (forall a r, st_reg s !! a = Some r -> with_child c l e (st_reg s) !! a =
    Some (if decide (a = l) then set_r_children_head (Some c) r else r)) as Hold.
  { intros a r Ha. rewrite with_child_lookup by done. rewrite decide_False by congruence.
    case_decide; [|done]. subst. by rewrite Ha. }
  assert (forall a, exists g d, st_reg (child_state s l id e ls) !! a =
    (fun r => set_r_subtree_mods_dirty (d r) (set_r_dispatch_gen (g r) r)) <$>
      with_child c l e (st_reg s) !! a /\ (a ∈ ls -> forall r, d r = true)) as Hdirt.
  { intros a. cbn [child_state st_reg set_st_tls set_st_rt set_st_reg]. unfold dirtied.
    rewrite !lookup_apply_on. fold c. destruct (decide (a ∈ ls)).
    - exists (fun r => next_gen (r_dispatch_gen r)), (fun _ => true). split; [|done].
      by destruct (with_child c l e (st_reg s) !! a).
    - exists r_dispatch_gen, r_subtree_mods_dirty. split; [|done].
      destruct (with_child c l e (st_reg s) !! a) as [[]|]; done. }
  assert (with_child c l e (st_reg s) !! c = Some e) as Hce.
  { rewrite with_child_lookup by done. by rewrite decide_True. }
  split.
  - done.
  - destruct (Hdirt c) as (g & d & E & _). rewrite Hce in E. cbn in E. eexists. split; [exact E|].
    cbn [r_parent r_plen r_depth r_child_bits r_id r_mods_head set_r_subtree_mods_dirty
      set_r_dispatch_gen]. rewrite F5. by destruct Hleaf as [_ Hd Hp _ _ Hu Hf]; rewrite F5 in *.
  - done.
  - intros ks Hks. destruct (Hdirt l) as (g & d & E & Ed).
    rewrite (Hold _ _ Hl), decide_True in E by done. cbn in E. eexists. split; [exact E|].
    split; [by apply Ed|]. cbn.
    assert (forall a, sibling_of (st_reg (child_state s l id e ls)) a =
      sibling_of (with_child c l e (st_reg s)) a) as Hs.
    { intros a. destruct (Hdirt a) as (g' & d' & E' & _). unfold sibling_of. rewrite E'.
      by destruct (with_child c l e (st_reg s) !! a). }
    econstructor; [rewrite Hs; unfold sibling_of; rewrite Hce; cbn; by rewrite F6|]. cbn.
    eapply linked_mono; [intros a _; apply Hs|].
    by eapply (with_child_linked s c l p e Hl Hc l).
  - intros a r Ha. destruct (Hdirt a) as (g & d & E & _). rewrite (Hold _ _ Ha) in E.
    eexists. split; [exact E|]. by case_decide.
Qed.

Lemma claimed_frame s s1 s2 l c p granted :
  st_reg s2 = st_reg s1 -> st_tls s2 = st_tls s1 ->
  claimed s s1 l c p granted -> claimed s s2 l c p granted.
Proof. intros E1 E2 [H1 H2 H3 H4 H5]. split; rewrite ?E1, ?E2; done. Qed.

Lemma rekey_running s s' : running s -> rekey_frame s s' -> running s'.
Proof.
  intros Hrun [E1 E2 E3 E4 E5 E6 E7 E8]. eapply running_frame; [done|..].
  - by rewrite E1.
  - rewrite E1. by apply tree_ok_gens, Hrun.
  - done.
  - done.
  - by rewrite E4.
  - intros x. specialize (E8 x). destruct (st_mod s' !! x), (st_mod s !! x); try done.
    apply (f_equal (fmap mod_links)) in E8. exact E8.
Qed.

(** Both outcomes of the part after the handler. *)
Lemma claim_slot_spec s l p parent_id granted caller :
  running s -> registry_ok s -> st_alloc s = [] -> st_reg s !! l = Some p -> 1 <= granted <= 64 ->
  exists rc s', claim_slot l parent_id granted caller s = Ok (rc, s') /\ running s' /\
    st_err s' = rc /\
    ((rc = XY_OK /\ exists c, claimed s s' l c p granted) \/
     (rc = XY_ERR_TOOBIG /\ s' = set_st_err XY_ERR_TOOBIG s /\
      region_alloc_slot l granted s = Ok (XY_REGION_INVALID, s))).
Proof using QL.
  intros Hrun Hreg Ha Hl Hg. pose proof (run_tree _ Hrun) as Hok.
  destruct (alloc_slot_id s l p granted Hok Hl Hg) as (id & Halloc & Hid).
  destruct (decide (id = XY_REGION_INVALID)) as [->|Hne].
  { exists XY_ERR_TOOBIG, (set_st_err XY_ERR_TOOBIG s). split_and!; [|by apply running_err|done|by right].
    unfold claim_slot. by rewrite (bind_Ok _ _ _ _ _ Halloc). }
  destruct (to_hd _ Hok) as (hd & Hhd & _).
  destruct (up_chain _ _ _ Hok Hl) as (ls & Hls & _).
  assert (l ∈ ls) as Hin by (inversion Hls; left).
  destruct (new_child_leaf s l p id granted caller Hok Hl ltac:(lia) (Hid Hne)) as [Hplen Hleaf].
  specialize (Hleaf (r_children_head p)).
  set (s1 := claim_state s l p id granted caller ls).
  assert (running s1) as Hrun1 by by apply claim_state_running.
  assert (claimed s s1 l (st_next s) p granted) as Hcl by by apply child_state_claimed.
  assert (registry_ok s1) as Hreg1 by (destruct Hreg; by split).
  assert (wp (match caller with
              | Some caller => module_rekey_for_claim caller parent_id id
              | None => mret tt
              end) s1 (fun _ s' => rekey_frame s1 s')) as Hwp.
  { destruct caller as [caller|]; [|done].
    eapply wp_mono; [by apply module_rekey_for_claim_spec|]. naive_solver. }
  apply wp_Ok in Hwp as ([] & s2 & Hrun2 & Hf).
  exists XY_OK, (set_st_err XY_OK s2). split_and!; [| |done|left; split; [done|]].
  - rewrite (claim_slot_run s l p parent_id id granted caller ls hd); [|done|by apply next_unused|done..].
    by rewrite (bind_Ok _ _ _ _ _ Hrun2).
  - apply running_err. by eapply rekey_running.
  - exists (st_next s). apply (claimed_frame s s1); [apply Hf|apply Hf|done].
Qed.

(** C37: when the parent's handler grants 1 to 64 bits, a claim either enters a
    new child region (a fresh id in the parent's prefix, one level deeper, the
    granted width, first in the parent's child list, with the parent marked
    dirty and all other regions in place), or reports TOOBIG with nothing
    changed; in both cases the runtime stays consistent. *)
Theorem claim_granted s s1 exec caller bits l p p1 handler out :
  running s -> st_reg s !! l = Some p -> r_claim_handler p = Some handler -> 1 <= bits <= 64 ->
  exec (CbClaim handler (default "" caller) bits (r_claim_handler_ud p)) s = Ok (out, s1) ->
  int_result out = XY_OK -> 1 <= granted_byte out <= 64 ->
  running s1 -> registry_ok s1 -> st_alloc s1 = [] -> st_reg s1 !! l = Some p1 ->
  exists rc s', _xy_claim_for_load exec caller (r_id p) bits s = Ok (rc, s') /\ running s' /\
    st_err s' = rc /\
    ((rc = XY_OK /\ exists c, claimed s1 s' l c p1 (granted_byte out)) \/
     (rc = XY_ERR_TOOBIG /\ s' = set_st_err XY_ERR_TOOBIG s1 /\
      region_alloc_slot l (granted_byte out) s1 = Ok (XY_REGION_INVALID, s1))).
Proof using QL.
  intros Hrun Hl Hh Hb He Hret Hg Hrun1 Hreg1 Ha1 Hl1.
  destruct (claim_slot_spec s1 l p1 (r_id p) (granted_byte out) caller Hrun1 Hreg1 Ha1 Hl1 Hg)
    as (rc & s' & Hrc & H).
  exists rc, s'. split; [|done]. unfold _xy_claim_for_load.
  destruct (Z.eqb_spec bits 0), (Z.ltb_spec 64 bits); try lia. cbn [orb].
  rewrite (bind_Ok _ _ _ _ _ (region_lookup_found _ _ _ (run_tree _ Hrun) Hl)).
  rewrite (bind_Ok (region_at l) _ s s p) by (apply wp_eq; by eapply wp_region_at).
  rewrite Hh, (bind_Ok _ _ _ _ _ He), Hret. cbv zeta.
  destruct (Z.eqb_spec (granted_byte out) 0), (Z.ltb_spec 64 (granted_byte out)); try lia. done.
Qed.

(** C32: a claim is refused, with the documented code and nothing but the error
    changed, when the requested width is out of range, the region is unknown,
    it has no handler, the handler refuses, or grants a width out of range. *)
Theorem claim_refused s exec caller id bits :
  running s ->
  (~ 1 <= bits <= 64 -> 0 <= bits ->
   _xy_claim_for_load exec caller id bits s = Ok (XY_ERR_INVALID, set_st_err XY_ERR_INVALID s)) /\
  (1 <= bits <= 64 -> ~ registered s id ->
   _xy_claim_for_load exec caller id bits s = Ok (XY_ERR_NOTFOUND, set_st_err XY_ERR_NOTFOUND s)) /\
  (1 <= bits <= 64 -> forall l p, st_reg s !! l = Some p -> r_id p = id ->
   r_claim_handler p = None ->
   _xy_claim_for_load exec caller id bits s = Ok (XY_ERR_EPERM, set_st_err XY_ERR_EPERM s)) /\
  (1 <= bits <= 64 -> forall l p h out s1, st_reg s !! l = Some p -> r_id p = id ->
   r_claim_handler p = Some h ->
   exec (CbClaim h (default "" caller) bits (r_claim_handler_ud p)) s = Ok (out, s1) ->
   int_result out <> XY_OK \/ ~ 1 <= granted_byte out <= 64 ->
   _xy_claim_for_load exec caller id bits s = Ok (XY_ERR_EPERM, set_st_err XY_ERR_EPERM s1)).
Proof.
  intros Hrun. pose proof (run_tree _ Hrun) as Hok. unfold _xy_claim_for_load.
  destruct (Z.eqb_spec bits 0), (Z.ltb_spec 64 bits); cbn [orb];
    (split_and!; [intros; try lia|intros Hb..]; try lia; try done).
  - intros Hfree. rewrite (bind_Ok _ _ _ _ _ (region_lookup_missing _ id Hok
      (fun l r Hr E => Hfree (ex_intro _ l (ex_intro _ r (conj Hr E)))))). done.
  - intros l p Hl <- Hh. rewrite (bind_Ok _ _ _ _ _ (region_lookup_found _ _ _ Hok Hl)).
    rewrite (bind_Ok (region_at l) _ s s p) by (apply wp_eq; by eapply wp_region_at). by rewrite Hh.
  - intros l p h out s1 Hl <- Hh He Hno.
    rewrite (bind_Ok _ _ _ _ _ (region_lookup_found _ _ _ Hok Hl)).
    rewrite (bind_Ok (region_at l) _ s s p) by (apply wp_eq; by eapply wp_region_at).
    rewrite Hh, (bind_Ok _ _ _ _ _ He). cbv zeta.
    destruct (Z.eqb_spec (int_result out) XY_OK); [|done]. cbn [negb].
    pose proof (wrap8_u8 (default 0 (out !! 1%nat))) as Hu. fold (granted_byte out) in Hu.
    unfold is_u8 in Hu.
    destruct (Z.eqb_spec (granted_byte out) 0), (Z.ltb_spec 64 (granted_byte out)); try done. lia.
Qed.

End ClaimFacts.
