(* ===== verification/Deny.v ===== *)
(** * Denials

    The denied hooks and modules of a region: [xy_deny], [module_is_denied],
    [module_remove_denies] of src/libxylem.c. *)

From S2P Require Import Prelude QMap Status State Machine Linked Region RegionTree Runtime Paths.
From stdpp Require Import options.
Local Open Scope Z_scope.

Section Deny.
Context {Q : QMapOps} {P : Platform}.

(** The hash sets are opened at the first denial; the value 1 is a sentinel. *)
Definition deny_hook (what : string) (r : region_entry) : region_entry :=
  set_r_denied_hooks_set (Some (qput (default qopen (r_denied_hooks_set r)) what 1))
    (set_r_denied_hooks (what :: r_denied_hooks r) r).

Definition deny_module (path : loc) (r : region_entry) : region_entry :=
  set_r_denied_modules_set (Some (qput (default qopen (r_denied_modules_set r)) path 1))
    (set_r_denied_modules (path :: r_denied_modules r) r).

Definition xy_deny (what : string) (type : xy_deny_type) : XM Z :=
  with_runtime (
    cur ← gets (fun s => t_region_id (st_tls s));
    found ← region_lookup cur;
    match found with
    | None => return_err XY_ERR_NOTFOUND
    | Some reg =>
        let finish :=
          region_propagate_deny (Some reg);;
          region_dispatch_gen_bump (Some reg);;
          return_err XY_OK in
        match type with
        | XY_DENY_HOOK => upd_region reg (deny_hook what);; finish
        | XY_DENY_MODULE =>
            path ← module_load_path what;
            match path with
            | None => return_err XY_ERR_INVALID
            | Some path =>
                interned ← module_path_intern (Some path);
                match interned with
                | None => return_err XY_ERR_INVALID
                | Some interned => upd_region reg (deny_module interned);; finish
                end
            end
        end
    end).

(** Whether the entry [r] denies the interned path [path]. *)
Definition entry_denies (r : region_entry) (path : loc) : bool :=
  match r_denied_modules_set r with
  | Some hd => bool_decide (is_Some (qget hd path))
  | None => false
  end || existsb (fun v => bool_decide (v = path)) (r_denied_modules r).

Definition module_is_denied (re path : option loc) : XM bool :=
  match re, path with
  | Some re, Some path => r ← region_at re; mret (entry_denies r path)
  | _, _ => mret false
  end.

(** The unlinking loop over the deny list. *)
Fixpoint remove_denies_loop (path : loc) (ds : list loc) (hd : option (qmap loc Z))
    : list loc * option (qmap loc Z) :=
  match ds with
  | [] => ([], hd)
  | v :: rest =>
      if decide (v = path) then
        remove_denies_loop path rest ((fun hd => qdel hd v) <$> hd)
      else
        let '(rest', hd') := remove_denies_loop path rest hd in (v :: rest', hd')
  end.

Definition undeny_module (path : loc) (r : region_entry) : region_entry :=
  let '(ds, hd) := remove_denies_loop path (r_denied_modules r) (r_denied_modules_set r) in
  set_r_denied_modules_set hd (set_r_denied_modules ds r).

Definition module_remove_denies (re path : option loc) : XM unit :=
  match re, path with
  | Some re, Some path => upd_region re (undeny_module path)
  | _, _ => mret tt
  end.

(** [handle] is unused by the code too. *)
Definition module_remove_path_owned_entries (re path hdl : option loc) : XM unit :=
  match re, path with
  | Some _, Some _ => module_remove_denies re path
  | _, _ => mret tt
  end.

(** The lists and the hash sets of a region hold the same values. *)
Definition deny_ok (r : region_entry) : Prop :=
  (forall w, is_Some (qget (default qopen (r_denied_hooks_set r)) w) <-> w ∈ r_denied_hooks r) /\
  (forall p, is_Some (qget (default qopen (r_denied_modules_set r)) p) <-> p ∈ r_denied_modules r).

(** The effect of a denial on the region heap: the entry itself, and the
    flag and generation of the region and its ancestors [ls]. *)
Definition denied_reg (f : region_entry -> region_entry) (l : loc) (r : region_entry)
    (ls : list loc) (reg : gmap loc region_entry) : gmap loc region_entry :=
  apply_on bump_gen ls (apply_on flag_deny ls (<[l := f r]> reg)).

End Deny.

(** ** Theorems *)

Section DenyFacts.
Context {Q : QMapOps} {QL : QMapLaws Q} {P : Platform}.
Implicit Types (s : state) (r : region_entry).

(** Looking in the hash set and then in the list of a region is the same
    as membership in the list. *)
Theorem entry_denies_iff (r : region_entry) (p : loc) :
  deny_ok r -> entry_denies r p = true <-> p ∈ r_denied_modules r.
Proof.
  intros [_ H]. specialize (H p). unfold entry_denies. rewrite orb_true_iff, existsb_exists.
  setoid_rewrite <- list_elem_of_In. setoid_rewrite bool_decide_eq_true.
  split; [|naive_solver]. intros [Hs|(v & Hv & ->)]; [|done].
  destruct (r_denied_modules_set r); [|done]. apply H. by apply bool_decide_eq_true in Hs.
Qed.

Lemma remove_denies_loop_spec path ds (hd : option (qmap loc Z)) :
  (remove_denies_loop path ds hd).1 = filter (fun v => v <> path) ds /\
  forall q, qget (default qopen (remove_denies_loop path ds hd).2) q =
    if decide (q = path /\ path ∈ ds) then None else qget (default qopen hd) q.
Proof using QL.
  revert hd. induction ds as [|v ds IH]; intros hd; cbn [remove_denies_loop].
  - split; [done|]. intros q. rewrite decide_False; [done|]. intros [_ H]. by apply not_elem_of_nil in H.
  - destruct (decide (v = path)) as [->|Hne].
    + destruct (IH ((fun hd => qdel hd path) <$> hd)) as [H1 H2]. split.
      * rewrite H1, filter_cons_False; naive_solver.
      * intros q. rewrite H2. destruct (decide (q = path)) as [->|Hq].
        { rewrite (decide_True (P := path = path /\ path ∈ path :: ds)) by (split; [done|left]).
          destruct (decide (path = path /\ path ∈ ds)); [done|].
          destruct hd; cbn; [apply qget_del_eq|apply qget_open]. }
        rewrite !decide_False by naive_solver. destruct hd; cbn; [by rewrite qget_del_ne|done].
    + specialize (IH hd). destruct (remove_denies_loop path ds hd) as [ds' hd']. cbn [fst snd] in *.
      destruct IH as [-> H2]. split; [by rewrite filter_cons_True|].
      intros q. rewrite H2. apply decide_ext. rewrite elem_of_cons. naive_solver.
Qed.

(** [module_remove_denies] removes every entry of the path and nothing
    else, from the list and from the hash set alike. *)
Theorem undeny_module_correct (r : region_entry) (p q : loc) :
  deny_ok r ->
  deny_ok (undeny_module p r) /\ entry_denies (undeny_module p r) p = false /\
  (q <> p -> entry_denies (undeny_module p r) q = entry_denies r q).
Proof using QL.
  intros Hok. pose proof (remove_denies_loop_spec p (r_denied_modules r) (r_denied_modules_set r))
    as [H1 H2].
  assert (r_denied_modules (undeny_module p r) = filter (fun v => v <> p) (r_denied_modules r)) as El.
  { unfold undeny_module. destruct (remove_denies_loop _ _ _). cbn in *. by subst. }
  assert (deny_ok (undeny_module p r)) as Hok'.
  { destruct Hok as [Hh Hm]. split.
    - unfold undeny_module. by destruct (remove_denies_loop _ _ _).
    - intros x. rewrite El, list_elem_of_filter, <- Hm. unfold undeny_module.
      destruct (remove_denies_loop _ _ _) as [ds hd]. cbn in *. rewrite H2.
      destruct (decide (x = p /\ p ∈ r_denied_modules r)) as [E|E].
      + split; [by intros []|]. intros [? _]. naive_solver.
      + split; [|by intros [_ ?]]. intros Hx. split; [|done]. intros ->. apply E.
        split; [done|]. by apply Hm. }
  split; [done|]. split.
  - apply not_true_iff_false. rewrite entry_denies_iff by done. rewrite El, list_elem_of_filter.
    naive_solver.
  - intros Hq. apply eq_true_iff_eq. rewrite !entry_denies_iff by done.
    rewrite El, list_elem_of_filter. naive_solver.
Qed.

Lemma deny_hook_ok what r : deny_ok r -> deny_ok (deny_hook what r).
Proof using QL.
  intros [Hh Hm]. split; [|done]. intros w. cbn. rewrite qget_put, elem_of_cons, <- Hh.
  case_decide; naive_solver.
Qed.

Lemma deny_module_ok p r : deny_ok r -> deny_ok (deny_module p r).
Proof using QL.
  intros [Hh Hm]. split; [done|]. intros w. cbn. rewrite qget_put, elem_of_cons, <- Hm.
  case_decide; naive_solver.
Qed.

(** The flag and generation loops after a denial. *)
Lemma deny_finish s l r f ls :
  linked (parent_of (st_reg s)) (Some l) ls -> st_reg s !! l = Some r ->
  (forall r, skel (f r) = skel r) ->
  (upd_region l f;; region_propagate_deny (Some l);; region_dispatch_gen_bump (Some l);;
   return_err XY_OK) s =
  Ok (XY_OK, set_st_err XY_OK (set_st_reg (denied_reg f l r ls (st_reg s)) s)).
Proof.
  intros Hls Hr Hf. set (s1 := set_st_reg (<[l := f r]> (st_reg s)) s).
  assert (linked (parent_of (st_reg s1)) (Some l) ls) as Hls1.
  { eapply shape_chain; [|done]. apply skel_shape, (agree_insert skel _ _ r); done. }
  set (s2 := set_st_reg (apply_on flag_deny ls (st_reg s1)) s1).
  assert (linked (parent_of (st_reg s2)) (Some l) ls) as Hls2.
  { eapply shape_chain; [|done]. by apply agree_apply_on. }
  rewrite (bind_Ok _ _ s s1 tt) by (apply wp_eq; by eapply wp_upd_region).
  unfold region_propagate_deny, region_dispatch_gen_bump.
  rewrite (bind_Ok _ _ _ _ _ (for_ancestors_spec flag_deny _ ls s1 (fun _ => eq_refl) Hls1)).
  by rewrite (bind_Ok _ _ _ _ _ (for_ancestors_spec bump_gen _ ls s2 (fun _ => eq_refl) Hls2)).
Qed.

Lemma denied_reg_skel f l r ls reg :
  reg !! l = Some r -> (forall r, skel (f r) = skel r) -> agree skel reg (denied_reg f l r ls reg).
Proof.
  intros Hr Hf. unfold denied_reg. etransitivity; [by apply (agree_insert skel _ l r), Hf|].
  etransitivity; [by apply (agree_apply_on skel flag_deny ls)|]. by apply agree_apply_on.
Qed.

Lemma flag_deny_flagged r : Z.testbit (r_subtree_flags (flag_deny r)) 0 = true.
Proof.
  change (r_subtree_flags (flag_deny r)) with (Z.lor (r_subtree_flags r) 1).
  rewrite Z.lor_spec. apply orb_true_r.
Qed.

Lemma denied_reg_gens f l r ls reg :
  gens_ok reg -> reg !! l = Some r -> r_dispatch_gen (f r) = r_dispatch_gen r ->
  gens_ok (denied_reg f l r ls reg).
Proof.
  intros Hg Hr Hf. apply gens_ok_apply_on; [apply gens_ok_apply_on; [apply gens_ok_insert|]|].
  - done.
  - rewrite Hf. by eapply Hg.
  - done.
  - intros r0 _. apply next_gen_range.
Qed.

(** What a denial does to the region [a] of the chain [ls] of [l]. *)
Lemma denied_reg_lookup f l r ls reg a :
  reg !! l = Some r -> l ∈ ls ->
  denied_reg f l r ls reg !! a =
    if decide (a ∈ ls) then
      (fun r0 => bump_gen (flag_deny (if decide (a = l) then f r0 else r0))) <$> reg !! a
    else reg !! a.
Proof.
  intros Hr Hl. unfold denied_reg. rewrite !lookup_apply_on, lookup_insert. destruct (decide (l = a)) as [<-|Hne].
  - rewrite Hr. cbn. by rewrite !(decide_True (P := l ∈ ls)), (decide_True (P := l = l)) by done.
  - destruct (reg !! a); cbn; [|by destruct (decide _)].
    rewrite (decide_False (P := a = l)) by congruence. by destruct (decide (a ∈ ls)).
Qed.

(** C28: [xy_deny] of a hook in a running runtime succeeds and keeps the invariants.
    Of the regions it changes the caller's current one and its ancestors [ls]: each
    gets the flag for denials and a new dispatch generation.  The denial is recorded
    in the current region only: the name is put in front of its list of denied hooks
    and into its set, where the other names stay as they are.  Nothing else of
    these regions, and no other region, descendants included, changes. *)
Theorem xy_deny_hook_correct (s : state) (what : string) (l : loc) (r : region_entry) :
  running s -> st_reg s !! l = Some r -> r_id r = t_region_id (st_tls s) ->
  exists ls reg', linked (parent_of (st_reg s)) (Some l) ls /\
    xy_deny what XY_DENY_HOOK s = Ok (XY_OK, set_st_err XY_OK (set_st_reg reg' s)) /\
    running (set_st_err XY_OK (set_st_reg reg' s)) /\
    (forall a, a ∉ ls -> reg' !! a = st_reg s !! a) /\
    (forall a, a ∈ ls -> exists ra0 ra, st_reg s !! a = Some ra0 /\ reg' !! a = Some ra /\
       r_subtree_flags ra = Z.lor (r_subtree_flags ra0) 1 /\ r_dispatch_gen ra <> r_dispatch_gen ra0 /\
       r_denied_hooks ra = (if decide (a = l) then [what] else []) ++ r_denied_hooks ra0 /\
       (a = l -> is_Some (r_denied_hooks_set ra)) /\
       (forall w, qget (default qopen (r_denied_hooks_set ra)) w =
          if decide (a = l /\ w = what) then Some 1
          else qget (default qopen (r_denied_hooks_set ra0)) w) /\
       ra = set_r_subtree_flags (r_subtree_flags ra) (set_r_dispatch_gen (r_dispatch_gen ra)
         (set_r_denied_hooks (r_denied_hooks ra) (set_r_denied_hooks_set (r_denied_hooks_set ra) ra0)))).
Proof using QL.
  intros Hrun Hr Hid. pose proof (run_tree _ Hrun) as Hok.
  destruct (up_chain _ _ _ Hok Hr) as (ls & Hls & _ & _ & Hlive).
  exists ls, (denied_reg (deny_hook what) l r ls (st_reg s)).
  assert (l ∈ ls) as Hl by (inversion Hls; left). split; [done|].
  destruct (to_hd _ Hok) as (hd & Hhd & Hget). split_and!.
  - unfold xy_deny. rewrite with_runtime_inited by apply Hrun.
    rewrite (bind_Ok _ _ s s (t_region_id (st_tls s)) eq_refl). unfold region_lookup.
    rewrite (bind_Ok _ _ s s (Some l)); [by apply deny_finish|].
    apply wp_eq. wp_step. eapply wp_handle; [done|]. wp_step. split; [|done].
    apply Hget. eauto.
  - eapply running_frame; [done|by apply denied_reg_skel| |done..].
    apply denied_reg_gens; [by apply tree_ok_gens|done..].
  - intros a Ha. by rewrite denied_reg_lookup, decide_False.
  - intros a Ha. destruct (Hlive _ Ha) as [ra0 Hra0]. eexists ra0, _. split; [done|].
    rewrite denied_reg_lookup, decide_True, Hra0 by done. split; [reflexivity|].
    pose proof (next_gen_ne _ (tree_ok_gens _ Hok _ _ Hra0)) as Hg.
    destruct (decide (a = l)) as [->|Hne]; split_and!; try done.
    + intros w. cbn. rewrite qget_put. destruct (decide (what = w)) as [->|Hw].
      * by rewrite decide_True.
      * by rewrite decide_False by naive_solver.
    + intros w. by rewrite decide_False by naive_solver.
Qed.

End DenyFacts.
