(* ===== verification/Dispatch.v ===== *)
(** * Dispatch

    src/libxylem-dispatch.c: the per-region dispatch caches, [xy_call],
    [xy_last] and [xy_areg], and the [fname_adapter_call] functions that XY_DEF
    of include/ttypt/xy.h generates. *)

From S2P Require Import Prelude QMap Status State Machine ModKey Linked Region RegionTree ModList.
From S2P Require Import Runtime Paths Identity FnCache RegionApi Deny.
From stdpp Require Import options.
Local Open Scope Z_scope.

Section Dispatch.
Context {Q : QMapOps} {P : Platform}.

(** *** Dispatch caches *)

Definition cache_zero : hook_dispatch_cache := HookCache None 0 0 0.

Definition region_ensure_hook_dispatch_cap (re : loc) (hook_id : Z) : XM Z :=
  if hook_id <? 0 then mret XY_ERR_INVALID
  else
    r ← region_at re;
    let cap := Z.of_nat (length (r_hook_dispatch r)) in
    if hook_id <? cap then mret XY_OK
    else
      ok ← try_alloc;
      if ok : bool then
        upd_region re (fun r => set_r_hook_dispatch
          (r_hook_dispatch r ++ replicate (Z.to_nat (hook_id + 16 - cap)) cache_zero) r);;
        mret XY_OK
      else mret XY_ERR_INVALID.

(** [&re->hook_dispatch[hook_id]], which has to be within the array. *)
Definition cache_of (r : region_entry) (hook_id : Z) : option hook_dispatch_cache :=
  if hook_id <? 0 then None else r_hook_dispatch r !! Z.to_nat hook_id.
Definition cache_at (re : loc) (hook_id : Z) : XM hook_dispatch_cache :=
  r ← region_at re; must (cache_of r hook_id).
Definition upd_cache (re : loc) (hook_id : Z) (f : hook_dispatch_cache -> hook_dispatch_cache)
    : XM unit :=
  c ← cache_at re hook_id;
  upd_region re (fun r =>
    set_r_hook_dispatch (<[Z.to_nat hook_id := f c]> (r_hook_dispatch r)) r).

(** The slots written so far in the array [l]. *)
Definition slots_at (l : loc) : XM (list dispatch_slot) :=
  gets (fun s => st_slots s !! l) ≫= must.

(** [cache->slots[i] = sl], where [i] is at most the number of slots written. *)
Definition slot_write (l : loc) (i : nat) (sl : dispatch_slot) : XM unit :=
  a ← slots_at l;
  if decide (i < length a)%nat then modify (fun s => set_st_slots (<[l := <[i := sl]> a]> (st_slots s)) s)
  else if decide (i = length a) then modify (fun s => set_st_slots (<[l := a ++ [sl]]> (st_slots s)) s)
  else undef.

(** The array moves when it grows, and the old one is gone. *)
Definition slots_grow (re : loc) (hook_id : Z) : XM Z :=
  c ← cache_at re hook_id;
  if hc_cap c <=? hc_count c then
    ok ← try_alloc;
    if ok : bool then
      old ← (match hc_slots c with Some l => slots_at l | None => mret [] end);
      l ← fresh_loc;
      modify (fun s => set_st_slots (<[l := old]>
        (match hc_slots c with Some o => delete o (st_slots s) | None => st_slots s end)) s);;
      upd_cache re hook_id (fun c =>
        set_hc_cap (if hc_cap c =? 0 then 8 else hc_cap c * 2) (set_hc_slots (Some l) c));;
      mret XY_OK
    else mret XY_ERR_INVALID
  else mret XY_OK.

Definition slots_push (re : loc) (hook_id : Z) (sl : dispatch_slot) : XM Z :=
  rc ← slots_grow re hook_id;
  if negb (rc =? XY_OK) then mret rc
  else
    c ← cache_at re hook_id;
    l ← must (hc_slots c);
    slot_write l (Z.to_nat (hc_count c)) sl;;
    upd_cache re hook_id (fun c => set_hc_count (hc_count c + 1) c);;
    mret XY_OK.

(** [for (ai = 0; ai < anc_n; ai++) if (module_is_denied(...)) ...] *)
Fixpoint denied_by_chain (chain : list loc) (path : option loc) : XM bool :=
  match chain with
  | [] => mret false
  | a :: rest =>
      d ← module_is_denied (Some a) path;
      if d : bool then mret true else denied_by_chain rest path
  end.

(** One turn of the loop over [subtree_mods]. *)
Definition rebuild_turn (re : loc) (hook_id : Z) (hook_name : string) (anc_chain : list loc)
    (me : loc) : XM Z :=
  m ← module_at me;
  match m_ctx m with
  | None => mret XY_OK
  | Some _ =>
      denied ← denied_by_chain anc_chain (m_load_path m);
      if denied : bool then mret XY_OK
      else
        found ← (if module_has_hook_implemented m hook_id then mret (Some true)
                 else
                   cb ← fn_cache_resolve me hook_id hook_name;
                   mret (match cb with
                         | ResOom => None
                         | ResNone => Some false
                         | ResFn _ => Some true
                         end));
        match found with
        | None => mret XY_ERR_INVALID
        | Some false => mret XY_OK
        | Some true =>
            m ← module_at me;
            if module_has_hook_implemented m hook_id then
              cb ← must (m_fn_cache m !! Z.to_nat hook_id);
              slots_push re hook_id (Slot (Some me) cb)
            else mret XY_OK
        end
  end.

Fixpoint rebuild_loop (re : loc) (hook_id : Z) (hook_name : string) (anc_chain : list loc)
    (ms : list loc) : XM Z :=
  match ms with
  | [] => mret XY_OK
  | me :: rest =>
      rc ← rebuild_turn re hook_id hook_name anc_chain me;
      if negb (rc =? XY_OK) then mret rc
      else rebuild_loop re hook_id hook_name anc_chain rest
  end.

(** [if (re->subtree_mods_dirty && region_rebuild_subtree_mods(re) < 0)] *)
Definition refresh_subtree_mods (re : loc) : XM Z :=
  r ← region_at re;
  if r_subtree_mods_dirty r then region_rebuild_subtree_mods (Some re) else mret 0.

Definition region_rebuild_hook_dispatch (re : loc) (hook_id : Z) (hook_name : string)
    (anc_chain : list loc) : XM Z :=
  if hook_id <? 0 then mret XY_ERR_INVALID
  else
    rc ← refresh_subtree_mods re;
    if rc <? 0 then mret XY_ERR_INVALID
    else
      rc ← region_ensure_hook_dispatch_cap re hook_id;
      if negb (rc =? XY_OK) then mret XY_ERR_INVALID
      else
        r ← region_at re;
        c ← cache_at re hook_id;
        if hc_region_gen c =? r_dispatch_gen r then mret XY_OK
        else
          upd_cache re hook_id (set_hc_count 0);;
          rc ← rebuild_loop re hook_id hook_name anc_chain (r_subtree_mods r);
          if negb (rc =? XY_OK) then mret rc
          else
            r ← region_at re;
            upd_cache re hook_id (set_hc_region_gen (r_dispatch_gen r));;
            mret XY_OK.

(** *** Return values *)

(** [xy_last_retbuf], a thread-local array of XY_MAX_RET_SIZE bytes. *)
Definition xy_last_retbuf : loc := 1.

Definition xy_zero_ret (retp reg : option loc) : XM unit :=
  match retp, reg with
  | Some retp, Some reg => a ← adapter_at reg; memset0 retp (a_ret_size a)
  | _, _ => mret tt
  end.

(** Up to eight bytes are widened to a whole [uint64_t]. *)
Definition xy_set_last_ret (retp : option loc) (ret_size : Z) : XM unit :=
  match retp with
  | Some retp =>
      if 0 <? ret_size then
        bs ← mem_read retp ret_size;
        mem_write xy_last_retbuf
          (if ret_size <=? 8 then bs ++ replicate (Z.to_nat (8 - ret_size)) 0 else bs);;
        upd_tls (set_t_last_retp (Some xy_last_retbuf))
      else upd_tls (set_t_last_retp None)
  | None => upd_tls (set_t_last_retp None)
  end.

Definition xy_last (ret : option loc) : XM Z :=
  with_runtime (
    adapter ← gets (fun s => x_adapter (st_xy s));
    match adapter with
    | None => return_err XY_ERR_INVALID
    | Some adapter =>
        ran ← gets (fun s => t_last_ran (st_tls s));
        if ran =? 0 then return_err XY_ERR_NOTFOUND
        else
          retp ← gets (fun s => t_last_retp (st_tls s));
          (match ret, retp with
           | Some ret, Some retp =>
               a ← adapter_at adapter;
               bs ← mem_read retp (a_ret_size a);
               mem_write ret bs
           | _, _ => mret tt
           end);;
          return_err XY_OK
    end).

(** The value of a function of type [ftype] as the bytes it is stored in. *)
Definition ret_bytes (size : Z) (out : list Z) : list Z :=
  take (Z.to_nat size) (out ++ replicate (Z.to_nat size) 0).

(** [fname_adapter_call(res, fn, arg)] *)
Definition adapter_call (exec : executor) (tr : trampoline) (res : option loc) (fn : fnptr)
    (arg : list Z) : XM unit :=
  match fn with
  | FnNull =>
      match res with Some res => memset0 res (tr_ret_size tr) | None => mret tt end
  | FnNotFound => undef
  | Fn f =>
      out ← exec (CbHook f arg);
      match res with
      | Some res => mem_write res (ret_bytes (tr_ret_size tr) out)
      | None => mret tt
      end
  end.

(** *** xy_call *)

(** [fail:] *)
Definition call_fail (retp : option loc) (reg : loc) (ret : Z) : XM Z :=
  upd_tls (set_t_last_ran 0);;
  a ← adapter_at reg;
  xy_set_last_ret None (a_ret_size a);;
  xy_zero_ret retp (Some reg);;
  upd_xy (set_x_adapter (Some reg));;
  return_err ret.

(** [hook_id >= 0 && hook_id < xy_adapter_by_id_cap], then the entry *)
Definition canonical_adapter (hook_id : Z) : XM (option adapter) :=
  by_id ← gets (fun s => rt_adapter_by_id (st_rt s));
  if hook_id <? 0 then mret None
  else
    match by_id !! Z.to_nat hook_id with
    | Some (Some l) => c ← adapter_at l; mret (Some c)
    | _ => mret None
    end.

(** A hook id that is still negative is looked up by name, and the adapter of
    a mere declaration is completed from the canonical one.  [None]: the hook
    is not registered. *)
Definition call_resolve (reg : loc) : XM (option (Z * option trampoline)) :=
  a ← adapter_at reg;
  if negb (a_hook_id a <? 0) then mret (Some (a_hook_id a, a_call a))
  else
    hd ← handle rt_hook_id_hd;
    match qget hd (a_name a) with
    | None => mret None
    | Some hook_id =>
        upd_adapter reg (set_a_hook_id hook_id);;
        canonical ← canonical_adapter hook_id;
        match canonical, a_call a with
        | Some c, None =>
            upd_adapter reg (fun a =>
              set_a_arg_size (a_arg_size c) (set_a_ret_size (a_ret_size c) (set_a_call (a_call c) a)));;
            mret (Some (hook_id, a_call c))
        | _, call => mret (Some (hook_id, call))
        end
    end.

(** [if (!dispatch_call && ...) dispatch_call = canonical->call] *)
Definition call_trampoline (hook_id : Z) (dispatch_call : option trampoline)
    : XM (option trampoline) :=
  match dispatch_call with
  | Some tr => mret (Some tr)
  | None =>
      canonical ← canonical_adapter hook_id;
      mret (match canonical with Some c => a_call c | None => None end)
  end.

(** The ancestor chain of the caller, read only when its flags say so. *)
Definition call_chain (entry : option loc) : XM (list loc) :=
  match entry with
  | None => mret []
  | Some e =>
      r ← region_at e;
      if negb (Z.land (r_subtree_flags r) XY_SUBTREE_ANY_MASK =? 0)
      then region_ancestor_chain (Some e) 65
      else mret []
  end.

Definition hook_denied (r : region_entry) (name : string) : bool :=
  match r_denied_hooks_set r with
  | Some hd => bool_decide (is_Some (qget hd name))
  | None => false
  end.

Fixpoint hook_denied_by_chain (chain : list loc) (name : string) : XM bool :=
  match chain with
  | [] => mret false
  | l :: rest =>
      r ← region_at l;
      if hook_denied r name then mret true else hook_denied_by_chain rest name
  end.

Definition call_denied (entry : option loc) (chain : list loc) (name : string) : XM bool :=
  sflags ← (match entry with
            | Some e => r ← region_at e; mret (r_subtree_flags r)
            | None => mret 0
            end);
  if negb (Z.land sflags XY_SUBTREE_SECURITY_MASK =? 0) then hook_denied_by_chain chain name
  else mret false.

(** The call through one slot: [true] when the module's function was called. *)
Definition dispatch_slot_call (exec : executor) (retp : option loc) (reg : loc) (tr : trampoline)
    (arg : list Z) (region_id : Z) (sl : dispatch_slot) : XM bool :=
  match sl_me sl with
  | None => mret false
  | Some me =>
      m ← module_at me;
      match m_ctx m, sl_cb sl with
      | None, _ | _, FnNull => mret false
      | Some ctx, cb =>
          upd_ctx ctx (set_x_adapter (Some reg));;
          upd_ctx ctx (set_x_region_state (m_region_state m));;
          x ← ctx_at ctx;
          prev_rentry ← gets (fun s => t_region_entry (st_tls s));
          (if negb (x_region_id x =? region_id) then
             set_current_region (x_region_id x) (m_region_entry m);;
             adapter_call exec tr retp cb arg;;
             set_current_region region_id prev_rentry
           else adapter_call exec tr retp cb arg);;
          mret true
      end
  end.

(** The slot is read from the array when its turn comes. *)
Definition run_slot (exec : executor) (retp : option loc) (reg : loc) (tr : trampoline)
    (arg : list Z) (region_id : Z) (slots : loc) (i : nat) : XM bool :=
  arr ← slots_at slots;
  sl ← must (arr !! i);
  dispatch_slot_call exec retp reg tr arg region_id sl.

(** [for (mi = 0; mi < n; mi++)]; [turns] is [n - mi]. *)
Fixpoint run_slots (exec : executor) (retp : option loc) (reg : loc) (tr : trampoline)
    (arg : list Z) (region_id : Z) (slots : option loc) (turns mi : nat) (ran : Z) : XM Z :=
  match turns with
  | O => mret ran
  | S turns' =>
      l ← must slots;
      b ← run_slot exec retp reg tr arg region_id l mi;
      run_slots exec retp reg tr arg region_id slots turns' (S mi)
        (if b : bool then ran + 1 else ran)
  end.

(** From the check of the module vector to the rebuild of the dispatch cache;
    [false] is a [goto fail]. *)
Definition call_prepare (hook_id : Z) (name : string) (chain : list loc) (e : loc) : XM bool :=
  rc ← refresh_subtree_mods e;
  if rc <? 0 then mret false
  else
    r ← region_at e;
    rc ← (if Z.of_nat (length (r_hook_dispatch r)) <=? hook_id
          then region_ensure_hook_dispatch_cap e hook_id else mret XY_OK);
    if negb (rc =? XY_OK) then mret false
    else
      r ← region_at e;
      c ← cache_at e hook_id;
      rc ← (if negb (hc_region_gen c =? r_dispatch_gen r)
            then region_rebuild_hook_dispatch e hook_id name chain else mret XY_OK);
      mret (rc =? XY_OK).

(** From there to the end of the loop over the slots; the array and the count
    are read once. *)
Definition call_slots (exec : executor) (retp : option loc) (reg : loc) (tr : trampoline)
    (arg : list Z) (region_id hook_id : Z) (e : loc) : XM Z :=
  c ← cache_at e hook_id;
  if hc_count c =? 1 then
    slots ← must (hc_slots c);
    b ← run_slot exec retp reg tr arg region_id slots 0;
    mret (if b : bool then 1 else 0)
  else run_slots exec retp reg tr arg region_id (hc_slots c) (Z.to_nat (hc_count c)) 0 0.

(** The whole of [if (caller_region_entry) { ... }]; [None] is a [goto fail]. *)
Definition call_entry (exec : executor) (retp : option loc) (reg : loc) (tr : trampoline)
    (arg : list Z) (region_id hook_id : Z) (name : string) (chain : list loc) (e : loc)
    : XM (option Z) :=
  ok ← call_prepare hook_id name chain e;
  if ok : bool then
    ran ← call_slots exec retp reg tr arg region_id hook_id e;
    mret (Some ran)
  else mret None.

(** [xy_last_ran = ran;] to the end. *)
Definition call_finish (retp : option loc) (reg : loc) (ran : Z) : XM Z :=
  upd_tls (set_t_last_ran ran);;
  a ← adapter_at reg;
  if ran =? 0 then
    xy_set_last_ret None (a_ret_size a);;
    (match retp with Some retp => memset0 retp (a_ret_size a) | None => mret tt end);;
    return_err XY_ERR_NOTFOUND
  else
    xy_set_last_ret retp (a_ret_size a);;
    return_err XY_OK.

(** The body once the hook is known. *)
Definition call_hook (exec : executor) (retp : option loc) (reg : loc) (arg : list Z)
    (region_id : Z) (entry : option loc) (hook_id : Z) (dispatch_call : option trampoline) : XM Z :=
  a ← adapter_at reg;
  if XY_MAX_RET_SIZE <? a_ret_size a then call_fail retp reg XY_ERR_TOOBIG
  else
    dispatch_call ← call_trampoline hook_id dispatch_call;
    match dispatch_call with
    | None => call_fail retp reg XY_ERR_NOTFOUND
    | Some tr =>
        entry ← (match entry with Some e => mret (Some e) | None => region_lookup region_id end);
        chain ← call_chain entry;
        denied ← call_denied entry chain (a_name a);
        if denied : bool then call_fail retp reg XY_ERR_EPERM
        else
          upd_tls (fun t => set_t_last_retp retp (set_t_last_ran 0 t));;
          upd_xy (set_x_adapter (Some reg));;
          ran ← (match entry with
                 | None => mret (Some 0)
                 | Some e =>
                     call_entry exec retp reg tr arg region_id hook_id (a_name a) chain e
                 end);
          match ran with
          | None => call_fail retp reg XY_ERR_INVALID
          | Some ran => call_finish retp reg ran
          end
    end.

Definition xy_call (exec : executor) (retp reg : option loc) (arg : list Z) : XM Z :=
  ret ← xy_runtime_ensure;
  if negb (ret =? XY_OK) then xy_zero_ret retp reg;; return_err ret
  else
    match reg with
    | None => return_err XY_ERR_NOTFOUND
    | Some reg =>
        region_id ← gets (fun s => t_region_id (st_tls s));
        entry ← gets (fun s => t_region_entry (st_tls s));
        resolved ← call_resolve reg;
        match resolved with
        | None => call_fail retp reg XY_ERR_NOTFOUND
        | Some (hook_id, dispatch_call) =>
            call_hook exec retp reg arg region_id entry hook_id dispatch_call
        end
    end.

(** *** xy_areg *)

Definition two32 : Z := 2 ^ 32.

(** The adapter table grown to hold [hook_id]. *)
Definition grow_adapters (hook_id : Z) (t : list (option loc)) : list (option loc) :=
  t ++ replicate (Z.to_nat (hook_id + 16) - length t) None.

Fixpoint prewarm_all (ms : list (string * loc)) : XM unit :=
  match ms with
  | [] => mret tt
  | (_, m) :: rest => fn_cache_prewarm m;; prewarm_all rest
  end.

(** The store into the table and what follows. *)
Definition areg_publish (hook_id : Z) (adapter : loc) : XM Z :=
  upd_rt (fun rt => set_rt_adapter_by_id
    (<[Z.to_nat hook_id := Some adapter]> (rt_adapter_by_id rt)) rt);;
  hd ← gets (fun s => rt_mod_hd (st_rt s));
  (match hd with Some hd => prewarm_all (qiter hd) | None => mret tt end);;
  XY_SET_ERR XY_OK;;
  mret 0.

(** The map holds a pointer to the adapter under a known name; its low half is
    what the code returns. *)
Definition xy_areg (name : string) (adapter : loc) : XM Z :=
  enter_ret ← xy_runtime_ensure;
  if negb (enter_ret =? XY_OK) then XY_SET_ERR enter_ret;; mret XY_INVALID
  else
    a ← adapter_at adapter;
    if XY_MAX_RET_SIZE <? a_ret_size a then XY_SET_ERR XY_ERR_TOOBIG;; mret XY_INVALID
    else
      sica ← handle rt_sica_hd;
      match qget sica name with
      | Some existing => mret (Z.pos existing mod two32)
      | None =>
          upd_rt (set_rt_sica_hd (Some (qput sica name adapter)));;
          hook_id ← gets (fun s => rt_hook_id_counter (st_rt s));
          upd_rt (set_rt_hook_id_counter (hook_id + 1));;
          ids ← handle rt_hook_id_hd;
          upd_rt (set_rt_hook_id_hd (Some (qput ids name hook_id)));;
          upd_adapter adapter (set_a_hook_id hook_id);;
          cap ← gets (fun s => Z.of_nat (length (rt_adapter_by_id (st_rt s))));
          if cap <=? hook_id then
            ok ← try_alloc;
            if ok : bool then
              upd_rt (fun rt => set_rt_adapter_by_id (grow_adapters hook_id (rt_adapter_by_id rt)) rt);;
              areg_publish hook_id adapter
            else XY_SET_ERR XY_ERR_INVALID;; mret (XY_ERR_INVALID mod two32)
          else areg_publish hook_id adapter
      end.

End Dispatch.
