(* ===== verification/DispatchSpec.v ===== *)
(** * Dispatch: theorems

    What the dispatch caches hold and what [xy_call], [xy_last] and [xy_areg]
    do: the rebuild of a cache selects the listening modules of a subtree, and
    a call runs the hook in each of them. *)

From S2P Require Import Prelude QMap Status State Machine ModKey Linked Region RegionTree ModList.
From S2P Require Import Runtime Vectors Paths Identity FnCache RegionApi Deny Dispatch.
From stdpp Require Import options.
Local Open Scope Z_scope.

Section DispatchSpec.
Context {Q : QMapOps} {QL : QMapLaws Q} {P : Platform}.
Implicit Types (s : state) (m : mod_entry) (r : region_entry) (c : hook_dispatch_cache).

(** ** Specification *)

(** Whether one of the regions of the chain denies the interned path. *)
Definition chain_denies (reg : gmap loc region_entry) (chain : list loc) (path : option loc) : bool :=
  match path with
  | None => false
  | Some p => existsb (fun a => match reg !! a with Some r => entry_denies r p | None => false end) chain
  end.

(** The slot of one module, if it listens to the hook [name]: it has a context,
    no region of the chain denies it and its image exports the function. *)
Definition listener (reg : gmap loc region_entry) (mods : gmap loc mod_entry) (chain : list loc)
    (name : string) (me : loc) : list dispatch_slot :=
  match mods !! me with
  | Some m =>
      match m_ctx m, plat_dlsym (m_handle m) name with
      | Some _, Some a =>
          if chain_denies reg chain (m_load_path m) then [] else [Slot (Some me) (Fn a)]
      | _, _ => []
      end
  | None => []
  end.

Definition listeners reg mods chain name (ms : list loc) : list dispatch_slot :=
  ms ≫= listener reg mods chain name.

(** The cache [c] holds the slots [sls]. *)
Definition held (arrs : gmap loc (list dispatch_slot)) (c : hook_dispatch_cache)
    (sls : list dispatch_slot) : Prop :=
  hc_count c = Z.of_nat (length sls) /\ Z.of_nat (length sls) <= hc_cap c /\
  match hc_slots c with
  | None => hc_cap c = 0
  | Some l => exists rest, arrs !! l = Some (sls ++ rest)
  end.

(** Modules before and after a rebuild for the hook [h]: only what is cached
    for this hook changes, and it stays coherent. *)
Definition mods_step (h : Z) (name : string) (mods mods' : gmap loc mod_entry) : Prop :=
  forall me, option_Forall2 (fun m m' =>
    cache_step h m m' /\ (entry_ok m h name -> entry_ok m' h name)) (mods !! me) (mods' !! me).

(** The state after the parts a rebuild changes are set. *)
Definition rebuilt (s : state) mods reg arrs nx : state :=
  set_st_mod mods (set_st_reg reg (set_st_slots arrs (set_st_next nx s))).

(** [r] with the cache [c] for the hook [h]. *)
Definition with_cache (h : nat) (c : hook_dispatch_cache) (r : region_entry) : region_entry :=
  set_r_hook_dispatch (<[h := c]> (r_hook_dispatch r)) r.

(** [r] once its module vector is up to date. *)
Definition refreshed (ms : list loc) (cap : Z) (r : region_entry) : region_entry :=
  set_r_subtree_mods_dirty false (set_r_subtree_mods ms (set_r_subtree_mods_cap cap r)).

(** The cache of the hook [h]: if its generation is the region's, it holds
    [exp]. *)
Definition cache_valid (s : state) (r : region_entry) (h : Z) (exp : list dispatch_slot) : Prop :=
  let c := default cache_zero (r_hook_dispatch r !! Z.to_nat h) in
  exists sls, held (st_slots s) c sls /\ (hc_region_gen c = r_dispatch_gen r -> sls = exp).

(** [r] and [r'] differ in the module vector, which is [ms] in [r'], and in the
    cache of the hook [h]. *)
Record same_but (h : Z) (ms : list loc) (r r' : region_entry) : Prop := {
  sb_rest : r' = set_r_hook_dispatch (r_hook_dispatch r') (refreshed ms (r_subtree_mods_cap r') r);
  sb_other : forall i, i <> Z.to_nat h ->
    default cache_zero (r_hook_dispatch r' !! i) = default cache_zero (r_hook_dispatch r !! i)
}.

(** The slot arrays [arrs] after the cache [c] has become [c']: its array is the
    same or a new one, and the arrays of other caches are as before. *)
Definition grown (c c' : hook_dispatch_cache) (s : state) (arrs : gmap loc (list dispatch_slot))
    (nx : loc) : Prop :=
  (st_next s <= nx)%positive /\
  (hc_slots c' = hc_slots c \/ exists l, hc_slots c' = Some l /\ (st_next s <= l < nx)%positive) /\
  forall l, (l < st_next s)%positive -> hc_slots c <> Some l -> arrs !! l = st_slots s !! l.

(** [s'] is [s] once the region [e], which was [r], is ready to dispatch the
    hook [h] to the slots [exp]. *)
Definition ready (s : state) (e : loc) (r : region_entry) (h : Z) (name : string) (ms : list loc)
    (exp : list dispatch_slot) (s' : state) : Prop :=
  exists mods r' c arrs nx, s' = rebuilt s mods (<[e := r']> (st_reg s)) arrs nx /\
    mods_step h name (st_mod s) mods /\ same_but h ms r r' /\
    r_hook_dispatch r' !! Z.to_nat h = Some c /\ hc_region_gen c = r_dispatch_gen r /\
    held arrs c exp /\
    grown (default cache_zero (r_hook_dispatch r !! Z.to_nat h)) c s arrs nx.

(** ** Writing slots *)

Lemma cache_of_Some r h c :
  0 <= h -> r_hook_dispatch r !! Z.to_nat h = Some c -> cache_of r h = Some c.
Proof. intros Hh Hc. unfold cache_of. by destruct (Z.ltb_spec h 0); [lia|]. Qed.

Lemma cache_at_eq s e r h c :
  0 <= h -> st_reg s !! e = Some r -> r_hook_dispatch r !! Z.to_nat h = Some c ->
  cache_at e h s = Ok (c, s).
Proof.
  intros Hh Hr Hc. apply wp_eq. unfold cache_at. do 2 wp_step.
  eapply wp_must; [by apply cache_of_Some|done].
Qed.

Lemma upd_cache_eq s e r h c f :
  0 <= h -> st_reg s !! e = Some r -> r_hook_dispatch r !! Z.to_nat h = Some c ->
  upd_cache e h f s =
    Ok (tt, set_st_reg (<[e := with_cache (Z.to_nat h) (f c) r]> (st_reg s)) s).
Proof.
  intros Hh Hr Hc. unfold upd_cache. rewrite (bind_Ok _ _ _ _ _ (cache_at_eq _ _ _ _ _ Hh Hr Hc)).
  apply wp_eq. by eapply wp_upd_region.
Qed.

Lemma with_cache_lookup h c c0 r :
  r_hook_dispatch r !! h = Some c0 -> r_hook_dispatch (with_cache h c r) !! h = Some c.
Proof. intros H. cbn. apply list_lookup_insert_eq. by eapply lookup_lt_Some. Qed.

Lemma with_cache_twice h c c' r : with_cache h c' (with_cache h c r) = with_cache h c' r.
Proof. unfold with_cache. cbn. by rewrite list_insert_insert_eq. Qed.

Lemma rebuilt_id s e r h c :
  st_reg s !! e = Some r -> r_hook_dispatch r !! h = Some c ->
  rebuilt s (st_mod s) (<[e := with_cache h c r]> (st_reg s)) (st_slots s) (st_next s) = s.
Proof.
  intros Hr Hc. unfold with_cache. rewrite list_insert_id by done.
  replace (set_r_hook_dispatch (r_hook_dispatch r) r) with r by by destruct r.
  rewrite insert_id by done. by destruct s.
Qed.

Lemma slot_write_eq s l sls rest sl :
  st_slots s !! l = Some (sls ++ rest) ->
  slot_write l (length sls) sl s =
    Ok (tt, set_st_slots (<[l := (sls ++ [sl]) ++ drop 1 rest]> (st_slots s)) s).
Proof.
  intros Hl. apply wp_eq. unfold slot_write, slots_at. do 2 wp_step. rewrite wp_gets.
  eapply wp_must; [done|]. rewrite length_app. destruct rest as [|x rest]; cbn [length drop].
  - rewrite decide_False by lia. rewrite decide_True by lia. split; [done|]. by rewrite !app_nil_r.
  - rewrite decide_True by lia. split; [done|]. rewrite insert_app_r_alt by done.
    rewrite Nat.sub_diag. cbn. by rewrite <- app_assoc.
Qed.

Lemma grown_refl c c' s :
  hc_slots c' = hc_slots c -> grown c c' s (st_slots s) (st_next s).
Proof. intros E. split; [done|split; [by left|done]]. Qed.

Lemma grown_trans c1 c2 c3 s s2 arrs nx :
  grown c1 c2 s (st_slots s2) (st_next s2) -> grown c2 c3 s2 arrs nx -> grown c1 c3 s arrs nx.
Proof.
  intros (N1 & O1 & A1) (N2 & O2 & A2). split; [lia|split].
  - destruct O2 as [->|(l & ? & ?)]; [|right; exists l; split; [done|lia]].
    destruct O1 as [->|(l & ? & ?)]; [by left|right; exists l; split; [done|lia]].
  - intros l Hl Hne. rewrite A2; [by apply A1|lia|].
    destruct O1 as [->|(l' & -> & ?)]; [done|]. intros [= ->]. lia.
Qed.

Lemma slots_grow_eq s e r h c sls :
  0 <= h -> st_alloc s = [] -> st_reg s !! e = Some r ->
  r_hook_dispatch r !! Z.to_nat h = Some c -> held (st_slots s) c sls ->
  exists c' arrs nx, slots_grow e h s =
      Ok (XY_OK, rebuilt s (st_mod s) (<[e := with_cache (Z.to_nat h) c' r]> (st_reg s)) arrs nx) /\
    held arrs c' sls /\ is_Some (hc_slots c') /\ Z.of_nat (length sls) < hc_cap c' /\
    hc_region_gen c' = hc_region_gen c /\ grown c c' s arrs nx.
Proof.
  intros Hh Ha Hr Hc (Hn & Hcap & Hsl). unfold slots_grow.
  rewrite (bind_Ok _ _ _ _ _ (cache_at_eq _ _ _ _ _ Hh Hr Hc)).
  destruct (Z.leb_spec (hc_cap c) (hc_count c)) as [Hfull|Hroom].
  2: { exists c, (st_slots s), (st_next s). split; [|split; [done|split; [|split; [lia|]]]].
       - by rewrite rebuilt_id.
       - destruct (hc_slots c); [done|lia].
       - split; [done|by apply grown_refl]. }
  rewrite (bind_Ok try_alloc _ s s true) by (unfold try_alloc; by rewrite Ha).
  set (old := match hc_slots c with Some l => default [] (st_slots s !! l) | None => [] end).
  rewrite (bind_Ok _ _ s s old).
  2: { subst old. destruct (hc_slots c) as [l|]; [|done]. destruct Hsl as [rest Hl].
       apply wp_eq. unfold slots_at. wp_step. rewrite wp_gets. rewrite Hl. by eapply wp_must. }
  rewrite (bind_Ok fresh_loc _ s (set_st_next (Pos.succ (st_next s)) s) (st_next s) eq_refl).
  set (arrs := <[st_next s := old]>
    match hc_slots c with Some o => delete o (st_slots s) | None => st_slots s end).
  set (s1 := set_st_slots arrs (set_st_next (Pos.succ (st_next s)) s)).
  rewrite (bind_Ok _ _ _ s1 tt eq_refl).
  rewrite (bind_Ok _ _ _ _ _ (upd_cache_eq s1 e r h c _ Hh Hr Hc)).
  eexists _, arrs, (Pos.succ (st_next s)). split; [reflexivity|]. cbn.
  assert (Z.of_nat (length sls) < (if hc_cap c =? 0 then 8 else hc_cap c * 2)).
  { destruct (Z.eqb_spec (hc_cap c) 0); lia. }
  split; [|split; [by eexists|split; [done|split; [done|]]]].
  - split; [done|split; [cbn; lia|]]. cbn.
    unfold arrs. rewrite lookup_insert_eq. subst old. destruct (hc_slots c) as [l|].
    + destruct Hsl as [rest ->]. by exists rest.
    + destruct sls; [|cbn in *; lia]. by exists [].
  - split; [lia|split; [right; exists (st_next s); split; [done|lia]|]]. intros l Hl Hne. unfold arrs.
    rewrite lookup_insert_ne by lia. destruct (hc_slots c) as [o|]; [|done].
    by rewrite lookup_delete_ne by congruence.
Qed.

(** Pushing a slot adds it to what the cache holds. *)
Lemma slots_push_eq s e r h c sls sl :
  0 <= h -> st_alloc s = [] -> st_reg s !! e = Some r ->
  r_hook_dispatch r !! Z.to_nat h = Some c -> held (st_slots s) c sls ->
  exists c' arrs nx, slots_push e h sl s =
      Ok (XY_OK, rebuilt s (st_mod s) (<[e := with_cache (Z.to_nat h) c' r]> (st_reg s)) arrs nx) /\
    held arrs c' (sls ++ [sl]) /\ hc_region_gen c' = hc_region_gen c /\ grown c c' s arrs nx.
Proof.
  intros Hh Ha Hr Hc Hheld. unfold slots_push.
  destruct (slots_grow_eq _ _ _ _ _ _ Hh Ha Hr Hc Hheld)
    as (c1 & arrs & nx & Hrun & (Hn & Hcap & Hsl) & [l Hl] & Hroom & Hgen & Hg).
  rewrite (bind_Ok _ _ _ _ _ Hrun). cbn [negb Z.eqb XY_OK].
  set (r1 := with_cache (Z.to_nat h) c1 r). set (s1 := rebuilt _ _ _ _ _).
  assert (st_reg s1 !! e = Some r1) as Hr1 by apply lookup_insert_eq.
  assert (r_hook_dispatch r1 !! Z.to_nat h = Some c1) as Hc1 by by eapply with_cache_lookup.
  rewrite (bind_Ok _ _ _ _ _ (cache_at_eq _ _ _ _ _ Hh Hr1 Hc1)). rewrite Hl in *.
  destruct Hsl as [rest Hsl]. rewrite (bind_Ok (must (Some l)) _ s1 s1 l eq_refl).
  rewrite Hn, Nat2Z.id. rewrite (bind_Ok _ _ _ _ _ (slot_write_eq s1 l sls rest sl Hsl)).
  set (s2 := set_st_slots _ s1).
  rewrite (bind_Ok _ _ _ _ _ (upd_cache_eq s2 e r1 h c1 _ Hh Hr1 Hc1)).
  exists (set_hc_count (hc_count c1 + 1) c1), (<[l := (sls ++ [sl]) ++ drop 1 rest]> arrs), nx.
  split; [|split; [|split; [done|]]].
  - unfold s2, s1, r1, rebuilt. rewrite with_cache_twice. cbn -[insert]. by rewrite insert_insert_eq.
  - unfold held. cbn -[insert app]. rewrite Hl, Hn, length_app. cbn [length].
    split; [lia|split; [lia|]]. exists (drop 1 rest). apply lookup_insert_eq.
  - destruct Hg as (N & O & A). split; [done|split; [exact O|]].
    intros l' Hl' Hne. rewrite lookup_insert_ne; [by apply A|]. intros <-.
    destruct O as [O|(l2 & O & ?)]; [by rewrite Hl in O; symmetry in O|].
    rewrite Hl in O. injection O as ->. lia.
Qed.

(** ** One module *)

Lemma denied_by_chain_eq s chain path :
  (forall a, a ∈ chain -> is_Some (st_reg s !! a)) ->
  denied_by_chain chain path s = Ok (chain_denies (st_reg s) chain path, s).
Proof.
  induction chain as [|a chain IH]; intros Hl; [by destruct path|]. cbn [denied_by_chain].
  destruct (Hl a) as [r Hr]; [left|]. assert (module_is_denied (Some a) path s =
    Ok (match path with Some p => entry_denies r p | None => false end, s)) as H.
  { destruct path as [p|]; [|done]. apply wp_eq. unfold module_is_denied. by do 2 wp_step. }
  rewrite (bind_Ok _ _ _ _ _ H). destruct path as [p|]; cbn.
  - rewrite Hr. destruct (entry_denies r p); [done|]. cbn. apply IH. intros. apply Hl. by right.
  - apply IH. intros. apply Hl. by right.
Qed.

(** A region heap in which an entry has changed, but not what it denies. *)
Lemma chain_denies_insert reg chain path e r r' :
  reg !! e = Some r -> (forall p, entry_denies r' p = entry_denies r p) ->
  chain_denies (<[e := r']> reg) chain path = chain_denies reg chain path.
Proof.
  intros Hr Hd. destruct path as [p|]; [|done]. cbn. induction chain as [|a chain IH]; [done|]. cbn.
  rewrite IH. f_equal. destruct (decide (a = e)) as [->|].
  - by rewrite lookup_insert_eq, Hr, Hd.
  - by rewrite lookup_insert_ne.
Qed.

Lemma mods_step_refl h name mods : mods_step h name mods mods.
Proof. intros me. destruct (mods !! me); constructor. split; [apply cache_step_refl|done]. Qed.

Lemma mods_step_trans h name (ms1 ms2 ms3 : gmap loc mod_entry) :
  mods_step h name ms1 ms2 -> mods_step h name ms2 ms3 -> mods_step h name ms1 ms3.
Proof.
  intros H1 H2 me. specialize (H1 me). specialize (H2 me).
  destruct H1 as [x y [S1 O1]|]; inversion H2 as [? z [S2 O2]|]; subst; constructor.
  split; [by eapply cache_step_trans|naive_solver].
Qed.

Lemma mods_step_one h name mods me m m' :
  mods !! me = Some m -> cache_step h m m' -> known m' h name ->
  mods_step h name mods (<[me := m']> mods).
Proof.
  intros Hm Hs Hk a. destruct (decide (a = me)) as [->|].
  - rewrite Hm, lookup_insert_eq. constructor. split; [done|]. intros _. by apply known_entry_ok.
  - rewrite lookup_insert_ne by done. apply mods_step_refl.
Qed.

Lemma mods_step_lookup h name mods mods' me m :
  mods_step h name mods mods' -> mods !! me = Some m ->
  exists m', mods' !! me = Some m' /\ cache_step h m m' /\ (entry_ok m h name -> entry_ok m' h name).
Proof. intros H Hm. specialize (H me). rewrite Hm in H. inversion H; subst; naive_solver. Qed.

(** Whether a module listens does not depend on what is cached. *)
Lemma listener_step h nm reg mods mods' chain name me :
  mods_step h nm mods mods' -> listener reg mods' chain name me = listener reg mods chain name me.
Proof.
  intros H. specialize (H me). unfold listener.
  destruct H as [m m' [S _]|]; [|done]. rewrite (cs_rest _ _ _ S). done.
Qed.

Lemma implemented_known m h name :
  entry_ok m h name -> module_has_hook_implemented m h = true ->
  exists a, plat_dlsym (m_handle m) name = Some a /\ m_fn_cache m !! Z.to_nat h = Some (Fn a).
Proof.
  unfold entry_ok. intros Hok Hb. rewrite Hb in Hok.
  destruct (m_fn_cache m !! Z.to_nat h) as [[]|]; naive_solver.
Qed.

(** A module that implements the hook gets a slot. *)
Lemma push_implemented s e r h c sls me m name :
  0 <= h -> st_alloc s = [] -> st_reg s !! e = Some r ->
  r_hook_dispatch r !! Z.to_nat h = Some c -> held (st_slots s) c sls ->
  st_mod s !! me = Some m -> entry_ok m h name -> module_has_hook_implemented m h = true ->
  exists a c' arrs nx, plat_dlsym (m_handle m) name = Some a /\
    (m ← module_at me;
     if module_has_hook_implemented m h then
       cb ← must (m_fn_cache m !! Z.to_nat h); slots_push e h (Slot (Some me) cb)
     else mret XY_OK) s =
      Ok (XY_OK, rebuilt s (st_mod s) (<[e := with_cache (Z.to_nat h) c' r]> (st_reg s)) arrs nx) /\
    held arrs c' (sls ++ [Slot (Some me) (Fn a)]) /\ hc_region_gen c' = hc_region_gen c /\
    grown c c' s arrs nx.
Proof.
  intros Hh Ha Hr Hc Hheld Hm Hok Hb. destruct (implemented_known _ _ _ Hok Hb) as (a & Hsym & Hfn).
  destruct (slots_push_eq s e r h c sls (Slot (Some me) (Fn a)) Hh Ha Hr Hc Hheld)
    as (c' & arrs & nx & Hrun & Hheld' & Hgen).
  exists a, c', arrs, nx. split; [done|]. split; [|done].
  rewrite (bind_Ok (module_at me) _ s s m) by (apply wp_eq; by eapply wp_module_at).
  rewrite Hb, Hfn. by rewrite (bind_Ok (must _) _ s s (Fn a)).
Qed.

Lemma rebuild_turn_eq s e r h name chain c sls me m :
  0 <= h -> st_alloc s = [] -> st_reg s !! e = Some r ->
  r_hook_dispatch r !! Z.to_nat h = Some c -> held (st_slots s) c sls ->
  (forall a, a ∈ chain -> is_Some (st_reg s !! a)) ->
  st_mod s !! me = Some m -> entry_ok m h name ->
  exists mods c' arrs nx, rebuild_turn e h name chain me s =
      Ok (XY_OK, rebuilt s mods (<[e := with_cache (Z.to_nat h) c' r]> (st_reg s)) arrs nx) /\
    mods_step h name (st_mod s) mods /\
    held arrs c' (sls ++ listener (st_reg s) (st_mod s) chain name me) /\
    hc_region_gen c' = hc_region_gen c /\ grown c c' s arrs nx.
Proof.
  intros Hh Ha Hr Hc Hheld Hchain Hm Hok. unfold rebuild_turn.
  assert (listener (st_reg s) (st_mod s) chain name me = [] ->
    exists mods c' arrs nx, Ok (XY_OK, s) =
        Ok (XY_OK, rebuilt s mods (<[e := with_cache (Z.to_nat h) c' r]> (st_reg s)) arrs nx) /\
      mods_step h name (st_mod s) mods /\
      held arrs c' (sls ++ listener (st_reg s) (st_mod s) chain name me) /\
      hc_region_gen c' = hc_region_gen c /\ grown c c' s arrs nx) as Hskip.
  { intros ->. exists (st_mod s), c, (st_slots s), (st_next s).
    rewrite rebuilt_id, app_nil_r by done. auto 6 using mods_step_refl, grown_refl. }
  rewrite (bind_Ok (module_at me) _ s s m) by (apply wp_eq; by eapply wp_module_at).
  unfold listener in *. rewrite Hm in *. destruct (m_ctx m) as [ctx|]; [|by apply Hskip].
  rewrite (bind_Ok _ _ _ _ _ (denied_by_chain_eq s chain (m_load_path m) Hchain)).
  destruct (chain_denies _ _ _). { apply Hskip. by destruct (plat_dlsym _ _). } clear Hskip.
  destruct (module_has_hook_implemented m h) eqn:Hb.
  - rewrite (bind_Ok (mret (Some true)) _ s s (Some true) eq_refl).
    destruct (push_implemented s e r h c sls me m name Hh Ha Hr Hc Hheld Hm Hok Hb)
      as (a & c' & arrs & nx & -> & -> & Hheld' & Hgen).
    exists (st_mod s), c', arrs, nx. auto 6 using mods_step_refl, grown_refl.
  - destruct (fn_cache_resolve_eq s me m h name Ha Hm Hh Hok) as (m' & Hrun & Hs & Hk).
    set (s1 := set_st_mod (<[me := m']> (st_mod s)) s) in *.
    destruct (plat_dlsym (m_handle m) name) as [a|] eqn:Hsym.
    + rewrite (bind_Ok _ _ s s1 (Some true)) by by rewrite (bind_Ok _ _ _ _ _ Hrun).
      destruct (push_implemented s1 e r h c sls me m' name) as (a' & c' & arrs & nx & Ha' & -> & Hheld' & Hgen);
        [done..|apply lookup_insert_eq|by apply known_entry_ok| |].
      { destruct Hk as [_ ->]. by rewrite (cache_step_handle _ _ _ Hs), Hsym. }
      rewrite (cache_step_handle _ _ _ Hs), Hsym in Ha'. injection Ha' as <-.
      exists (<[me := m']> (st_mod s)), c', arrs, nx. split; [done|]. split; [|done].
      by eapply mods_step_one.
    + rewrite (bind_Ok _ _ s s1 (Some false)) by by rewrite (bind_Ok _ _ _ _ _ Hrun).
      exists (<[me := m']> (st_mod s)), c, (st_slots s), (st_next s). rewrite app_nil_r.
      split; [|split; [by eapply mods_step_one|auto using grown_refl]].
      by rewrite <- (rebuilt_id s1 e r (Z.to_nat h) c) at 1 by done.
Qed.

(** ** The whole vector *)

Lemma listeners_insert reg mods chain name ms e r r' :
  reg !! e = Some r -> (forall p, entry_denies r' p = entry_denies r p) ->
  listeners (<[e := r']> reg) mods chain name ms = listeners reg mods chain name ms.
Proof.
  intros Hr Hd. unfold listeners. apply list_bind_ext; [|done]. intros me. unfold listener.
  destruct (mods !! me) as [m|]; [|done]. by rewrite (chain_denies_insert _ _ _ _ _ _ Hr Hd).
Qed.

Lemma listeners_step h nm reg mods mods' chain name ms :
  mods_step h nm mods mods' -> listeners reg mods' chain name ms = listeners reg mods chain name ms.
Proof.
  intros H. unfold listeners. apply list_bind_ext; [|done]. intros me. by eapply listener_step.
Qed.

Lemma rebuild_loop_eq s e r h name chain c sls ms :
  0 <= h -> st_alloc s = [] -> st_reg s !! e = Some r ->
  r_hook_dispatch r !! Z.to_nat h = Some c -> held (st_slots s) c sls ->
  (forall a, a ∈ chain -> is_Some (st_reg s !! a)) ->
  (forall me, me ∈ ms -> exists m, st_mod s !! me = Some m /\ entry_ok m h name) ->
  exists mods c' arrs nx, rebuild_loop e h name chain ms s =
      Ok (XY_OK, rebuilt s mods (<[e := with_cache (Z.to_nat h) c' r]> (st_reg s)) arrs nx) /\
    mods_step h name (st_mod s) mods /\
    held arrs c' (sls ++ listeners (st_reg s) (st_mod s) chain name ms) /\
    hc_region_gen c' = hc_region_gen c /\ grown c c' s arrs nx.
Proof.
  intros Hh. revert s r c sls.
  induction ms as [|me ms IH]; intros s r c sls Ha Hr Hc Hheld Hchain Hms; cbn [rebuild_loop].
  { exists (st_mod s), c, (st_slots s), (st_next s). rewrite rebuilt_id, app_nil_r by done.
    auto 6 using mods_step_refl, grown_refl. }
  destruct (Hms me) as (m & Hm & Hok); [left|].
  destruct (rebuild_turn_eq s e r h name chain c sls me m Hh Ha Hr Hc Hheld Hchain Hm Hok)
    as (mods1 & c1 & arrs1 & nx1 & Hrun1 & Hs1 & Hheld1 & Hgen1 & Hg1).
  rewrite (bind_Ok _ _ _ _ _ Hrun1). cbn [negb Z.eqb XY_OK].
  set (r1 := with_cache (Z.to_nat h) c1 r) in *. set (s1 := rebuilt _ _ _ _ _).
  destruct (IH s1 r1 c1 _ Ha ltac:(apply lookup_insert_eq) ltac:(by eapply with_cache_lookup) Hheld1)
    as (mods2 & c2 & arrs2 & nx2 & Hrun2 & Hs2 & Hheld2 & Hgen2 & Hg2).
  { intros a Hin. cbn -[insert]. destruct (decide (a = e)) as [->|].
    - rewrite lookup_insert_eq. by eexists.
    - rewrite lookup_insert_ne by done. by apply Hchain. }
  { intros me' Hin. destruct (Hms me') as (m' & Hm' & Hok'); [by right|].
    destruct (mods_step_lookup _ _ _ _ _ _ Hs1 Hm') as (m2 & Hm2 & _ & Hk). eauto. }
  exists mods2, c2, arrs2, nx2. rewrite Hrun2. split; [|split; [by eapply mods_step_trans|split]].
  - unfold s1, r1, rebuilt. rewrite with_cache_twice. cbn -[insert]. by rewrite insert_insert_eq.
  - unfold listeners in Hheld2 |- *. cbn [mbind list_bind]. rewrite app_assoc.
    fold (listeners (st_reg s1) (st_mod s1) chain name ms) in Hheld2.
    unfold s1, r1 in Hheld2. cbn -[insert listeners with_cache] in Hheld2.
    rewrite (listeners_step _ _ _ _ _ _ _ _ Hs1) in Hheld2.
    by rewrite (listeners_insert _ _ _ _ _ _ _ _ Hr) in Hheld2.
  - rewrite Hgen2. split; [done|]. by apply (grown_trans c c1 c2 s s1).
Qed.

(** ** Getting ready *)

Lemma refresh_eq s d e r ms :
  preorder (st_reg s) (st_mod s) d e ms -> (d <= 65)%nat -> st_alloc s = [] ->
  st_reg s !! e = Some r -> vector_ok ms r ->
  exists cap, refresh_subtree_mods e s =
    Ok (0, set_st_reg (<[e := refreshed ms cap r]> (st_reg s)) s).
Proof.
  intros Hpre Hd Ha Hr Hv. unfold refresh_subtree_mods.
  rewrite (bind_Ok (region_at e) _ s s r) by (apply wp_eq; by eapply wp_region_at).
  destruct (r_subtree_mods_dirty r) eqn:E; [by eapply rebuild_preorder_eq|].
  exists (r_subtree_mods_cap r). replace (refreshed _ _ r) with r.
  - by rewrite insert_id, set_st_reg_id by done.
  - rewrite <- (Hv E). unfold refreshed. rewrite <- E. by destruct r.
Qed.

(** An array of caches long enough for [h]. *)
Lemma ensure_cap_eq s e r h :
  0 <= h -> st_alloc s = [] -> st_reg s !! e = Some r ->
  exists hd, region_ensure_hook_dispatch_cap e h s =
      Ok (XY_OK, set_st_reg (<[e := set_r_hook_dispatch hd r]> (st_reg s)) s) /\
    (Z.to_nat h < length hd)%nat /\
    forall i, default cache_zero (hd !! i) = default cache_zero (r_hook_dispatch r !! i).
Proof.
  intros Hh Ha Hr. unfold region_ensure_hook_dispatch_cap. destruct (Z.ltb_spec h 0); [lia|].
  rewrite (bind_Ok (region_at e) _ s s r) by (apply wp_eq; by eapply wp_region_at).
  destruct (Z.ltb_spec h (Z.of_nat (length (r_hook_dispatch r)))) as [Hlt|Hge].
  - exists (r_hook_dispatch r). split; [|split; [lia|done]].
    replace (set_r_hook_dispatch _ r) with r by by destruct r.
    by rewrite insert_id, set_st_reg_id by done.
  - eexists. split.
    { rewrite (bind_Ok try_alloc _ s s true) by (unfold try_alloc; by rewrite Ha).
      apply wp_eq. wp_step. by eapply wp_upd_region. }
    rewrite length_app, length_replicate. split; [lia|]. intros i.
    destruct (r_hook_dispatch r !! i) as [c|] eqn:E; [by rewrite (lookup_app_l_Some _ _ _ _ E)|].
    rewrite lookup_app_r by by apply lookup_ge_None.
    destruct (replicate _ _ !! _) eqn:E'; [|done]. by apply lookup_replicate in E' as [-> _].
Qed.

Lemma held_reset arrs c sls : held arrs c sls -> held arrs (set_hc_count 0 c) [].
Proof.
  intros (Hn & Hcap & Hsl). split; [done|split; [cbn in *; lia|]]. cbn.
  destruct (hc_slots c) as [l|]; [|done]. destruct Hsl as [rest Hl]. by exists (sls ++ rest).
Qed.

(** The part of the rebuild that follows the growth of the array. *)
Lemma rebuild_body_eq s e r h name chain c sls ms :
  0 <= h -> st_alloc s = [] -> st_reg s !! e = Some r ->
  r_hook_dispatch r !! Z.to_nat h = Some c -> held (st_slots s) c sls ->
  (forall a, a ∈ chain -> is_Some (st_reg s !! a)) ->
  (forall me, me ∈ ms -> exists m, st_mod s !! me = Some m /\ entry_ok m h name) ->
  exists mods c' arrs nx,
    (upd_cache e h (set_hc_count 0);;
     rc ← rebuild_loop e h name chain ms;
     if negb (rc =? XY_OK) then mret rc
     else r ← region_at e; upd_cache e h (set_hc_region_gen (r_dispatch_gen r));; mret XY_OK) s =
      Ok (XY_OK, rebuilt s mods (<[e := with_cache (Z.to_nat h) c' r]> (st_reg s)) arrs nx) /\
    mods_step h name (st_mod s) mods /\ hc_region_gen c' = r_dispatch_gen r /\
    held arrs c' (listeners (st_reg s) (st_mod s) chain name ms) /\ grown c c' s arrs nx.
Proof.
  intros Hh Ha Hr Hc Hheld Hchain Hms.
  rewrite (bind_Ok _ _ _ _ _ (upd_cache_eq s e r h c _ Hh Hr Hc)).
  set (c0 := set_hc_count 0 c). set (r0 := with_cache (Z.to_nat h) c0 r).
  set (s0 := set_st_reg (<[e := r0]> (st_reg s)) s).
  destruct (rebuild_loop_eq s0 e r0 h name chain c0 [] ms Hh Ha ltac:(apply lookup_insert_eq)
    ltac:(by eapply with_cache_lookup) ltac:(by eapply held_reset))
    as (mods & c1 & arrs & nx & Hrun & Hs & Hheld1 & _ & Hg); [|done|].
  { intros a Hin. cbn -[insert]. destruct (decide (a = e)) as [->|].
    - rewrite lookup_insert_eq. by eexists.
    - rewrite lookup_insert_ne by done. by apply Hchain. }
  rewrite (bind_Ok _ _ _ _ _ Hrun). cbn [negb Z.eqb XY_OK].
  assert (r_hook_dispatch r0 !! Z.to_nat h = Some c0) as Hc0 by by eapply with_cache_lookup.
  set (r1 := with_cache (Z.to_nat h) c1 r0). set (s1 := rebuilt _ _ _ _ _).
  assert (st_reg s1 !! e = Some r1) as Hr1 by apply lookup_insert_eq.
  rewrite (bind_Ok (region_at e) _ s1 s1 r1) by (apply wp_eq; by eapply wp_region_at).
  rewrite (bind_Ok _ _ _ _ _ (upd_cache_eq s1 e r1 h c1 _ Hh Hr1 ltac:(by eapply with_cache_lookup))).
  eexists mods, _, arrs, nx. split.
  { unfold s1, r1, r0, s0, rebuilt. rewrite !with_cache_twice. cbn -[insert with_cache].
    rewrite !insert_insert_eq. reflexivity. }
  split; [done|split; [done|]]. cbn -[insert] in Hheld1. unfold r0 in Hheld1.
  rewrite (listeners_insert _ _ _ _ _ _ _ _ Hr) in Hheld1 by done. by split; [|apply Hg].
Qed.

Lemma same_but_hd h ms cap hd r :
  (forall i, default cache_zero (hd !! i) = default cache_zero (r_hook_dispatch r !! i)) ->
  same_but h ms r (set_r_hook_dispatch hd (refreshed ms cap r)).
Proof. intros Hi. by split. Qed.

Lemma same_but_trans h ms r1 r2 r3 : same_but h ms r1 r2 -> same_but h ms r2 r3 -> same_but h ms r1 r3.
Proof.
  intros [E1 O1] [E2 O2]. split; [rewrite E2; by rewrite E1|].
  intros i Hi. by rewrite O2, O1.
Qed.

Lemma same_but_gen h ms r r' : same_but h ms r r' -> r_dispatch_gen r' = r_dispatch_gen r.
Proof. intros [-> _]. done. Qed.

Lemma same_but_denies h ms r r' p : same_but h ms r r' -> entry_denies r' p = entry_denies r p.
Proof. intros [-> _]. done. Qed.

(** From a region that is up to date but for its cache. *)
Lemma ready_trans s e r r2 h name ms exp s' :
  same_but h ms r r2 ->
  default cache_zero (r_hook_dispatch r2 !! Z.to_nat h) =
    default cache_zero (r_hook_dispatch r !! Z.to_nat h) ->
  ready (set_st_reg (<[e := r2]> (st_reg s)) s) e r2 h name ms exp s' ->
  ready s e r h name ms exp s'.
Proof.
  intros Hsb Hd (mods & r' & c & arrs & nx & -> & Hmods & Hsb' & Hc & Hgen & Hheld & Hg).
  exists mods, r', c, arrs, nx. split; [|split; [done|split; [by eapply same_but_trans|]]].
  - unfold rebuilt. cbn -[insert]. by rewrite insert_insert_eq.
  - rewrite Hgen, (same_but_gen _ _ _ _ Hsb), <- Hd. done.
Qed.

Lemma ready_now s e r r2 h name ms exp c :
  same_but h ms r r2 -> r_hook_dispatch r2 !! Z.to_nat h = Some c ->
  default cache_zero (r_hook_dispatch r !! Z.to_nat h) = c ->
  hc_region_gen c = r_dispatch_gen r -> held (st_slots s) c exp ->
  ready s e r h name ms exp (set_st_reg (<[e := r2]> (st_reg s)) s).
Proof.
  intros Hsb Hc Hd Hgen Hheld. exists (st_mod s), r2, c, (st_slots s), (st_next s).
  split; [by destruct s|]. split; [apply mods_step_refl|]. rewrite Hd. auto 6 using grown_refl.
Qed.

(** The cache of the hook [h] in the region [r]. *)
Definition hook_cache (r : region_entry) (h : Z) : hook_dispatch_cache :=
  default cache_zero (r_hook_dispatch r !! Z.to_nat h).
Definition current (r : region_entry) (h : Z) : bool :=
  hc_region_gen (hook_cache r h) =? r_dispatch_gen r.

(** The preconditions of a dispatch of [name], whose id is [h], from the region
    [e], whose subtree holds the modules [ms], to the slots [exp]: those that the
    cache holds if it is of the region's generation, whatever they are, and the
    listening modules if it is not; what is cached in the modules has to be right
    in the second case only. *)
Record dispatches (s : state) (e : loc) (r : region_entry) (h : Z) (name : string)
    (chain : list loc) (ms : list loc) (exp : list dispatch_slot) : Prop := {
  dp_id : 0 <= h;
  dp_alloc : st_alloc s = [];
  dp_region : st_reg s !! e = Some r;
  dp_order : exists d, (d <= 65)%nat /\ preorder (st_reg s) (st_mod s) d e ms;
  dp_vector : vector_ok ms r;
  dp_cache : exists sls, held (st_slots s) (hook_cache r h) sls /\
    exp = if current r h then sls else listeners (st_reg s) (st_mod s) chain name ms;
  dp_chain : forall a, a ∈ chain -> is_Some (st_reg s !! a);
  dp_mods : current r h = false -> forall me, me ∈ ms -> exists m, st_mod s !! me = Some m /\ entry_ok m h name
}.

(** The dispatch reaches the listening modules: a cache of the region's generation
    holds them. *)
Definition dispatchable (s : state) (e : loc) (r : region_entry) (h : Z) (name : string)
    (chain : list loc) (ms : list loc) : Prop :=
  dispatches s e r h name chain ms (listeners (st_reg s) (st_mod s) chain name ms).

Lemma cache_valid_expected s r h exp :
  cache_valid s r h exp ->
  exists sls, held (st_slots s) (hook_cache r h) sls /\ exp = if current r h then sls else exp.
Proof.
  intros (sls & Hheld & Hexp). exists sls. split; [done|]. unfold current.
  destruct (Z.eqb_spec (hc_region_gen (hook_cache r h)) (r_dispatch_gen r)) as [E|]; [|done].
  symmetry. exact (Hexp E).
Qed.

(** They still hold once the vector and the array of caches are there. *)
Lemma dispatches_same s e r r2 h name chain ms exp :
  dispatches s e r h name chain ms exp -> same_but h ms r r2 ->
  hook_cache r2 h = hook_cache r h ->
  dispatches (set_st_reg (<[e := r2]> (st_reg s)) s) e r2 h name chain ms exp.
Proof.
  intros [Hh Ha Hr (d & Hd & Hpre) Hv Hc Hch Hm] Hsb Hc2. split.
  - done.
  - done.
  - apply lookup_insert_eq.
  - exists d. split; [done|]. cbn -[insert].
    refine (proj1 (preorder_links _ _ _ (agree_insert links _ _ r r2 Hr _)) _ _ _ Hpre).
    by rewrite (sb_rest _ _ _ _ Hsb).
  - intros _. by rewrite (sb_rest _ _ _ _ Hsb).
  - unfold current in *. rewrite Hc2, (same_but_gen _ _ _ _ Hsb). cbn -[insert].
    by rewrite (listeners_insert _ _ _ _ _ _ _ _ Hr) by (intros; by eapply same_but_denies).
  - intros a Hin. cbn -[insert]. destruct (decide (a = e)) as [->|].
    + rewrite lookup_insert_eq. by eexists.
    + rewrite lookup_insert_ne by done. by apply Hch.
  - unfold current in *. by rewrite Hc2, (same_but_gen _ _ _ _ Hsb).
Qed.

(** The module vector and the array of caches, made ready. *)
Lemma vector_and_array s e r h name chain ms exp :
  dispatches s e r h name chain ms exp ->
  exists cap hd,
    let r1 := refreshed ms cap r in let s1 := set_st_reg (<[e := r1]> (st_reg s)) s in
    let r2 := set_r_hook_dispatch hd r1 in let s2 := set_st_reg (<[e := r2]> (st_reg s)) s in
    refresh_subtree_mods e s = Ok (0, s1) /\
    region_ensure_hook_dispatch_cap e h s1 = Ok (XY_OK, s2) /\
    st_reg s1 !! e = Some r1 /\ same_but h ms r r2 /\ dispatches s2 e r2 h name chain ms exp /\
    (Z.to_nat h < length hd)%nat /\
    default cache_zero (hd !! Z.to_nat h) = default cache_zero (r_hook_dispatch r !! Z.to_nat h).
Proof.
  intros Hdp. pose proof Hdp as [Hh Ha Hr (d & Hd & Hpre) Hv Hc Hch Hm].
  destruct (refresh_eq s d e r ms Hpre Hd Ha Hr Hv) as [cap Href].
  set (r1 := refreshed ms cap r) in *. set (s1 := set_st_reg (<[e := r1]> (st_reg s)) s) in *.
  assert (st_reg s1 !! e = Some r1) as Hr1 by apply lookup_insert_eq.
  destruct (ensure_cap_eq s1 e r1 h Hh Ha Hr1) as (hd & Hcap & Hlen & Hsame).
  exists cap, hd. cbv zeta. fold r1. fold s1. split; [done|]. split.
  { rewrite Hcap. cbn -[insert]. by rewrite insert_insert_eq. }
  assert (same_but h ms r (set_r_hook_dispatch hd r1)) as Hsb by by apply same_but_hd.
  split; [done|split; [done|split; [|done]]]. apply (dispatches_same s e r); [done|done|exact (Hsame (Z.to_nat h))].
Qed.

(** The cache of the hook in a region with a long enough array. *)
Lemma cache_there s e r h name chain ms exp :
  dispatches s e r h name chain ms exp -> (Z.to_nat h < length (r_hook_dispatch r))%nat ->
  exists c sls, r_hook_dispatch r !! Z.to_nat h = Some c /\ hook_cache r h = c /\ held (st_slots s) c sls /\
    exp = if current r h then sls else listeners (st_reg s) (st_mod s) chain name ms.
Proof.
  intros Hdp Hlen. destruct (lookup_lt_is_Some_2 _ _ Hlen) as [c Hc].
  assert (hook_cache r h = c) as Ec by (unfold hook_cache; by rewrite Hc).
  destruct (dp_cache _ _ _ _ _ _ _ _ Hdp) as (sls & Hheld & Hexp). rewrite Ec in Hheld.
  by exists c, sls.
Qed.

Lemma rebuild_hook_dispatch_eq s e r h name chain ms exp :
  dispatches s e r h name chain ms exp ->
  exists s', region_rebuild_hook_dispatch e h name chain s = Ok (XY_OK, s') /\
    ready s e r h name ms exp s'.
Proof.
  intros Hdp. pose proof (dp_id _ _ _ _ _ _ _ _ Hdp) as Hh.
  destruct (vector_and_array _ _ _ _ _ _ _ _ Hdp) as (cap & hd & Href & Hcap & Hr1 & Hsb & Hdp2 & Hlen & Hdef).
  cbv zeta in *. set (r1 := refreshed ms cap r) in *. set (r2 := set_r_hook_dispatch hd r1) in *.
  set (s2 := set_st_reg (<[e := r2]> (st_reg s)) s) in *.
  unfold region_rebuild_hook_dispatch. destruct (Z.ltb_spec h 0); [lia|].
  rewrite (bind_Ok _ _ _ _ _ Href). cbn [Z.ltb Z.compare].
  rewrite (bind_Ok _ _ _ _ _ Hcap). cbn [negb Z.eqb XY_OK].
  assert (st_reg s2 !! e = Some r2) as Hr2 by apply lookup_insert_eq.
  rewrite (bind_Ok (region_at e) _ s2 s2 r2) by (apply wp_eq; by eapply wp_region_at).
  destruct (cache_there _ _ _ _ _ _ _ _ Hdp2 Hlen) as (c & sls & Hc & Ec & Hheld & Hexp).
  rewrite (bind_Ok _ _ _ _ _ (cache_at_eq _ _ _ _ _ Hh Hr2 Hc)).
  assert (listeners (st_reg s2) (st_mod s2) chain name ms =
    listeners (st_reg s) (st_mod s) chain name ms) as El.
  { cbn -[insert]. apply (listeners_insert _ _ _ _ _ _ r); [by apply (dp_region _ _ _ _ _ _ _ _ Hdp)|].
    intros. by eapply same_but_denies. }
  rewrite El in *. unfold current in Hexp. rewrite Ec in Hexp.
  destruct (Z.eqb_spec (hc_region_gen c) (r_dispatch_gen r2)) as [E|E].
  - eexists. split; [done|]. subst sls.
    eapply ready_now; [done|done| |by rewrite E; eapply same_but_gen|done].
    by rewrite <- Hdef; unfold r2 in Hc; cbn in Hc; rewrite Hc.
  - subst exp. change (r_subtree_mods r2) with ms.
    destruct (rebuild_body_eq s2 e r2 h name chain c sls ms Hh (dp_alloc _ _ _ _ _ _ _ _ Hdp2) Hr2 Hc
      Hheld (dp_chain _ _ _ _ _ _ _ _ Hdp2) (dp_mods _ _ _ _ _ _ _ _ Hdp2 ltac:(unfold current; rewrite Ec; by apply Z.eqb_neq)))
      as (mods & c' & arrs & nx & -> & Hmods & Hgen & Hheld' & Hg).
    eexists. split; [reflexivity|]. rewrite El in Hheld'. apply (ready_trans _ _ _ r2); [done|done|].
    exists mods, (with_cache (Z.to_nat h) c' r2), c', arrs, nx.
    split; [done|split; [done|split]].
    + split; [by unfold refreshed; cbn|]. intros i Hi. cbn. by rewrite list_lookup_insert_ne.
    + split; [by eapply with_cache_lookup|]. split; [done|split; [done|]]. by rewrite Hc.
Qed.

(** C35: with memory, and coherent function caches, a rebuild of the dispatch
    cache of a hook for a region succeeds; afterwards the cache is of the
    region's generation and holds one slot for each module of the subtree that
    has a context, exports the hook's function and is not denied by the chain,
    in the order of the subtree, with that function.  Only the module vector
    and this cache of the region change, and in the modules only what is cached
    for this hook. *)
Theorem region_rebuild_hook_dispatch_correct s e r h name chain ms :
  dispatchable s e r h name chain ms ->
  exists s', region_rebuild_hook_dispatch e h name chain s = Ok (XY_OK, s') /\
    ready s e r h name ms (listeners (st_reg s) (st_mod s) chain name ms) s'.
Proof. apply rebuild_hook_dispatch_eq. Qed.

(** Inside [xy_call], where the growth and the rebuild are conditional. *)
Lemma call_prepare_eq s e r h name chain ms exp :
  dispatches s e r h name chain ms exp ->
  exists s', call_prepare h name chain e s = Ok (true, s') /\ ready s e r h name ms exp s'.
Proof.
  intros Hdp. pose proof (dp_id _ _ _ _ _ _ _ _ Hdp) as Hh.
  destruct (vector_and_array _ _ _ _ _ _ _ _ Hdp) as (cap & hd & Href & Hcap & Hr1 & Hsb & Hdp2 & Hlen & Hdef).
  cbv zeta in *. set (r1 := refreshed ms cap r) in *. set (r2 := set_r_hook_dispatch hd r1) in *.
  set (s1 := set_st_reg (<[e := r1]> (st_reg s)) s) in *.
  set (s2 := set_st_reg (<[e := r2]> (st_reg s)) s) in *. unfold call_prepare.
  rewrite (bind_Ok _ _ _ _ _ Href). cbn [Z.ltb Z.compare].
  rewrite (bind_Ok (region_at e) _ s1 s1 r1) by (apply wp_eq; by eapply wp_region_at).
  rewrite (bind_Ok _ _ s1 s2 XY_OK).
  2: { destruct (Z.leb_spec (Z.of_nat (length (r_hook_dispatch r1))) h) as [|Hlt]; [done|].
       rewrite <- Hcap. unfold region_ensure_hook_dispatch_cap. destruct (Z.ltb_spec h 0); [lia|].
       rewrite (bind_Ok (region_at e) _ s1 s1 r1) by (apply wp_eq; by eapply wp_region_at).
       by destruct (Z.ltb_spec h (Z.of_nat (length (r_hook_dispatch r1)))); [|lia]. }
  cbn [negb Z.eqb XY_OK]. assert (st_reg s2 !! e = Some r2) as Hr2 by apply lookup_insert_eq.
  rewrite (bind_Ok (region_at e) _ s2 s2 r2) by (apply wp_eq; by eapply wp_region_at).
  destruct (cache_there _ _ _ _ _ _ _ _ Hdp2 Hlen) as (c & sls & Hc & Ec & Hheld & Hexp).
  rewrite (bind_Ok _ _ _ _ _ (cache_at_eq _ _ _ _ _ Hh Hr2 Hc)).
  unfold current in Hexp. rewrite Ec in Hexp.
  destruct (Z.eqb_spec (hc_region_gen c) (r_dispatch_gen r2)) as [E|E]; cbn [negb].
  - rewrite (bind_Ok (mret XY_OK) _ s2 s2 XY_OK eq_refl). eexists. split; [done|].
    subst sls. eapply ready_now; [done|done| |by rewrite E; eapply same_but_gen|done].
    by rewrite <- Hdef; unfold r2 in Hc; cbn in Hc; rewrite Hc.
  - destruct (rebuild_hook_dispatch_eq _ _ _ _ _ _ _ _ Hdp2) as (s' & Hrun & Hready).
    rewrite (bind_Ok _ _ _ _ _ Hrun). exists s'. split; [done|].
    by apply (ready_trans _ _ _ r2).
Qed.

(** ** Fanning out *)

(** The slots called one after the other. *)
Fixpoint fan_out (exec : executor) (retp : option loc) (reg : loc) (tr : trampoline)
    (arg : list Z) (region_id : Z) (sls : list dispatch_slot) (ran : Z) : XM Z :=
  match sls with
  | [] => mret ran
  | sl :: rest =>
      b ← dispatch_slot_call exec retp reg tr arg region_id sl;
      fan_out exec retp reg tr arg region_id rest (if b : bool then ran + 1 else ran)
  end.

(** The array behind the cache of the hook [h] in the region [e]. *)
Definition cache_array (s : state) (e : loc) (h : Z) : option (loc * list dispatch_slot) :=
  r ← st_reg s !! e; c ← r_hook_dispatch r !! Z.to_nat h; l ← hc_slots c;
  arr ← st_slots s !! l; mret (l, arr).

Definition same_array (e : loc) (h : Z) (s s' : state) : Prop :=
  forall la, cache_array s e h = Some la -> cache_array s' e h = Some la.

(** The hook functions do not cause the cache in use to be rebuilt: they load
    and unload no module in the region and change no denial there. *)
Definition undisturbed (exec : executor) (e : loc) (h : Z) : Prop :=
  forall f arg, preserves (same_array e h) (exec (CbHook f arg)).

#[local] Instance same_array_refl e h : Reflexive (same_array e h).
Proof. by intros s la. Qed.
#[local] Instance same_array_trans e h : Transitive (same_array e h).
Proof. intros s1 s2 s3 H1 H2 la H. by apply H2, H1. Qed.

Lemma upd_ctx_same_array e h l f : preserves (same_array e h) (upd_ctx l f).
Proof. unfold upd_ctx, ctx_at. preserve ltac:(by intros ? ?). Qed.

Lemma mem_write_same_array e h l bs : preserves (same_array e h) (mem_write l bs).
Proof. unfold mem_write. preserve ltac:(by intros ? ?). Qed.

Lemma adapter_call_same_array exec e h tr retp fn arg :
  undisturbed exec e h -> preserves (same_array e h) (adapter_call exec tr retp fn arg).
Proof.
  intros Hu. unfold adapter_call, memset0. preserve ltac:(first [apply Hu|apply mem_write_same_array]).
Qed.

Lemma slot_call_same_array exec e h retp reg tr arg region_id sl :
  undisturbed exec e h ->
  preserves (same_array e h) (dispatch_slot_call exec retp reg tr arg region_id sl).
Proof.
  intros Hu. unfold dispatch_slot_call, module_at, ctx_at, set_current_region, upd_tls.
  preserve ltac:(first [by intros ? ?|apply upd_ctx_same_array|by apply adapter_call_same_array]).
Qed.

(** As long as its array stays, the loop calls the slots it started with. *)
Lemma run_slots_eq exec e h retp reg tr arg region_id s l pre sls rest ran :
  undisturbed exec e h -> cache_array s e h = Some (l, pre ++ sls ++ rest) ->
  run_slots exec retp reg tr arg region_id (Some l) (length sls) (length pre) ran s =
  fan_out exec retp reg tr arg region_id sls ran s.
Proof.
  intros Hu. revert s pre ran. induction sls as [|sl sls IH]; intros s pre ran Harr; [done|].
  cbn [length run_slots fan_out]. rewrite (bind_Ok (must (Some l)) _ s s l eq_refl).
  assert (run_slot exec retp reg tr arg region_id l (length pre) s =
    dispatch_slot_call exec retp reg tr arg region_id sl s) as Hrun.
  { unfold cache_array in Harr. destruct (st_reg s !! e) as [r|]; [|done]. cbn in Harr.
    destruct (r_hook_dispatch r !! Z.to_nat h) as [c|]; [|done]. cbn in Harr.
    destruct (hc_slots c) as [l'|]; [|done]. cbn in Harr.
    destruct (st_slots s !! l') as [arr|] eqn:E; [|done]. cbn in Harr. injection Harr as -> ->.
    unfold run_slot. rewrite (bind_Ok (slots_at l) _ s s (pre ++ (sl :: sls) ++ rest)).
    - rewrite lookup_app_r, Nat.sub_diag by done. done.
    - apply wp_eq. unfold slots_at. wp_step. rewrite wp_gets. by eapply wp_must. }
  unfold mbind at 1, M_bind at 1. rewrite Hrun. unfold mbind, M_bind.
  destruct (dispatch_slot_call _ _ _ _ _ _ _ s) as [[b s']| |] eqn:Ecall; [|done..].
  replace (S (length pre)) with (length (pre ++ [sl])) by (rewrite length_app; cbn; lia).
  apply IH. rewrite <- app_assoc. by eapply slot_call_same_array.
Qed.

Lemma call_slots_eq exec e r h name ms exp s0 s retp reg tr arg region_id :
  0 <= h -> ready s0 e r h name ms exp s -> undisturbed exec e h ->
  call_slots exec retp reg tr arg region_id h e s = fan_out exec retp reg tr arg region_id exp 0 s.
Proof.
  intros Hh (mods & r' & c & arrs & nx & -> & _ & _ & Hc & _ & (Hn & Hcap & Hsl) & _) Hu.
  set (s := rebuilt _ _ _ _ _). assert (st_reg s !! e = Some r') as Hr by apply lookup_insert_eq.
  unfold call_slots. rewrite (bind_Ok _ _ _ _ _ (cache_at_eq _ _ _ _ _ Hh Hr Hc)), Hn, Nat2Z.id.
  destruct (hc_slots c) as [l|] eqn:El.
  2: { destruct exp; [done|cbn in *; lia]. }
  destruct Hsl as [rest Hl].
  assert (cache_array s e h = Some (l, [] ++ exp ++ rest)) as Harr.
  { unfold cache_array. rewrite Hr. cbn -[insert]. rewrite Hc. cbn -[insert]. rewrite El. cbn -[insert].
    change (st_slots s) with arrs. by rewrite Hl. }
  rewrite <- (run_slots_eq exec e h retp reg tr arg region_id s l [] exp rest 0 Hu Harr).
  destruct (Z.eqb_spec (Z.of_nat (length exp)) 1) as [E|]; [|done].
  assert (length exp = 1%nat) as -> by lia. cbn [run_slots length].
  rewrite !(bind_Ok (must (Some l)) _ s s l eq_refl). apply bind_ext. by intros [] s' _.
Qed.

End DispatchSpec.
