(* ===== verification/CallSpec.v ===== *)
(** * Calls: theorems

    [xy_call] from its checks to its result, and [xy_last]. *)

From S2P Require Import Prelude QMap Status State Machine ModKey Linked Region RegionTree ModList.
From S2P Require Import Runtime Vectors Paths Identity FnCache RegionApi Deny Dispatch DispatchSpec.
From stdpp Require Import options.
Local Open Scope Z_scope.

Section CallSpec.
Context {Q : QMapOps} {QL : QMapLaws Q} {P : Platform}.
Implicit Types (s : state) (m : mod_entry) (r : region_entry) (a : adapter).

(** ** Ancestors and denials *)

Definition flagged (r : region_entry) : bool := negb (Z.land (r_subtree_flags r) XY_SUBTREE_ANY_MASK =? 0).

(** The chain a call from [e] looks at, [ls] being [e] and its ancestors. *)
Definition chain_at (r : region_entry) (ls : list loc) : list loc := if flagged r then rev ls else [].

Definition chain_denies_hook (reg : gmap loc region_entry) (chain : list loc) (name : string) : bool :=
  existsb (fun l => match reg !! l with Some r => hook_denied r name | None => false end) chain.

Lemma call_chain_eq s e r :
  tree_ok s -> st_reg s !! e = Some r ->
  exists ls, linked (parent_of (st_reg s)) (Some e) ls /\
    call_chain (Some e) s = Ok (chain_at r ls, s).
Proof.
  intros Hok Hr. destruct (region_ancestor_chain_spec s e r Hok Hr) as (ls & Hls & Hrun & _).
  exists ls. split; [done|]. unfold call_chain, chain_at, flagged.
  rewrite (bind_Ok (region_at e) _ s s r) by (apply wp_eq; by eapply wp_region_at).
  by destruct (negb _).
Qed.

Lemma hook_denied_by_chain_eq s chain name :
  (forall l, l ∈ chain -> is_Some (st_reg s !! l)) ->
  hook_denied_by_chain chain name s = Ok (chain_denies_hook (st_reg s) chain name, s).
Proof.
  induction chain as [|l chain IH]; intros Hl; [done|]. cbn.
  destruct (Hl l) as [r Hr]; [left|].
  rewrite (bind_Ok (region_at l) _ s s r) by (apply wp_eq; by eapply wp_region_at). rewrite Hr.
  destruct (hook_denied r name); [done|]. cbn. apply IH. intros. apply Hl. by right.
Qed.

(** ** Refused calls *)

(** The buffer for the result, when there is one, is large enough. *)
Definition room_for (s : state) (retp : option loc) (size : Z) : Prop :=
  match retp with
  | Some rp => exists buf, st_mem s !! rp = Some buf /\ (Z.to_nat size <= length buf)%nat
  | None => True
  end.

(** The buffer with its first [size] bytes zeroed. *)
Definition zeroed (size : Z) (retp : option loc) (mem : gmap loc (list Z)) : gmap loc (list Z) :=
  match retp with
  | Some rp => alter (fun b => replicate (Z.to_nat size) 0 ++ drop (Z.to_nat size) b) rp mem
  | None => mem
  end.

(** The state a refused call leaves. *)
Definition refused_state (s : state) (retp : option loc) (reg : loc) (a : adapter) (code : Z) : state :=
  set_st_err code (set_st_xy (set_x_adapter (Some reg) (st_xy s))
    (set_st_mem (zeroed (a_ret_size a) retp (st_mem s))
      (set_st_tls (set_t_last_retp None (set_t_last_ran 0 (st_tls s))) s))).

Lemma memset0_eq s retp size :
  room_for s retp size ->
  (match retp with Some rp => memset0 rp size | None => mret tt end) s =
    Ok (tt, set_st_mem (zeroed size retp (st_mem s)) s).
Proof.
  intros Hroom. destruct retp as [rp|]; cbn in *; [|by destruct s].
  destruct Hroom as (buf & Hbuf & Hlen). apply wp_eq. unfold memset0.
  eapply wp_mem_write; [done|by rewrite length_replicate|].
  split; [done|]. rewrite length_replicate. f_equal. symmetry.
  by rewrite <- (insert_alter _ rp buf).
Qed.

Lemma call_fail_eq s retp reg a code :
  st_adp s !! reg = Some a -> room_for s retp (a_ret_size a) ->
  call_fail retp reg code s = Ok (code, refused_state s retp reg a code).
Proof.
  intros Ha Hroom. unfold call_fail, xy_set_last_ret, xy_zero_ret.
  rewrite (bind_Ok _ _ s _ tt eq_refl). set (s1 := set_st_tls _ s).
  rewrite (bind_Ok (adapter_at reg) _ s1 s1 a) by (apply wp_eq; by eapply wp_adapter_at).
  rewrite (bind_Ok _ _ s1 _ tt eq_refl). set (s2 := set_st_tls _ s1).
  rewrite (bind_Ok _ _ s2 (set_st_mem (zeroed (a_ret_size a) retp (st_mem s)) s2) tt); [done|].
  destruct retp as [rp|]; [|by destruct s].
  rewrite (bind_Ok (adapter_at reg) _ s2 s2 a) by (apply wp_eq; by eapply wp_adapter_at).
  by apply (memset0_eq s2 (Some rp)).
Qed.

(** Why a call through the adapter [a] is refused. *)
Inductive refusal (s : state) (a : adapter) : Z -> Prop :=
| refusal_unknown ids :
    a_hook_id a < 0 -> rt_hook_id_hd (st_rt s) = Some ids -> qget ids (a_name a) = None ->
    refusal s a XY_ERR_NOTFOUND
| refusal_toobig :
    0 <= a_hook_id a -> XY_MAX_RET_SIZE < a_ret_size a ->
    refusal s a XY_ERR_TOOBIG
| refusal_denied tr e r l rl ls :
    0 <= a_hook_id a -> a_ret_size a <= XY_MAX_RET_SIZE -> a_call a = Some tr ->
    t_region_entry (st_tls s) = Some e -> st_reg s !! e = Some r -> flagged r = true ->
    linked (parent_of (st_reg s)) (Some e) ls -> l ∈ ls ->
    st_reg s !! l = Some rl -> hook_denied rl (a_name a) = true ->
    refusal s a XY_ERR_EPERM.

Lemma call_resolve_known s reg a :
  st_adp s !! reg = Some a -> 0 <= a_hook_id a ->
  call_resolve reg s = Ok (Some (a_hook_id a, a_call a), s).
Proof.
  intros Ha Hid. unfold call_resolve.
  rewrite (bind_Ok (adapter_at reg) _ s s a) by (apply wp_eq; by eapply wp_adapter_at).
  by destruct (Z.ltb_spec (a_hook_id a) 0); [lia|].
Qed.

(** The ancestors of a live region are live. *)
Lemma chain_live s e ls r l :
  linked (parent_of (st_reg s)) (Some e) ls -> l ∈ chain_at r ls -> is_Some (st_reg s !! l).
Proof.
  unfold chain_at. intros Hls. destruct (flagged r); [|by intros ?%not_elem_of_nil].
  rewrite list_elem_of_In, <- in_rev, <- list_elem_of_In. intros Hin.
  destruct (linked_live _ _ _ _ Hls Hin) as [x Hx]. unfold parent_of in Hx. by destruct (st_reg s !! l).
Qed.

Lemma call_denied_eq s e r ls name :
  st_reg s !! e = Some r -> linked (parent_of (st_reg s)) (Some e) ls ->
  call_denied (Some e) (chain_at r ls) name s =
    Ok (chain_denies_hook (st_reg s) (chain_at r ls) name, s).
Proof.
  intros Hr Hls. unfold call_denied.
  rewrite (bind_Ok _ _ s s (r_subtree_flags r)).
  2: { apply wp_eq. do 2 wp_step. done. }
  change XY_SUBTREE_SECURITY_MASK with XY_SUBTREE_ANY_MASK. fold (flagged r).
  rewrite <- (hook_denied_by_chain_eq s) by (intros; by eapply chain_live).
  unfold chain_at. by destruct (flagged r).
Qed.

(** The body of [xy_call] up to the check of the denials. *)
Lemma xy_call_checks exec retp reg a tr arg s e r :
  running s -> st_adp s !! reg = Some a -> 0 <= a_hook_id a -> a_ret_size a <= XY_MAX_RET_SIZE ->
  a_call a = Some tr -> t_region_entry (st_tls s) = Some e -> st_reg s !! e = Some r ->
  exists ls, linked (parent_of (st_reg s)) (Some e) ls /\
    xy_call exec retp (Some reg) arg s =
      (if chain_denies_hook (st_reg s) (chain_at r ls) (a_name a) then call_fail retp reg XY_ERR_EPERM
       else
         upd_tls (fun t => set_t_last_retp retp (set_t_last_ran 0 t));;
         upd_xy (set_x_adapter (Some reg));;
         ran ← call_entry exec retp reg tr arg (t_region_id (st_tls s)) (a_hook_id a) (a_name a)
                 (chain_at r ls) e;
         match ran with
         | None => call_fail retp reg XY_ERR_INVALID
         | Some ran => call_finish retp reg ran
         end) s.
Proof.
  intros Hrun Ha Hid Hsize Htr Hentry Hr. destruct (call_chain_eq s e r (run_tree _ Hrun) Hr) as (ls & Hls & Hchain).
  exists ls. split; [done|]. unfold xy_call.
  rewrite (bind_Ok _ _ _ _ _ (xy_runtime_ensure_inited s (run_inited _ Hrun))).
  cbn [negb Z.eqb XY_OK].
  rewrite (bind_Ok _ _ s s (t_region_id (st_tls s)) eq_refl).
  rewrite (bind_Ok _ _ s s (t_region_entry (st_tls s)) eq_refl).
  rewrite (bind_Ok _ _ _ _ _ (call_resolve_known s reg a Ha Hid)). unfold call_hook.
  rewrite (bind_Ok (adapter_at reg) _ s s a) by (apply wp_eq; by eapply wp_adapter_at).
  destruct (Z.ltb_spec XY_MAX_RET_SIZE (a_ret_size a)); [lia|]. rewrite Htr.
  rewrite (bind_Ok _ _ s s (Some tr) eq_refl), Hentry.
  rewrite (bind_Ok (mret (Some e)) _ s s (Some e) eq_refl).
  rewrite (bind_Ok _ _ _ _ _ Hchain).
  rewrite (bind_Ok _ _ _ _ _ (call_denied_eq s e r ls (a_name a) Hr Hls)). done.
Qed.

(** C33: a call is refused with NOTFOUND when the hook is not registered, with
    TOOBIG when its result is too big, and with EPERM when the caller's own region
    carries the flag for denials and it or an ancestor denies the hook (an
    ancestor's denial does not flag the regions below it, and without the flag the
    chain is not asked).  Then no module runs, the result is zeroed, [xy_last] has
    nothing to report, and regions and modules stay as they are. *)
Theorem xy_call_refused exec retp reg a arg s code :
  running s -> st_adp s !! reg = Some a -> refusal s a code -> room_for s retp (a_ret_size a) ->
  xy_call exec retp (Some reg) arg s = Ok (code, refused_state s retp reg a code).
Proof.
  intros Hrun Ha Href Hroom. rewrite <- call_fail_eq by done. destruct Href.
  - unfold xy_call. rewrite (bind_Ok _ _ _ _ _ (xy_runtime_ensure_inited s (run_inited _ Hrun))).
    cbn [negb Z.eqb XY_OK]. do 2 (rewrite (bind_Ok (gets _) _ s s _ eq_refl)).
    rewrite (bind_Ok _ _ s s None); [done|]. unfold call_resolve.
    rewrite (bind_Ok (adapter_at reg) _ s s a) by (apply wp_eq; by eapply wp_adapter_at).
    destruct (Z.ltb_spec (a_hook_id a) 0); [|lia]. cbn [negb].
    rewrite (bind_Ok (handle rt_hook_id_hd) _ s s ids) by (apply wp_eq; by eapply wp_handle).
    by match goal with E : qget ids _ = None |- _ => rewrite E end.
  - unfold xy_call. rewrite (bind_Ok _ _ _ _ _ (xy_runtime_ensure_inited s (run_inited _ Hrun))).
    cbn [negb Z.eqb XY_OK]. do 2 (rewrite (bind_Ok (gets _) _ s s _ eq_refl)).
    rewrite (bind_Ok _ _ _ _ _ (call_resolve_known s reg a Ha ltac:(done))). unfold call_hook.
    rewrite (bind_Ok (adapter_at reg) _ s s a) by (apply wp_eq; by eapply wp_adapter_at).
    by destruct (Z.ltb_spec XY_MAX_RET_SIZE (a_ret_size a)); [|lia].
  - destruct (xy_call_checks exec retp reg a tr arg s e r) as (ls' & Hls' & ->); [done..|].
    assert (ls' = ls) as -> by by eapply linked_det.
    replace (chain_denies_hook _ _ _) with true; [done|]. symmetry.
    unfold chain_denies_hook, chain_at.
    match goal with E : flagged r = true |- _ => rewrite E end.
    apply existsb_exists. exists l. rewrite <- in_rev, <- list_elem_of_In. split; [done|].
    by match goal with E : st_reg s !! l = _ |- _ => rewrite E end.
Qed.

(** ** Calls that go through *)

(** The state in which the modules are called, but for the caches. *)
Definition call_started (s : state) (retp : option loc) (reg : loc) : state :=
  set_st_xy (set_x_adapter (Some reg) (st_xy s))
    (set_st_tls (set_t_last_retp retp (set_t_last_ran 0 (st_tls s))) s).

Lemma call_started_dispatches s retp reg e r h name chain ms exp :
  dispatches s e r h name chain ms exp -> dispatches (call_started s retp reg) e r h name chain ms exp.
Proof. by intros []. Qed.

Lemma call_entry_eq exec retp reg tr arg region_id s e r h name chain ms exp :
  dispatches s e r h name chain ms exp -> undisturbed exec e h ->
  exists s1, ready s e r h name ms exp s1 /\
    call_entry exec retp reg tr arg region_id h name chain e s =
      (ran ← fan_out exec retp reg tr arg region_id exp 0; mret (Some ran)) s1.
Proof.
  intros Hdp Hu. destruct (call_prepare_eq _ _ _ _ _ _ _ _ Hdp) as (s1 & Hrun & Hready).
  exists s1. split; [done|]. unfold call_entry. rewrite (bind_Ok _ _ _ _ _ Hrun).
  unfold mbind, M_bind.
  by rewrite (call_slots_eq exec e r h name ms _ s s1 retp reg tr arg region_id
    (dp_id _ _ _ _ _ _ _ _ Hdp) Hready Hu).
Qed.

(** A call through the adapter [a], at [reg], from the region [e], that is not
    refused: the hook is registered and its result fits, no region of the chain
    denies it, and the region can dispatch it to the slots [exp] (the modules of
    its subtree are [ms]). *)
Record call_reaches (s : state) (e : loc) (r : region_entry) (reg : loc) (a : adapter) (tr : trampoline)
    (ls ms : list loc) (exp : list dispatch_slot) : Prop := {
  co_running : running s;
  co_adapter : st_adp s !! reg = Some a;
  co_size : 0 <= a_ret_size a <= XY_MAX_RET_SIZE;
  co_call : a_call a = Some tr;
  co_entry : t_region_entry (st_tls s) = Some e;
  co_chain : linked (parent_of (st_reg s)) (Some e) ls;
  co_dispatch : dispatches s e r (a_hook_id a) (a_name a) (chain_at r ls) ms exp;
  co_allowed : chain_denies_hook (st_reg s) (chain_at r ls) (a_name a) = false
}.

(** The slots of the listening modules. *)
Definition call_listeners (s : state) (r : region_entry) (a : adapter) (ls ms : list loc) :=
  listeners (st_reg s) (st_mod s) (chain_at r ls) (a_name a) ms.

(** A call that reaches them. *)
Definition call_ok (s : state) (e : loc) (r : region_entry) (reg : loc) (a : adapter) (tr : trampoline)
    (ls ms : list loc) : Prop :=
  call_reaches s e r reg a tr ls ms (call_listeners s r a ls ms).

Lemma xy_call_eq exec retp reg a tr arg s e r ls ms exp :
  call_reaches s e r reg a tr ls ms exp -> undisturbed exec e (a_hook_id a) ->
  exists s1, ready (call_started s retp reg) e r (a_hook_id a) (a_name a) ms exp s1 /\
    xy_call exec retp (Some reg) arg s =
      (ran ← fan_out exec retp reg tr arg (t_region_id (st_tls s)) exp 0;
       call_finish retp reg ran) s1.
Proof.
  intros [Hrun Ha Hsize Htr Hentry Hls Hdp Hden] Hu.
  destruct (xy_call_checks exec retp reg a tr arg s e r Hrun Ha (dp_id _ _ _ _ _ _ _ _ Hdp)
    (proj2 Hsize) Htr Hentry (dp_region _ _ _ _ _ _ _ _ Hdp)) as (ls' & Hls' & ->).
  assert (ls' = ls) as -> by by eapply linked_det. rewrite Hden.
  rewrite (bind_Ok _ _ s _ tt eq_refl), (bind_Ok _ _ _ (call_started s retp reg) tt eq_refl).
  destruct (call_entry_eq exec retp reg tr arg (t_region_id (st_tls s)) _ e r _ _ _ _ _
    (call_started_dispatches s retp reg e r _ _ _ _ _ Hdp) Hu) as (s1 & Hready & Hrun1).
  exists s1. split; [done|]. unfold mbind, M_bind in *. rewrite Hrun1.
  by destruct (fan_out _ _ _ _ _ _ _ 0 s1) as [[ran s2]| |].
Qed.

(** C4: a call that is not refused, of hook functions that leave the array of slots
    in use alone (they do not renew it by loading, unloading or denying and calling
    again), calls the slots [exp], each once and in order, and then reports whether
    any ran.  When the dispatch cache of the caller's region is of the region's
    generation, [exp] is what the cache holds, right or wrong; when it is not,
    [exp] is the listening modules of the subtree in its order, provided that what
    is cached in the modules for this hook is right.  The state in which they are
    called has such a cache up to date and is otherwise as before. *)
Theorem xy_call_fans_out exec retp reg a tr arg s e r ls ms exp :
  call_reaches s e r reg a tr ls ms exp -> undisturbed exec e (a_hook_id a) ->
  exists s1, ready (call_started s retp reg) e r (a_hook_id a) (a_name a) ms exp s1 /\
    xy_call exec retp (Some reg) arg s =
      (ran ← fan_out exec retp reg tr arg (t_region_id (st_tls s)) exp 0;
       call_finish retp reg ran) s1.
Proof. apply xy_call_eq. Qed.

(** ** Hooks that only compute *)

(** The functions of the modules answer [val] and change nothing. *)
Definition computes (exec : executor) (val : loc -> list Z -> list Z) : Prop :=
  forall f arg s, exec (CbHook f arg) s = Ok (val f arg, s).

Lemma computes_undisturbed exec val e h : computes exec val -> undisturbed exec e h.
Proof. intros Hv f arg s out s' H la. rewrite Hv in H. by injection H as _ <-. Qed.

Lemma length_ret_bytes size out : 0 <= size -> length (ret_bytes size out) = Z.to_nat size.
Proof. intros H. unfold ret_bytes. rewrite length_take, length_app, length_replicate. lia. Qed.

(** A slot whose module can be called. *)
Definition callable (s : state) (sl : dispatch_slot) (f : loc) : Prop :=
  exists me m ctx, sl = Slot (Some me) (Fn f) /\ st_mod s !! me = Some m /\ m_ctx m = Some ctx /\
    is_Some (st_ctx s !! ctx).

(** A function table less what every call of a hook writes to it. *)
Definition ctx_core (x : xy_t) : xy_t := set_x_region_state None (set_x_adapter None x).

(** What a module's call leaves: its context is written to, and the result. *)
Definition called (ctxs : gmap loc xy_t) (rp : loc) (buf : list Z) (s : state) : state :=
  set_st_ctx ctxs (set_st_mem (<[rp := buf]> (st_mem s)) s).

Lemma wp_adapter_call_pure exec val tr rp f arg buf s (K : unit -> state -> Prop) :
  computes exec val -> 0 <= tr_ret_size tr -> st_mem s !! rp = Some buf ->
  (Z.to_nat (tr_ret_size tr) <= length buf)%nat ->
  K tt (set_st_mem (<[rp := ret_bytes (tr_ret_size tr) (val f arg) ++
                            drop (Z.to_nat (tr_ret_size tr)) buf]> (st_mem s)) s) ->
  wp (adapter_call exec tr (Some rp) (Fn f) arg) s K.
Proof.
  intros Hv Hsz Hbuf Hlen HK. cbn. rewrite wp_bind. unfold wp at 1. rewrite Hv.
  eapply wp_mem_write; [done|by rewrite length_ret_bytes|]. by rewrite length_ret_bytes.
Qed.

Lemma slot_call_pure exec val reg tr arg s sl f rp buf :
  computes exec val -> callable s sl f -> 0 <= tr_ret_size tr ->
  st_mem s !! rp = Some buf -> (Z.to_nat (tr_ret_size tr) <= length buf)%nat ->
  exists ctxs,
    dispatch_slot_call exec (Some rp) reg tr arg (t_region_id (st_tls s)) sl s =
      Ok (true, called ctxs rp (ret_bytes (tr_ret_size tr) (val f arg) ++
                                drop (Z.to_nat (tr_ret_size tr)) buf) s) /\
    forall l, ctx_core <$> ctxs !! l = ctx_core <$> st_ctx s !! l.
Proof.
  intros Hv (me & m & ctx & -> & Hm & Hctx & [x Hx]) Hsz Hbuf Hlen.
  set (x' := set_x_region_state (m_region_state m) (set_x_adapter (Some reg) x)).
  exists (<[ctx := x']> (<[ctx := set_x_adapter (Some reg) x]> (st_ctx s))). split.
  2: { intros l. destruct (decide (l = ctx)) as [->|].
       - by rewrite lookup_insert_eq, Hx.
       - by rewrite !lookup_insert_ne. }
  unfold dispatch_slot_call. cbn [sl_me sl_cb].
  rewrite (bind_Ok (module_at me) _ s s m) by (apply wp_eq; by eapply wp_module_at). rewrite Hctx.
  set (s1 := set_st_ctx (<[ctx := set_x_adapter (Some reg) x]> (st_ctx s)) s).
  rewrite (bind_Ok _ _ s s1 tt) by (apply wp_eq; by eapply wp_upd_ctx).
  set (s2 := set_st_ctx (<[ctx := x']> (st_ctx s1)) s1).
  rewrite (bind_Ok _ _ s1 s2 tt) by (apply wp_eq; eapply wp_upd_ctx; [apply lookup_insert_eq|done]).
  rewrite (bind_Ok (ctx_at ctx) _ s2 s2 x')
    by (apply wp_eq; eapply wp_ctx_at; [apply lookup_insert_eq|done]).
  rewrite (bind_Ok _ _ s2 s2 (t_region_entry (st_tls s2)) eq_refl). apply wp_eq. rewrite wp_bind.
  destruct (negb _).
  - rewrite wp_bind. unfold set_current_region at 1. wp_step. rewrite wp_bind.
    eapply wp_adapter_call_pure; [done..|]. unfold set_current_region. do 2 wp_step.
    split; [done|]. unfold called. cbn -[insert]. by destruct s as [? ? []].
  - eapply wp_adapter_call_pure; [done..|]. by rewrite wp_mret.
Qed.

(** The calls through a list of slots: the last result stays in the buffer. *)
Lemma fan_out_pure exec val reg tr arg s sls fs rp buf ran :
  computes exec val -> Forall2 (callable s) sls fs -> 0 <= tr_ret_size tr ->
  st_mem s !! rp = Some buf -> (Z.to_nat (tr_ret_size tr) <= length buf)%nat ->
  exists ctxs,
    fan_out exec (Some rp) reg tr arg (t_region_id (st_tls s)) sls ran s =
      Ok (ran + Z.of_nat (length sls),
          called ctxs rp (match last fs with
                          | Some f => ret_bytes (tr_ret_size tr) (val f arg) ++
                                      drop (Z.to_nat (tr_ret_size tr)) buf
                          | None => buf
                          end) s) /\
    forall l, ctx_core <$> ctxs !! l = ctx_core <$> st_ctx s !! l.
Proof.
  intros Hv Hall Hsz. revert s buf ran Hall. induction sls as [|sl sls IH] in fs |- *;
    intros s buf ran Hall Hbuf Hlen; inversion Hall as [|? f ? fs' Hc Hall']; subst.
  { exists (st_ctx s). cbn. unfold called. rewrite Z.add_0_r, insert_id by done. split; [by destruct s|done]. }
  destruct (slot_call_pure exec val reg tr arg s sl f rp buf Hv Hc Hsz Hbuf Hlen) as (ctxs & Hrun & Hlive).
  cbn [fan_out]. rewrite (bind_Ok _ _ _ _ _ Hrun).
  set (buf1 := ret_bytes _ _ ++ _). set (s1 := called ctxs rp buf1 s).
  destruct (IH fs' s1 buf1 (ran + 1)) as (ctxs2 & Hrun2 & Hlive2).
  - eapply Forall2_impl; [done|]. intros sl' f' (me & m & ctx & -> & Hm & Hctx & Hx).
    exists me, m, ctx. split; [done|]. split; [done|]. split; [done|].
    cbn. specialize (Hlive ctx). by destruct (ctxs !! ctx), (st_ctx s !! ctx), Hx.
  - apply lookup_insert_eq.
  - unfold buf1. rewrite length_app, length_ret_bytes, length_drop by done. lia.
  - exists ctxs2. split; [|intros l'; rewrite Hlive2; apply Hlive]. change (t_region_id (st_tls s1)) with (t_region_id (st_tls s)) in Hrun2.
    rewrite Hrun2. f_equal. f_equal; [cbn; lia|]. unfold s1, called. cbn -[insert].
    rewrite insert_insert_eq. rewrite last_cons. destruct (last fs'); [|done].
    unfold buf1. rewrite drop_app_length' by by rewrite length_ret_bytes. done.
Qed.

(** *** The result *)

(** The functions of a list of slots. *)
Definition slot_fn (sl : dispatch_slot) : option loc :=
  match sl_cb sl with Fn f => Some f | _ => None end.

Definition answer_of (val : loc -> list Z -> list Z) (arg : list Z) (size : Z)
    (sls : list dispatch_slot) : list Z :=
  match last (omap slot_fn sls) with
  | Some f => ret_bytes size (val f arg)
  | None => replicate (Z.to_nat size) 0
  end.

Lemma length_answer val arg size sls : 0 <= size -> length (answer_of val arg size sls) = Z.to_nat size.
Proof.
  intros Hs. unfold answer_of. destruct (last _); [by apply length_ret_bytes|apply length_replicate].
Qed.

Lemma listeners_callable s e r h name chain ms exp s0 s1 :
  ready s0 e r h name ms exp s1 -> st_mod s0 = st_mod s -> st_ctx s0 = st_ctx s ->
  registry_ok s ->
  Forall2 (callable s1) (listeners (st_reg s) (st_mod s) chain name ms)
    (omap slot_fn (listeners (st_reg s) (st_mod s) chain name ms)).
Proof.
  intros (mods & r' & c & arrs & nx & -> & Hmods & _) Em Ec Hreg. rewrite Em in Hmods.
  unfold listeners. induction ms as [|me ms IH]; [constructor|]. cbn [mbind list_bind].
  rewrite omap_app. apply Forall2_app; [|done]. unfold listener.
  destruct (st_mod s !! me) as [m|] eqn:Hm; [|constructor].
  destruct (m_ctx m) as [ctx|] eqn:Hctx; [|constructor].
  destruct (plat_dlsym _ _) as [f|]; [|constructor]. destruct (chain_denies _ _ _); [constructor|].
  constructor; [|constructor].
  destruct (mods_step_lookup _ _ _ _ _ _ Hmods Hm) as (m' & Hm' & Hs & _).
  exists me, m', ctx. split; [done|]. split; [done|]. split.
  - rewrite (cs_rest _ _ _ Hs). done.
  - change (is_Some (st_ctx s0 !! ctx)). rewrite Ec. by eapply rg_ctx.
Qed.

(** What [xy_last] has to report after a call with the result [bs]. *)
Definition last_holds (s : state) (retp : option loc) (bs : list Z) : Prop :=
  match retp with
  | Some q => exists lb, st_mem s !! q = Some lb /\ (length bs <= length lb)%nat /\
      take (length bs) lb = bs
  | None => bs = []
  end.

(** The thread-local copy of the result. *)
Definition lastbuf_ok (s : state) : Prop :=
  exists lb, st_mem s !! xy_last_retbuf = Some lb /\ (Z.to_nat XY_MAX_RET_SIZE <= length lb)%nat.

Lemma xy_set_last_ret_eq s rp buf size :
  0 <= size <= XY_MAX_RET_SIZE -> st_mem s !! rp = Some buf -> (Z.to_nat size <= length buf)%nat ->
  lastbuf_ok s ->
  exists q mem, let s' := set_st_tls (set_t_last_retp q (st_tls s)) (set_st_mem mem s) in
    xy_set_last_ret (Some rp) size s = Ok (tt, s') /\
    (forall l, l <> xy_last_retbuf -> mem !! l = st_mem s !! l) /\
    last_holds s' q (take (Z.to_nat size) buf) /\ lastbuf_ok s'.
Proof.
  intros Hsz Hbuf Hlen Hlast. pose proof Hlast as (lb & Hlb & Hmax). unfold xy_set_last_ret.
  destruct (Z.ltb_spec 0 size) as [Hpos|Hzero].
  2: { exists None, (st_mem s). split; [by destruct s|]. split; [done|].
       split; [by replace size with 0 by lia|done]. }
  set (bs := take (Z.to_nat size) buf).
  assert (length bs = Z.to_nat size) as Hbs by (unfold bs; rewrite length_take; lia).
  set (w := if size <=? 8 then bs ++ replicate (Z.to_nat (8 - size)) 0 else bs).
  assert (exists tail, w = bs ++ tail /\ (length w <= length lb)%nat) as (tail & Ew & Hw).
  { unfold w. destruct (Z.leb_spec size 8) as [H8|H8].
    - eexists. split; [done|]. rewrite length_app, length_replicate, Hbs.
      change (Z.to_nat XY_MAX_RET_SIZE) with (Z.to_nat 4096) in Hmax. lia.
    - exists []. rewrite app_nil_r, Hbs. split; [done|]. lia. }
  exists (Some xy_last_retbuf), (<[xy_last_retbuf := w ++ drop (length w) lb]> (st_mem s)).
  split; [|split; [|split]].
  - apply wp_eq. wp_step. eapply wp_mem_read; [done|done|]. fold bs. rewrite wp_bind. fold w.
    eapply wp_mem_write; [done|done|]. by wp_step.
  - intros l Hl. by rewrite lookup_insert_ne.
  - exists (w ++ drop (length w) lb). cbn -[insert]. rewrite lookup_insert_eq. split; [done|].
    rewrite Ew, <- app_assoc. split; [rewrite length_app; lia|]. apply take_app_length.
  - eexists. split; [apply lookup_insert_eq|]. rewrite length_app, length_drop. lia.
Qed.

(** [xy_last] copies what is held. *)
Lemma xy_last_eq s reg a dst dbuf bs :
  running s -> x_adapter (st_xy s) = Some reg -> st_adp s !! reg = Some a ->
  t_last_ran (st_tls s) <> 0 -> last_holds s (t_last_retp (st_tls s)) bs ->
  length bs = Z.to_nat (a_ret_size a) -> st_mem s !! dst = Some dbuf ->
  (length bs <= length dbuf)%nat ->
  xy_last (Some dst) s = Ok (XY_OK, set_st_err XY_OK
    (set_st_mem (<[dst := bs ++ drop (length bs) dbuf]> (st_mem s)) s)).
Proof.
  intros Hrun Hreg Ha Hran Hheld Hlen Hdst Hroom. unfold xy_last.
  rewrite with_runtime_inited by apply Hrun.
  rewrite (bind_Ok _ _ s s (x_adapter (st_xy s)) eq_refl), Hreg.
  rewrite (bind_Ok _ _ s s (t_last_ran (st_tls s)) eq_refl).
  destruct (Z.eqb_spec (t_last_ran (st_tls s)) 0); [done|].
  rewrite (bind_Ok _ _ s s (t_last_retp (st_tls s)) eq_refl).
  destruct (t_last_retp (st_tls s)) as [q|] eqn:Eq; cbn in Hheld.
  - destruct Hheld as (lb & Hlb & Hl & Htake). apply wp_eq. do 2 wp_step. wp_step. rewrite wp_bind.
    eapply wp_mem_read; [done|lia|]. rewrite <- Hlen, Htake.
    eapply wp_mem_write; [done|done|]. by wp_step.
  - subst bs. cbn. rewrite drop_0, insert_id by done. by destruct s.
Qed.

(** Getting ready keeps the runtime consistent. *)
Lemma ready_running s e r h name ms exp s' :
  running s -> st_reg s !! e = Some r -> ready s e r h name ms exp s' -> running s'.
Proof.
  intros Hrun Hr (mods & r' & c & arrs & nx & -> & Hmods & Hsb & _ & _ & _ & [Hnx _]).
  eapply running_frame; [exact Hrun| | |done|done|done|].
  - apply (agree_insert skel _ _ r); [done|]. by rewrite (sb_rest _ _ _ _ Hsb).
  - apply gens_ok_insert; [apply tree_ok_gens, Hrun|].
    rewrite (same_but_gen _ _ _ _ Hsb). by eapply (tree_ok_gens _ (run_tree _ Hrun)).
  - intros x. cbn. destruct (Hmods x) as [m m' [Hs _]|]; [|done]. cbn. by rewrite (cs_rest _ _ _ Hs).
Qed.

Lemma finish_none s rp reg a buf :
  st_adp s !! reg = Some a -> st_mem s !! rp = Some buf ->
  (Z.to_nat (a_ret_size a) <= length buf)%nat ->
  call_finish (Some rp) reg 0 s =
    Ok (XY_ERR_NOTFOUND, set_st_err XY_ERR_NOTFOUND
      (set_st_mem (<[rp := replicate (Z.to_nat (a_ret_size a)) 0 ++ drop (Z.to_nat (a_ret_size a)) buf]>
                     (st_mem s))
        (set_st_tls (set_t_last_retp None (set_t_last_ran 0 (st_tls s))) s))).
Proof.
  intros Ha Hbuf Hlen. unfold call_finish, xy_set_last_ret. apply wp_eq. do 3 wp_step. cbn [Z.eqb].
  do 2 wp_step. wp_step. rewrite wp_bind. unfold memset0.
  eapply wp_mem_write; [done|by rewrite length_replicate|].
  rewrite length_replicate. by wp_step.
Qed.

Lemma finish_some s rp reg a buf ran :
  st_adp s !! reg = Some a -> 0 <= a_ret_size a <= XY_MAX_RET_SIZE -> ran <> 0 ->
  st_mem s !! rp = Some buf -> (Z.to_nat (a_ret_size a) <= length buf)%nat -> lastbuf_ok s ->
  exists q mem, let s' := set_st_err XY_OK (set_st_tls
      (set_t_last_retp q (set_t_last_ran ran (st_tls s))) (set_st_mem mem s)) in
    call_finish (Some rp) reg ran s = Ok (XY_OK, s') /\
    (forall l, l <> xy_last_retbuf -> mem !! l = st_mem s !! l) /\
    last_holds s' q (take (Z.to_nat (a_ret_size a)) buf) /\ lastbuf_ok s'.
Proof.
  intros Ha Hsize Hran Hbuf Hlen Hlast. set (s0 := set_st_tls (set_t_last_ran ran (st_tls s)) s).
  destruct (xy_set_last_ret_eq s0 rp buf (a_ret_size a) Hsize Hbuf Hlen Hlast)
    as (q & mem & Hrun & Hmem & Hheld & Hlb).
  exists q, mem. split; [|done]. unfold call_finish.
  rewrite (bind_Ok (upd_tls _) _ s s0 tt eq_refl).
  rewrite (bind_Ok (adapter_at reg) _ s0 s0 a) by (apply wp_eq; by eapply wp_adapter_at).
  destruct (Z.eqb_spec ran 0); [done|]. by rewrite (bind_Ok _ _ _ _ _ Hrun).
Qed.

(** A call whose hooks only compute leaves the caches alone once they are
    ready: it writes to memory, to the tables of the modules and to what xy_last
    hands out. *)
Record call_leaves (s s' : state) : Prop := {
  cv_state : s' = set_st_err (st_err s') (set_st_tls (set_t_last_retp (t_last_retp (st_tls s'))
      (set_t_last_ran (t_last_ran (st_tls s')) (st_tls s)))
    (set_st_ctx (st_ctx s') (set_st_mem (st_mem s') s)));
  cv_ctx : forall l, ctx_core <$> st_ctx s' !! l = ctx_core <$> st_ctx s !! l;
  cv_last : lastbuf_ok s'
}.

(** The rest of a call whose hooks only compute. *)
Lemma call_result_aux exec val rp reg a tr arg s sls buf :
  running s -> st_adp s !! reg = Some a -> 0 <= a_ret_size a <= XY_MAX_RET_SIZE ->
  x_adapter (st_xy s) = Some reg -> computes exec val ->
  Forall2 (callable s) sls (omap slot_fn sls) -> tr_ret_size tr = a_ret_size a ->
  st_mem s !! rp = Some buf -> (Z.to_nat (a_ret_size a) <= length buf)%nat -> lastbuf_ok s ->
  rp <> xy_last_retbuf ->
  let bs := answer_of val arg (a_ret_size a) sls in
  exists s', (ran ← fan_out exec (Some rp) reg tr arg (t_region_id (st_tls s)) sls 0;
              call_finish (Some rp) reg ran) s =
      Ok (match sls with [] => XY_ERR_NOTFOUND | _ => XY_OK end, s') /\
    running s' /\ t_last_ran (st_tls s') = Z.of_nat (length sls) /\
    st_mem s' !! rp = Some (bs ++ drop (Z.to_nat (a_ret_size a)) buf) /\
    t_region_id (st_tls s') = t_region_id (st_tls s) /\
    t_region_entry (st_tls s') = t_region_entry (st_tls s) /\
    (sls <> [] -> forall dst dbuf, st_mem s' !! dst = Some dbuf -> (length bs <= length dbuf)%nat ->
      xy_last (Some dst) s' = Ok (XY_OK, set_st_err XY_OK
        (set_st_mem (<[dst := bs ++ drop (length bs) dbuf]> (st_mem s')) s'))) /\
    call_leaves s s'.
Proof.
  intros Hrun Ha Hsize Hadp Hv Hcall Htr Hbuf Hlen Hlast Hne bs.
  destruct (fan_out_pure exec val reg tr arg s sls _ rp buf 0 Hv Hcall) as (ctxs & Hfan & Hctxs);
    [by rewrite Htr; apply Hsize|done|by rewrite Htr|].
  rewrite (bind_Ok _ _ _ _ _ Hfan). clear Hfan. rewrite Htr. unfold bs, answer_of. destruct sls as [|sl sls].
  { cbn [omap list_omap last length]. set (s2 := called ctxs rp buf s).
    assert (st_mem s2 !! rp = Some buf) as Hbuf2 by apply lookup_insert_eq.
    eexists. split; [by apply finish_none|]. split; [by apply (running_same s)|].
    split; [done|split; [apply lookup_insert_eq|split_and!; [done..|]]].
    split; [by destruct s as [? ? []]|apply Hctxs|].
    destruct Hlast as (lb & Hlb & ?). exists lb. split; [|done].
    unfold s2, called. cbn -[insert]. by rewrite !lookup_insert_ne. }
  assert (exists f, last (omap slot_fn (sl :: sls)) = Some f) as [f Hf].
  { apply last_is_Some. intros E. rewrite E in Hcall. inversion Hcall. }
  rewrite Hf. set (ans := ret_bytes (a_ret_size a) (val f arg)).
  assert (length ans = Z.to_nat (a_ret_size a)) as Hans by (apply length_ret_bytes, Hsize).
  set (buf2 := ans ++ drop (Z.to_nat (a_ret_size a)) buf). set (s2 := called ctxs rp buf2 s).
  assert (take (Z.to_nat (a_ret_size a)) buf2 = ans) as Htake by (rewrite <- Hans; apply take_app_length).
  destruct (finish_some s2 rp reg a buf2 (0 + Z.of_nat (length (sl :: sls)))) as (q & mem & Hfin & Hmem & Hheld & Hlb2);
    [done|done|cbn; lia|apply lookup_insert_eq| | |].
  { unfold buf2. rewrite length_app, Hans. lia. }
  { destruct Hlast as (lb & Hlb & ?). exists lb. split; [|done].
    unfold s2, called. cbn -[insert]. by rewrite lookup_insert_ne. }
  rewrite Htake in Hheld. rewrite Hfin. eexists. split; [done|].
  match goal with |- context [running ?x] => set (s' := x) in * end.
  assert (running s') as Hrun' by by apply (running_same s).
  split; [done|]. split; [done|]. split.
  { cbn. rewrite Hmem by done. unfold s2, called. cbn -[insert]. apply lookup_insert_eq. }
  split; [done|]. split; [done|]. split.
  2: { split; [by destruct s as [? ? []]|apply Hctxs|exact Hlb2]. }
  intros _ dst dbuf Hdst Hd.
  eapply xy_last_eq; [done|done|done| |done|done|done|done]. cbn. lia.
Qed.

Lemma xy_call_result_eq exec val rp reg a tr arg s e r ls ms buf :
  call_ok s e r reg a tr ls ms -> computes exec val -> registry_ok s ->
  tr_ret_size tr = a_ret_size a -> st_mem s !! rp = Some buf ->
  (Z.to_nat (a_ret_size a) <= length buf)%nat -> lastbuf_ok s -> rp <> xy_last_retbuf ->
  let sls := call_listeners s r a ls ms in
  let bs := answer_of val arg (a_ret_size a) sls in
  exists s', xy_call exec (Some rp) (Some reg) arg s =
      Ok (match sls with [] => XY_ERR_NOTFOUND | _ => XY_OK end, s') /\
    running s' /\ t_last_ran (st_tls s') = Z.of_nat (length sls) /\
    st_mem s' !! rp = Some (bs ++ drop (Z.to_nat (a_ret_size a)) buf) /\
    t_region_id (st_tls s') = t_region_id (st_tls s) /\
    t_region_entry (st_tls s') = t_region_entry (st_tls s) /\
    (sls <> [] -> forall dst dbuf, st_mem s' !! dst = Some dbuf -> (length bs <= length dbuf)%nat ->
      xy_last (Some dst) s' = Ok (XY_OK, set_st_err XY_OK
        (set_st_mem (<[dst := bs ++ drop (length bs) dbuf]> (st_mem s')) s'))) /\
    exists s1, ready (call_started s (Some rp) reg) e r (a_hook_id a) (a_name a) ms sls s1 /\
      call_leaves s1 s'.
Proof.
  intros Hok Hv Hreg Htr Hbuf Hlen Hlast Hne sls bs.
  destruct (xy_call_eq exec (Some rp) reg a tr arg s e r ls ms sls Hok
    (computes_undisturbed exec val _ _ Hv)) as (s1 & Hready & ->).
  pose proof (listeners_callable s e r _ _ (chain_at r ls) ms _ _ s1 Hready eq_refl eq_refl Hreg) as Hcall.
  fold (call_listeners s r a ls ms) in Hcall. fold sls in Hcall.
  assert (running s1) as Hrun1.
  { eapply (ready_running (call_started s (Some rp) reg));
      [|apply (dp_region _ _ _ _ _ _ _ _ (co_dispatch _ _ _ _ _ _ _ _ _ Hok))|done].
    by apply (running_same s); [apply (co_running _ _ _ _ _ _ _ _ _ Hok)|..]. }
  assert (st_adp s1 !! reg = Some a /\ st_mem s1 = st_mem s /\
    t_region_id (st_tls s1) = t_region_id (st_tls s) /\
    t_region_entry (st_tls s1) = t_region_entry (st_tls s) /\ t_last_ran (st_tls s1) = 0 /\
    x_adapter (st_xy s1) = Some reg) as (Ha & Hmem & Hid & Hentry & Hran & Hadp).
  { destruct Hready as (mods & r' & c & arrs & nx & -> & _). split; [apply Hok|done]. }
  clear Hreg. rewrite <- Hid, <- Hentry. rewrite <- Hmem in Hbuf.
  destruct (call_result_aux exec val rp reg a tr arg s1 sls buf) as (s' & H1 & H2 & H3 & H4 & H5 & H6 & H7 & H8);
    try done.
  - apply Hok.
  - unfold lastbuf_ok. by rewrite Hmem.
  - exists s'. split_and!; try done. by exists s1.
Qed.

(** C3: when the hooks only compute, a call that is not refused succeeds if any
    module of the subtree listens, and fails with NOTFOUND otherwise.  The
    caller's buffer then holds the answer of the last listener (or zeros), the
    caller is back in its own region, the runtime is consistent, and [xy_last]
    hands out that answer for as long as nothing else is called. *)
Theorem xy_call_result exec val rp reg a tr arg s e r ls ms buf :
  call_ok s e r reg a tr ls ms -> computes exec val -> registry_ok s ->
  tr_ret_size tr = a_ret_size a -> st_mem s !! rp = Some buf ->
  (Z.to_nat (a_ret_size a) <= length buf)%nat -> lastbuf_ok s -> rp <> xy_last_retbuf ->
  let sls := call_listeners s r a ls ms in
  let bs := answer_of val arg (a_ret_size a) sls in
  exists s', xy_call exec (Some rp) (Some reg) arg s =
      Ok (match sls with [] => XY_ERR_NOTFOUND | _ => XY_OK end, s') /\
    running s' /\ t_last_ran (st_tls s') = Z.of_nat (length sls) /\
    st_mem s' !! rp = Some (bs ++ drop (Z.to_nat (a_ret_size a)) buf) /\
    t_region_id (st_tls s') = t_region_id (st_tls s) /\
    t_region_entry (st_tls s') = t_region_entry (st_tls s) /\
    (sls <> [] -> forall dst dbuf, st_mem s' !! dst = Some dbuf -> (length bs <= length dbuf)%nat ->
      xy_last (Some dst) s' = Ok (XY_OK, set_st_err XY_OK
        (set_st_mem (<[dst := bs ++ drop (length bs) dbuf]> (st_mem s')) s'))).
Proof.
  intros H1 H2 H3 H4 H5 H6 H7 H8.
  destruct (xy_call_result_eq exec val rp reg a tr arg s e r ls ms buf H1 H2 H3 H4 H5 H6 H7 H8)
    as (s' & E1 & E2 & E3 & E4 & E5 & E6 & E7 & _).
  by exists s'.
Qed.

End CallSpec.
