(* ===== verification/Areg.v ===== *)
(** * Hook registration

    [xy_areg] of src/libxylem-dispatch.c (defined in Dispatch.v): what a
    registration leaves in the tables and in the function caches of the
    modules, and how it is refused. *)

From S2P Require Import Prelude QMap Status State Machine ModKey Linked Region RegionTree ModList.
From S2P Require Import Runtime Vectors Paths Identity FnCache RegionApi Deny Dispatch.
From stdpp Require Import options.
Local Open Scope Z_scope.

Section Areg.
Context {Q : QMapOps} {QL : QMapLaws Q} {P : Platform}.
Implicit Types (s : state) (m : mod_entry) (a : adapter) (ids : qmap string Z).

(** ** Specification *)

(** The cache of [m] agrees with the loader for the hooks in [ids], and holds
    nothing wrong for ids that are not given out yet. *)
Definition coherent (ids : qmap string Z) (counter : Z) (m : mod_entry) : Prop :=
  forall n h, 0 <= h -> qget ids n = Some h \/ counter <= h -> entry_ok m h n.

(** Every hook is resolved. *)
Definition warm (ids : qmap string Z) (m : mod_entry) : Prop :=
  forall n h, qget ids n = Some h -> known m h n.

(** The registered modules are live and their caches coherent. *)
Definition caches_ok (s : state) : Prop :=
  exists ids hd, rt_hook_id_hd (st_rt s) = Some ids /\ rt_mod_hd (st_rt s) = Some hd /\
    forall k me, qget hd k = Some me ->
      exists m, st_mod s !! me = Some m /\ coherent ids (rt_hook_id_counter (st_rt s)) m.

(** [m'] is [m] with more of its hooks resolved. *)
Record warmed (ids : qmap string Z) (counter : Z) (m m' : mod_entry) : Prop := {
  wm_rest : m' = set_m_fn_cache (m_fn_cache m') (set_m_hook_impl_bits (m_hook_impl_bits m') m);
  wm_coherent : coherent ids counter m -> coherent ids counter m';
  wm_warm : warm ids m -> warm ids m'
}.

Definition mods_warmed (ids : qmap string Z) (counter : Z) (mods mods' : gmap loc mod_entry) : Prop :=
  forall me, option_Forall2 (warmed ids counter) (mods !! me) (mods' !! me).

(** ** Prewarming all modules *)

Lemma warmed_refl ids c m : warmed ids c m m.
Proof. split; [by destruct m|done|done]. Qed.

Lemma warmed_trans ids c m1 m2 m3 : warmed ids c m1 m2 -> warmed ids c m2 m3 -> warmed ids c m1 m3.
Proof. intros [R1 C1 W1] [R2 C2 W2]. split; [rewrite R2; by rewrite R1|auto|auto]. Qed.

Lemma mods_warmed_refl ids c mods : mods_warmed ids c mods mods.
Proof. intros me. destruct (mods !! me); constructor. apply warmed_refl. Qed.

Lemma mods_warmed_trans ids c ms1 ms2 ms3 :
  mods_warmed ids c ms1 ms2 -> mods_warmed ids c ms2 ms3 -> mods_warmed ids c ms1 ms3.
Proof.
  intros H1 H2 me. specialize (H1 me). specialize (H2 me).
  destruct H1 as [x y W1|]; inversion H2; subst; constructor. by eapply warmed_trans.
Qed.

Lemma mods_warmed_insert ids c mods me m m' :
  mods !! me = Some m -> warmed ids c m m' -> mods_warmed ids c mods (<[me := m']> mods).
Proof.
  intros Hm Hw x. destruct (decide (x = me)) as [->|].
  - rewrite Hm, lookup_insert_eq. by constructor.
  - rewrite lookup_insert_ne by done. apply mods_warmed_refl.
Qed.

(** One module. *)
Lemma prewarm_warms s me m ids :
  st_alloc s = [] -> st_mod s !! me = Some m -> hooks_ok s ->
  rt_hook_id_hd (st_rt s) = Some ids -> coherent ids (rt_hook_id_counter (st_rt s)) m ->
  exists rc m', fn_cache_prewarm me s = Ok (rc, set_st_mod (<[me := m']> (st_mod s)) s) /\
    warmed ids (rt_hook_id_counter (st_rt s)) m m' /\ (is_Some (m_handle m) -> warm ids m').
Proof using QL.
  intros Ha Hm Hok Hids Hco. pose proof Hok as (ids' & E & Hrange & _).
  rewrite Hids in E. injection E as <-.
  destruct (m_handle m) as [hdl|] eqn:Hh.
  2: { exists 0, m. rewrite insert_id, set_st_mod_id by done. split; [|split; [apply warmed_refl|by intros []]].
       unfold fn_cache_prewarm.
       rewrite (bind_Ok (module_at me) _ s s m) by (apply wp_eq; by eapply wp_module_at). by rewrite Hh. }
  destruct (fn_cache_prewarm_eq s me m ids Ha Hm ltac:(by rewrite Hh) Hok Hids)
    as (m' & Hrun & Hs & Hk).
  { intros n h Hn. apply Hco; [by apply (Hrange n)|by left]. }
  exists 0, m'. split; [done|]. split; [|done]. split.
  - apply (css_rest _ _ _ Hs).
  - intros _ n h H0 [Hn|Hc]; [by apply known_entry_ok, Hk|].
    apply (css_ok _ _ _ Hs); [done| |by apply Hco; [|right]].
    intros ([n' h'] & E & Hin)%list_elem_of_fmap. cbn in E. subst h'.
    apply qiter_get, Hrange in Hin. lia.
  - done.
Qed.

Lemma prewarm_all_eq s ids l :
  st_alloc s = [] -> hooks_ok s -> rt_hook_id_hd (st_rt s) = Some ids ->
  (forall k me, (k, me) ∈ l -> exists m, st_mod s !! me = Some m /\
     coherent ids (rt_hook_id_counter (st_rt s)) m) ->
  exists mods, prewarm_all l s = Ok (tt, set_st_mod mods s) /\
    mods_warmed ids (rt_hook_id_counter (st_rt s)) (st_mod s) mods /\
    forall k me m, (k, me) ∈ l -> mods !! me = Some m -> is_Some (m_handle m) -> warm ids m.
Proof using QL.
  revert s. induction l as [|[k me] l IH]; intros s Ha Hok Hids Hl.
  { exists (st_mod s). rewrite set_st_mod_id. split; [done|].
    split; [apply mods_warmed_refl|]. by intros ? ? ? ?%not_elem_of_nil. }
  destruct (Hl k me) as (m & Hm & Hco); [left|].
  destruct (prewarm_warms s me m ids Ha Hm Hok Hids Hco) as (rc & m' & Hrun & Hw & Hwarm).
  cbn [prewarm_all]. rewrite (bind_Ok _ _ _ _ _ Hrun). set (s1 := set_st_mod _ s).
  pose proof (mods_warmed_insert ids _ (st_mod s) me m m' Hm Hw) as Hs1.
  destruct (IH s1 Ha Hok Hids) as (mods & Hrun2 & Hs2 & Hall).
  { intros k' me' Hin. destruct (Hl k' me') as (m2 & Hm2 & Hco2); [by right|].
    specialize (Hs1 me'). rewrite Hm2 in Hs1. inversion Hs1 as [? m3 W|]; subst.
    exists m3. split; [done|]. by apply (wm_coherent _ _ _ _ W). }
  exists mods. rewrite Hrun2. split; [done|]. split; [by eapply mods_warmed_trans|].
  intros k' me' m2 [[= -> ->]|Hin]%elem_of_cons Hm2 Hh; [|by eapply Hall].
  specialize (Hs2 me). change (st_mod s1) with (<[me := m']> (st_mod s)) in Hs2.
  rewrite lookup_insert_eq, Hm2 in Hs2.
  inversion Hs2 as [? ? W|]; subst. apply (wm_warm _ _ _ _ W), Hwarm.
  rewrite (wm_rest _ _ _ _ W) in Hh. cbn in Hh. by rewrite (wm_rest _ _ _ _ Hw) in Hh.
Qed.

(** ** Registration *)

(** The table of adapters with [al] at [h]. *)
Definition table_with (h : Z) (al : loc) (t : list (option loc)) : list (option loc) :=
  <[Z.to_nat h := Some al]> (if Z.of_nat (length t) <=? h then grow_adapters h t else t).

Lemma table_with_lookup h al t :
  0 <= h -> table_with h al t !! Z.to_nat h = Some (Some al) /\
    forall i, i <> Z.to_nat h -> default None (table_with h al t !! i) = default None (t !! i).
Proof.
  intros Hh. unfold table_with, grow_adapters. split.
  - apply list_lookup_insert_eq. destruct (Z.leb_spec (Z.of_nat (length t)) h); [|lia].
    rewrite length_app, length_replicate. lia.
  - intros i Hi. rewrite list_lookup_insert_ne by done.
    destruct (Z.leb_spec (Z.of_nat (length t)) h); [|done].
    destruct (t !! i) as [x|] eqn:E; [by rewrite (lookup_app_l_Some _ _ _ _ E)|].
    rewrite lookup_app_r by by apply lookup_ge_None.
    destruct (replicate _ _ !! _) eqn:E'; [|done]. by apply lookup_replicate in E' as [-> _].
Qed.

(** The tables and the adapter once the hook is entered. *)
Definition areg_rt (sica : qmap string loc) (ids : qmap string Z) (name : string) (al : loc)
    (rt : runtime) : runtime :=
  let h := rt_hook_id_counter rt in
  set_rt_adapter_by_id (table_with h al (rt_adapter_by_id rt))
    (set_rt_hook_id_hd (Some (qput ids name h))
      (set_rt_hook_id_counter (h + 1)
        (set_rt_sica_hd (Some (qput sica name al)) rt))).

Definition areg_state (sica : qmap string loc) (ids : qmap string Z) (name : string) (al : loc)
    (a : adapter) s : state :=
  set_st_rt (areg_rt sica ids name al (st_rt s))
    (set_st_adp (<[al := set_a_hook_id (rt_hook_id_counter (st_rt s)) a]> (st_adp s)) s).

Lemma xy_areg_tail s name al a sica ids hd :
  rt_inited (st_rt s) = true -> st_alloc s = [] -> st_adp s !! al = Some a ->
  a_ret_size a <= XY_MAX_RET_SIZE -> rt_sica_hd (st_rt s) = Some sica -> qget sica name = None ->
  rt_hook_id_hd (st_rt s) = Some ids -> rt_mod_hd (st_rt s) = Some hd ->
  xy_areg name al s =
    (prewarm_all (qiter hd);; XY_SET_ERR XY_OK;; mret 0) (areg_state sica ids name al a s).
Proof.
  intros Hi Ha Hadp Hsize Hsica Hnone Hids Hhd. unfold xy_areg.
  rewrite (bind_Ok _ _ _ _ _ (xy_runtime_ensure_inited s Hi)). cbn [negb Z.eqb XY_OK].
  rewrite (bind_Ok (adapter_at al) _ s s a) by (apply wp_eq; by eapply wp_adapter_at).
  destruct (Z.ltb_spec XY_MAX_RET_SIZE (a_ret_size a)); [lia|].
  rewrite (bind_Ok (handle rt_sica_hd) _ s s sica) by (apply wp_eq; by eapply wp_handle). rewrite Hnone.
  set (h := rt_hook_id_counter (st_rt s)).
  set (rt1 := set_rt_sica_hd (Some (qput sica name al)) (st_rt s)).
  rewrite (bind_Ok (upd_rt _) _ s (set_st_rt rt1 s) tt eq_refl).
  rewrite (bind_Ok (gets _) _ (set_st_rt rt1 s) (set_st_rt rt1 s) h eq_refl).
  set (rt2 := set_rt_hook_id_counter (h + 1) rt1).
  rewrite (bind_Ok (upd_rt _) _ (set_st_rt rt1 s) (set_st_rt rt2 s) tt eq_refl).
  rewrite (bind_Ok (handle rt_hook_id_hd) _ (set_st_rt rt2 s) (set_st_rt rt2 s) ids) by (apply wp_eq; by eapply wp_handle).
  set (rt3 := set_rt_hook_id_hd (Some (qput ids name h)) rt2).
  rewrite (bind_Ok (upd_rt _) _ (set_st_rt rt2 s) (set_st_rt rt3 s) tt eq_refl).
  set (adp := <[al := set_a_hook_id h a]> (st_adp s)).
  set (s3 := set_st_rt rt3 (set_st_adp adp s)).
  rewrite (bind_Ok (upd_adapter al _) _ (set_st_rt rt3 s) s3 tt)
    by (apply wp_eq; by eapply wp_upd_adapter).
  rewrite (bind_Ok (gets _) _ s3 s3 (Z.of_nat (length (rt_adapter_by_id (st_rt s)))) eq_refl).
  assert (forall t, t = (if Z.of_nat (length (rt_adapter_by_id (st_rt s))) <=? h
            then grow_adapters h (rt_adapter_by_id (st_rt s)) else rt_adapter_by_id (st_rt s)) ->
    areg_publish h al (set_st_rt (set_rt_adapter_by_id t rt3) s3) =
    (prewarm_all (qiter hd);; XY_SET_ERR XY_OK;; mret 0) (areg_state sica ids name al a s)) as Hpub.
  { intros t ->. unfold areg_publish.
    set (s4 := areg_state sica ids name al a s).
    rewrite (bind_Ok (upd_rt _) _ _ s4 tt) by done.
    by rewrite (bind_Ok (gets _) _ s4 s4 (Some hd)) by (unfold gets; do 2 f_equal; exact Hhd). }
  destruct (Z.leb_spec (Z.of_nat (length (rt_adapter_by_id (st_rt s)))) h) as [Hcap|Hcap].
  - rewrite (bind_Ok try_alloc _ s3 s3 true) by (unfold try_alloc; cbn; by rewrite Ha).
    rewrite (bind_Ok (upd_rt _) _ s3 (set_st_rt (set_rt_adapter_by_id
      (grow_adapters h (rt_adapter_by_id (st_rt s))) rt3) s3) tt) by done.
    by apply Hpub.
  - by rewrite <- (Hpub (rt_adapter_by_id (st_rt s)) eq_refl).
Qed.

(** What is true of the old tables is true of the new ones. *)
Lemma areg_hooks_ok s sica ids name al a :
  hooks_ok s -> rt_hook_id_hd (st_rt s) = Some ids -> 0 <= rt_hook_id_counter (st_rt s) ->
  qget ids name = None -> hooks_ok (areg_state sica ids name al a s).
Proof using QL.
  intros (ids' & E & Hrange & Hinj) Hids Hpos Hnone. rewrite Hids in E. injection E as <-.
  exists (qput ids name (rt_hook_id_counter (st_rt s))). split; [done|]. cbn. split.
  - intros n h. rewrite qget_put. case_decide; [intros [= <-]; lia|]. intros Hn%Hrange. lia.
  - intros n n' h. rewrite !qget_put. repeat case_decide; try congruence.
    + intros [= <-] Hn%Hrange. lia.
    + intros Hn%Hrange [= <-]. lia.
    + apply Hinj.
Qed.

Lemma coherent_put ids c m name : coherent ids c m -> coherent (qput ids name c) (c + 1) m.
Proof using QL.
  intros H n h H0 [Hn|Hc]; [|apply H; [done|right; lia]].
  rewrite qget_put in Hn. case_decide; [|by apply H; [|left]].
  injection Hn as ->. apply H; [done|by right].
Qed.

(** The outcome of a registration. *)
Record registered s (name : string) (al : loc) (a : adapter) ids s' : Prop := {
  ar_id : rt_hook_id_hd (st_rt s') = Some (qput ids name (rt_hook_id_counter (st_rt s)));
  ar_counter : rt_hook_id_counter (st_rt s') = rt_hook_id_counter (st_rt s) + 1;
  ar_slot : rt_adapter_by_id (st_rt s') !! Z.to_nat (rt_hook_id_counter (st_rt s)) = Some (Some al);
  ar_others : forall i, i <> Z.to_nat (rt_hook_id_counter (st_rt s)) ->
    default None (rt_adapter_by_id (st_rt s') !! i) = default None (rt_adapter_by_id (st_rt s) !! i);
  ar_adapter : st_adp s' = <[al := set_a_hook_id (rt_hook_id_counter (st_rt s)) a]> (st_adp s);
  ar_hooks : hooks_ok s';
  ar_caches : caches_ok s';
  ar_warm : forall hd k me m, rt_mod_hd (st_rt s) = Some hd -> qget hd k = Some me ->
    st_mod s' !! me = Some m -> is_Some (m_handle m) ->
    warm (qput ids name (rt_hook_id_counter (st_rt s))) m;
  ar_mods : mods_warmed (qput ids name (rt_hook_id_counter (st_rt s)))
    (rt_hook_id_counter (st_rt s) + 1) (st_mod s) (st_mod s');
  ar_reg : st_reg s' = st_reg s /\ st_tls s' = st_tls s /\ st_err s' = XY_OK
}.

Lemma xy_areg_registers_eq s name al a sica ids :
  rt_inited (st_rt s) = true -> st_alloc s = [] -> st_adp s !! al = Some a ->
  a_ret_size a <= XY_MAX_RET_SIZE -> rt_sica_hd (st_rt s) = Some sica -> qget sica name = None ->
  rt_hook_id_hd (st_rt s) = Some ids -> qget ids name = None -> hooks_ok s ->
  0 <= rt_hook_id_counter (st_rt s) -> caches_ok s ->
  exists s', xy_areg name al s = Ok (0, s') /\ registered s name al a ids s'.
Proof using QL.
  intros Hi Ha Hadp Hsize Hsica Hnone Hids Hfresh Hhooks Hpos (ids' & hd & E & Hhd & Hall).
  rewrite Hids in E. injection E as <-.
  rewrite (xy_areg_tail s name al a sica ids hd) by done.
  set (s1 := areg_state sica ids name al a s).
  set (ids1 := qput ids name (rt_hook_id_counter (st_rt s))).
  assert (hooks_ok s1) as Hhooks1 by by apply areg_hooks_ok.
  destruct (prewarm_all_eq s1 ids1 (qiter hd) Ha Hhooks1 eq_refl) as (mods & Hrun & Hmods & Hwarm).
  { intros k me Hin%qiter_get. destruct (Hall _ _ Hin) as (m & Hm & Hco).
    exists m. split; [done|]. by apply coherent_put. }
  rewrite (bind_Ok _ _ _ _ _ Hrun). eexists. split; [done|].
  destruct (table_with_lookup (rt_hook_id_counter (st_rt s)) al (rt_adapter_by_id (st_rt s)) Hpos)
    as [Hslot Hothers].
  split; [done|done|exact Hslot|exact Hothers|done|exact Hhooks1| | |exact Hmods|done].
  - exists ids1, hd. split; [done|]. split; [done|]. intros k me Hg.
    destruct (Hall _ _ Hg) as (m & Hm & Hco). specialize (Hmods me). cbn in Hmods. rewrite Hm in Hmods.
    inversion Hmods as [? m' W|]; subst. exists m'. split; [done|].
    by apply (wm_coherent _ _ _ _ W), coherent_put.
  - intros hd' k me m E Hg Hm Hh. rewrite Hhd in E. injection E as <-.
    by apply (Hwarm k me); [apply qiter_get| |].
Qed.

(** C6: registering a new name succeeds: the hook gets the next id, which no
    other hook has, the adapter is told its id and stands in the table under
    it, the other hooks keep theirs, and the new hook (like all others) is
    resolved at once in every registered module. *)
Theorem xy_areg_registers s name al a sica ids :
  rt_inited (st_rt s) = true -> st_alloc s = [] -> st_adp s !! al = Some a ->
  a_ret_size a <= XY_MAX_RET_SIZE -> rt_sica_hd (st_rt s) = Some sica -> qget sica name = None ->
  rt_hook_id_hd (st_rt s) = Some ids -> qget ids name = None -> hooks_ok s ->
  0 <= rt_hook_id_counter (st_rt s) -> caches_ok s ->
  exists s', xy_areg name al s = Ok (0, s') /\ registered s name al a ids s'.
Proof using QL. apply xy_areg_registers_eq. Qed.

(** Registering is refused when the result is too big for the library
    (TOOBIG), and changes nothing but the error; registering a known name
    changes nothing at all, and answers the low half of an address. *)
Theorem xy_areg_refused s name al a :
  rt_inited (st_rt s) = true -> st_adp s !! al = Some a ->
  (XY_MAX_RET_SIZE < a_ret_size a ->
     xy_areg name al s = Ok (XY_INVALID, set_st_err XY_ERR_TOOBIG s)) /\
  (forall sica old, a_ret_size a <= XY_MAX_RET_SIZE -> rt_sica_hd (st_rt s) = Some sica ->
     qget sica name = Some old -> xy_areg name al s = Ok (Z.pos old mod two32, s)).
Proof.
  intros Hi Hadp.
  assert (forall k : Z -> XM Z, (xy_runtime_ensure ≫= k) s = k XY_OK s) as Hens.
  { intros k. apply bind_Ok. by apply xy_runtime_ensure_inited. }
  assert (forall k : adapter -> XM Z, (adapter_at al ≫= k) s = k a s) as Hat.
  { intros k. apply bind_Ok. apply wp_eq. by eapply wp_adapter_at. }
  unfold xy_areg. rewrite Hens. cbn [negb Z.eqb XY_OK]. rewrite Hat. split.
  - intros Hbig. by destruct (Z.ltb_spec XY_MAX_RET_SIZE (a_ret_size a)); [|lia].
  - intros sica old Hsize Hsica Hold.
    destruct (Z.ltb_spec XY_MAX_RET_SIZE (a_ret_size a)); [lia|].
    rewrite (bind_Ok (handle rt_sica_hd) _ s s sica) by (apply wp_eq; by eapply wp_handle).
    by rewrite Hold.
Qed.

End Areg.
