(* ===== verification/HookCall.v ===== *)
(** * Calling a hook like a function

    What XY_DECL, XY_DEF and XY_IMPL of include/ttypt/xy.h generate besides the
    code for the arguments (Macros.v): the adapters, their registration, and the
    inline function that is called. *)

From S2P Require Import Prelude QMap Status Macros State Machine ModKey Linked Region RegionTree.
From S2P Require Import ModList Runtime Paths Identity FnCache RegionApi Deny Dispatch DispatchSpec.
From S2P Require Import CallSpec Areg.
From stdpp Require Import options.
Local Open Scope Z_scope.

(** ** Definitions *)

(** [__xy_decl_fname_adapter]: a declaration does not know the function that
    calls the modules. *)
Definition decl_adapter (fname : string) (arg_size ret_size : Z) : adapter :=
  Adapter fname arg_size ret_size None (-1).

(** [fname_adapter], the canonical one. *)
Definition impl_adapter (fname : string) (arg_size ret_size : Z) : adapter :=
  Adapter fname arg_size ret_size (Some (Trampoline ret_size)) (-1).

(** [_Static_assert(sizeof(ftype) <= XY_MAX_RET_SIZE)] *)
Definition ret_size_ok (ret_size : Z) : bool := ret_size <=? XY_MAX_RET_SIZE.

Section HookCall.
Context {Q : QMapOps} {P : Platform}.

(** [fname_adapter_reg]; its address is in .init_array. *)
Definition adapter_reg (fname : string) (adapter : loc) : XM unit :=
  xy_areg fname adapter;; mret tt.

(** [fname(vs)]: [ret] starts with what the stack holds, [junk].  The struct is
    read, by the [adapter_call] of the modules, as it was filled in. *)
Definition hook_function (exec : executor) (hk : hook_code) (adapter : loc) (ret_size : Z)
    (junk vs : list Z) : XM (list Z) :=
  ret ← fresh_loc;
  modify (fun s => set_st_mem (<[ret := junk]> (st_mem s)) s);;
  args ← must (call_struct 0 hk vs);
  arg ← must (adapter_arguments hk args);
  xy_call exec (Some ret) (Some adapter) arg;;
  out ← mem_read ret ret_size;
  modify (fun s => set_st_mem (delete ret (st_mem s)) s);;
  mret out.

End HookCall.

(** ** Theorems *)

Section HookCallFacts.
Context {Q : QMapOps} {QL : QMapLaws Q} {P : Platform}.
Implicit Types (s : state) (a c d : adapter).

(** The adapter [d] at [reg] declares the hook whose canonical adapter is [c],
    registered, at [cl]. *)
Record declares s (reg : loc) d (cl : loc) c (ids : qmap string Z) : Prop := {
  dc_adapter : st_adp s !! reg = Some d;
  dc_unknown : a_hook_id d < 0 /\ a_call d = None;
  dc_ids : rt_hook_id_hd (st_rt s) = Some ids;
  dc_id : qget ids (a_name d) = Some (a_hook_id c);
  dc_table : rt_adapter_by_id (st_rt s) !! Z.to_nat (a_hook_id c) = Some (Some cl);
  dc_canonical : st_adp s !! cl = Some c;
  dc_other : cl <> reg;
  dc_name : a_name d = a_name c
}.

(** A declaration once the first call has completed it: a copy of the canonical
    adapter. *)
Definition completed c d : adapter :=
  Adapter (a_name d) (a_arg_size c) (a_ret_size c) (a_call c) (a_hook_id c).

Definition with_adapter (reg : loc) a s : state := set_st_adp (<[reg := a]> (st_adp s)) s.

Lemma call_resolve_declared s reg d cl c ids tr :
  declares s reg d cl c ids -> 0 <= a_hook_id c -> a_call c = Some tr ->
  call_resolve reg s = Ok (Some (a_hook_id c, Some tr), with_adapter reg (completed c d) s).
Proof.
  intros [Hd [Hneg Hcall] Hids Hid Htab Hc Hne Hname] Hh Htr. unfold call_resolve.
  rewrite (bind_Ok (adapter_at reg) _ s s d) by (apply wp_eq; by eapply wp_adapter_at).
  destruct (Z.ltb_spec (a_hook_id d) 0); [|lia]. cbn [negb].
  rewrite (bind_Ok (handle rt_hook_id_hd) _ s s ids) by (apply wp_eq; by eapply wp_handle). rewrite Hid.
  set (s1 := with_adapter reg (set_a_hook_id (a_hook_id c) d) s).
  rewrite (bind_Ok (upd_adapter reg _) _ s s1 tt) by (apply wp_eq; by eapply wp_upd_adapter).
  assert (st_adp s1 !! cl = Some c) as Hc1 by (cbn; by rewrite lookup_insert_ne by congruence).
  rewrite (bind_Ok (canonical_adapter _) _ s1 s1 (Some c)).
  2: { unfold canonical_adapter.
       rewrite (bind_Ok (gets _) _ s1 s1 (rt_adapter_by_id (st_rt s)) eq_refl).
       destruct (Z.ltb_spec (a_hook_id c) 0); [lia|]. rewrite Htab.
       by rewrite (bind_Ok (adapter_at cl) _ s1 s1 c) by (apply wp_eq; by eapply wp_adapter_at). }
  rewrite Hcall.
  rewrite (bind_Ok (upd_adapter reg _) _ s1 (with_adapter reg (completed c d) s) tt).
  - by rewrite Htr.
  - apply wp_eq. eapply wp_upd_adapter; [apply lookup_insert_eq|]. split; [done|].
    unfold with_adapter, s1. cbn. rewrite insert_insert_eq. by destruct d.
Qed.

(** The constructor of the file that defines the hook registers the canonical
    adapter; from then on every declaration of the hook finds it. *)
Lemma adapter_reg_declares s fname cl arg_size ret_size sica ids reg d :
  rt_inited (st_rt s) = true -> st_alloc s = [] -> st_adp s !! cl = Some (impl_adapter fname arg_size ret_size) ->
  ret_size_ok ret_size = true -> rt_sica_hd (st_rt s) = Some sica -> qget sica fname = None ->
  rt_hook_id_hd (st_rt s) = Some ids -> qget ids fname = None -> hooks_ok s ->
  0 <= rt_hook_id_counter (st_rt s) -> caches_ok s ->
  st_adp s !! reg = Some d -> a_hook_id d < 0 /\ a_call d = None -> a_name d = fname -> cl <> reg ->
  exists s' c ids', adapter_reg fname cl s = Ok (tt, s') /\ declares s' reg d cl c ids' /\
    0 <= a_hook_id c /\ a_call c = Some (Trampoline ret_size).
Proof using QL.
  intros Hi Ha Hcl Hsize%Z.leb_le Hsica Hnone Hids Hfresh Hhooks Hpos Hcaches Hd Hu Hname Hne.
  destruct (xy_areg_registers_eq s fname cl _ sica ids Hi Ha Hcl Hsize Hsica Hnone Hids Hfresh Hhooks Hpos Hcaches)
    as (s' & Hrun & Hr). set (h := rt_hook_id_counter (st_rt s)) in *.
  exists s', (set_a_hook_id h (impl_adapter fname arg_size ret_size)), (qput ids fname h). split_and!; [|split|done|done].
  - unfold adapter_reg. by rewrite (bind_Ok _ _ _ _ _ Hrun).
  - rewrite (ar_adapter _ _ _ _ _ _ Hr). by rewrite lookup_insert_ne by done.
  - done.
  - apply (ar_id _ _ _ _ _ _ Hr).
  - rewrite Hname. by rewrite qget_put_eq.
  - apply (ar_slot _ _ _ _ _ _ Hr).
  - rewrite (ar_adapter _ _ _ _ _ _ Hr). apply lookup_insert_eq.
  - done.
  - done.
Qed.

(** The first call through the adapter of a declaration looks the hook up by its
    name, completes the adapter from the registered one, and is then the call
    through the completed adapter. *)
Lemma xy_call_declared exec retp reg d cl c ids tr arg s :
  rt_inited (st_rt s) = true -> declares s reg d cl c ids -> 0 <= a_hook_id c -> a_call c = Some tr ->
  xy_call exec retp (Some reg) arg s =
    xy_call exec retp (Some reg) arg (with_adapter reg (completed c d) s).
Proof.
  intros Hi Hdc Hh Htr. set (s1 := with_adapter reg (completed c d) s). unfold xy_call.
  rewrite (bind_Ok _ _ _ _ _ (xy_runtime_ensure_inited s Hi)).
  rewrite (bind_Ok _ _ _ _ _ (xy_runtime_ensure_inited s1 Hi)). cbn [negb Z.eqb XY_OK].
  rewrite (bind_Ok _ _ s s (t_region_id (st_tls s)) eq_refl).
  rewrite (bind_Ok _ _ s1 s1 (t_region_id (st_tls s)) eq_refl).
  rewrite (bind_Ok _ _ s s (t_region_entry (st_tls s)) eq_refl).
  rewrite (bind_Ok _ _ s1 s1 (t_region_entry (st_tls s)) eq_refl).
  rewrite (bind_Ok _ _ _ _ _ (call_resolve_declared s reg d cl c ids tr Hdc Hh Htr)).
  rewrite (bind_Ok _ _ _ _ _ (call_resolve_known s1 reg (completed c d) ltac:(apply lookup_insert_eq) Hh)).
  cbn [a_call completed a_hook_id]. by rewrite Htr.
Qed.

(** What a call looks at is not changed by a completed adapter and a buffer for
    the result. *)
Definition prepared (reg ret : loc) a (buf : list Z) s : state :=
  with_adapter reg a (set_st_mem (<[ret := buf]> (st_mem s)) (set_st_next (Pos.succ ret) s)).

Lemma prepared_call_ok s e r cl c tr ls ms reg d ids buf :
  call_ok s e r cl c tr ls ms -> declares s reg d cl c ids ->
  call_ok (prepared reg (st_next s) (completed c d) buf s) e r reg (completed c d) tr ls ms.
Proof.
  intros [Hrun Hc Hsize Htr He Hls Hdp Hden] Hdc.
  assert (a_name d = a_name c) as Hname by apply (dc_name _ _ _ _ _ _ Hdc). split.
  - eapply running_frame; [exact Hrun|done| |done|done| |done].
    + apply (tree_ok_gens s), Hrun.
    + cbn. lia.
  - apply lookup_insert_eq.
  - done.
  - done.
  - done.
  - done.
  - unfold call_listeners in *. cbn [a_hook_id a_name completed]. rewrite Hname. destruct Hdp. by split.
  - cbn [a_name completed]. by rewrite Hname.
Qed.


End HookCallFacts.
