(* ===== verification/CopyFile.v ===== *)
(** * The temporary copy of a module

    [copy_one] and [copy_to_tmp] of src/libxylem.c: a module that is loaded again
    is loaded from a copy of its file, so that the dynamic loader takes it for a
    new image. *)

From S2P Require Import Prelude QMap Status State Machine.
From Stdlib Require Import Ascii.
From stdpp Require Import options.
Local Open Scope Z_scope.

(** The bytes before the last '/', if there is one. *)
Fixpoint before_last_slash (s : string) : option string :=
  match s with
  | EmptyString => None
  | String c s' =>
      match before_last_slash s' with
      | Some d => Some (String c d)
      | None => if Ascii.eqb c "/"%char then Some EmptyString else None
      end
  end.

Section CopyFile.
Context {Q : QMapOps} {P : Platform}.

(** ** System calls *)

Definition mkstemps (template : string) : XM (option string) :=
  name ← gets (fun s => plat_mkstemps (st_trace s) template);
  emit (EvMkstemps name);;
  mret name.

(** [open(path, O_RDONLY)]: what there is to read. *)
Definition open_in (path : string) : XM (option (list Z)) :=
  content ← gets (fun s => plat_open_file (st_trace s) path);
  emit (EvOpen FdIn path (bool_decide (is_Some content)));;
  mret content.

(** [open(dir, O_DIRECTORY)] *)
Definition open_dir (path : string) : XM bool :=
  ok ← gets (fun s => plat_open_dir (st_trace s) path);
  emit (EvOpen FdDir path ok);;
  mret ok.

(** [read(in_fd, buf, size)] with [rest] ahead: some of it, at least one byte
    unless the file is at its end. *)
Definition read_in (size : nat) (rest : list Z) : XM (option (list Z)) :=
  got ← gets (fun s => (fun n => take (Nat.min (S n) size) rest) <$> plat_read (st_trace s));
  emit (EvRead got);;
  mret got.

(** [write(out_fd, p, n)]: how many of the bytes [p] were accepted. *)
Definition write_out (p : list Z) : XM Z :=
  w ← gets (fun s => Z.min (plat_write (st_trace s)) (Z.of_nat (length p)));
  emit (EvWrite (take (Z.to_nat w) p));;
  mret w.

Definition fchmod : XM bool :=
  ok ← gets (fun s => plat_fchmod (st_trace s)); emit EvFchmod;; mret ok.

Definition fsync (fd : copy_fd) : XM bool :=
  ok ← gets (fun s => plat_fsync (st_trace s)); emit (EvFsync fd);; mret ok.

Definition close_fd (fd : copy_fd) : XM unit := emit (EvClose fd).

(** ** The copy *)

(** [while (n > 0)]: every turn writes at least one byte. *)
Fixpoint write_loop (turns : nat) (p : list Z) : XM bool :=
  match p with
  | [] => mret true
  | _ =>
      match turns with
      | O => out_of_fuel
      | S turns' =>
          w ← write_out p;
          if w <=? 0 then mret false else write_loop turns' (drop (Z.to_nat w) p)
      end
  end.

(** [while ((n = read(in_fd, buf, sizeof(buf))) > 0)]: every turn but the last
    reads at least one byte. *)
Fixpoint read_loop (turns : nat) (rest : list Z) : XM bool :=
  match turns with
  | O => out_of_fuel
  | S turns' =>
      got ← read_in (Z.to_nat 8192) rest;
      match got with
      | None => mret false
      | Some [] => mret true
      | Some buf =>
          ok ← write_loop (length buf) buf;
          if ok : bool then read_loop turns' (drop (length buf) rest) else mret false
      end
  end.

(** The directory of the copy is written to the disk too, where that works. *)
Definition sync_dir (tmpl : string) : XM unit :=
  match before_last_slash tmpl with
  | None => mret tt
  | Some dir =>
      if (String.length dir <? 512)%nat then
        ok ← open_dir dir;
        if ok : bool then fsync FdDir;; close_fd FdDir else mret tt
      else mret tt
  end.

(** From the open source to [out]. *)
Definition copy_bytes (tmpl : string) (bytes : list Z) : XM bool :=
  ok ← read_loop (S (length bytes)) bytes;
  if negb ok then mret false
  else
    ok ← fchmod;
    if negb ok then mret false
    else
      ok ← fsync FdOut;
      if negb ok then mret false
      else sync_dir tmpl;; mret true.

(** The name of the copy, or [None] for -1. *)
Definition copy_one (src tmpl_in : string) : XM (option string) :=
  if (512 <=? String.length tmpl_in)%nat then mret None
  else
    name ← mkstemps tmpl_in;
    match name with
    | None => mret None
    | Some tmpl =>
        content ← open_in src;
        ok ← (match content with
              | None => mret false
              | Some bytes => ok ← copy_bytes tmpl bytes; close_fd FdIn;; mret ok
              end);
        close_fd FdOut;;
        if ok : bool then mret (Some tmpl) else emit (EvUnlink tmpl);; mret None
    end.

Definition copy_fallbacks (src : string) : XM (option string) :=
  r ← copy_one src "/tmp/xylem-XXXXXX.so";
  match r with
  | Some tmp => mret (Some tmp)
  | None => copy_one src "./tmp/xylem-XXXXXX.so"
  end.

Definition copy_to_tmp (src : string) : XM (option string) :=
  match before_last_slash src with
  | Some dir =>
      if (String.length dir + 32 <? 512)%nat then
        r ← copy_one src (String.append dir "/.xylem-XXXXXX.so");
        match r with
        | Some tmp => mret (Some tmp)
        | None => copy_fallbacks src
        end
      else copy_fallbacks src
  | None => copy_fallbacks src
  end.

(** ** What a trace of calls has done

    The new files with their bytes, the one that is written to, and the open
    descriptors. *)

Record copied := Copied {
  cp_files : gmap string (list Z);
  cp_out : option string;
  cp_fds : list copy_fd
}.

Definition append_to (name : string) (bs : list Z) (fs : gmap string (list Z)) : gmap string (list Z) :=
  <[name := default [] (fs !! name) ++ bs]> fs.

Definition without (fd : copy_fd) (fds : list copy_fd) : list copy_fd :=
  filter (fun x => x <> fd) fds.

Definition copied_step (c : copied) (ev : ext_event) : copied :=
  match ev with
  | EvMkstemps (Some name) => Copied (<[name := []]> (cp_files c)) (Some name) (FdOut :: cp_fds c)
  | EvOpen fd _ true => Copied (cp_files c) (cp_out c) (fd :: cp_fds c)
  | EvWrite bs =>
      match cp_out c with
      | Some name => Copied (append_to name bs (cp_files c)) (cp_out c) (cp_fds c)
      | None => c
      end
  | EvClose fd => Copied (cp_files c) (cp_out c) (without fd (cp_fds c))
  | EvUnlink name => Copied (delete name (cp_files c)) (cp_out c) (cp_fds c)
  | _ => c
  end.

Definition replay (evs : list ext_event) (c : copied) : copied := foldl copied_step c evs.

Definition traced (evs : list ext_event) (s : state) : state :=
  set_st_trace (st_trace s ++ evs) s.

Lemma traced_nil s : traced [] s = s.
Proof. unfold traced. rewrite app_nil_r. by destruct s. Qed.

Lemma traced_traced evs1 evs2 s : traced evs2 (traced evs1 s) = traced (evs1 ++ evs2) s.
Proof. unfold traced. cbn. by rewrite app_assoc. Qed.

Lemma replay_app evs1 evs2 c : replay (evs1 ++ evs2) c = replay evs2 (replay evs1 c).
Proof. apply foldl_app. Qed.

(** [m] only makes calls, and [evs] are these. *)
Definition calls {A} (m : XM A) (s : state) (a : A) (evs : list ext_event) : Prop :=
  m s = Ok (a, traced evs s).

Lemma calls_ret {A} (a : A) s : calls (mret a) s a [].
Proof. unfold calls. by rewrite traced_nil. Qed.

Lemma calls_bind {A B} (m : XM A) (k : A -> XM B) s a b evs1 evs2 :
  calls m s a evs1 -> calls (k a) (traced evs1 s) b evs2 -> calls (m ≫= k) s b (evs1 ++ evs2).
Proof. unfold calls. intros H1 H2. rewrite (bind_Ok _ _ _ _ _ H1), H2. by rewrite traced_traced. Qed.

(** Nothing is called after [m]. *)
Lemma calls_last {A B} (m : XM A) (k : A -> XM B) s a b evs :
  calls m s a evs -> k a = mret b -> calls (m ≫= k) s b evs.
Proof.
  intros H E. rewrite <- (app_nil_r evs). eapply calls_bind; [exact H|]. rewrite E. apply calls_ret.
Qed.

Lemma calls_emit ev s : calls (emit ev) s tt [ev].
Proof. done. Qed.

(** A call whose answer depends on the trace. *)
Lemma calls_ask {A} (f : state -> A) (ev : A -> ext_event) s :
  calls (a ← gets f; emit (ev a);; mret a) s (f s) [ev (f s)].
Proof. done. Qed.

(** [evs] extends the file that is written, whose bytes are [old], by [new]. *)
Definition extends (evs : list ext_event) (new : list Z) : Prop :=
  forall name old fs fds,
    replay evs (Copied (<[name := old]> fs) (Some name) fds) =
      Copied (<[name := old ++ new]> fs) (Some name) fds.

Lemma extends_nil : extends [] [].
Proof. intros name old fs fds. by rewrite app_nil_r. Qed.

Lemma extends_app evs1 evs2 new1 new2 :
  extends evs1 new1 -> extends evs2 new2 -> extends (evs1 ++ evs2) (new1 ++ new2).
Proof. intros H1 H2 name old fs fds. by rewrite replay_app, H1, H2, app_assoc. Qed.

Lemma extends_write bs : extends [EvWrite bs] bs.
Proof.
  intros name old fs fds. cbn. unfold append_to. by rewrite lookup_insert_eq, insert_insert_eq.
Qed.

Lemma extends_read got evs new : extends evs new -> extends (EvRead got :: evs) new.
Proof. intros H. exact H. Qed.

Lemma write_loop_correct turns p s :
  (length p <= turns)%nat ->
  exists ok evs new, calls (write_loop turns p) s ok evs /\ extends evs new /\ (ok = true -> new = p).
Proof.
  revert p s. induction turns as [|turns IH]; intros [|b p] s Hn; cbn in Hn; try lia;
    try (by exists true, [], []; split_and!; [apply calls_ret|apply extends_nil|]).
  cbn [write_loop].
  set (w := Z.min (plat_write (st_trace s)) (Z.of_nat (length (b :: p)))).
  set (ev := EvWrite (take (Z.to_nat w) (b :: p))).
  assert (calls (write_out (b :: p)) s w [ev]) as Hw by apply calls_ask.
  destruct (w <=? 0) eqn:E.
  - exists false, [ev], (take (Z.to_nat w) (b :: p)). split_and!; [|apply extends_write|done].
    eapply calls_last; [exact Hw|]. by rewrite E.
  - apply Z.leb_gt in E.
    destruct (IH (drop (Z.to_nat w) (b :: p)) (traced [ev] s)) as (ok & evs & new & Hc & He & Hok).
    { rewrite length_drop. cbn [length]. lia. }
    exists ok, ([ev] ++ evs), (take (Z.to_nat w) (b :: p) ++ new). split_and!.
    + eapply calls_bind; [exact Hw|]. by rewrite (proj2 (Z.leb_gt _ _) E).
    + apply extends_app; [apply extends_write|done].
    + intros ->. by rewrite (Hok eq_refl), take_drop.
Qed.

Lemma read_in_correct size rest s :
  (0 < size)%nat ->
  exists got, calls (read_in size rest) s got [EvRead got] /\
    match got with
    | Some [] => rest = []
    | Some buf => rest = buf ++ drop (length buf) rest /\ (length buf <= length rest)%nat
    | None => True
    end.
Proof.
  intros Hs. exists ((fun n => take (Nat.min (S n) size) rest) <$> plat_read (st_trace s)).
  split; [apply (calls_ask (fun s => _ <$> plat_read (st_trace s)))|].
  destruct (plat_read _) as [n|]; [|done].
  cbn [fmap option_fmap option_map]. assert (0 < Nat.min (S n) size)%nat as Hk by lia.
  revert Hk. generalize (Nat.min (S n) size). intros k Hk.
  pose proof (length_take rest k) as El. destruct (take k rest) as [|b buf] eqn:E.
  - destruct rest; [done|]. cbn [length] in El. lia.
  - split; [|lia]. rewrite <- (take_drop k rest) at 1. rewrite E, El. f_equal.
    destruct (decide (k <= length rest)%nat); [by rewrite Nat.min_l|].
    by rewrite Nat.min_r, !drop_ge by lia.
Qed.

Lemma read_loop_correct turns rest s :
  (length rest < turns)%nat ->
  exists ok evs new, calls (read_loop turns rest) s ok evs /\ extends evs new /\ (ok = true -> new = rest).
Proof.
  revert rest s. induction turns as [|turns IH]; intros rest s Hn; [lia|]. cbn [read_loop].
  destruct (read_in_correct (Z.to_nat 8192) rest s ltac:(lia)) as (got & Hr & Hgot).
  destruct got as [[|b buf]|].
  - exists true, [EvRead (Some [])], []. split_and!; [by eapply calls_last|apply extends_nil|done].
  - destruct Hgot as [Erest Hlen].
    destruct (write_loop_correct (length (b :: buf)) (b :: buf) (traced [EvRead (Some (b :: buf))] s))
      as (ok & evs & new & Hc & He & Hok); [done|]. destruct ok.
    + destruct (IH (drop (length (b :: buf)) rest) (traced evs (traced [EvRead (Some (b :: buf))] s)))
        as (ok & evs2 & new2 & Hc2 & He2 & Hok2); [rewrite length_drop; cbn [length] in *; lia|].
      exists ok, ([EvRead (Some (b :: buf))] ++ (evs ++ evs2)), (new ++ new2). split_and!.
      * eapply calls_bind; [exact Hr|]. by eapply calls_bind.
      * by apply extends_read, extends_app.
      * intros ->. by rewrite (Hok eq_refl), (Hok2 eq_refl).
    + exists false, ([EvRead (Some (b :: buf))] ++ evs), new. split_and!; [|by apply extends_read|done].
      eapply calls_bind; [exact Hr|]. by eapply calls_last.
  - exists false, [EvRead None], []. split_and!; [by eapply calls_last|apply extends_nil|done].
Qed.

Lemma without_fd fd fds : (fd ∉ fds) -> without fd (fd :: fds) = fds.
Proof.
  intros H. unfold without. rewrite filter_cons_False by tauto. induction fds as [|x fds IH]; [done|].
  apply not_elem_of_cons in H as [? ?]. rewrite filter_cons_True by done. by rewrite IH.
Qed.

(** Calls that leave the files alone. *)
Lemma calls_fchmod s : exists ok, calls fchmod s ok [EvFchmod].
Proof. eexists. apply (calls_ask (fun s => plat_fchmod (st_trace s))). Qed.

Lemma calls_fsync fd s : exists ok, calls (fsync fd) s ok [EvFsync fd].
Proof. eexists. apply (calls_ask (fun s => plat_fsync (st_trace s))). Qed.

Lemma extends_fsync evs fd : extends evs [] -> extends (EvFsync fd :: evs) [].
Proof. intros H. exact H. Qed.

Lemma sync_dir_correct tmpl s :
  exists evs, calls (sync_dir tmpl) s tt evs /\
    forall fs out fds, (FdDir ∉ fds) -> replay evs (Copied fs out fds) = Copied fs out fds.
Proof.
  unfold sync_dir. destruct (before_last_slash tmpl) as [dir|]; [|by exists []; split; [apply calls_ret|]].
  destruct (_ <? _)%nat; [|by exists []; split; [apply calls_ret|]].
  set (ok := plat_open_dir (st_trace s) dir).
  assert (calls (open_dir dir) s ok [EvOpen FdDir dir ok]) as Ho by apply (calls_ask (fun s => plat_open_dir (st_trace s) dir)).
  destruct ok.
  - destruct (calls_fsync FdDir (traced [EvOpen FdDir dir true] s)) as [b Hb].
    eexists. split; [eapply calls_bind; [exact Ho|]; eapply calls_bind; [exact Hb|apply calls_emit]|].
    intros fs out fds Hfd. unfold replay. cbn [app foldl copied_step cp_files cp_out cp_fds]. f_equal.
    by apply without_fd.
  - eexists. split; [by eapply calls_last|done].
Qed.

(** A descriptor list that [copy_bytes] does not change. *)
Lemma copy_bytes_correct tmpl bytes s :
  exists ok evs, calls (copy_bytes tmpl bytes) s ok evs /\
    forall name old fs fds, (FdDir ∉ fds) -> exists new,
      replay evs (Copied (<[name := old]> fs) (Some name) fds) =
        Copied (<[name := old ++ new]> fs) (Some name) fds /\ (ok = true -> new = bytes).
Proof.
  destruct (read_loop_correct (S (length bytes)) bytes s ltac:(lia)) as (ok & evs & new & Hc & He & Hok).
  unfold copy_bytes. destruct ok.
  2: { exists false, evs. split; [by eapply calls_last|]. intros name old fs fds _. exists new. by rewrite He. }
  destruct (calls_fchmod (traced evs s)) as [[] Hm].
  2: { exists false, (evs ++ [EvFchmod]). split; [eapply calls_bind; [exact Hc|by eapply calls_last]|].
       intros name old fs fds _. exists new. by rewrite replay_app, He. }
  destruct (calls_fsync FdOut (traced [EvFchmod] (traced evs s))) as [[] Hs].
  2: { exists false, (evs ++ [EvFchmod] ++ [EvFsync FdOut]). split.
       - eapply calls_bind; [exact Hc|]. eapply calls_bind; [exact Hm|]. by eapply calls_last.
       - intros name old fs fds _. exists new. by rewrite replay_app, He. }
  destruct (sync_dir_correct tmpl (traced [EvFsync FdOut] (traced [EvFchmod] (traced evs s)))) as (evs' & Hd & Hr).
  exists true, (evs ++ [EvFchmod] ++ [EvFsync FdOut] ++ evs'). split.
  - eapply calls_bind; [exact Hc|]. eapply calls_bind; [exact Hm|]. eapply calls_bind; [exact Hs|].
    by eapply calls_last.
  - intros name old fs fds Hfd. exists new. rewrite replay_app, He. split; [by apply Hr|exact Hok].
Qed.

(** The answer [r] to a request for a copy of [src], and the calls [evs]: all
    descriptors are closed; there is one new file, with the bytes of [src], or
    there is none. *)
Definition copy_outcome (src : string) (s : state) (r : option string) (evs : list ext_event) : Prop :=
  forall out, exists out',
    match r with
    | Some name => exists tr bytes, tr `prefix_of` (st_trace s ++ evs) /\
        plat_open_file tr src = Some bytes /\
        replay evs (Copied ∅ out []) = Copied {[name := bytes]} out' []
    | None => replay evs (Copied ∅ out []) = Copied ∅ out' []
    end.

Lemma copy_outcome_then src s r evs1 evs2 :
  copy_outcome src s None evs1 -> copy_outcome src (traced evs1 s) r evs2 ->
  copy_outcome src s r (evs1 ++ evs2).
Proof.
  intros H1 H2 out. destruct (H1 out) as [out1 E1]. destruct (H2 out1) as [out2 E2]. exists out2.
  rewrite replay_app, E1. destruct r as [name|]; [|done]. destruct E2 as (tr & bytes & Hp & Ho & E).
  exists tr, bytes. split; [|done]. by rewrite app_assoc.
Qed.

Lemma copy_one_correct src tmpl s :
  exists r evs, calls (copy_one src tmpl) s r evs /\ copy_outcome src s r evs.
Proof.
  unfold copy_one. destruct (_ <=? _)%nat.
  { exists None, []. split; [apply calls_ret|]. intros out. by exists out. }
  set (made := plat_mkstemps (st_trace s) tmpl). set (ev0 := EvMkstemps made).
  assert (calls (mkstemps tmpl) s made [ev0]) as Hmk by done.
  destruct made as [name|].
  2: { exists None, [ev0]. split; [by eapply calls_last|]. intros out. by exists out. }
  set (content := plat_open_file (st_trace (traced [ev0] s)) src).
  set (ev1 := EvOpen FdIn src (bool_decide (is_Some content))).
  assert (calls (open_in src) (traced [ev0] s) content [ev1]) as Hop by done.
  destruct content as [bytes|] eqn:Ec.
  2: { exists None, ([ev0] ++ [ev1] ++ [] ++ [EvClose FdOut] ++ [EvUnlink name]). split.
       - eapply calls_bind; [exact Hmk|]. eapply calls_bind; [exact Hop|].
         eapply calls_bind; [apply calls_ret|]. eapply calls_bind; [apply calls_emit|].
         by eapply calls_last.
       - intros out. exists (Some name). cbn -[insert delete]. by rewrite delete_insert_eq. }
  destruct (copy_bytes_correct name bytes (traced [ev1] (traced [ev0] s))) as (ok & evs & Hc & Hr).
  destruct (Hr name [] ∅ [FdIn; FdOut] ltac:(by intros [?|[?|[]%elem_of_nil]%elem_of_cons]%elem_of_cons))
    as (new & Er & Hok).
  exists (if ok then Some name else None),
    ([ev0] ++ [ev1] ++ (evs ++ [EvClose FdIn]) ++ [EvClose FdOut] ++ (if ok then [] else [EvUnlink name])).
  split.
  - eapply calls_bind; [exact Hmk|]. eapply calls_bind; [exact Hop|]. eapply calls_bind.
    { eapply calls_bind; [exact Hc|]. eapply calls_last; [apply calls_emit|done]. }
    eapply calls_bind; [apply calls_emit|]. destruct ok; [apply calls_ret|]. by eapply calls_last.
  - intros out. exists (Some name).
    assert (replay [ev1] (replay [ev0] (Copied ∅ out [])) = Copied (<[name := []]> ∅) (Some name) [FdIn; FdOut])
      as E0 by done.
    rewrite !replay_app, E0, Er. destruct ok.
    + rewrite (Hok eq_refl). exists (st_trace s ++ [ev0]), bytes. split_and!; [|done|done].
      apply prefix_app, prefix_app_r. done.
    + cbn -[insert delete]. by rewrite delete_insert_eq.
Qed.


Lemma copy_fallbacks_correct src s :
  exists r evs, calls (copy_fallbacks src) s r evs /\ copy_outcome src s r evs.
Proof.
  unfold copy_fallbacks. destruct (copy_one_correct src "/tmp/xylem-XXXXXX.so" s) as ([name|] & evs & Hc & Ho).
  - exists (Some name), evs. split; [by eapply calls_last|done].
  - destruct (copy_one_correct src "./tmp/xylem-XXXXXX.so" (traced evs s)) as (r & evs2 & Hc2 & Ho2).
    exists r, (evs ++ evs2). split; [by eapply calls_bind|by apply copy_outcome_then].
Qed.

(** C19: a copy for a reload ends, makes only system calls and leaves nothing open:
    it answers with the name of the one new file, which holds the bytes of the
    module's file however many reads and writes they took, or it has made no
    file that is still there. *)
Theorem copy_to_tmp_complete src s :
  exists r evs, copy_to_tmp src s = Ok (r, traced evs s) /\ copy_outcome src s r evs.
Proof.
  change (exists r evs, calls (copy_to_tmp src) s r evs /\ copy_outcome src s r evs). unfold copy_to_tmp.
  destruct (before_last_slash src) as [dir|]; [|apply copy_fallbacks_correct].
  destruct (_ <? _)%nat; [|apply copy_fallbacks_correct].
  destruct (copy_one_correct src (String.append dir "/.xylem-XXXXXX.so") s) as ([name|] & evs & Hc & Ho).
  - exists (Some name), evs. split; [by eapply calls_last|done].
  - destruct (copy_fallbacks_correct src (traced evs s)) as (r & evs2 & Hc2 & Ho2).
    exists r, (evs ++ evs2). split; [by eapply calls_bind|by apply copy_outcome_then].
Qed.

(** ** The copy depends on nothing but the calls made before *)

Definition traced_result {A} (r : res (A * list ext_event)) (s : state) : res (A * state) :=
  match r with Ok (a, evs) => Ok (a, traced evs s) | Undef => Undef | OutOfFuel => OutOfFuel end.

Definition tracing {A} (m : XM A) : Prop :=
  forall tr, exists r, forall s, st_trace s = tr -> m s = traced_result r s.

Lemma tracing_ret {A} (a : A) : tracing (mret a).
Proof. intros tr. exists (Ok (a, [])). intros s _. apply calls_ret. Qed.

Lemma tracing_fuel {A} : tracing (A := A) out_of_fuel.
Proof. intros tr. by exists OutOfFuel. Qed.

Lemma tracing_bind {A B} (m : XM A) (k : A -> XM B) :
  tracing m -> (forall a, tracing (k a)) -> tracing (m ≫= k).
Proof.
  intros Hm Hk tr. destruct (Hm tr) as ([[a evs1]| |] & H1).
  2: { exists Undef. intros s Hs. unfold mbind, M_bind. by rewrite H1. }
  2: { exists OutOfFuel. intros s Hs. unfold mbind, M_bind. by rewrite H1. }
  destruct (Hk a (tr ++ evs1)) as (r & H2).
  exists (match r with Ok (b, evs2) => Ok (b, evs1 ++ evs2) | Undef => Undef | OutOfFuel => OutOfFuel end).
  intros s <-. rewrite (bind_Ok _ _ _ _ _ (H1 s eq_refl)), H2 by done.
  destruct r as [[b evs2]| |]; [|done..]. cbn. by rewrite traced_traced.
Qed.

(** A call whose answer is a function of the trace. *)
Lemma tracing_ask {A} (f : list ext_event -> A) (ev : A -> ext_event) :
  tracing (a ← gets (fun s => f (st_trace s)); emit (ev a);; mret a).
Proof. intros tr. exists (Ok (f tr, [ev (f tr)])). by intros s <-. Qed.

Lemma tracing_emit ev : tracing (emit ev).
Proof. intros tr. exists (Ok (tt, [ev])). by intros s _. Qed.

Ltac tracing :=
  repeat match goal with
  | |- tracing (mret _) => apply tracing_ret
  | |- tracing out_of_fuel => apply tracing_fuel
  | |- tracing (emit _) => apply tracing_emit
  | |- tracing (a ← gets _; emit _;; mret a) => apply (tracing_ask (fun _ => _))
  | |- tracing (_ ≫= _) => apply tracing_bind; [|intros ?]
  | |- tracing (match ?x with _ => _ end) => destruct x
  end.

Lemma tracing_write_loop turns p : tracing (write_loop turns p).
Proof.
  revert p. induction turns as [|turns IH]; intros [|b p]; cbn [write_loop]; tracing; try apply IH.
  apply (tracing_ask (fun tr => Z.min (plat_write tr) _)).
Qed.

Lemma tracing_read_loop turns rest : tracing (read_loop turns rest).
Proof.
  revert rest. induction turns as [|turns IH]; intros rest; cbn [read_loop]; tracing; try apply IH.
  - apply (tracing_ask (fun tr => _ <$> plat_read tr)).
  - apply tracing_write_loop.
Qed.

Lemma tracing_sync_dir tmpl : tracing (sync_dir tmpl).
Proof.
  unfold sync_dir. tracing; [apply (tracing_ask (fun tr => plat_open_dir tr _))
    |apply (tracing_ask (fun tr => plat_fsync tr))|apply tracing_emit].
Qed.

Lemma tracing_copy_bytes tmpl bytes : tracing (copy_bytes tmpl bytes).
Proof.
  unfold copy_bytes. tracing; [apply tracing_read_loop|apply (tracing_ask (fun tr => plat_fchmod tr))
    |apply (tracing_ask (fun tr => plat_fsync tr))|apply tracing_sync_dir].
Qed.

Lemma tracing_copy_one src tmpl : tracing (copy_one src tmpl).
Proof.
  unfold copy_one. tracing; [apply (tracing_ask (fun tr => plat_mkstemps tr _))
    |apply (tracing_ask (fun tr => plat_open_file tr _))|apply tracing_copy_bytes|apply tracing_emit..].
Qed.

Lemma tracing_copy_to_tmp src : tracing (copy_to_tmp src).
Proof. unfold copy_to_tmp, copy_fallbacks. tracing; apply tracing_copy_one. Qed.

Lemma copy_to_tmp_trace src s s' r evs :
  st_trace s' = st_trace s -> copy_to_tmp src s = Ok (r, traced evs s) ->
  copy_to_tmp src s' = Ok (r, traced evs s').
Proof.
  intros E H. destruct (tracing_copy_to_tmp src (st_trace s)) as (x & Hx).
  rewrite Hx in H by done. rewrite Hx by done. destruct x as [[a evs']| |]; try done.
  cbn in *. injection H as -> H. apply app_inv_head in H. by subst.
Qed.

End CopyFile.
