(* ===== verification/Load.v ===== *)
(** * Loading a module

    The load transaction of src/libxylem.c (its mod_load functions), [_mod_run],
    [_xy_init], [_mod_load] and [xy_load] of src/libxylem-module.c. *)

From S2P Require Import Prelude QMap Status State Machine ModKey Linked Region RegionTree ModList.
From S2P Require Import Runtime Paths Identity FnCache RegionApi Deny Claim CopyFile.
From stdpp Require Import options.
Local Open Scope Z_scope.

(** [xy_load_txn_t] *)
Record load_txn := LoadTxn {
  tx_lookup : lookup_result;
  tx_handle : option loc;
  tx_stable_fname : option string;
  tx_stable_key : option string;
  tx_interned_load_path : option loc;
  tx_tmp_load_path : option string;
  tx_mod_entry : option loc;
  tx_inherited_reg : option loc;
  tx_inherited_region_id : Z;
  tx_prev_region_id : Z;
  tx_prev_region_entry : option loc;
  tx_published_entry : bool;
  tx_context_active : bool
}.

Definition eta_load_txn (t : load_txn) : load_txn :=
  LoadTxn (tx_lookup t) (tx_handle t) (tx_stable_fname t) (tx_stable_key t)
    (tx_interned_load_path t) (tx_tmp_load_path t) (tx_mod_entry t) (tx_inherited_reg t)
    (tx_inherited_region_id t) (tx_prev_region_id t) (tx_prev_region_entry t)
    (tx_published_entry t) (tx_context_active t).

Definition set_tx_lookup := ltac:(setter eta_load_txn tx_lookup).
Definition set_tx_handle := ltac:(setter eta_load_txn tx_handle).
Definition set_tx_stable_fname := ltac:(setter eta_load_txn tx_stable_fname).
Definition set_tx_stable_key := ltac:(setter eta_load_txn tx_stable_key).
Definition set_tx_interned_load_path := ltac:(setter eta_load_txn tx_interned_load_path).
Definition set_tx_tmp_load_path := ltac:(setter eta_load_txn tx_tmp_load_path).
Definition set_tx_mod_entry := ltac:(setter eta_load_txn tx_mod_entry).
Definition set_tx_inherited_reg := ltac:(setter eta_load_txn tx_inherited_reg).
Definition set_tx_prev_region_id := ltac:(setter eta_load_txn tx_prev_region_id).
Definition set_tx_prev_region_entry := ltac:(setter eta_load_txn tx_prev_region_entry).
Definition set_tx_published_entry := ltac:(setter eta_load_txn tx_published_entry).
Definition set_tx_context_active := ltac:(setter eta_load_txn tx_context_active).

Definition lookup_zero : lookup_result := LookupResult None None None 0.

(** [{ .inherited_region_id = id }] *)
Definition txn_zero (id : Z) : load_txn :=
  LoadTxn lookup_zero None None None None None None None id 0 None false false.

(** [module_lookup_result_free] *)
Definition module_lookup_result_free (l : lookup_result) : lookup_result :=
  LookupResult (lk_entry l) None None (lk_err l).
Definition free_lookup (tx : load_txn) : load_txn :=
  set_tx_lookup (module_lookup_result_free (tx_lookup tx)) tx.

Section Load.
Context {Q : QMapOps} {P : Platform}.

(** *** The loader *)

(** The static data of an image comes to life when it is first mapped; an
    image stays mapped (RTLD_NODELETE). *)
Definition map_image (h : loc) : XM unit :=
  modify (fun s =>
    set_st_adp (st_adp s ∪ list_to_map (plat_image_adp h))
      (set_st_ctx (st_ctx s ∪ list_to_map (plat_image_ctx h)) s)).

Definition dlopen (exec : executor) (path : string) : XM (option loc) :=
  tr ← gets st_trace;
  emit (EvDlopen path);;
  match plat_dlopen tr path with
  | None => mret None
  | Some (h, ctors) =>
      map_image h;;
      (if ctors : bool then exec (CbCtor h) else mret []);;
      mret (Some h)
  end.

Definition dlclose (h : option loc) : XM unit :=
  h ← must h; emit (EvDlclose h).

(** [if (path) unlink(path);] *)
Definition unlink_opt (path : option string) : XM unit :=
  match path with Some p => emit (EvUnlink p) | None => mret tt end.

(** *** The steps of the transaction *)

Definition mod_load_open_handle (exec : executor) (tx : load_txn) (fname : string)
    : XM (Z * load_txn) :=
  lookup ← module_lookup_from_fname fname (tx_inherited_region_id tx);
  let tx := set_tx_lookup lookup tx in
  if negb (lk_err lookup =? XY_OK) then mret (lk_err lookup, tx)
  else
    match lk_load_path lookup with
    | None => mret (XY_ERR_INVALID, tx)
    | Some path =>
        reloading ← gets st_reloading;
        tmp ← (if reloading : bool then copy_to_tmp path else mret None);
        match tmp with
        | Some tmp =>
            h ← dlopen exec tmp;
            match h with
            | None => emit (EvUnlink tmp);; mret (XY_ERR_NOTFOUND, free_lookup tx)
            | Some h => mret (XY_OK, set_tx_tmp_load_path (Some tmp) (set_tx_handle (Some h) tx))
            end
        | None =>
            h ← dlopen exec path;
            match h with
            | None => mret (XY_ERR_NOTFOUND, free_lookup tx)
            | Some h => mret (XY_OK, set_tx_handle (Some h) tx)
            end
        end
    end.

(** [true]: an entry of the same identity took one more reference. *)
Definition mod_load_try_reuse_existing (tx : load_txn) : XM bool :=
  match lk_entry (tx_lookup tx) with
  | None => mret false
  | Some existing =>
      upd_module existing (fun m => set_m_refcount (m_refcount m + 1) m);;
      dlclose (tx_handle tx);;
      unlink_opt (tx_tmp_load_path tx);;
      mret true
  end.

(** [calloc(1, sizeof(xy_mod_entry_t))] *)
Definition mod_entry_zero : mod_entry :=
  ModEntry None None [] None None None None 0 None 0 None [] "" None.

Definition new_entry (tx : load_txn) (interned : loc) (key : string) (loading : option loc)
    : mod_entry :=
  set_m_handle (tx_handle tx) (set_m_region_id (tx_inherited_region_id tx)
    (set_m_refcount 1 (set_m_parent_entry loading (set_m_mod_key key
      (set_m_load_path (Some interned) (set_m_tmp_load_path (tx_tmp_load_path tx)
        mod_entry_zero)))))).

Definition mod_load_alloc_entry (tx : load_txn) (fname : string) : XM (Z * load_txn) :=
  ok ← try_alloc;
  let tx := if ok : bool then set_tx_stable_fname (Some fname) tx else tx in
  match tx_stable_fname tx, lk_key (tx_lookup tx) with
  | Some _, Some key =>
      interned ← module_path_intern (lk_load_path (tx_lookup tx));
      let tx := set_tx_interned_load_path interned (free_lookup (set_tx_stable_key (Some key) tx)) in
      match interned with
      | None => mret (XY_ERR_INVALID, tx)
      | Some interned =>
          ok ← try_alloc;
          if ok : bool then
            l ← fresh_loc;
            loading ← gets (fun s => t_loading_mod (st_tls s));
            put_module l (new_entry tx interned key loading);;
            mret (XY_OK, set_tx_tmp_load_path None (set_tx_mod_entry (Some l) tx))
          else mret (XY_ERR_INVALID, tx)
      end
  | _, _ => mret (XY_ERR_INVALID, tx)
  end.

Definition mod_load_publish_entry (tx : load_txn) : XM (Z * load_txn) :=
  me ← must (tx_mod_entry tx);
  key ← must (tx_stable_key tx);
  hd ← handle rt_mod_hd;
  upd_rt (set_rt_mod_hd (Some (qput hd key me)));;
  m ← module_at me;
  ix ← handle rt_mod_by_region_hd;
  upd_rt (set_rt_mod_by_region_hd (Some (qmput ix (m_region_id m) me)));;
  mret (XY_OK, set_tx_published_entry true tx).

(** The function table of a module; [err] and [strerror] are not filled in. *)
Definition fill_module_table (fname : option string) (region_id : Z) (x : xy_t) : xy_t :=
  let x := set_x_call (Some Api_call) x in
  let x := set_x_areg (Some Api_areg) x in
  let x := set_x_load (Some Api_load) x in
  let x := set_x_last (Some Api_last) x in
  let x := set_x_shutdown (Some Api_shutdown) x in
  let x := set_x_module_path fname x in
  let x := set_x_region_id region_id x in
  let x := set_x_deny (Some Api_deny) x in
  let x := set_x_require_claim (Some Api_require_claim) x in
  let x := set_x_region_each (Some Api_region_each) x in
  let x := set_x_with_region (Some Api_with_region) x in
  let x := set_x_current_region (Some Api_current_region) x in
  let x := set_x_unload (Some Api_unload) x in
  set_x_reload (Some Api_reload) x.

Definition _xy_init (ctx : loc) (fname : option string) (region_id : Z) : XM unit :=
  upd_ctx ctx (fill_module_table fname region_id).

Definition mod_load_bind_xy (tx : load_txn) : XM (Z * load_txn) :=
  let ctx := match plat_dlsym (tx_handle tx) "get_xy_ptr" with
             | Some get_xy => plat_get_xy get_xy
             | None => None
             end in
  pending ← gets (fun s => t_pending_ctx (st_tls s));
  let ctx := match ctx with Some c => Some c | None => pending end in
  upd_tls (set_t_pending_ctx None);;
  match ctx with
  | None => mret (XY_OK, tx)
  | Some ctx =>
      _xy_init ctx (tx_stable_fname tx) (tx_inherited_region_id tx);;
      me ← must (tx_mod_entry tx);
      upd_module me (set_m_ctx (Some ctx));;
      mret (XY_OK, tx)
  end.

Definition mod_load_enter_context (tx : load_txn) : XM (Z * load_txn) :=
  reg ← region_lookup (tx_inherited_region_id tx);
  prev_id ← gets (fun s => t_region_id (st_tls s));
  prev_entry ← gets (fun s => t_region_entry (st_tls s));
  set_current_region (tx_inherited_region_id tx) reg;;
  mret (XY_OK, set_tx_context_active true (set_tx_prev_region_entry prev_entry
    (set_tx_prev_region_id prev_id (set_tx_inherited_reg reg tx)))).

Definition mod_load_restore_context (tx : load_txn) : XM load_txn :=
  if tx_context_active tx then
    set_current_region (tx_prev_region_id tx) (tx_prev_region_entry tx);;
    mret (set_tx_context_active false tx)
  else mret tx.

Definition mod_load_claim_if_needed (exec : executor) (tx : load_txn) : XM Z :=
  let claim_sym := plat_dlsym (tx_handle tx) "xy_claim" in
  match tx_inherited_reg tx with
  | None => mret XY_OK
  | Some reg =>
      r ← region_at reg;
      match claim_sym with
      | None => mret (if r_require_claim r then XY_ERR_EPERM else XY_OK)
      | Some sym =>
          if negb (bool_decide (is_Some (r_claim_handler r))) && negb (r_require_claim r)
          then mret XY_OK
          else _xy_claim_for_load exec (tx_stable_fname tx) (tx_inherited_region_id tx)
                 (plat_claim_byte sym)
      end
  end.

Definition _mod_run (exec : executor) (sl : option loc) (symbol : string) : XM Z :=
  match plat_dlsym sl symbol with
  | None => mret XY_ERR_NOTFOUND
  | Some cb => exec (CbInstall cb);; mret XY_OK
  end.

Definition mod_load_run_install (exec : executor) (tx : load_txn) : XM Z :=
  prev ← gets (fun s => t_loading_mod (st_tls s));
  upd_tls (set_t_loading_mod (tx_mod_entry tx));;
  ret ← _mod_run exec (tx_handle tx) "xy_install";
  upd_tls (set_t_loading_mod prev);;
  mret ret.

(** *** Giving up and freeing *)

(** The region state of a module: its clean-up function runs first. *)
Definition module_cleanup_region_state (exec : executor) (entry : loc) : XM unit :=
  m ← module_at entry;
  match m_region_state m with
  | None => mret tt
  | Some st =>
      (match plat_dlsym (m_handle m) "xy_region_cleanup" with
       | Some fn => emit (EvCleanup fn);; exec (CbCleanup fn st)
       | None => mret []
       end);;
      m ← module_at entry;
      modify (fun s => set_st_mem
        (match m_region_state m with Some st => delete st (st_mem s) | None => st_mem s end) s);;
      upd_module entry (set_m_region_state None)
  end.

Definition free_module (entry : loc) : XM unit :=
  modify (fun s => set_st_mod (delete entry (st_mod s)) s).

Definition module_free_entry (exec : executor) (entry : loc) (close_handle : bool) : XM unit :=
  m ← module_at entry;
  let handle := m_handle m in
  let tmp := m_tmp_load_path m in
  module_cleanup_region_state exec entry;;
  free_module entry;;
  (match close_handle, handle with true, Some _ => dlclose handle | _, _ => mret tt end);;
  unlink_opt tmp.

(** The unlinking in [mod_load_abort]: as in [module_region_detach], but it is
    the region pointer that is reset. *)
Definition abort_detach (entry : loc) : XM unit :=
  m ← module_at entry;
  match m_region_entry m with
  | None => mret tt
  | Some rre =>
      set_next_or_head rre (m_region_prev m) (m_region_next m);;
      m ← module_at entry;
      set_prev_or_tail rre (m_region_next m) (m_region_prev m);;
      region_mark_subtree_dirty (Some rre);;
      upd_module entry (set_m_region_entry None)
  end.

(** The entry leaves both registries. *)
Definition unregister (entry : loc) : XM unit :=
  m ← module_at entry;
  ix ← handle rt_mod_by_region_hd;
  upd_rt (set_rt_mod_by_region_hd (Some (qmdel ix (m_region_id m))));;
  hd ← handle rt_mod_hd;
  upd_rt (set_rt_mod_hd (Some (qdel hd (m_mod_key m)))).

Definition mod_load_abort (exec : executor) (tx : load_txn) (err : Z) : XM Z :=
  tx ← mod_load_restore_context tx;
  (match tx_mod_entry tx with
   | None => mret tt
   | Some me =>
       module_cleanup_region_state exec me;;
       abort_detach me;;
       (if tx_published_entry tx then unregister me else mret tt);;
       m ← module_at me;
       free_module me;;
       unlink_opt (m_tmp_load_path m)
   end);;
  unlink_opt (tx_tmp_load_path tx);;
  (match tx_handle tx with Some _ => dlclose (tx_handle tx) | None => mret tt end);;
  mret err.

(** *** _mod_load *)

(** [if ((ret = step(&tx)) != XY_OK) goto fail;] *)
Definition txn_step (exec : executor) (step : XM (Z * load_txn)) (k : load_txn -> XM Z) : XM Z :=
  '(ret, tx) ← step;
  if negb (ret =? XY_OK) then mod_load_abort exec tx ret else k tx.

(** Memory of [xy_region_state_size()] zero bytes for a module that has state. *)
Definition alloc_region_state (me : loc) (hdl : option loc) : XM unit :=
  match plat_dlsym hdl "xy_region_state_size" with
  | None => mret tt
  | Some sz_fn =>
      let sz := plat_state_size sz_fn in
      if 0 <? sz then
        ok ← try_alloc;
        if ok : bool then
          l ← fresh_loc;
          modify (fun s => set_st_mem (<[l := replicate (Z.to_nat sz) 0]> (st_mem s)) s);;
          upd_module me (set_m_region_state (Some l))
        else upd_module me (set_m_region_state None)
      else mret tt
  end.

(** From [xy_mod_count++] to the end. *)
Definition load_enter (exec : executor) (tx : load_txn) : XM Z :=
  upd_rt (fun rt => set_rt_mod_count (rt_mod_count rt + 1) rt);;
  me ← must (tx_mod_entry tx);
  alloc_region_state me (tx_handle tx);;
  m ← module_at me;
  re ← region_lookup (m_region_id m);
  (match re with Some _ => module_region_append re me | None => mret tt end);;
  fn_cache_prewarm me;;
  ret ← mod_load_run_install exec tx;
  if negb (ret =? XY_OK) then mod_load_abort exec tx ret
  else mod_load_restore_context tx;; mret XY_OK.

Definition _mod_load (exec : executor) (fname : string) : XM Z :=
  inherited ← gets (fun s => t_region_id (st_tls s));
  '(ret, tx) ← mod_load_open_handle exec (txn_zero inherited) fname;
  if negb (ret =? XY_OK) then return_err ret
  else
    reused ← mod_load_try_reuse_existing tx;
    if reused : bool then mret XY_OK
    else
      txn_step exec (mod_load_alloc_entry tx fname) (fun tx =>
      txn_step exec (mod_load_publish_entry tx) (fun tx =>
      txn_step exec (mod_load_bind_xy tx) (fun tx =>
      txn_step exec (mod_load_enter_context tx) (fun tx =>
        ret ← mod_load_claim_if_needed exec tx;
        if negb (ret =? XY_OK) then mod_load_abort exec tx ret else load_enter exec tx)))).

Definition xy_load (exec : executor) (fname : string) : XM Z :=
  with_runtime (ret ← _mod_load exec fname; return_err ret).

End Load.
