(* ===== verification/LoadSpec.v ===== *)
(** * Loading: theorems

    What freeing a module, reusing one and loading one do to the registries,
    the lists and the heap. *)

From S2P Require Import Prelude QMap Status State Machine ModKey Linked Region RegionTree ModList.
From S2P Require Import Runtime Paths Identity FnCache RegionApi Deny Claim Load.
From stdpp Require Import options.
Local Open Scope Z_scope.

Section LoadSpec.
Context {Q : QMapOps} {QL : QMapLaws Q} {P : Platform}.
Implicit Types (s : state) (m : mod_entry) (r : region_entry).

(** ** Freeing a module *)

(** The clean-up functions of the modules change nothing the library keeps. *)
Definition quiet_cleanup (exec : executor) : Prop :=
  forall fn st s, exec (CbCleanup fn st) s = Ok ([], s).

Definition cleanup_events (m : mod_entry) : list ext_event :=
  match m_region_state m, plat_dlsym (m_handle m) "xy_region_cleanup" with
  | Some _, Some fn => [EvCleanup fn]
  | _, _ => []
  end.
Definition close_events (h : option loc) : list ext_event :=
  match h with Some h => [EvDlclose h] | None => [] end.
Definition unlink_events (tmp : option string) : list ext_event :=
  match tmp with Some p => [EvUnlink p] | None => [] end.

(** What the environment sees of a module that goes away. *)
Definition free_events (m : mod_entry) : list ext_event :=
  cleanup_events m ++ close_events (m_handle m) ++ unlink_events (m_tmp_load_path m).

Definition without_state (m : mod_entry) (mem : gmap loc (list Z)) : gmap loc (list Z) :=
  match m_region_state m with Some st => delete st mem | None => mem end.

Definition cleaned (e : loc) (m : mod_entry) s : state :=
  set_st_mod (<[e := set_m_region_state None m]> (st_mod s))
    (set_st_mem (without_state m (st_mem s)) (set_st_trace (st_trace s ++ cleanup_events m) s)).

Definition freed (e : loc) (m : mod_entry) s : state :=
  set_st_mod (delete e (st_mod s))
    (set_st_mem (without_state m (st_mem s)) (set_st_trace (st_trace s ++ free_events m) s)).

Lemma cleanup_eq exec e m s :
  quiet_cleanup exec -> st_mod s !! e = Some m ->
  module_cleanup_region_state exec e s = Ok (tt, cleaned e m s).
Proof.
  intros Hq Hm. unfold module_cleanup_region_state, cleaned, without_state, cleanup_events.
  rewrite (bind_Ok (module_at e) _ s s m) by (apply wp_eq; by eapply wp_module_at).
  destruct (m_region_state m) as [st|] eqn:Est.
  2: { replace (set_m_region_state None m) with m by (destruct m; cbn in *; by subst).
       rewrite insert_id by done. cbn. do 2 f_equal. rewrite app_nil_r. by destruct s. }
  set (evs := match plat_dlsym (m_handle m) "xy_region_cleanup" with
              | Some fn => [EvCleanup fn] | None => [] end).
  set (s1 := set_st_trace (st_trace s ++ evs) s).
  rewrite (bind_Ok _ _ s s1 []).
  2: { unfold s1, evs. destruct (plat_dlsym _ _) as [fn|].
       - unfold emit. rewrite (bind_Ok (modify _) _ s _ tt eq_refl). apply Hq.
       - rewrite app_nil_r. by destruct s. }
  apply wp_eq. do 2 wp_step. wp_step. rewrite Est. wp_step. eapply wp_upd_module; [done|done].
Qed.

Lemma dlclose_eq h s : dlclose (Some h) s = Ok (tt, set_st_trace (st_trace s ++ [EvDlclose h]) s).
Proof. done. Qed.

Lemma unlink_opt_eq p s : unlink_opt p s = Ok (tt, set_st_trace (st_trace s ++ unlink_events p) s).
Proof. destruct p; [done|]. cbn. rewrite app_nil_r. by destruct s. Qed.

Lemma module_free_entry_eq exec e m s :
  quiet_cleanup exec -> st_mod s !! e = Some m ->
  module_free_entry exec e true s = Ok (tt, freed e m s).
Proof.
  intros Hq Hm. unfold module_free_entry.
  rewrite (bind_Ok (module_at e) _ s s m) by (apply wp_eq; by eapply wp_module_at).
  rewrite (bind_Ok _ _ _ _ _ (cleanup_eq exec e m s Hq Hm)).
  set (s1 := cleaned e m s).
  rewrite (bind_Ok (free_module e) _ s1 (set_st_mod (delete e (st_mod s1)) s1) tt eq_refl).
  set (s2 := set_st_mod _ s1).
  set (s3 := set_st_trace (st_trace s2 ++ close_events (m_handle m)) s2).
  rewrite (bind_Ok _ _ s2 s3 tt).
  2: { unfold s3, close_events. destruct (m_handle m); [done|]. rewrite app_nil_r. by destruct s2. }
  rewrite unlink_opt_eq. do 2 f_equal. unfold s3, s2, s1, freed, cleaned, free_events.
  cbn -[insert delete]. by rewrite delete_insert_eq, <- !app_assoc.
Qed.

(** ** The registry *)

(** The registry and the heap hold the same modules, each under its key. *)
Definition registry_exact (s : state) : Prop :=
  exists hd, rt_mod_hd (st_rt s) = Some hd /\
    forall k me, qget hd k = Some me <-> exists m, st_mod s !! me = Some m /\ m_mod_key m = k.

Lemma registry_exact_keys s s' :
  registry_exact s -> rt_mod_hd (st_rt s') = rt_mod_hd (st_rt s) ->
  (forall x, m_mod_key <$> st_mod s' !! x = m_mod_key <$> st_mod s !! x) -> registry_exact s'.
Proof.
  intros (hd & Hhd & Hexact) E Hk. exists hd. split; [by rewrite E|]. intros k x. rewrite Hexact.
  specialize (Hk x). split; intros (m & Hm & <-); rewrite Hm in Hk;
    [destruct (st_mod s' !! x) as [m'|]|destruct (st_mod s !! x) as [m'|]]; try done;
    cbn in Hk; injection Hk as Hk; by exists m'.
Qed.

(** ** Changes that no list sees *)

(** A module less its place in a list and its caches. *)
Definition bare (m : mod_entry) : mod_entry :=
  set_m_hook_impl_bits [] (set_m_fn_cache [] (mod_core m)).

Lemma mod_list_frame s s' a ms :
  mod_list s a ms -> agree skel (st_reg s) (st_reg s') ->
  (forall x, x ∈ ms -> mod_links <$> st_mod s' !! x = mod_links <$> st_mod s !! x) ->
  mod_list s' a ms.
Proof.
  intros Hl Hsk Em.
  assert (forall T (f : mod_entry -> T), (forall m m', mod_links m = mod_links m' -> f m = f m') ->
            forall x, x ∈ ms -> f <$> st_mod s' !! x = f <$> st_mod s !! x) as Hf.
  { intros T f Hf x Hx. specialize (Em x Hx). destruct (st_mod s' !! x), (st_mod s !! x); try done.
    cbn in *. f_equal. apply Hf. congruence. }
  eapply mod_list_keep; [done|..].
  - intros x Hx. apply Hf; [|done]. unfold mod_links. congruence.
  - intros x Hx. apply Hf; [|done]. unfold mod_links. congruence.
  - specialize (Hsk a). destruct (st_reg s !! a), (st_reg s' !! a); try done. cbn in *.
    unfold skel in Hsk. congruence.
Qed.

(** ** Counting references *)

Lemma refcount_frame s e m n :
  running s -> st_mod s !! e = Some m ->
  let s0 := set_st_mod (<[e := set_m_refcount n m]> (st_mod s)) s in
  running s0 /\ (forall a ms, mod_list s a ms -> mod_list s0 a ms) /\
  forall x, m_mod_key <$> st_mod s0 !! x = m_mod_key <$> st_mod s !! x.
Proof.
  intros Hrun Hm s0.
  assert (forall T (f : mod_entry -> T), f (set_m_refcount n m) = f m ->
    forall x, f <$> st_mod s0 !! x = f <$> st_mod s !! x) as Hf.
  { intros T f Hc x. cbn. rewrite lookup_insert. case_decide; [|done]. subst. rewrite Hm. cbn. by rewrite Hc. }
  split; [|split; [|by apply Hf]].
  - eapply running_frame; [exact Hrun|done| |done|done|done|by apply Hf]. apply (tree_ok_gens _ (run_tree _ Hrun)).
  - intros a ms H. apply (mod_list_frame s); [done|done|]. intros x _. by apply Hf.
Qed.

End LoadSpec.
