(* ===== verification/LoadFresh.v ===== *)
(** * Loading a module for the first time

    The load transaction when nothing fails and no region is claimed: the state
    in which the module's xy_install is called, and what is put back after it. *)

From S2P Require Import Prelude QMap Status State Machine ModKey Linked Region RegionTree ModList.
From S2P Require Import Runtime Paths Identity FnCache RegionApi Deny Claim Dispatch Areg CopyFile.
From S2P Require Import Load LoadSpec.
From stdpp Require Import options.
Local Open Scope Z_scope.

Section LoadFresh.
Context {Q : QMapOps} {QL : QMapLaws Q} {P : Platform}.
Implicit Types (s : state) (m : mod_entry) (r : region_entry).

(** ** Opening the image *)

(** Fetching the file [path]: during a reload the calls [evs] make a copy of it,
    which is called [tmp] if that works; otherwise there is nothing to do. *)
Definition fetched s (path : string) (tmp : option string) (evs : list ext_event) : Prop :=
  if st_reloading s then copy_to_tmp path s = Ok (tmp, traced evs s) else tmp = None /\ evs = [].

(** The file is fetched and opens as the image [h], which is mapped already or
    has no constructors to run. *)
Definition opens s (path : string) (tmp : option string) (evs : list ext_event) (h : loc) : Prop :=
  fetched s path tmp evs /\ plat_dlopen (st_trace s ++ evs) (default path tmp) = Some (h, false).

(** The state after that. *)
Definition opened_image (h : loc) (path : string) s : state :=
  set_st_adp (st_adp s ∪ list_to_map (plat_image_adp h))
    (set_st_ctx (st_ctx s ∪ list_to_map (plat_image_ctx h))
      (set_st_trace (st_trace s ++ [EvDlopen path]) s)).

(** The transaction at that point. *)
Definition opened_txn (s : state) (fname : string) (hd : qmap string loc) (h : loc)
    (tmp : option string) : load_txn :=
  let id := t_region_id (st_tls s) in
  set_tx_tmp_load_path tmp (set_tx_handle (Some h) (set_tx_lookup
    (LookupResult (qget hd (registry_key (resolved fname) id)) (Some (registry_key (resolved fname) id))
       (Some (resolved fname)) XY_OK) (txn_zero id))).

Lemma dlopen_eq exec path s :
  dlopen exec path s =
    match plat_dlopen (st_trace s) path with
    | None => Ok (None, set_st_trace (st_trace s ++ [EvDlopen path]) s)
    | Some (h, ctors) =>
        ((if ctors : bool then exec (CbCtor h) else mret []);; mret (Some h)) (opened_image h path s)
    end.
Proof.
  unfold dlopen. rewrite (bind_Ok (gets _) _ s s (st_trace s) eq_refl).
  rewrite (bind_Ok (emit _) _ s _ tt eq_refl). destruct (plat_dlopen _ _) as [[h ctors]|]; [|done].
  by rewrite (bind_Ok (map_image h) _ _ (opened_image h path s) tt).
Qed.

Lemma open_handle_eq exec fname s hd h tmp evs :
  st_alloc s = [] -> rt_mod_hd (st_rt s) = Some hd -> opens s (resolved fname) tmp evs h ->
  mod_load_open_handle exec (txn_zero (t_region_id (st_tls s))) fname s =
    Ok (XY_OK, opened_txn s fname hd h tmp,
        opened_image h (default (resolved fname) tmp) (traced evs s)).
Proof.
  intros Ha Hhd [Hf Hopen]. unfold mod_load_open_handle.
  rewrite (bind_Ok _ _ _ _ _ (module_lookup_from_fname_eq fname _ hd s Ha Hhd)).
  cbn [lk_err lk_load_path negb Z.eqb XY_OK]. unfold fetched in Hf.
  rewrite (bind_Ok (gets _) _ s s (st_reloading s)) by done.
  set (s1 := traced evs s). rewrite (bind_Ok _ _ s s1 tmp).
  2: { destruct (st_reloading s); [done|]. destruct Hf as [-> ->]. unfold s1. by rewrite traced_nil. }
  assert (dlopen exec (default (resolved fname) tmp) s1 =
    Ok (Some h, opened_image h (default (resolved fname) tmp) s1)) as Hd.
  { rewrite dlopen_eq. unfold s1, traced. cbn [st_trace set_st_trace]. by rewrite Hopen. }
  clearbody s1. clear Hf. destruct tmp; by rewrite (bind_Ok _ _ _ _ _ Hd).
Qed.

(** Outside of a reload. *)
Lemma open_handle_plain exec fname s hd h :
  st_alloc s = [] -> rt_mod_hd (st_rt s) = Some hd -> st_reloading s = false ->
  plat_dlopen (st_trace s) (resolved fname) = Some (h, false) ->
  mod_load_open_handle exec (txn_zero (t_region_id (st_tls s))) fname s =
    Ok (XY_OK, opened_txn s fname hd h None, opened_image h (resolved fname) s).
Proof.
  intros Ha Hhd Hrel Hopen. rewrite (open_handle_eq exec fname s hd h None []); [by rewrite traced_nil|done..|].
  split; [by unfold fetched; rewrite Hrel|]. by rewrite app_nil_r.
Qed.

(** ** Entering a module into the heap and the registries *)

Lemma running_add s s' e m :
  running s -> st_mod s !! e = None -> st_reg s' = st_reg s -> st_mod s' = <[e := m]> (st_mod s) ->
  rt_region_hd (st_rt s') = rt_region_hd (st_rt s) ->
  rt_inited (st_rt s') = rt_inited (st_rt s) -> (st_next s <= st_next s')%positive ->
  running s' /\ (forall a ms, mod_list s a ms -> mod_list s' a ms) /\ on_no_list s' e.
Proof.
  intros Hrun He Er Em Ehd Ei En.
  assert (forall a ms x, mod_list s a ms -> x ∈ ms -> x <> e) as Hne.
  { intros a ms x Hl Hx ->. destruct (mod_list_live _ _ _ _ Hl Hx). congruence. }
  assert (forall a ms, mod_list s a ms -> mod_list s' a ms) as Hkeep.
  { intros a ms Hl. apply (mod_list_frame s); [done|by rewrite Er|]. intros x Hx.
    rewrite Em, lookup_insert_ne; [done|]. intros ->. by eapply Hne. }
  split; [split|split; [done|]].
  - rewrite Ei. apply Hrun.
  - eapply tree_ok_frame; [apply Hrun|by rewrite Er| |done|done].
    rewrite Er. apply tree_ok_gens, Hrun.
  - intros l r Hr. rewrite Er in Hr. destruct (mods_ok_list _ _ _ (run_mods _ Hrun) Hr) as (ms & Hl & Ho).
    destruct (Hkeep _ _ Hl) as (r' & Hr' & Hd). rewrite Er in Hr'. simplify_eq.
    exists ms. split; [done|]. intros x Hx. rewrite Em, lookup_insert_ne; [by apply Ho|].
    intros ->. by eapply Hne.
  - intros a ms (r & Hr & Hd) Hin. rewrite Er in Hr.
    destruct (mods_ok_list _ _ _ (run_mods _ Hrun) Hr) as (ms' & Hl & _).
    rewrite (mod_list_det s' a ms ms') in Hin; [by eapply Hne| |by apply Hkeep].
    exists r. by rewrite Er.
Qed.

(** The registry with a new module under a key that was free. *)
Lemma registry_exact_add s s' hd k e m :
  registry_exact s -> rt_mod_hd (st_rt s) = Some hd -> qget hd k = None -> st_mod s !! e = None ->
  rt_mod_hd (st_rt s') = Some (qput hd k e) -> st_mod s' = <[e := m]> (st_mod s) -> m_mod_key m = k ->
  registry_exact s'.
Proof using QL.
  intros (hd' & E & Hexact) Hhd Hk He Hhd' Em Ekey. rewrite Hhd in E. injection E as <-.
  exists (qput hd k e). split; [done|]. intros k' x. rewrite Em, qget_put. split.
  - case_decide as Ek.
    + intros [= <-]. rewrite lookup_insert_eq. eexists. split; [done|congruence].
    + intros (mx & Hx & ?)%Hexact. rewrite lookup_insert_ne; [by exists mx|]. congruence.
  - intros (mx & Hx & Ekx). apply lookup_insert_Some in Hx as [[<- <-]|[Hne Hx]].
    + by rewrite decide_True by congruence.
    + assert (qget hd k' = Some x) as Hg by (apply Hexact; by exists mx).
      rewrite decide_False; [done|]. congruence.
Qed.

(** ** From the open image to a published module *)

(** The transaction once the module is published. *)
Definition published_txn (tx : load_txn) (fname key : string) (path me : loc) : load_txn :=
  set_tx_published_entry true (set_tx_tmp_load_path None (set_tx_mod_entry (Some me)
    (set_tx_interned_load_path (Some path) (free_lookup
      (set_tx_stable_key (Some key) (set_tx_stable_fname (Some fname) tx)))))).

(** The module. *)
Definition published_mod (tx : load_txn) (fname key : string) (path ctx : loc) (loading : option loc)
    : mod_entry :=
  set_m_ctx (Some ctx) (new_entry (set_tx_stable_fname (Some fname) tx) path key loading).

Definition published_state s (me : loc) m (hd : qmap string loc) (ix : qmulti Z loc)
    (ih : qmap string loc) strs nx ctxs : state :=
  set_st_tls (set_t_pending_ctx None (st_tls s)) (set_st_ctx ctxs
    (set_st_mod (<[me := m]> (st_mod s))
      (set_st_rt (set_rt_mod_by_region_hd (Some ix) (set_rt_mod_hd (Some hd)
         (set_rt_path_intern_hd (Some ih) (st_rt s))))
        (set_st_str strs (set_st_next nx s))))).

Lemma alloc_entry_eq tx fname key path s :
  st_alloc s = [] -> lk_key (tx_lookup tx) = Some key -> lk_load_path (tx_lookup tx) = Some path ->
  exists l ih strs nx, (st_next s <= nx)%positive /\ path_added (intern_hd s) ih path /\
    let s' := set_st_rt (set_rt_path_intern_hd (Some ih) (st_rt s))
                (set_st_str strs (set_st_next (Pos.succ nx) s)) in
    mod_load_alloc_entry tx fname s =
      Ok (XY_OK, set_tx_tmp_load_path None (set_tx_mod_entry (Some nx)
            (set_tx_interned_load_path (Some l) (free_lookup
              (set_tx_stable_key (Some key) (set_tx_stable_fname (Some fname) tx))))),
          set_st_mod (<[nx := new_entry (set_tx_stable_fname (Some fname) tx) l key
                                (t_loading_mod (st_tls s))]> (st_mod s)) s').
Proof using QL.
  intros Ha Hkey Hpath. destruct (module_path_intern_frame s path) as (l & ih & strs & nx & Hrun & Hnx & Hadd).
  exists l, ih, strs, nx. split; [done|]. split; [done|]. cbv zeta. unfold mod_load_alloc_entry.
  rewrite (bind_Ok try_alloc _ s s true) by (unfold try_alloc; by rewrite Ha).
  set (tx' := set_tx_stable_fname (Some fname) tx).
  change (tx_stable_fname tx') with (Some fname). change (tx_lookup tx') with (tx_lookup tx).
  rewrite Hkey.
  change (tx_lookup (set_tx_stable_key (Some key) tx')) with (tx_lookup tx). rewrite ?Hpath.
  rewrite (bind_Ok _ _ _ _ _ Hrun). set (s1 := set_st_rt _ _).
  rewrite (bind_Ok try_alloc _ s1 s1 true) by (unfold try_alloc, s1; cbn; by rewrite Ha).
  rewrite (bind_Ok fresh_loc _ s1 (set_st_next (Pos.succ nx) s1) nx eq_refl). done.
Qed.

Lemma bind_xy_eq tx s me m g ctx x :
  tx_mod_entry tx = Some me -> st_mod s !! me = Some m ->
  plat_dlsym (tx_handle tx) "get_xy_ptr" = Some g -> plat_get_xy g = Some ctx ->
  st_ctx s !! ctx = Some x ->
  mod_load_bind_xy tx s =
    Ok (XY_OK, tx, set_st_tls (set_t_pending_ctx None (st_tls s)) (set_st_ctx
      (<[ctx := fill_module_table (tx_stable_fname tx) (tx_inherited_region_id tx) x]> (st_ctx s))
      (set_st_mod (<[me := set_m_ctx (Some ctx) m]> (st_mod s)) s))).
Proof.
  intros Hme Hm Hsym Hxy Hx. unfold mod_load_bind_xy. rewrite Hsym, Hxy.
  rewrite (bind_Ok (gets _) _ s s (t_pending_ctx (st_tls s)) eq_refl).
  set (s1 := set_st_tls (set_t_pending_ctx None (st_tls s)) s).
  rewrite (bind_Ok (upd_tls _) _ s s1 tt eq_refl).
  rewrite (bind_Ok (_xy_init _ _ _) _ s1 (set_st_ctx (<[ctx := fill_module_table (tx_stable_fname tx)
    (tx_inherited_region_id tx) x]> (st_ctx s)) s1) tt) by (apply wp_eq; by eapply wp_upd_ctx).
  rewrite Hme. set (s2 := set_st_ctx _ s1). rewrite (bind_Ok (must (Some me)) _ s2 s2 me eq_refl).
  apply wp_eq. rewrite wp_bind. by eapply wp_upd_module.
Qed.

(** Allocation, publication and binding in one. *)
Lemma publish_steps exec tx fname key path s hd ix h g ctx x k :
  st_alloc s = [] -> tx_lookup tx = LookupResult None (Some key) (Some path) XY_OK ->
  tx_handle tx = Some h -> rt_mod_hd (st_rt s) = Some hd -> rt_mod_by_region_hd (st_rt s) = Some ix ->
  plat_dlsym (Some h) "get_xy_ptr" = Some g -> plat_get_xy g = Some ctx -> st_ctx s !! ctx = Some x ->
  exists l me ih strs, (st_next s <= me)%positive /\ path_added (intern_hd s) ih path /\
    let m := published_mod tx fname key l ctx (t_loading_mod (st_tls s)) in
    txn_step exec (mod_load_alloc_entry tx fname) (fun tx =>
      txn_step exec (mod_load_publish_entry tx) (fun tx =>
      txn_step exec (mod_load_bind_xy tx) k)) s =
    k (published_txn tx fname key l me)
      (published_state s me m (qput hd key me) (qmput ix (tx_inherited_region_id tx) me) ih strs
         (Pos.succ me)
         (<[ctx := fill_module_table (Some fname) (tx_inherited_region_id tx) x]> (st_ctx s))).
Proof using QL.
  intros Ha Hlk Hh Hhd Hix Hsym Hxy Hx.
  destruct (alloc_entry_eq tx fname key path s Ha) as (l & ih & strs & me & Hme & Hadd & Halloc);
    [by rewrite Hlk|by rewrite Hlk|].
  exists l, me, ih, strs. split; [done|]. split; [done|]. cbv zeta in *. unfold txn_step at 1.
  rewrite (bind_Ok _ _ _ _ _ Halloc). cbn [negb Z.eqb XY_OK].
  set (tx1 := set_tx_tmp_load_path None _). set (m1 := new_entry _ _ _ _).
  set (s1 := set_st_mod (<[me := m1]> (st_mod s)) _).
  assert (st_mod s1 !! me = Some m1) as Hm1 by apply lookup_insert_eq.
  set (rt2 := set_rt_mod_by_region_hd (Some (qmput ix (tx_inherited_region_id tx) me))
    (set_rt_mod_hd (Some (qput hd key me)) (st_rt s1))). set (s2 := set_st_rt rt2 s1).
  unfold txn_step at 1. rewrite (bind_Ok _ _ s1 s2 (XY_OK, set_tx_published_entry true tx1)).
  2: { unfold mod_load_publish_entry.
       rewrite (bind_Ok (must (Some me)) _ s1 s1 me eq_refl), (bind_Ok (must (Some key)) _ s1 s1 key eq_refl).
       rewrite (bind_Ok (handle rt_mod_hd) _ s1 s1 hd) by (apply wp_eq; by eapply wp_handle).
       set (s1' := set_st_rt (set_rt_mod_hd (Some (qput hd key me)) (st_rt s1)) s1).
       rewrite (bind_Ok (upd_rt _) _ s1 s1' tt) by done.
       rewrite (bind_Ok (module_at me) _ s1' s1' m1) by (apply wp_eq; by eapply wp_module_at).
       by rewrite (bind_Ok (handle rt_mod_by_region_hd) _ s1' s1' ix) by (apply wp_eq; by eapply wp_handle). }
  cbn [negb Z.eqb XY_OK]. unfold txn_step.
  rewrite (bind_Ok _ _ _ _ _ (bind_xy_eq (set_tx_published_entry true tx1) s2 me m1 g ctx x eq_refl
    Hm1 ltac:(cbn; by rewrite Hh) Hxy Hx)). cbn [negb Z.eqb XY_OK].
  f_equal. unfold published_state, s2, s1. cbn -[insert]. by rewrite insert_insert_eq.
Qed.

(** ** From the published module to its xy_install *)

(** What is left to do once the module is listed and prewarmed, *)
Definition finish_load (exec : executor) (tx : load_txn) : XM Z :=
  ret ← mod_load_run_install exec tx;
  if negb (ret =? XY_OK) then mod_load_abort exec tx ret
  else mod_load_restore_context tx;; mret XY_OK.

(** and if there is an xy_install. *)
Definition install_and_leave (exec : executor) (cb me : loc) (loading : option loc) (id : Z)
    (entry : option loc) : XM Z :=
  upd_tls (set_t_loading_mod (Some me));;
  exec (CbInstall cb);;
  upd_tls (set_t_loading_mod loading);;
  set_current_region id entry;;
  mret XY_OK.

Lemma claim_not_needed exec tx s l r :
  tx_inherited_reg tx = Some l -> st_reg s !! l = Some r -> r_claim_handler r = None ->
  r_require_claim r = false -> mod_load_claim_if_needed exec tx s = Ok (XY_OK, s).
Proof.
  intros Hl Hr Hc Hq. unfold mod_load_claim_if_needed. rewrite Hl.
  rewrite (bind_Ok (region_at l) _ s s r) by (apply wp_eq; by eapply wp_region_at).
  rewrite Hc, Hq. by destruct (plat_dlsym _ _).
Qed.

(** The transaction [tx], entered from the region [id], [entry]. *)
Definition entered_txn (tx : load_txn) (l : loc) (id : Z) (entry : option loc) : load_txn :=
  set_tx_context_active true (set_tx_prev_region_entry entry
    (set_tx_prev_region_id id (set_tx_inherited_reg (Some l) tx))).

Lemma finish_install_eq exec tx l s me cb id entry :
  tx_mod_entry tx = Some me -> plat_dlsym (tx_handle tx) "xy_install" = Some cb ->
  finish_load exec (entered_txn tx l id entry) s =
    install_and_leave exec cb me (t_loading_mod (st_tls s)) id entry s.
Proof.
  intros Hme Hcb. unfold finish_load, mod_load_run_install, install_and_leave.
  rewrite bind_assoc, (bind_Ok (gets _) _ s s (t_loading_mod (st_tls s)) eq_refl).
  change (tx_mod_entry (entered_txn tx l id entry)) with (tx_mod_entry tx).
  change (tx_handle (entered_txn tx l id entry)) with (tx_handle tx). rewrite Hme.
  set (s1 := set_st_tls (set_t_loading_mod (Some me) (st_tls s)) s).
  rewrite bind_assoc, !(bind_Ok (upd_tls _) _ s s1 tt eq_refl). unfold _mod_run. rewrite Hcb.
  rewrite !bind_assoc. apply bind_ext. intros out s2 _. done.
Qed.

Lemma empty_coherent ids c m :
  m_fn_cache m = [] -> m_hook_impl_bits m = [] -> coherent ids c m.
Proof.
  intros Hc Hb n h H0 _. unfold entry_ok. rewrite has_hook_eq, Hb, Hc by done. by rewrite !lookup_nil.
Qed.

(** The new module goes to the end of its region's list and learns the hooks. *)
Lemma list_and_prewarm s l ms me m ids :
  running s -> st_alloc s = [] -> mod_list s l ms -> on_no_list s me -> st_mod s !! me = Some m ->
  m_fn_cache m = [] -> m_hook_impl_bits m = [] -> is_Some (m_handle m) ->
  hooks_ok s -> rt_hook_id_hd (st_rt s) = Some ids ->
  exists rc s' m', (module_region_append (Some l) me;; fn_cache_prewarm me) s = Ok (rc, s') /\
    running s' /\ mod_list s' l (ms ++ [me]) /\
    (forall a ms', a <> l -> mod_list s a ms' -> mod_list s' a ms') /\
    st_mod s' !! me = Some m' /\ bare m' = bare m /\ warm ids m' /\
    (forall x, bare <$> st_mod s' !! x = bare <$> st_mod s !! x) /\
    agree reg_core (st_reg s) (st_reg s') /\
    (renewed l (st_reg s) (st_reg s') /\ others_kept me (st_mod s) (st_mod s')) /\
    s' = set_st_reg (st_reg s') (set_st_mod (st_mod s') s).
Proof using QL.
  intros Hrun Ha Hl Hoff Hm Hc Hb Hh Hhooks Hids.
  destruct (append_spec s l me ms Hrun Hl ltac:(by eexists) Hoff)
    as (ls & s1 & Hls & Happ & Hrun1 & Hs1 & Hl1 & Ho1).
  rewrite (bind_Ok _ _ _ _ _ Happ). pose proof (lst_core _ _ _ Hs1) as Hcore.
  pose proof (lst_state _ _ _ Hs1) as Est.
  destruct (st_mod s1 !! me) as [m1|] eqn:Hm1; [|specialize (Hcore me); by rewrite Hm1, Hm in Hcore].
  assert (mod_core m1 = mod_core m) as E1.
  { specialize (Hcore me). rewrite Hm1, Hm in Hcore. by apply (inj Some) in Hcore. }
  assert (m_fn_cache m1 = [] /\ m_hook_impl_bits m1 = [] /\ m_handle m1 = m_handle m) as (Hc1 & Hb1 & Hh1).
  { rewrite <- Hc, <- Hb. change (m_fn_cache m1) with (m_fn_cache (mod_core m1)).
    change (m_hook_impl_bits m1) with (m_hook_impl_bits (mod_core m1)).
    change (m_handle m1) with (m_handle (mod_core m1)). by rewrite E1. }
  assert (st_rt s1 = st_rt s /\ st_alloc s1 = st_alloc s) as [Ert Eal] by (rewrite Est; done).
  assert (hooks_ok s1) as Hhooks1 by (unfold hooks_ok; by rewrite Ert).
  destruct (prewarm_warms s1 me m1 ids) as (rc & m' & Hpre & Hw & Hwarm);
    [by rewrite Eal|done|done|by rewrite Ert|by apply empty_coherent|].
  set (s2 := set_st_mod (<[me := m']> (st_mod s1)) s1) in *.
  assert (forall T (f : mod_entry -> T), f m' = f m1 -> forall x, f <$> st_mod s2 !! x = f <$> st_mod s1 !! x) as Hf.
  { intros T f Hfm x. cbn. rewrite lookup_insert. case_decide; [|done]. subst. rewrite Hm1. cbn. by rewrite Hfm. }
  pose proof (wm_rest _ _ _ _ Hw) as Em'.
  assert (mod_links m' = mod_links m1 /\ bare m' = bare m1) as [El Ebr] by (rewrite Em'; done).
  assert (forall a ms', mod_list s1 a ms' -> mod_list s2 a ms') as Hkeep.
  { intros a ms' H. apply (mod_list_frame s1); [done|done|]. intros x _. by apply Hf. }
  exists rc, s2, m'. split; [done|]. split.
  { eapply running_frame; [exact Hrun1|done| |done|done|done|by apply Hf].
    apply (tree_ok_gens _ (run_tree _ Hrun1)). }
  split; [by apply Hkeep|]. split; [intros a ms' Hne H; by apply Hkeep, Ho1|].
  split; [apply lookup_insert_eq|]. split.
  { rewrite Ebr. unfold bare. by rewrite E1. }
  split; [by apply Hwarm; rewrite Hh1|]. split; [|split; [apply (lst_reg _ _ _ Hs1)|split; [split|by unfold s2; rewrite Est]]].
  2: { apply (list_step_renewed _ _ _ _ Hs1). inversion Hls; left. }
  2: { intros x Hx. cbn. rewrite lookup_insert_ne by done. apply Hcore. }
  intros x. rewrite (Hf _ bare Ebr). specialize (Hcore x).
  apply (f_equal (fmap (fun u => set_m_hook_impl_bits [] (set_m_fn_cache [] u)))) in Hcore.
  by rewrite <- !option_fmap_compose in Hcore.
Qed.

(** The module enters its region, whichever that is by now. *)
Lemma load_enter_listed exec tx s l r ms me m h ids :
  running s -> st_alloc s = [] -> st_reg s !! l = Some r -> tx_mod_entry tx = Some me ->
  tx_handle tx = Some h -> mod_list s l ms -> on_no_list s me -> st_mod s !! me = Some m ->
  m_region_id m = r_id r -> m_handle m = Some h -> m_fn_cache m = [] -> m_hook_impl_bits m = [] ->
  hooks_ok s -> rt_hook_id_hd (st_rt s) = Some ids ->
  plat_dlsym (Some h) "xy_region_state_size" = None ->
  exists s1 m1, load_enter exec tx s = finish_load exec tx s1 /\
    running s1 /\ mod_list s1 l (ms ++ [me]) /\
    (forall a ms', a <> l -> mod_list s a ms' -> mod_list s1 a ms') /\
    st_mod s1 !! me = Some m1 /\ bare m1 = bare m /\ warm ids m1 /\
    (forall x, bare <$> st_mod s1 !! x = bare <$> st_mod s !! x) /\
    agree reg_core (st_reg s) (st_reg s1) /\
    (renewed l (st_reg s) (st_reg s1) /\ others_kept me (st_mod s) (st_mod s1)) /\
    s1 = set_st_reg (st_reg s1) (set_st_mod (st_mod s1)
           (set_st_rt (set_rt_mod_count (rt_mod_count (st_rt s) + 1) (st_rt s)) s)).
Proof using QL.
  intros Hrun Ha Hr Hme Hh Hl Hoff Hm Hmid Hmh Hfc Hbits Hhooks Hids Hsz. unfold load_enter.
  set (s2 := set_st_rt (set_rt_mod_count (rt_mod_count (st_rt s) + 1) (st_rt s)) s).
  rewrite (bind_Ok (upd_rt _) _ s s2 tt) by done.
  rewrite Hme, (bind_Ok (must (Some me)) _ s2 s2 me eq_refl).
  rewrite (bind_Ok (alloc_region_state _ _) _ s2 s2 tt).
  2: { unfold alloc_region_state. by rewrite Hh, Hsz. }
  rewrite (bind_Ok (module_at me) _ s2 s2 m) by (apply wp_eq; by eapply wp_module_at).
  assert (running s2) as Hrun2.
  { eapply running_frame; [exact Hrun|done| |done..]. apply (tree_ok_gens _ (run_tree _ Hrun)). }
  rewrite Hmid, (bind_Ok _ _ _ _ _ (region_lookup_found s2 l r (run_tree _ Hrun2) Hr)).
  destruct (list_and_prewarm s2 l ms me m ids Hrun2 Ha Hl Hoff Hm Hfc Hbits ltac:(by rewrite Hmh) Hhooks Hids)
    as (rc & s3 & m3 & Hlp & Hrun3 & Hl3 & Ho3 & Hm3 & Hb3 & Hw3 & Hall3 & Hreg3 & [Hren3 Hoth3] & E3).
  rewrite <- (bind_assoc _ (fun _ => fn_cache_prewarm me)), (bind_Ok _ _ _ _ _ Hlp).
  exists s3, m3. split_and!; done.
Qed.

(** Entering the region that the module is loaded into. *)
Lemma enter_context_eq exec tx s l r k :
  running s -> st_reg s !! l = Some r -> tx_inherited_region_id tx = r_id r ->
  txn_step exec (mod_load_enter_context tx) k s =
    k (entered_txn tx l (t_region_id (st_tls s)) (t_region_entry (st_tls s)))
      (set_st_tls (set_t_region_entry (Some l) (set_t_region_id (r_id r) (st_tls s))) s).
Proof.
  intros Hrun Hr Hid. set (s1 := set_st_tls _ s). set (tx1 := entered_txn _ _ _ _).
  unfold txn_step. rewrite (bind_Ok (mod_load_enter_context tx) _ s s1 (XY_OK, tx1)); [done|].
  unfold mod_load_enter_context. rewrite Hid.
  rewrite (bind_Ok _ _ _ _ _ (region_lookup_found s l r (run_tree _ Hrun) Hr)).
  rewrite (bind_Ok (gets _) _ s s (t_region_id (st_tls s)) eq_refl).
  by rewrite (bind_Ok (gets _) _ s s (t_region_entry (st_tls s)) eq_refl).
Qed.

(** The steps after the publication, for a region that asks for no claim. *)
Lemma enter_steps exec tx s l r ms me m h ids :
  running s -> st_alloc s = [] -> st_reg s !! l = Some r -> r_claim_handler r = None ->
  r_require_claim r = false -> tx_inherited_region_id tx = r_id r -> tx_mod_entry tx = Some me ->
  tx_handle tx = Some h -> mod_list s l ms -> on_no_list s me -> st_mod s !! me = Some m ->
  m_region_id m = r_id r -> m_handle m = Some h -> m_fn_cache m = [] -> m_hook_impl_bits m = [] ->
  hooks_ok s -> rt_hook_id_hd (st_rt s) = Some ids ->
  plat_dlsym (Some h) "xy_region_state_size" = None ->
  exists s1 m1,
    txn_step exec (mod_load_enter_context tx) (fun tx =>
      ret ← mod_load_claim_if_needed exec tx;
      if negb (ret =? XY_OK) then mod_load_abort exec tx ret else load_enter exec tx) s =
    finish_load exec (entered_txn tx l (t_region_id (st_tls s)) (t_region_entry (st_tls s))) s1 /\
    running s1 /\ mod_list s1 l (ms ++ [me]) /\
    (forall a ms', a <> l -> mod_list s a ms' -> mod_list s1 a ms') /\
    st_mod s1 !! me = Some m1 /\ bare m1 = bare m /\ warm ids m1 /\
    (forall x, bare <$> st_mod s1 !! x = bare <$> st_mod s !! x) /\
    agree reg_core (st_reg s) (st_reg s1) /\
    (renewed l (st_reg s) (st_reg s1) /\ others_kept me (st_mod s) (st_mod s1)) /\
    s1 = set_st_reg (st_reg s1) (set_st_mod (st_mod s1)
           (set_st_rt (set_rt_mod_count (rt_mod_count (st_rt s) + 1) (st_rt s))
             (set_st_tls (set_t_region_entry (Some l) (set_t_region_id (r_id r) (st_tls s))) s))).
Proof using QL.
  intros Hrun Ha Hr Hc Hq Hid Hme Hh Hl Hoff Hm Hmid Hmh Hfc Hbits Hhooks Hids Hsz.
  rewrite (enter_context_eq exec tx s l r) by done.
  set (s1 := set_st_tls _ s). set (tx1 := entered_txn _ _ _ _).
  assert (running s1) as Hrun1 by by apply (running_same s).
  rewrite (bind_Ok _ _ _ _ _ (claim_not_needed exec tx1 s1 l r eq_refl Hr Hc Hq)).
  cbn [negb Z.eqb XY_OK].
  destruct (load_enter_listed exec tx1 s1 l r ms me m h ids) as (s2 & m2 & Hrun2 & H); [done..|].
  by exists s2, m2.
Qed.

(** ** The whole load *)

(** [fname] is not loaded in the region [l] of the thread yet, and its image [h]
    opens and hands out its context. *)
Record fetchable (s : state) (fname : string) (l : loc) (r : region_entry) (hd : qmap string loc)
    (ids : qmap string Z) (tmp : option string) (evs : list ext_event) (h ctx : loc) : Prop := {
  ld_running : running s;
  ld_alloc : st_alloc s = [];
  ld_exact : registry_exact s;
  ld_index : is_Some (rt_mod_by_region_hd (st_rt s));
  ld_fresh : forall x, is_Some (st_mod s !! x) -> (x < st_next s)%positive;
  ld_hooks : hooks_ok s;
  ld_ids : rt_hook_id_hd (st_rt s) = Some ids;
  ld_hd : rt_mod_hd (st_rt s) = Some hd;
  ld_new : qget hd (registry_key (resolved fname) (r_id r)) = None;
  ld_region : st_reg s !! l = Some r;
  ld_current : t_region_id (st_tls s) = r_id r;
  ld_open : opens s (resolved fname) tmp evs h;
  ld_ctx : exists g x, plat_dlsym (Some h) "get_xy_ptr" = Some g /\ plat_get_xy g = Some ctx /\
    (st_ctx s ∪ list_to_map (plat_image_ctx h)) !! ctx = Some x;
  ld_stateless : plat_dlsym (Some h) "xy_region_state_size" = None
}.

(** It can be loaded, and nothing has to be claimed. *)
Record loadable (s : state) (fname : string) (l : loc) (r : region_entry) (ms : list loc)
    (hd : qmap string loc) (ids : qmap string Z) (tmp : option string) (evs : list ext_event)
    (h ctx : loc) : Prop := {
  ld_fetchable : fetchable s fname l r hd ids tmp evs h ctx;
  ld_list : mod_list s l ms;
  ld_no_claim : r_claim_handler r = None /\ r_require_claim r = false
}.

(** The function table [ctx] names the module; the others are as they were. *)
Definition named_table (s s' : state) (fname : string) (ctx : loc) : Prop :=
  (exists x, st_ctx s' !! ctx = Some x /\ x_module_path x = Some fname) /\
  forall c x, c <> ctx -> st_ctx s !! c = Some x -> st_ctx s' !! c = Some x.

(** The dispatch slots and the memory are as they were, and so is every adapter. *)
Record kept_heaps (s s' : state) : Prop := {
  kh_slots : st_slots s' = st_slots s;
  kh_mem : st_mem s' = st_mem s;
  kh_adp : forall l (a : adapter), st_adp s !! l = Some a -> st_adp s' !! l = Some a;
  kh_next : (st_next s <= st_next s')%positive
}.

(** The state in which the module looks for its xy_install. *)
Record installing (s : state) (fname : string) (l : loc) (r : region_entry) (ms : list loc)
    (hd : qmap string loc) (ids : qmap string Z) (tmp : option string) (evs : list ext_event)
    (h ctx : loc) (me : loc) (s1 : state) : Prop := {
  in_running : running s1;
  in_exact : registry_exact s1;
  in_hd : rt_mod_hd (st_rt s1) = Some (qput hd (registry_key (resolved fname) (r_id r)) me);
  in_list : mod_list s1 l (ms ++ [me]);
  in_others : forall a ms', a <> l -> mod_list s a ms' -> mod_list s1 a ms';
  in_module : exists m, st_mod s1 !! me = Some m /\ m_handle m = Some h /\ m_refcount m = 1 /\
    m_ctx m = Some ctx /\ m_parent_entry m = t_loading_mod (st_tls s) /\ m_region_id m = r_id r /\
    m_tmp_load_path m = tmp /\ m_region_state m = None /\
    m_mod_key m = registry_key (resolved fname) (r_id r) /\ warm ids m;
  in_modules : st_mod s !! me = None /\
    forall x, x <> me -> bare <$> st_mod s1 !! x = bare <$> st_mod s !! x;
  in_index : exists ix ih, rt_mod_by_region_hd (st_rt s) = Some ix /\
    rt_mod_by_region_hd (st_rt s1) = Some (qmput ix (r_id r) me) /\
    rt_path_intern_hd (st_rt s1) = Some ih /\ path_added (intern_hd s) ih (resolved fname);
  in_count : rt_mod_count (st_rt s1) = rt_mod_count (st_rt s) + 1;
  in_tls : st_tls s1 = set_t_region_entry (Some l) (set_t_region_id (r_id r)
    (set_t_pending_ctx None (st_tls s)));
  in_rest : st_alloc s1 = [] /\ st_reloading s1 = st_reloading s /\ st_err s1 = st_err s;
  in_trace : st_trace s1 = st_trace s ++ evs ++ [EvDlopen (default (resolved fname) tmp)];
  in_new : (st_next s <= me)%positive /\
    exists m, st_mod s1 !! me = Some m /\ is_Some (m_load_path m);
  in_tables : named_table s s1 fname ctx;
  in_hooks : rt_hook_id_hd (st_rt s1) = Some ids;
  in_regions : agree reg_core (st_reg s) (st_reg s1);
  in_renewed : renewed l (st_reg s) (st_reg s1);
  in_kept : others_kept me (st_mod s) (st_mod s1);
  in_heaps : kept_heaps s s1
}.

(** [published_txn] of the opened transaction. *)
Definition listed_txn s (fname : string) (hd : qmap string loc) (h : loc) (tmp : option string)
    (p me l : loc) : load_txn :=
  entered_txn (published_txn (opened_txn s fname hd h tmp) fname
      (registry_key (resolved fname) (t_region_id (st_tls s))) p me)
    l (t_region_id (st_tls s)) (t_region_entry (st_tls s)).

(** The fields of the entries two states agree on up to the ids of their hooks. *)
Lemma bare_fields (mem1 mem : gmap loc mod_entry) m1 m {T} (f : mod_entry -> T) :
  (forall y, bare <$> mem1 !! y = bare <$> mem !! y) -> bare m1 = bare m ->
  (forall u, f (bare u) = f u) ->
  (forall y, f <$> mem1 !! y = f <$> mem !! y) /\ f m1 = f m.
Proof.
  intros Hall Hb Hf. split; [|by rewrite <- Hf, Hb, Hf]. intros y. specialize (Hall y).
  apply (f_equal (fmap f)) in Hall. rewrite <- !option_fmap_compose in Hall.
  destruct (mem1 !! y), (mem !! y); try done. cbn in *. by rewrite !Hf in Hall.
Qed.

(** What a load says of its entry depends on that much only. *)
Lemma bare_entry m1 m :
  bare m1 = bare m ->
  m_handle m1 = m_handle m /\ m_refcount m1 = m_refcount m /\ m_ctx m1 = m_ctx m /\
  m_parent_entry m1 = m_parent_entry m /\ m_region_id m1 = m_region_id m /\
  m_tmp_load_path m1 = m_tmp_load_path m /\ m_region_state m1 = m_region_state m /\
  m_mod_key m1 = m_mod_key m /\ m_load_path m1 = m_load_path m.
Proof.
  intros E. assert (forall T (f : mod_entry -> T), (forall u, f (bare u) = f u) -> f m1 = f m) as H
    by (intros T f Hf; by rewrite <- Hf, E, Hf). by split_and!; apply H.
Qed.

(** A load of a key that is not registered goes on to make its entry. *)
Lemma mod_load_opened_eq exec s fname hd h tmp evs :
  let tx := opened_txn s fname hd h tmp in
  st_alloc s = [] -> rt_mod_hd (st_rt s) = Some hd -> opens s (resolved fname) tmp evs h ->
  lk_entry (tx_lookup tx) = None ->
  _mod_load exec fname s =
    txn_step exec (mod_load_alloc_entry tx fname) (fun tx =>
    txn_step exec (mod_load_publish_entry tx) (fun tx =>
    txn_step exec (mod_load_bind_xy tx) (fun tx =>
    txn_step exec (mod_load_enter_context tx) (fun tx =>
      ret ← mod_load_claim_if_needed exec tx;
      if negb (ret =? XY_OK) then mod_load_abort exec tx ret else load_enter exec tx))))
    (opened_image h (default (resolved fname) tmp) (traced evs s)).
Proof.
  intros tx Ha Hhd Hopen Hlk. unfold _mod_load.
  rewrite (bind_Ok (gets _) _ s s (t_region_id (st_tls s)) eq_refl).
  rewrite (bind_Ok _ _ _ _ _ (open_handle_eq exec fname s hd h tmp evs Ha Hhd Hopen)).
  cbn [negb Z.eqb XY_OK]. fold tx. unfold mod_load_try_reuse_existing. rewrite Hlk.
  by rewrite (bind_Ok (mret false) _ _ _ false eq_refl).
Qed.

(** What is left to do once the module is published. *)
Definition enter_and_finish (exec : executor) (tx : load_txn) : XM Z :=
  txn_step exec (mod_load_enter_context tx) (fun tx =>
    ret ← mod_load_claim_if_needed exec tx;
    if negb (ret =? XY_OK) then mod_load_abort exec tx ret else load_enter exec tx).

(** The published transaction and module of a load. *)
Definition load_txn_of s (fname : string) (hd : qmap string loc) (h : loc) (tmp : option string)
    (p me : loc) : load_txn :=
  published_txn (opened_txn s fname hd h tmp) fname
    (registry_key (resolved fname) (t_region_id (st_tls s))) p me.

Definition loaded_mod s (fname : string) (hd : qmap string loc) (h : loc) (tmp : option string)
    (p ctx : loc) : mod_entry :=
  published_mod (opened_txn s fname hd h tmp) fname
    (registry_key (resolved fname) (t_region_id (st_tls s))) p ctx (t_loading_mod (st_tls s)).

(** What a load has done by then: [t] is the state, [m] the module [me]. *)
Record published s (fname : string) (hd : qmap string loc) (tmp : option string) (evs : list ext_event)
    (ctx me : loc) (m : mod_entry) (t : state) : Prop := {
  pu_running : running t;
  pu_exact : registry_exact t;
  pu_none : st_mod s !! me = None;
  pu_mod : st_mod t = <[me := m]> (st_mod s);
  pu_reg : st_reg t = st_reg s;
  pu_lists : forall a ms, mod_list s a ms -> mod_list t a ms;
  pu_off : on_no_list t me;
  pu_ctx : exists x, st_ctx t !! ctx =
    Some (fill_module_table (Some fname) (t_region_id (st_tls s)) x);
  pu_rt : exists ix ih, rt_mod_by_region_hd (st_rt s) = Some ix /\
    path_added (intern_hd s) ih (resolved fname) /\
    st_rt t = set_rt_mod_by_region_hd (Some (qmput ix (t_region_id (st_tls s)) me)) (set_rt_mod_hd (Some
      (qput hd (registry_key (resolved fname) (t_region_id (st_tls s))) me))
    (set_rt_path_intern_hd (Some ih) (st_rt s)));
  pu_tls : st_tls t = set_t_pending_ctx None (st_tls s);
  pu_rest : st_alloc t = [] /\ st_reloading t = st_reloading s /\ st_err t = st_err s;
  pu_trace : st_trace t = st_trace s ++ evs ++ [EvDlopen (default (resolved fname) tmp)];
  pu_fresh : (st_next s <= me)%positive;
  pu_tables : named_table s t fname ctx;
  pu_heaps : kept_heaps s t
}.

Lemma mod_load_published exec s fname l r hd ids tmp evs h ctx :
  fetchable s fname l r hd ids tmp evs h ctx ->
  exists p me t, published s fname hd tmp evs ctx me (loaded_mod s fname hd h tmp p ctx) t /\
    _mod_load exec fname s = enter_and_finish exec (load_txn_of s fname hd h tmp p me) t.
Proof using QL.
  intros [Hrun Ha Hexact [ix Hix] Hfresh Hhooks Hids Hhd Hnew Hr Hcur Hopen (g & x & Hg & Hctx & Hx) Hsz].
  set (key := registry_key (resolved fname) (t_region_id (st_tls s))).
  set (s0 := opened_image h (default (resolved fname) tmp) (traced evs s)).
  set (tx := opened_txn s fname hd h tmp).
  assert (qget hd key = None) as Hnew' by (unfold key; by rewrite Hcur).
  assert (tx_lookup tx = LookupResult None (Some key) (Some (resolved fname)) XY_OK) as Hlk.
  { unfold tx, opened_txn. fold key. by rewrite Hnew'. }
  destruct (publish_steps exec tx fname key (resolved fname) s0 hd ix h g ctx x (fun tx =>
      txn_step exec (mod_load_enter_context tx) (fun tx =>
        ret ← mod_load_claim_if_needed exec tx;
        if negb (ret =? XY_OK) then mod_load_abort exec tx ret else load_enter exec tx))
      Ha Hlk eq_refl Hhd Hix Hg Hctx Hx) as (p & me & ih & strs & Hme & Hadd & Hpub).
  cbv zeta in Hpub. set (m := published_mod _ _ _ _ _ _) in Hpub. set (t := published_state _ _ _ _ _ _ _ _ _) in Hpub.
  assert (st_mod s !! me = None) as Hnone.
  { apply eq_None_not_Some. intros Hx'%Hfresh. cbn in Hme. lia. }
  destruct (running_add s t me m Hrun Hnone) as (Hrun1 & Hkeep & Hoff); [done..|cbn in *; lia|].
  exists p, me, t. split.
  - split; try done.
    + by apply (registry_exact_add s t hd key me m).
    + exists x. apply lookup_insert_eq.
    + by exists ix, ih.
    + cbn. by rewrite <- app_assoc.
    + split; [eexists; split; [apply lookup_insert_eq|done]|]. intros c xc Hc Hxc.
      cbn. rewrite lookup_insert_ne by done. by apply lookup_union_Some_l.
    + split; [done|done| |cbn in *; lia]. intros y a Hy. by apply lookup_union_Some_l.
  - rewrite (mod_load_opened_eq exec s fname hd h tmp evs Ha Hhd Hopen) by (fold tx; by rewrite Hlk).
    exact Hpub.
Qed.

Lemma mod_load_listed exec s fname l r ms hd ids tmp evs h ctx :
  loadable s fname l r ms hd ids tmp evs h ctx ->
  exists p me s1, installing s fname l r ms hd ids tmp evs h ctx me s1 /\
    _mod_load exec fname s = finish_load exec (listed_txn s fname hd h tmp p me l) s1.
Proof using QL.
  intros [Hf Hl [Hc Hq]]. pose proof Hf as [_ _ _ _ _ Hhooks Hids _ _ Hr Hcur _ _ Hsz].
  destruct (mod_load_published exec s fname l r hd ids tmp evs h ctx Hf)
    as (p & me & t & [Hrun Hexact Hnone Emod Ereg Hkeep Hoff [x Hx] (ix & ih & Hix & Hadd & Ert) Etls (Ea & Erel & Eerr) Etr Hnew' Htab [Hk1 Hk2 Hk3 Hk4]] & Hload).
  set (m := loaded_mod s fname hd h tmp p ctx) in *. set (key := registry_key (resolved fname) (r_id r)).
  assert (hooks_ok t) as Hhooks' by (unfold hooks_ok; by rewrite Ert).
  destruct (enter_steps exec (load_txn_of s fname hd h tmp p me) t l r ms me m h ids)
    as (s1 & m1 & Henter & Hrun2 & Hl2 & Ho2 & Hm2 & Hb2 & Hw2 & Hall2 & Hag2 & [Hren2 Hoth2] & E2); try done.
  { by rewrite Ereg. }
  { by apply Hkeep. }
  { by rewrite Emod, lookup_insert_eq. }
  { by rewrite Ert. }
  pose proof (fun T f => @bare_fields (st_mod s1) (st_mod t) m1 m T f Hall2 Hb2) as Hfl.
  pose proof (bare_entry _ _ Hb2) as (E_h & E_rc & E_c & E_p & E_id & E_tmp & E_rs & E_key & E_lp).
  rewrite Hcur in Ert. fold key in Ert.
  assert (st_rt s1 = set_rt_mod_count (rt_mod_count (st_rt s) + 1) (st_rt t)) as Ert1 by (rewrite E2; cbn; by rewrite Ert).
  exists p, me, s1. split; [split|].
  - done.
  - apply (registry_exact_keys t); [done|by rewrite Ert1|by apply Hfl].
  - by rewrite Ert1, Ert.
  - done.
  - intros a ms' Hne Hms. by apply Ho2, Hkeep.
  - exists m1. rewrite -> E_h, E_rc, E_c, E_p, E_id, E_tmp, E_rs, E_key. unfold key. by rewrite <- Hcur.
  - split; [done|]. intros y Hy. rewrite Hall2, Emod. by rewrite lookup_insert_ne.
  - exists ix, ih. by rewrite Ert1, Ert.
  - by rewrite Ert1.
  - rewrite E2. cbn. by rewrite Etls.
  - by rewrite E2.
  - rewrite E2. exact Etr.
  - split; [done|]. exists m1. rewrite E_lp. split; [done|by eexists].
  - unfold named_table. by rewrite E2.
  - by rewrite Ert1, Ert.
  - by rewrite <- Ereg.
  - by rewrite <- Ereg.
  - intros y Hy. rewrite Hoth2, Emod by done. by rewrite lookup_insert_ne.
  - rewrite E2. by split.
  - rewrite Hload. unfold enter_and_finish. rewrite Henter, Etls. done.
Qed.

Lemma mod_load_fresh exec s fname l r ms hd ids tmp evs h ctx cb :
  loadable s fname l r ms hd ids tmp evs h ctx -> plat_dlsym (Some h) "xy_install" = Some cb ->
  exists me s1, installing s fname l r ms hd ids tmp evs h ctx me s1 /\
    _mod_load exec fname s =
      install_and_leave exec cb me (t_loading_mod (st_tls s)) (t_region_id (st_tls s))
        (t_region_entry (st_tls s)) s1.
Proof using QL.
  intros H Hcb. destruct (mod_load_listed exec s fname l r ms hd ids tmp evs h ctx H) as (p & me & s1 & Hin & E).
  exists me, s1. split; [done|]. rewrite E. unfold listed_txn. rewrite (finish_install_eq _ _ _ _ me cb) by done.
  by rewrite (in_tls _ _ _ _ _ _ _ _ _ _ _ _ _ Hin).
Qed.

(** C7: loading a module for the first time calls its xy_install in a consistent
    state in which the module is the last of its region's list, is registered
    under its key with one reference and the loading module as its parent, has
    its context and all hooks resolved, and is the module being loaded; whatever
    xy_install does, the caller's region and the outer load are put back and
    the load answers XY_OK. *)
Theorem xy_load_fresh exec s fname l r ms hd ids tmp evs h ctx cb :
  loadable s fname l r ms hd ids tmp evs h ctx -> plat_dlsym (Some h) "xy_install" = Some cb ->
  exists me s1, installing s fname l r ms hd ids tmp evs h ctx me s1 /\
    xy_load exec fname s =
      (ret ← install_and_leave exec cb me (t_loading_mod (st_tls s)) (t_region_id (st_tls s))
               (t_region_entry (st_tls s)); return_err ret) s1.
Proof using QL.
  intros H Hcb. destruct (mod_load_fresh exec s fname l r ms hd ids tmp evs h ctx cb H Hcb) as (me & s1 & Hin & E).
  exists me, s1. split; [done|]. unfold xy_load. rewrite with_runtime_inited by apply H.
  unfold mbind, M_bind in *. by rewrite E.
Qed.

(** ** The short ways out *)

(** Loading a name that is loaded in the caller's region already adds a
    reference and closes the handle it has just opened; the module is not
    entered, listed or installed again, and nothing else of the runtime
    changes. *)
Theorem xy_load_reuses exec s fname hd h e m :
  running s -> st_alloc s = [] -> rt_mod_hd (st_rt s) = Some hd -> st_reloading s = false ->
  plat_dlopen (st_trace s) (resolved fname) = Some (h, false) ->
  qget hd (registry_key (resolved fname) (t_region_id (st_tls s))) = Some e ->
  st_mod s !! e = Some m ->
  exists s', xy_load exec fname s = Ok (XY_OK, s') /\ running s' /\
    st_mod s' = <[e := set_m_refcount (m_refcount m + 1) m]> (st_mod s) /\
    st_reg s' = st_reg s /\ st_rt s' = st_rt s /\ st_tls s' = st_tls s /\
    st_trace s' = st_trace s ++ [EvDlopen (resolved fname); EvDlclose h] /\ st_err s' = XY_OK /\
    st_alloc s' = st_alloc s /\ st_next s' = st_next s /\ st_reloading s' = st_reloading s /\
    (forall c x, st_ctx s !! c = Some x -> st_ctx s' !! c = Some x) /\ kept_heaps s s'.
Proof.
  intros Hrun Ha Hhd Hrel Hopen He Hm.
  set (s0 := opened_image h (resolved fname) s). set (tx := opened_txn s fname hd h None).
  set (s1 := set_st_mod (<[e := set_m_refcount (m_refcount m + 1) m]> (st_mod s0)) s0).
  set (s2 := set_st_trace (st_trace s1 ++ [EvDlclose h]) s1).
  assert (mod_load_try_reuse_existing tx s0 = Ok (true, s2)) as Hreuse.
  { unfold mod_load_try_reuse_existing, tx, opened_txn. cbn [tx_lookup set_tx_tmp_load_path set_tx_handle set_tx_lookup lk_entry].
    rewrite He. by rewrite (bind_Ok _ _ s0 s1 tt) by (apply wp_eq; by eapply wp_upd_module). }
  exists (set_st_err XY_OK s2). split.
  - unfold xy_load. rewrite with_runtime_inited by apply Hrun. unfold mbind at 1, M_bind at 1.
    unfold _mod_load. rewrite (bind_Ok (gets _) _ s s (t_region_id (st_tls s)) eq_refl).
    rewrite (bind_Ok _ _ _ _ _ (open_handle_plain exec fname s hd h Ha Hhd Hrel Hopen)).
    cbn [negb Z.eqb XY_OK]. fold s0. fold tx. by rewrite (bind_Ok _ _ _ _ _ Hreuse).
  - split; [|split; [done|split; [done|split; [done|split; [done|split; [|split_and!; try done]]]]]].
    + assert (running s0) as Hrun0 by by apply (running_same s).
      destruct (refcount_frame s0 e m (m_refcount m + 1) Hrun0 Hm) as (Hrun1 & _).
      by apply (running_same s1).
    + cbn. by rewrite <- app_assoc.
    + intros c x Hx. by apply lookup_union_Some_l.
    + split; [done..| |done]. intros y a Hy. by apply lookup_union_Some_l.
Qed.

(** Loading a file that cannot be opened fails with NOTFOUND, and changes
    nothing but the error. *)
Theorem xy_load_missing exec s fname hd :
  running s -> st_alloc s = [] -> rt_mod_hd (st_rt s) = Some hd -> st_reloading s = false ->
  plat_dlopen (st_trace s) (resolved fname) = None ->
  xy_load exec fname s = Ok (XY_ERR_NOTFOUND,
    set_st_err XY_ERR_NOTFOUND (set_st_trace (st_trace s ++ [EvDlopen (resolved fname)]) s)).
Proof.
  intros Hrun Ha Hhd Hrel Hopen. unfold xy_load. rewrite with_runtime_inited by apply Hrun.
  unfold mbind at 1, M_bind at 1.
  unfold _mod_load. rewrite (bind_Ok (gets _) _ s s (t_region_id (st_tls s)) eq_refl).
  set (s1 := set_st_trace (st_trace s ++ [EvDlopen (resolved fname)]) s).
  rewrite (bind_Ok _ _ s s1 (XY_ERR_NOTFOUND, free_lookup (set_tx_lookup
    (LookupResult (qget hd (registry_key (resolved fname) (t_region_id (st_tls s))))
       (Some (registry_key (resolved fname) (t_region_id (st_tls s)))) (Some (resolved fname)) XY_OK)
    (txn_zero (t_region_id (st_tls s)))))); [done|]. unfold mod_load_open_handle.
  rewrite (bind_Ok _ _ _ _ _ (module_lookup_from_fname_eq fname _ hd s Ha Hhd)).
  cbn [lk_err lk_load_path negb Z.eqb XY_OK].
  rewrite (bind_Ok (gets _) _ s s false) by (unfold gets; by rewrite Hrel).
  rewrite (bind_Ok (mret None) _ s s None eq_refl).
  by rewrite (bind_Ok _ _ s s1 None) by by rewrite dlopen_eq, Hopen.
Qed.

End LoadFresh.
