(* ===== verification/LoadClaim.v ===== *)
(** * Loading a module into a region of its own

    The load transaction when the module claims a region and the handler of the
    parent region grants it: the child region is made, the module moves there
    from the region it was published in, and is installed as its first module. *)

From S2P Require Import Prelude QMap Status State Machine ModKey Linked Region RegionTree.
From S2P Require Import RegionSlots ModList Runtime Paths Identity FnCache RegionApi Deny Claim.
From S2P Require Import Dispatch Areg CopyFile Load LoadSpec LoadFresh.
From stdpp Require Import options.
Local Open Scope Z_scope.

Section LoadClaim.
Context {Q : QMapOps} {QL : QMapLaws Q} {P : Platform}.
Implicit Types (s t : state) (m : mod_entry) (r : region_entry).

(** ** The move *)

(** The slot search looks at the regions only. *)
Lemma region_alloc_slot_same s s' l bits id :
  st_reg s' = st_reg s -> rt_region_hd (st_rt s') = rt_region_hd (st_rt s) ->
  region_alloc_slot l bits s = Ok (id, s) -> region_alloc_slot l bits s' = Ok (id, s').
Proof.
  intros Er Eh. unfold region_alloc_slot, region_at, handle, gets, must, mbind, M_bind.
  rewrite Er. destruct (st_reg s !! l) as [p|]; [|done]. cbn -[loop_pow].
  destruct (64 <? _); [by intros [= <-]|]. cbn -[loop_pow]. rewrite Eh.
  destruct (rt_region_hd (st_rt s)) as [hd|]; [|done]. cbn -[loop_pow].
  destruct (loop_pow _ _ _); [done|]. by intros [= <-].
Qed.

(** The state after a module [me], [m], with the table [c], [x], has moved from
    the region [parent] to the region [id]. *)
Definition rekeyed_state s (me : loc) m (old key : string) (parent id : Z) (hd : qmap string loc)
    (ix : qmulti Z loc) (c : loc) (x : xy_t) : state :=
  set_st_ctx (<[c := set_x_region_id id x]> (st_ctx s))
    (set_st_mod (<[me := rekeyed_mod id key m]> (st_mod s))
      (set_st_rt (set_rt_mod_by_region_hd (Some (reindexed ix me parent id))
        (set_rt_mod_hd (Some (qdel (qput hd key me) old)) (st_rt s))) s)).

Lemma rekey_for_claim_eq s fname parent id me m hd ix c x :
  st_alloc s = [] -> rt_mod_hd (st_rt s) = Some hd -> rt_mod_by_region_hd (st_rt s) = Some ix ->
  qget hd (registry_key (resolved fname) parent) = Some me -> st_mod s !! me = Some m ->
  m_ctx m = Some c -> st_ctx s !! c = Some x ->
  module_rekey_for_claim fname parent id s =
    Ok (tt, rekeyed_state s me m (registry_key (resolved fname) parent)
              (registry_key (resolved fname) id) parent id hd ix c x).
Proof.
  intros Ha Hhd Hix Hg Hm Hc Hx. unfold module_rekey_for_claim.
  rewrite (bind_Ok _ _ _ _ _ (module_lookup_from_fname_eq fname parent hd s Ha Hhd)).
  cbn [lk_load_path lk_entry lk_key]. rewrite Hg. unfold module_rekey_loaded_entry.
  rewrite (bind_Ok try_alloc _ s s true) by (unfold try_alloc; by rewrite Ha).
  apply wp_eq. unfold module_rekey_region_index. repeat wp_step. cbn. rewrite Hc.
  unfold upd_ctx. wp_step. eapply wp_ctx_at; [exact Hx|]. wp_step. split; [done|].
  unfold rekeyed_state. cbn. by rewrite insert_insert_eq.
Qed.

(** The registry, exact again under the new key. *)
Lemma registry_exact_rekey s s' hd k k' me m m' :
  registry_exact s -> rt_mod_hd (st_rt s) = Some hd -> st_mod s !! me = Some m -> m_mod_key m = k ->
  qget hd k' = None -> k' <> k -> m_mod_key m' = k' ->
  rt_mod_hd (st_rt s') = Some (qdel (qput hd k' me) k) -> st_mod s' = <[me := m']> (st_mod s) ->
  registry_exact s'.
Proof using QL.
  intros (hd0 & E0 & Hexact) Hhd Hm Ek Hfree Hne Ek' Hhd' Emod. rewrite Hhd in E0. injection E0 as <-.
  assert (qget hd k = Some me) as Hme by (apply Hexact; by exists m).
  exists (qdel (qput hd k' me) k). split; [done|]. intros key y. rewrite Emod, qget_del, qget_put. split.
  - repeat case_decide; [done| |].
    + intros [= <-]. rewrite lookup_insert_eq. exists m'. split; congruence.
    + intros (my & Hy & Eky)%Hexact. rewrite lookup_insert_ne; [by exists my|]. congruence.
  - intros (my & Hy & Eky). apply lookup_insert_Some in Hy as [[<- <-]|[Hmy Hy]].
    + rewrite decide_False by congruence. by rewrite decide_True by congruence.
    + assert (qget hd key = Some y) as Hg by (apply Hexact; by exists my).
      rewrite decide_False by congruence. by rewrite decide_False by congruence.
Qed.

(** ** The claim *)

(** The region [l] hands out regions: its handler, asked on behalf of [fname] by
    an image [h] that claims, grants [granted] bits, for which the slot [id] is
    free. *)
Record grants (exec : executor) (s : state) (fname : string) (l : loc) (r : region_entry) (h : loc)
    (granted id : Z) : Prop := {
  gr_handler : exists sym handler out, plat_dlsym (Some h) "xy_claim" = Some sym /\
    1 <= plat_claim_byte sym <= 64 /\ r_claim_handler r = Some handler /\ int_result out = XY_OK /\
    granted_byte out = granted /\
    forall t, exec (CbClaim handler fname (plat_claim_byte sym) (r_claim_handler_ud r)) t = Ok (out, t);
  gr_bits : 1 <= granted <= 64;
  gr_slot : region_alloc_slot l granted s = Ok (id, s);
  gr_found : id <> XY_REGION_INVALID
}.

(** The claim makes the region and moves the module there. *)
Lemma claim_if_needed_eq exec tx s fname l r h granted id me m hd ix c x :
  running s -> grants exec s fname l r h granted id -> st_alloc s = [] -> st_reg s !! l = Some r ->
  tx_inherited_reg tx = Some l -> tx_inherited_region_id tx = r_id r -> tx_handle tx = Some h ->
  tx_stable_fname tx = Some fname -> rt_mod_hd (st_rt s) = Some hd ->
  rt_mod_by_region_hd (st_rt s) = Some ix -> qget hd (registry_key (resolved fname) (r_id r)) = Some me ->
  st_mod s !! me = Some m -> m_ctx m = Some c -> st_ctx s !! c = Some x ->
  exists ls, linked (parent_of (st_reg s)) (Some l) ls /\
    mod_load_claim_if_needed exec tx s =
      Ok (XY_OK, set_st_err XY_OK (rekeyed_state (claim_state s l r id granted (Some fname) ls) me m
        (registry_key (resolved fname) (r_id r)) (registry_key (resolved fname) id) (r_id r) id hd ix c x)).
Proof.
  intros Hrun [(sym & handler & out & Hsym & Hb & Hh & Hret & Hg & Hexec) Hbits Hslot Hfound] Ha Hl
    Hreg Hid Hhdl Hfn Hhd Hix Hme Hm Hc Hx.
  pose proof (run_tree _ Hrun) as Hok. destruct (up_chain _ _ _ Hok Hl) as (ls & Hls & _).
  destruct (to_hd _ Hok) as (rhd & Hrhd & _). exists ls. split; [done|].
  assert (region_at l s = Ok (r, s)) as Hat by (apply wp_eq; by eapply wp_region_at).
  unfold mod_load_claim_if_needed. rewrite Hreg, (bind_Ok _ _ _ _ _ Hat), Hhdl, Hsym, Hh.
  rewrite bool_decide_eq_true_2 by by eexists. cbn [negb andb]. rewrite Hfn, Hid. unfold _xy_claim_for_load.
  destruct (Z.eqb_spec (plat_claim_byte sym) 0), (Z.ltb_spec 64 (plat_claim_byte sym)); try lia. cbn [orb].
  rewrite (bind_Ok _ _ _ _ _ (region_lookup_found _ _ _ Hok Hl)), (bind_Ok _ _ _ _ _ Hat), Hh.
  rewrite (bind_Ok _ _ s s out) by apply Hexec. rewrite Hret. cbv zeta. rewrite Hg.
  destruct (Z.eqb_spec granted 0), (Z.ltb_spec 64 granted); try lia. cbn [negb orb Z.eqb XY_OK].
  rewrite (claim_slot_run s l r (r_id r) id granted (Some fname) ls rhd);
    [|done|by apply next_unused|done..].
  set (s1 := claim_state _ _ _ _ _ _ _).
  by rewrite (bind_Ok _ _ _ _ _ (rekey_for_claim_eq s1 fname (r_id r) id me m hd ix c x Ha Hhd Hix Hme Hm Hc Hx)).
Qed.

(** [fname] can be loaded, and gets the region [id] for itself.  The key of the
    module in its new region must be free, and another one than the key it is
    published under: [registry_key] does not see the last four bits of an id. *)
Record claimable (exec : executor) (s : state) (fname : string) (l : loc) (r : region_entry)
    (hd : qmap string loc) (ids : qmap string Z) (tmp : option string) (evs : list ext_event)
    (h ctx : loc) (granted id : Z) : Prop := {
  ca_fetchable : fetchable s fname l r hd ids tmp evs h ctx;
  ca_grants : grants exec s fname l r h granted id;
  ca_free : qget hd (registry_key (resolved fname) id) = None;
  ca_other : registry_key (resolved fname) id <> registry_key (resolved fname) (r_id r)
}.

(** The child [c] of the region [l], [r], made between [s] and [s']. *)
Record own_region (s s' : state) (l : loc) (r : region_entry) (granted id : Z) (c : loc) : Prop := {
  ow_new : st_reg s !! c = None;
  ow_free : ~ RegionSlots.registered s id;
  ow_under : r_plen r + granted < 64 -> under (r_id r) (r_plen r) id;
  ow_entry : exists e, st_reg s' !! c = Some e /\ r_id e = id /\ r_parent e = Some l /\
    r_plen e = r_plen r + granted /\ r_depth e = r_depth r + 1 /\ r_child_bits e = granted;
  ow_kids : forall ks, linked (sibling_of (st_reg s)) (r_children_head r) ks ->
    exists r', st_reg s' !! l = Some r' /\
      linked (sibling_of (st_reg s')) (r_children_head r') (c :: ks);
  ow_rest : forall a x, st_reg s !! a = Some x -> exists x', st_reg s' !! a = Some x' /\
    r_id x' = r_id x /\ r_parent x' = r_parent x /\ r_sibling_next x' = r_sibling_next x /\
    (a <> l -> r_children_head x' = r_children_head x)
}.

Lemma claimed_own s t t' l r granted id c :
  st_reg t = st_reg s -> claimed t t' l c r granted -> t_region_id (st_tls t') = id ->
  forall s', agree reg_core (st_reg t') (st_reg s') -> own_region s s' l r granted id c.
Proof.
  intros Er [Hnew (e & He & Hp & Hplen & Hd & Hb & Hfree & Hu & _ & Hid) _ Hkids Hrest] Hcur s' Hag.
  rewrite Hid in Hcur. assert (forall a x, st_reg t' !! a = Some x ->
    exists x', st_reg s' !! a = Some x' /\ reg_core x = reg_core x') as Hx.
  { intros a x Hx. specialize (Hag a). rewrite Hx in Hag. destruct (st_reg s' !! a) as [x'|]; [|done].
    exists x'. split; [done|]. by apply (inj Some). }
  assert (forall T (f : region_entry -> T) x x', (forall u, f (reg_core u) = f u) ->
    reg_core x = reg_core x' -> f x' = f x) as Hf.
  { intros T f x x' Hf E. by rewrite <- (Hf x), <- (Hf x'), E. }
  rewrite Er in *. split.
  - done.
  - intros (a & x & Ha & Ex). apply Hfree. exists a, x. rewrite Er, Ex. by rewrite Hcur.
  - intros Hlt. rewrite <- Hcur. apply Hu. by rewrite Hplen.
  - destruct (Hx _ _ He) as (e' & He' & Ec). exists e'. split; [done|].
    by rewrite (Hf _ r_id _ _ ltac:(done) Ec), (Hf _ r_parent _ _ ltac:(done) Ec), (Hf _ r_plen _ _ ltac:(done) Ec),
      (Hf _ r_depth _ _ ltac:(done) Ec), (Hf _ r_child_bits _ _ ltac:(done) Ec).
  - intros ks (r1 & Hr1 & _ & Hks)%Hkids. destruct (Hx _ _ Hr1) as (r' & Hr' & Ec). exists r'. split; [done|].
    rewrite (Hf _ r_children_head _ _ ltac:(done) Ec). eapply linked_mono; [|exact Hks].
    intros a _. symmetry. exact (agree_core r_sibling_next _ _ ltac:(done) Hag a).
  - intros a x Ha. destruct (Hrest _ _ Ha) as (x1 & Hx1 & E1 & E2 & E3 & E4).
    destruct (Hx _ _ Hx1) as (x' & Hx' & Ec). exists x'. split; [done|].
    rewrite (Hf _ r_id _ _ ltac:(done) Ec), (Hf _ r_parent _ _ ltac:(done) Ec),
      (Hf _ r_sibling_next _ _ ltac:(done) Ec), (Hf _ r_children_head _ _ ltac:(done) Ec). done.
Qed.

(** What the claim of the published module [me], [m], with the table [ctx], [x],
    has done: [c] is the new region. *)
Record moved (s s' : state) (l : loc) (r : region_entry) (granted id : Z) (key : string) (me : loc)
    (m : mod_entry) (hd : qmap string loc) (ctx : loc) (x : xy_t) (c : loc) : Prop := {
  mv_running : running s';
  mv_exact : registry_exact s';
  mv_claimed : claimed s s' l c r granted;
  mv_empty : mod_list s' c [];
  mv_lists : forall a ms, mod_list s a ms -> mod_list s' a ms;
  mv_off : on_no_list s' me;
  mv_mod : st_mod s' = <[me := rekeyed_mod id key m]> (st_mod s);
  mv_ctx : st_ctx s' = <[ctx := set_x_region_id id x]> (st_ctx s);
  mv_rt : exists ix rhd, st_rt s' = set_rt_mod_by_region_hd (Some ix)
    (set_rt_mod_hd (Some (qdel (qput hd key me) (m_mod_key m))) (set_rt_region_hd rhd (st_rt s)));
  mv_tls : st_tls s' = set_t_region_entry (Some c) (set_t_region_id id (st_tls s));
  mv_rest : st_alloc s' = [] /\ st_reloading s' = st_reloading s /\ st_err s' = XY_OK /\
    st_trace s' = st_trace s
}.

Lemma claim_moves exec tx s fname l r h granted id me m hd ix ctx x :
  let key := registry_key (resolved fname) id in
  running s -> registry_exact s -> grants exec s fname l r h granted id -> st_alloc s = [] ->
  st_reg s !! l = Some r -> tx_inherited_reg tx = Some l -> tx_inherited_region_id tx = r_id r ->
  tx_handle tx = Some h -> tx_stable_fname tx = Some fname -> rt_mod_hd (st_rt s) = Some hd ->
  rt_mod_by_region_hd (st_rt s) = Some ix -> m_mod_key m = registry_key (resolved fname) (r_id r) ->
  st_mod s !! me = Some m -> m_region_entry m = None -> m_ctx m = Some ctx -> st_ctx s !! ctx = Some x ->
  qget hd key = None -> key <> m_mod_key m ->
  exists s', mod_load_claim_if_needed exec tx s = Ok (XY_OK, s') /\
    moved s s' l r granted id key me m hd ctx x (st_next s).
Proof using QL.
  intros key Hrun Hexact Hgr Ha Hl Hreg Hid Hh Hfn Hhd Hix Ekey Hm Hown Hctx Hx Hfree Hne.
  assert (qget hd (registry_key (resolved fname) (r_id r)) = Some me) as Hme.
  { destruct Hexact as (hd' & E & Hex). rewrite Hhd in E. injection E as <-. apply Hex. by exists m. }
  destruct (claim_if_needed_eq exec tx s fname l r h granted id me m hd ix ctx x Hrun Hgr) as (ls & Hls & Hclaim);
    [done..|].
  pose proof (run_tree _ Hrun) as Hok. pose proof (next_unused _ Hok) as Hc.
  destruct Hgr as [_ Hbits Hslot Hfound].
  destruct (alloc_slot_id s l r granted Hok Hl Hbits) as (id' & Hslot' & Hid').
  rewrite Hslot in Hslot'. injection Hslot' as <-.
  destruct (new_child_leaf s l r id granted (Some fname) Hok Hl ltac:(lia) (Hid' Hfound)) as [Hplen Hleaf].
  specialize (Hleaf (r_children_head r)). set (s1 := claim_state s l r id granted (Some fname) ls) in *.
  assert (running s1) as Hrun1 by by apply claim_state_running.
  assert (claimed s s1 l (st_next s) r granted) as Hcl.
  { apply child_state_claimed; try done. inversion Hls; left. }
  rewrite <- Ekey in Hclaim. fold key in Hclaim.
  set (s2 := rekeyed_state s1 me m (m_mod_key m) key (r_id r) id hd ix ctx x) in *.
  assert (rekey_frame s1 s2) as Hf.
  { split; try done. intros y. cbn. rewrite lookup_insert. case_decide; [|done]. subst. by rewrite Hm. }
  assert (forall a ms, mod_list s1 a ms -> mod_list (set_st_err XY_OK s2) a ms) as Hkeep.
  { intros a ms H. apply (mod_list_frame s1); [done|done|]. intros y _.
    pose proof (f_equal (fmap mod_links) (rf_mod _ _ Hf y)) as E. by rewrite <- !option_fmap_compose in E. }
  assert (running (set_st_err XY_OK s2)) as Hrun2 by by apply running_err, (rekey_running s1).
  exists (set_st_err XY_OK s2). split; [done|]. split; try done.
  - by apply (registry_exact_rekey s1 _ hd (m_mod_key m) key me m (rekeyed_mod id key m)).
  - by apply (claimed_frame s s1).
  - apply Hkeep, claim_state_empty; done.
  - intros a ms H. by apply Hkeep, claim_state_list.
  - intros a ms H Hin. pose proof (mod_list_owner _ _ _ _ (run_mods _ Hrun2) H Hin) as Ho.
    unfold owner_of in Ho. cbn in Ho. rewrite lookup_insert_eq in Ho. cbn in Ho. congruence.
  - by eexists _, _.
Qed.

(** ** The whole load *)

(** The state in which the module, alone in its region [c], looks for its
    xy_install. *)
Record installing_own (s : state) (fname : string) (l : loc) (r : region_entry)
    (hd : qmap string loc) (ids : qmap string Z) (tmp : option string) (evs : list ext_event)
    (h ctx : loc) (granted id : Z) (me c : loc) (s1 : state) : Prop := {
  io_running : running s1;
  io_exact : registry_exact s1;
  io_keys : exists hd', rt_mod_hd (st_rt s1) = Some hd' /\
    forall k, qget hd' k = if decide (k = registry_key (resolved fname) id) then Some me else qget hd k;
  io_region : own_region s s1 l r granted id c;
  io_list : mod_list s1 c [me];
  io_others : forall a ms, mod_list s a ms -> mod_list s1 a ms;
  io_module : exists m, st_mod s1 !! me = Some m /\ m_handle m = Some h /\ m_refcount m = 1 /\
    m_ctx m = Some ctx /\ m_parent_entry m = t_loading_mod (st_tls s) /\ m_region_id m = id /\
    m_tmp_load_path m = tmp /\ m_mod_key m = registry_key (resolved fname) id /\ warm ids m;
  io_modules : st_mod s !! me = None /\
    forall x, x <> me -> bare <$> st_mod s1 !! x = bare <$> st_mod s !! x;
  io_table : exists x, st_ctx s1 !! ctx = Some (set_x_region_id id
    (fill_module_table (Some fname) (r_id r) x));
  io_count : rt_mod_count (st_rt s1) = rt_mod_count (st_rt s) + 1;
  io_tls : st_tls s1 = set_t_region_entry (Some c) (set_t_region_id id
    (set_t_pending_ctx None (st_tls s)));
  io_rest : st_alloc s1 = [] /\ st_reloading s1 = st_reloading s /\ st_err s1 = XY_OK;
  io_trace : st_trace s1 = st_trace s ++ evs ++ [EvDlopen (default (resolved fname) tmp)];
  io_index : is_Some (rt_mod_by_region_hd (st_rt s1));
  io_new : (st_next s <= me)%positive /\
    exists m, st_mod s1 !! me = Some m /\ is_Some (m_load_path m);
  io_tables : named_table s s1 fname ctx
}.

(** From the published module to the end of the claim. *)
Lemma enter_and_move exec s fname l r hd ids tmp evs h ctx granted id p me t :
  let m := loaded_mod s fname hd h tmp p ctx in
  claimable exec s fname l r hd ids tmp evs h ctx granted id ->
  published s fname hd tmp evs ctx me m t ->
  exists c x s2, enter_and_finish exec (load_txn_of s fname hd h tmp p me) t =
      load_enter exec (listed_txn s fname hd h tmp p me l) s2 /\
    st_ctx t !! ctx = Some (fill_module_table (Some fname) (r_id r) x) /\
    moved (set_st_tls (set_t_region_entry (Some l) (set_t_region_id (r_id r) (st_tls t))) t) s2 l r granted id
      (registry_key (resolved fname) id) me m (qput hd (registry_key (resolved fname) (r_id r)) me) ctx
      (fill_module_table (Some fname) (r_id r) x) c.
Proof using QL.
  intros m [Hf Hgr Hfree Hne] [Hrun Hexact _ Emod Ereg _ _ [x Hx] (ix & ih & _ & _ & Ert) Etls (Ea & _) _].
  pose proof (ld_region _ _ _ _ _ _ _ _ _ _ Hf) as Hl. pose proof (ld_current _ _ _ _ _ _ _ _ _ _ Hf) as Hcur.
  rewrite Hcur in Hx, Ert. rewrite <- Ereg in Hl.
  set (tx := load_txn_of s fname hd h tmp p me).
  set (t1 := set_st_tls (set_t_region_entry (Some l) (set_t_region_id (r_id r) (st_tls t))) t).
  assert (grants exec t1 fname l r h granted id) as Hgr1.
  { destruct Hgr as [H1 H2 H3 H4]. split; [done|done| |done].
    eapply region_alloc_slot_same; [exact Ereg| |exact H3]. cbn. by rewrite Ert. }
  destruct (claim_moves exec (entered_txn tx l (t_region_id (st_tls t)) (t_region_entry (st_tls t))) t1 fname l r h
    granted id me m (qput hd (registry_key (resolved fname) (r_id r)) me) (qmput ix (r_id r) me) ctx
    (fill_module_table (Some fname) (r_id r) x)) as (s2 & Hclaim & Hmoved); try done.
  - by apply (running_same t).
  - cbn. by rewrite Ert.
  - cbn. by rewrite Ert.
  - cbn. by rewrite Hcur.
  - cbn. by rewrite Emod, lookup_insert_eq.
  - rewrite qget_put, decide_False by done. done.
  - cbn. by rewrite Hcur.
  - exists (st_next t1), x, s2. split; [|done]. unfold enter_and_finish.
    rewrite (enter_context_eq exec tx t l r) by done. fold t1. rewrite (bind_Ok _ _ _ _ _ Hclaim).
    cbn [negb Z.eqb XY_OK]. unfold listed_txn. by rewrite Etls.
Qed.

Lemma mod_load_claimed exec s fname l r hd ids tmp evs h ctx granted id :
  claimable exec s fname l r hd ids tmp evs h ctx granted id ->
  exists p me c s1, installing_own s fname l r hd ids tmp evs h ctx granted id me c s1 /\
    _mod_load exec fname s = finish_load exec (listed_txn s fname hd h tmp p me l) s1.
Proof using QL.
  intros Hca. pose proof Hca as [Hf _ Hfree Hne].
  pose proof Hf as [_ _ _ _ _ Hhooks Hids _ Hnew Hl Hcur _ _ Hsz].
  destruct (mod_load_published exec s fname l r hd ids tmp evs h ctx Hf) as (p & me & t & Hpub & Hload).
  set (m := loaded_mod s fname hd h tmp p ctx) in *. set (key := registry_key (resolved fname) id) in *.
  destruct (enter_and_move exec s fname l r hd ids tmp evs h ctx granted id p me t Hca Hpub)
    as (c & x & s2 & Henter & _ & [Hrun2 Hexact2 Hcl Hempty Hkeep2 Hoff Emod2 Ectx2 (ix & rhd & Ert2) Etls2 (Ea2 & Erel2 & Eerr2 & Etr2)]).
  fold m key in Emod2, Ert2.
  destruct Hpub as [_ _ Hnone Emod Ereg Hkeep _ _ (ix0 & ih & _ & _ & Ert) Etls (_ & Erel & _) Etr Hfresh Htab].
  pose proof (cl_entry _ _ _ _ _ _ Hcl) as (e & He & _ & _ & _ & _ & _ & _ & _ & Eid).
  rewrite Etls2 in Eid. cbn in Eid.
  destruct (load_enter_listed exec (listed_txn s fname hd h tmp p me l) s2 c e [] me (rekeyed_mod id key m) h ids)
    as (s1 & m1 & Hrun & Hrun1 & Hl1 & Ho1 & Hm1 & Hb1 & Hw1 & Hall1 & Hag & _ & E1); try done.
  { by rewrite Emod2, lookup_insert_eq. }
  { unfold hooks_ok. rewrite Ert2. cbn. by rewrite Ert. }
  { rewrite Ert2. cbn. by rewrite Ert. }
  pose proof (fun T f => @bare_fields (st_mod s1) (st_mod s2) m1 (rekeyed_mod id key m) T f Hall1 Hb1) as Hfl.
  pose proof (bare_entry _ _ Hb1) as (E_h & E_rc & E_c & E_p & E_id & E_tmp & E_rs & E_key & E_lp).
  assert (st_rt s1 = set_rt_mod_count (rt_mod_count (st_rt s) + 1) (st_rt s2)) as Ert1.
  { rewrite E1. cbn. rewrite Ert2. cbn. by rewrite Ert. }
  assert (forall a ms, mod_list s a ms -> mod_list s1 a ms) as Hkeep1.
  { intros a ms Hms. apply Ho1; [|by apply Hkeep2, Hkeep]. intros ->. destruct Hms as (rc & Hrc & _).
    pose proof (cl_new _ _ _ _ _ _ Hcl) as Hn. cbn in Hn. rewrite Ereg in Hn. congruence. }
  exists p, me, c, s1. split; [split|].
  - done.
  - apply (registry_exact_keys s2); [done|by rewrite Ert1|by apply Hfl].
  - eexists. split; [rewrite Ert1, Ert2; reflexivity|]. intros k. rewrite qget_del, qget_put, qget_put.
    change (m_mod_key m) with (registry_key (resolved fname) (t_region_id (st_tls s))). rewrite Hcur.
    fold key. repeat case_decide; congruence.
  - eapply claimed_own; [|exact Hcl|by rewrite Etls2|exact Hag]. exact Ereg.
  - exact Hl1.
  - done.
  - exists m1. by rewrite -> E_h, E_rc, E_c, E_p, E_id, E_tmp, E_key.
  - split; [done|]. intros y Hy. rewrite Hall1, Emod2. cbn. by rewrite lookup_insert_ne, Emod, lookup_insert_ne.
  - exists x. rewrite E1. cbn. by rewrite Ectx2, lookup_insert_eq.
  - by rewrite Ert1.
  - rewrite E1. cbn. rewrite Etls2. cbn. by rewrite Etls.
  - rewrite E1. cbn. rewrite Erel2. cbn. done.
  - rewrite E1. cbn. by rewrite Etr2.
  - rewrite Ert1, Ert2. by eexists.
  - split; [done|]. exists m1. rewrite E_lp. split; [done|by eexists].
  - split; [exists (set_x_region_id id (fill_module_table (Some fname) (r_id r) x)); split; [|done]|].
    + rewrite E1. cbn. by rewrite Ectx2, lookup_insert_eq.
    + intros c' x' Hc' Hx'. rewrite E1. cbn. rewrite Ectx2, lookup_insert_ne by done.
      by apply (proj2 Htab).
  - by rewrite Hload, Henter.
Qed.

(** C8: loading a module that claims a region, which the handler of the thread's
    region grants.  The child region is new, first among the children and within
    its parent's prefix; the module has moved there from the registration it was
    published under and is alone on its list, with one reference, all hooks
    resolved and the new region in its function table; every other list and
    registration is as it was, and the registry is exact.  That is the state in
    which xy_install is called; after it the caller's region and the outer load
    are put back and the load answers XY_OK. *)
Theorem xy_load_claims exec s fname l r hd ids tmp evs h ctx granted id cb :
  claimable exec s fname l r hd ids tmp evs h ctx granted id ->
  plat_dlsym (Some h) "xy_install" = Some cb ->
  exists me c s1, installing_own s fname l r hd ids tmp evs h ctx granted id me c s1 /\
    xy_load exec fname s =
      (ret ← install_and_leave exec cb me (t_loading_mod (st_tls s)) (t_region_id (st_tls s))
               (t_region_entry (st_tls s)); return_err ret) s1.
Proof using QL.
  intros Hca Hcb. destruct (mod_load_claimed exec s fname l r hd ids tmp evs h ctx granted id Hca)
    as (p & me & c & s1 & Hin & E).
  exists me, c, s1. split; [done|]. unfold xy_load. rewrite with_runtime_inited by apply Hca.
  assert (t_loading_mod (st_tls s1) = t_loading_mod (st_tls s)) as Et
    by (rewrite (io_tls _ _ _ _ _ _ _ _ _ _ _ _ _ _ _ Hin); done).
  unfold listed_txn in E. rewrite (finish_install_eq _ _ _ _ me cb), Et in E by done.
  unfold mbind, M_bind in *. by rewrite E.
Qed.

End LoadClaim.
