(* ===== verification/Unload.v ===== *)
(** * Unloading and reloading a module

    [_mod_unload], [xy_unload] and [xy_reload] of src/libxylem-module.c. *)

From S2P Require Import Prelude QMap Status State Machine ModKey Linked Region RegionTree ModList.
From S2P Require Import Runtime Paths Identity FnCache RegionApi Deny Claim Load.
From stdpp Require Import options.
Local Open Scope Z_scope.

Section Unload.
Context {Q : QMapOps} {P : Platform}.

(** The modules whose loader is [entry]. *)
Definition loaded_by (mods : gmap loc mod_entry) (entry : loc) (ms : list (string * loc))
    : list loc :=
  filter (fun m => m <> entry /\ m_parent_entry <$> mods !! m = Some (Some entry)) ms.*2.

(** Every registered module is live. *)
Definition all_live (mods : gmap loc mod_entry) (ms : list (string * loc)) : bool :=
  forallb (fun kv => bool_decide (is_Some (mods !! kv.2))) ms.

(** [for (i = 0; i < nchildren; i++)] *)
Fixpoint unload_children (unload : string -> Z -> XM Z) (children : list loc) : XM unit :=
  match children with
  | [] => mret tt
  | child :: rest =>
      c ← module_at child;
      path ← (match m_ctx c with
              | Some ctx => x ← ctx_at ctx; mret (x_module_path x)
              | None => mret None
              end);
      (match path with Some path => unload path (m_region_id c) | None => mret XY_OK end);;
      unload_children unload rest
  end.

(** [fuel] bounds the depth of the cascade. *)
Fixpoint _mod_unload (exec : executor) (fuel : nat) (fname : string) (region_id : Z) : XM Z :=
  match fuel with
  | O => out_of_fuel
  | S fuel' =>
      lookup ← module_lookup_from_fname fname region_id;
      if negb (lk_err lookup =? XY_OK) then return_err (lk_err lookup)
      else
        match lk_entry lookup with
        | None => return_err XY_ERR_NOTFOUND
        | Some entry =>
            upd_module entry (fun m => set_m_refcount (m_refcount m - 1) m);;
            m ← module_at entry;
            if 0 <? m_refcount m then mret XY_OK
            else
              hd ← handle rt_mod_hd;
              mods ← gets st_mod;
              (if all_live mods (qiter hd) then mret tt else undef);;
              unload_children (_mod_unload exec fuel') (loaded_by mods entry (qiter hd));;
              module_clear_fn_cache_for_handle entry;;
              m ← module_at entry;
              (match m_region_entry m, m_load_path m with
               | Some _, Some _ =>
                   module_remove_path_owned_entries (m_region_entry m) (m_load_path m) (m_handle m)
               | _, _ => mret tt
               end);;
              module_region_detach entry;;
              unregister entry;;
              upd_rt (fun rt => set_rt_mod_count (rt_mod_count rt - 1) rt);;
              module_free_entry exec entry true;;
              mret XY_OK
        end
  end.

(** A cascade goes from a module to one that it loaded; the live modules bound
    its depth. *)
Definition mod_unload (exec : executor) (fname : string) (region_id : Z) : XM Z :=
  n ← gets (fun s => size (st_mod s)); _mod_unload exec (S n) fname region_id.

Definition xy_unload (exec : executor) (fname : string) : XM Z :=
  with_runtime (
    region_id ← gets (fun s => t_region_id (st_tls s));
    ret ← mod_unload exec fname region_id;
    return_err ret).

Definition xy_reload (exec : executor) (fname : string) : XM Z :=
  with_runtime (
    region_id ← gets (fun s => t_region_id (st_tls s));
    lookup ← module_lookup_from_fname fname region_id;
    if negb (lk_err lookup =? XY_OK) then return_err (lk_err lookup)
    else
      match lk_entry lookup with
      | None => return_err XY_ERR_NOTFOUND
      | Some existing =>
          m ← module_at existing;
          let insert_after := m_region_prev m in
          let re := m_region_entry m in
          uret ← mod_unload exec fname region_id;
          if negb (uret =? XY_OK) then return_err uret
          else
            modify (set_st_reloading true);;
            lret ← _mod_load exec fname;
            modify (set_st_reloading false);;
            if negb (lret =? XY_OK) then return_err lret
            else
              lookup ← module_lookup_from_fname fname region_id;
              if negb (lk_err lookup =? XY_OK) then return_err (lk_err lookup)
              else
                match lk_entry lookup, re with
                | Some new_entry, Some _ =>
                    module_region_detach new_entry;;
                    module_region_insert_after re new_entry insert_after;;
                    return_err XY_OK
                | _, _ => return_err XY_OK
                end
      end).

End Unload.
