(* ===== verification/UnloadSpec.v ===== *)
(** * Unloading: theorems

    What [xy_unload] does on each of its ways out, and what is left of the
    invariants when a module goes. *)

From S2P Require Import Prelude QMap Status State Machine ModKey Linked Region RegionTree ModList.
From S2P Require Import Runtime Paths Identity FnCache RegionApi Deny Claim Load LoadSpec Unload.
From stdpp Require Import options.
Local Open Scope Z_scope.

Section UnloadSpec.
Context {Q : QMapOps} {QL : QMapLaws Q} {P : Platform}.
Implicit Types (s : state) (m : mod_entry) (r : region_entry).

(** ** Forgetting cached functions *)

(** A module less its function cache. *)
Definition uncached (m : mod_entry) : mod_entry := set_m_fn_cache [] m.

(** The function pointer may have been forgotten with the image [hdl]. *)
Definition forgot (hdl : option loc) (fp fp' : fnptr) : Prop :=
  fp' = fp \/ exists base, module_handle_base hdl = Some base /\ fp' = forget_fn base fp.

(** [m'] has forgotten no function but those of the image [hdl]. *)
Definition forgets (hdl : option loc) (m m' : mod_entry) : Prop :=
  m_hook_impl_bits m' = m_hook_impl_bits m /\ Forall2 (forgot hdl) (m_fn_cache m) (m_fn_cache m').

#[local] Instance forgot_refl hdl : Reflexive (forgot hdl).
Proof. intros fp. by left. Qed.

Lemma forget_fn_twice base fp : forget_fn base (forget_fn base fp) = forget_fn base fp.
Proof. destruct fp as [| |a]; try done. cbn. case_decide as H; [done|]. cbn. by rewrite decide_False. Qed.

#[local] Instance forgot_trans hdl : Transitive (forgot hdl).
Proof.
  intros f1 f2 f3 [->|(b & Hb & ->)] [->|(b' & Hb' & ->)]; [by left|by right; eexists..|].
  right. exists b. rewrite Hb in Hb'. injection Hb' as <-. by rewrite forget_fn_twice.
Qed.

#[export] Instance forgets_refl hdl : Reflexive (forgets hdl).
Proof. by split. Qed.

#[export] Instance forgets_trans hdl : Transitive (forgets hdl).
Proof. intros m1 m2 m3 [B1 F1] [B2 F2]. split; [congruence|]. by transitivity (m_fn_cache m2). Qed.

Lemma clear_loop_eq e base hdl l s :
  module_handle_base hdl = Some base -> (forall k x, (k, x) ∈ l -> is_Some (st_mod s !! x)) ->
  exists mods, clear_loop e base l s = Ok (tt, set_st_mod mods s) /\
    (forall x, uncached <$> mods !! x = uncached <$> st_mod s !! x) /\ mods !! e = st_mod s !! e /\
    forall x, option_Forall2 (forgets hdl) (st_mod s !! x) (mods !! x).
Proof.
  intros Hbase. revert s. induction l as [|[k x] l IH]; intros s Hl.
  { exists (st_mod s). rewrite set_st_mod_id. split_and!; [done..|]. intros x. by destruct (_ !! x); constructor. }
  cbn [clear_loop]. destruct (decide (x = e)) as [->|Hne].
  { rewrite (bind_Ok (mret tt) _ s s tt eq_refl). apply IH. intros k' x' Hin. apply (Hl k'). by right. }
  destruct (Hl k x) as [m Hm]; [left|].
  set (m' := set_m_fn_cache (forget_fn base <$> m_fn_cache m) m).
  set (s1 := set_st_mod (<[x := m']> (st_mod s)) s).
  rewrite (bind_Ok _ _ s s1 tt) by (apply wp_eq; by eapply wp_upd_module).
  destruct (IH s1) as (mods & Hrun & Hsame & He & Hfg).
  { intros k' x' Hin. cbn. rewrite lookup_insert. case_decide; [by eexists|]. apply (Hl k'). by right. }
  exists mods. rewrite Hrun. split; [done|]. cbn in Hsame, He, Hfg. split; [|split].
  - intros y. rewrite Hsame, lookup_insert. case_decide; [|done]. subst. by rewrite Hm.
  - by rewrite He, lookup_insert_ne.
  - intros y. specialize (Hfg y). rewrite lookup_insert in Hfg. case_decide; [|done]. subst. rewrite Hm.
    inversion Hfg as [m1 m2 H|]; subst. constructor. transitivity m'; [|done]. split; [done|].
    apply Forall2_fmap_r, Forall_Forall2_diag, Forall_true. intros fp. right. by exists base.
Qed.

Lemma clear_fn_cache_eq e m hd s :
  st_mod s !! e = Some m -> rt_mod_hd (st_rt s) = Some hd ->
  (forall k x, qget hd k = Some x -> is_Some (st_mod s !! x)) ->
  exists mods, module_clear_fn_cache_for_handle e s = Ok (tt, set_st_mod mods s) /\
    (forall x, uncached <$> mods !! x = uncached <$> st_mod s !! x) /\ mods !! e = st_mod s !! e /\
    forall x, option_Forall2 (forgets (m_handle m)) (st_mod s !! x) (mods !! x).
Proof using QL.
  assert (forall hdl x, option_Forall2 (forgets hdl) (st_mod s !! x) (st_mod s !! x)) as Hrefl.
  { intros hdl x. by destruct (_ !! x); constructor. }
  intros Hm Hhd Hlive. unfold module_clear_fn_cache_for_handle.
  rewrite (bind_Ok (module_at e) _ s s m) by (apply wp_eq; by eapply wp_module_at).
  destruct (m_handle m) as [h|]; [|exists (st_mod s); by rewrite set_st_mod_id].
  destruct (module_handle_base (Some h)) as [base|] eqn:Hb; [|exists (st_mod s); by rewrite set_st_mod_id].
  rewrite (bind_Ok (handle rt_mod_hd) _ s s hd) by (apply wp_eq; by eapply wp_handle).
  apply clear_loop_eq; [done|]. intros k x Hin. by apply (Hlive k), qiter_get.
Qed.

(** ** A module that is on no list can go *)

Lemma running_delete s s' e :
  running s -> on_no_list s e -> st_reg s' = st_reg s -> st_mod s' = delete e (st_mod s) ->
  rt_region_hd (st_rt s') = rt_region_hd (st_rt s) ->
  rt_inited (st_rt s') = rt_inited (st_rt s) -> st_next s' = st_next s ->
  running s' /\ forall a ms, mod_list s a ms -> mod_list s' a ms.
Proof.
  intros Hrun Hoff Er Em Ehd Ei En.
  assert (forall a ms, mod_list s a ms -> mod_list s' a ms) as Hkeep.
  { intros a ms Hl. apply (mod_list_frame s); [done|by rewrite Er|]. intros x Hx.
    rewrite Em, lookup_delete_ne; [done|]. intros <-. by eapply Hoff. }
  split; [|done]. split.
  - rewrite Ei. apply Hrun.
  - eapply tree_ok_frame; [apply Hrun|by rewrite Er| |done|by rewrite En].
    rewrite Er. apply tree_ok_gens, Hrun.
  - intros l r Hr. rewrite Er in Hr. destruct (mods_ok_list _ _ _ (run_mods _ Hrun) Hr) as (ms & Hl & Ho).
    destruct (Hkeep _ _ Hl) as (r' & Hr' & Hd). rewrite Er in Hr'. simplify_eq.
    exists ms. split; [done|]. intros x Hx. rewrite Em, lookup_delete_ne; [by apply Ho|].
    intros <-. by eapply Hoff.
Qed.

(** ** The last reference to a module that has loaded nothing *)

(** The registry entry [k], [e] of a module of the region [l] that nothing else
    refers to. *)
Record leaf_module (s : state) (hd : qmap string loc) (k : string) (e : loc) (m : mod_entry)
    (l : loc) (ms1 ms2 : list loc) : Prop := {
  lm_running : running s;
  lm_exact : registry_exact s;
  lm_index : is_Some (rt_mod_by_region_hd (st_rt s));
  lm_hd : rt_mod_hd (st_rt s) = Some hd;
  lm_entry : qget hd k = Some e;
  lm_module : st_mod s !! e = Some m;
  lm_ref : m_refcount m = 1;
  lm_list : mod_list s l (ms1 ++ e :: ms2);
  lm_path : is_Some (m_load_path m);
  lm_leaf : forall x mx, st_mod s !! x = Some mx -> m_parent_entry mx = Some e -> x = e
}.

Lemma loaded_by_leaf (mods : gmap loc mod_entry) e ms :
  (forall x mx, mods !! x = Some mx -> m_parent_entry mx = Some e -> x = e) ->
  loaded_by mods e ms = [].
Proof.
  intros H. unfold loaded_by. induction (ms.*2) as [|x l IH]; [done|].
  rewrite filter_cons, IH. case_decide as Hx; [|done]. destruct Hx as [Hne Hp].
  destruct (mods !! x) as [mx|] eqn:Hm; [|done]. cbn in Hp. injection Hp as Hp.
  destruct Hne. by eapply H.
Qed.

Lemma all_live_intro (mods : gmap loc mod_entry) (ms : list (string * loc)) :
  (forall k x, (k, x) ∈ ms -> is_Some (mods !! x)) -> all_live mods ms = true.
Proof.
  intros H. apply forallb_forall. intros [k x] Hin%list_elem_of_In.
  apply bool_decide_eq_true. by eapply H.
Qed.

(** Everything of an unload up to the detachment. *)
Definition unload_prefix (e : loc) : XM unit :=
  module_clear_fn_cache_for_handle e;;
  m ← module_at e;
  match m_region_entry m, m_load_path m with
  | Some _, Some _ => module_remove_path_owned_entries (m_region_entry m) (m_load_path m) (m_handle m)
  | _, _ => mret tt
  end.

Lemma unload_prefix_spec s e m l r hd :
  running s -> st_mod s !! e = Some m -> m_region_entry m = Some l -> is_Some (m_load_path m) ->
  st_reg s !! l = Some r -> rt_mod_hd (st_rt s) = Some hd ->
  (forall k x, qget hd k = Some x -> is_Some (st_mod s !! x)) ->
  exists mods p, m_load_path m = Some p /\
    let s' := set_st_reg (<[l := undeny_module p r]> (st_reg s)) (set_st_mod mods s) in
    unload_prefix e s = Ok (tt, s') /\ running s' /\ mods !! e = Some m /\
    (forall a ms, mod_list s a ms -> mod_list s' a ms) /\
    (forall x, bare <$> mods !! x = bare <$> st_mod s !! x) /\
    forall x, option_Forall2 (forgets (m_handle m)) (st_mod s !! x) (mods !! x).
Proof using QL.
  intros Hrun Hm Hl [p Hp] Hr Hhd Hlive.
  destruct (clear_fn_cache_eq e m hd s Hm Hhd Hlive) as (mods & Hclear & Hsame & He & Hfg).
  rewrite Hm in He. exists mods, p. split; [done|]. cbv zeta.
  assert (forall T (f : mod_entry -> T), (forall m, f (uncached m) = f m) ->
    forall x, f <$> mods !! x = f <$> st_mod s !! x) as Hf.
  { intros T f Hc x. by apply (fmap_through uncached). }
  set (s1 := set_st_mod mods s). set (s2 := set_st_reg _ s1).
  assert (agree skel (st_reg s) (st_reg s2)) as Hsk.
  { apply (agree_insert skel _ _ r); [done|]. unfold undeny_module. by destruct (remove_denies_loop _ _ _). }
  split; [|split; [|split; [done|split; [|by split; [apply Hf|]]]]].
  - unfold unload_prefix. rewrite (bind_Ok _ _ _ _ _ Hclear). fold s1.
    rewrite (bind_Ok (module_at e) _ s1 s1 m) by (apply wp_eq; by eapply wp_module_at).
    rewrite Hl, Hp. cbn. apply wp_eq. by eapply wp_upd_region.
  - eapply running_frame; [exact Hrun|done| |done..|by apply Hf].
    apply gens_ok_insert; [apply tree_ok_gens, Hrun|]. unfold undeny_module.
    destruct (remove_denies_loop _ _ _). exact (tree_ok_gens _ (run_tree _ Hrun) _ _ Hr).
  - intros a ms H. apply (mod_list_frame s); [done|done|]. intros x _. by apply Hf.
Qed.

(** The registries without the entry. *)
Lemma unregister_eq s e m hd ix :
  st_mod s !! e = Some m -> rt_mod_hd (st_rt s) = Some hd -> rt_mod_by_region_hd (st_rt s) = Some ix ->
  unregister e s = Ok (tt, set_st_rt (set_rt_mod_hd (Some (qdel hd (m_mod_key m)))
    (set_rt_mod_by_region_hd (Some (qmdel ix (m_region_id m))) (st_rt s))) s).
Proof.
  intros Hm Hhd Hix. unfold unregister.
  rewrite (bind_Ok (module_at e) _ s s m) by (apply wp_eq; by eapply wp_module_at).
  rewrite (bind_Ok (handle rt_mod_by_region_hd) _ s s ix) by (apply wp_eq; by eapply wp_handle).
  set (rt1 := set_rt_mod_by_region_hd (Some (qmdel ix (m_region_id m))) (st_rt s)).
  rewrite (bind_Ok (upd_rt _) _ s (set_st_rt rt1 s) tt eq_refl).
  by rewrite (bind_Ok (handle rt_mod_hd) _ (set_st_rt rt1 s) (set_st_rt rt1 s) hd)
    by (apply wp_eq; by eapply wp_handle).
Qed.

(** Keys before and after: the module [e] goes, the others keep theirs. *)
Lemma registry_exact_del s s' hd k e :
  registry_exact s -> rt_mod_hd (st_rt s) = Some hd -> qget hd k = Some e ->
  rt_mod_hd (st_rt s') = Some (qdel hd k) -> st_mod s' !! e = None ->
  (forall x, x <> e -> m_mod_key <$> st_mod s' !! x = m_mod_key <$> st_mod s !! x) ->
  registry_exact s'.
Proof using QL.
  intros (hd' & E & Hexact) Hhd Hg Hhd' He Hkeys. rewrite Hhd in E. injection E as <-.
  exists (qdel hd k). split; [done|]. intros k' x. rewrite qget_del.
  assert (forall y mx, st_mod s' !! y = Some mx -> qget hd (m_mod_key mx) = Some y) as Hin.
  { intros y mx Hy. assert (y <> e) as Hne by congruence. specialize (Hkeys y Hne).
    rewrite Hy in Hkeys. destruct (st_mod s !! y) as [my|] eqn:Hmy; [|done]. cbn in Hkeys.
    injection Hkeys as ->. apply Hexact. by exists my. }
  case_decide as Ek.
  - subst k'. split; [done|]. intros (mx & Hx & Ek). pose proof (Hin _ _ Hx). congruence.
  - split.
    + intros (mx & Hx & Ekx)%Hexact. assert (x <> e) as Hne.
      { intros ->. apply Ek. apply Hexact in Hg as (me & ? & ?). congruence. }
      specialize (Hkeys x Hne). rewrite Hx in Hkeys. destruct (st_mod s' !! x) as [mx'|]; [|done].
      cbn in Hkeys. injection Hkeys as Hkeys. exists mx'. split; [done|congruence].
    + intros (mx & Hx & <-). by apply Hin.
Qed.

(** The rest of an unload, after the prefix. *)
Definition unload_suffix (exec : executor) (e : loc) : XM Z :=
  module_region_detach e;; unregister e;;
  upd_rt (fun rt => set_rt_mod_count (rt_mod_count rt - 1) rt);;
  module_free_entry exec e true;; mret XY_OK.

(** An unload of the last reference, in parts: the modules that this one has
    loaded, the prefix and the suffix. *)
Lemma mod_unload_parts_eq exec fuel fname id s hd e m :
  registry_exact s -> rt_mod_hd (st_rt s) = Some hd -> st_alloc s = [] ->
  qget hd (registry_key (resolved fname) id) = Some e -> st_mod s !! e = Some m -> m_refcount m <= 1 ->
  let s0 := set_st_mod (<[e := set_m_refcount (m_refcount m - 1) m]> (st_mod s)) s in
  _mod_unload exec (S fuel) fname id s =
    (unload_children (_mod_unload exec fuel) (loaded_by (st_mod s0) e (qiter hd));;
     unload_prefix e;; unload_suffix exec e) s0.
Proof using QL.
  intros (hd' & E & Hexact) Hhd Ha Hg Hm Href s0. rewrite Hhd in E. injection E as <-. cbn [_mod_unload].
  rewrite (bind_Ok _ _ _ _ _ (module_lookup_from_fname_eq fname id hd s Ha Hhd)).
  cbn [lk_err lk_entry negb Z.eqb XY_OK]. rewrite Hg.
  rewrite (bind_Ok _ _ s s0 tt) by (apply wp_eq; by eapply wp_upd_module).
  rewrite (bind_Ok (module_at e) _ s0 s0 (set_m_refcount (m_refcount m - 1) m))
    by (apply wp_eq; eapply wp_module_at; [apply lookup_insert_eq|done]).
  cbn [m_refcount set_m_refcount]. destruct (Z.ltb_spec 0 (m_refcount m - 1)); [lia|].
  rewrite (bind_Ok (handle rt_mod_hd) _ s0 s0 hd) by (apply wp_eq; by eapply wp_handle).
  rewrite (bind_Ok (gets st_mod) _ s0 s0 (st_mod s0) eq_refl).
  rewrite all_live_intro.
  2: { intros k x (mx & Hx & _)%qiter_get%Hexact. cbn. rewrite lookup_insert. case_decide; by eexists. }
  rewrite (bind_Ok (mret tt) _ s0 s0 tt eq_refl).
  apply bind_ext. intros [] s1 _. unfold unload_prefix. rewrite bind_assoc. apply bind_ext. intros [] s2 _.
  by rewrite bind_assoc.
Qed.

Definition unloaded_rt (hd : qmap string loc) (ix : qmulti Z loc) (rt : runtime) : runtime :=
  set_rt_mod_count (rt_mod_count rt - 1)
    (set_rt_mod_hd (Some hd) (set_rt_mod_by_region_hd (Some ix) rt)).

(** What an unload does not touch is as it was. *)
Definition only_heaps s s' : Prop :=
  s' = set_st_rt (st_rt s') (set_st_reg (st_reg s') (set_st_mod (st_mod s')
         (set_st_mem (st_mem s') (set_st_trace (st_trace s') s)))).

Lemma unload_suffix_spec exec s e m l ms1 ms2 hd ix :
  running s -> quiet_cleanup exec -> st_mod s !! e = Some m -> mod_list s l (ms1 ++ e :: ms2) ->
  rt_mod_hd (st_rt s) = Some hd -> rt_mod_by_region_hd (st_rt s) = Some ix ->
  exists s', unload_suffix exec e s = Ok (XY_OK, s') /\ running s' /\ mod_list s' l (ms1 ++ ms2) /\
    (forall a ms, a <> l -> mod_list s a ms -> mod_list s' a ms) /\
    st_mod s' !! e = None /\
    (forall x, x <> e -> mod_core <$> st_mod s' !! x = mod_core <$> st_mod s !! x) /\
    st_rt s' = unloaded_rt (qdel hd (m_mod_key m)) (qmdel ix (m_region_id m)) (st_rt s) /\
    st_trace s' = st_trace s ++ free_events m /\ agree reg_core (st_reg s) (st_reg s') /\
    renewed l (st_reg s) (st_reg s') /\ st_mem s' = without_state m (st_mem s) /\ only_heaps s s'.
Proof.
  intros Hrun Hq Hm Hl Hhd Hix.
  destruct (detach_spec s l e ms1 ms2 Hrun Hl) as (ls & s1 & Hls & Hdet & Hrun1 & Hs1 & Hl1 & Ho1).
  pose proof (detached_off s s1 l e e ms1 ms2 ls Hrun Hl Hs1 Hl1 Ho1 ltac:(by left)) as Hoff.
  pose proof (lst_core _ _ _ Hs1) as Hcore.
  assert (forall T (f : mod_entry -> T), (forall m, f (mod_core m) = f m) ->
    forall x, f <$> st_mod s1 !! x = f <$> st_mod s !! x) as Hf.
  { intros T f Hc x. by apply (fmap_through mod_core). }
  destruct (st_mod s1 !! e) as [m1|] eqn:Hm1; [|specialize (Hcore e); by rewrite Hm1, Hm in Hcore].
  assert (m_region_state m1 = m_region_state m) as Est.
  { pose proof (Hf _ m_region_state ltac:(done) e) as E. rewrite Hm1, Hm in E. by injection E. }
  assert (free_events m1 = free_events m /\ m_mod_key m1 = m_mod_key m) as [Eev Ekey].
  { split; [pose proof (Hf _ free_events ltac:(done) e) as E|pose proof (Hf _ m_mod_key ltac:(done) e) as E];
      rewrite Hm1, Hm in E; by injection E. }
  assert (st_rt s1 = st_rt s /\ st_trace s1 = st_trace s /\ st_tls s1 = st_tls s) as (Ert & Etr & Etls)
    by (rewrite (lst_state _ _ _ Hs1); done).
  set (rt2 := set_rt_mod_hd (Some (qdel hd (m_mod_key m1)))
    (set_rt_mod_by_region_hd (Some (qmdel ix (m_region_id m1))) (st_rt s1))).
  set (s2 := set_st_rt rt2 s1).
  assert (unregister e s1 = Ok (tt, s2)) as Hunreg by by apply unregister_eq; [|rewrite Ert..].
  set (s3 := set_st_rt (set_rt_mod_count (rt_mod_count rt2 - 1) rt2) s1).
  exists (freed e m1 s3). split.
  { unfold unload_suffix. rewrite (bind_Ok _ _ _ _ _ Hdet), (bind_Ok _ _ _ _ _ Hunreg).
    rewrite (bind_Ok (upd_rt _) _ s2 s3 tt) by done.
    by rewrite (bind_Ok _ _ _ _ _ (module_free_entry_eq exec e m1 s3 Hq Hm1)). }
  destruct (running_delete s1 (freed e m1 s3) e Hrun1 Hoff) as [Hrun2 Hkeep]; [done..|].
  split; [done|]. split; [by apply Hkeep|]. split; [intros a ms Ha Hms; by apply Hkeep, Ho1|].
  split; [apply lookup_delete_eq|]. split.
  { intros x Hx. cbn. by rewrite lookup_delete_ne. }
  assert (m_region_id m1 = m_region_id m) as Eid.
  { pose proof (Hf _ m_region_id ltac:(done) e) as E. rewrite Hm1, Hm in E. by injection E. }
  split_and!; [|cbn; by rewrite Etr, Eev|apply Hs1|apply (list_step_renewed _ _ _ _ Hs1); inversion Hls; left| |].
  - cbn. unfold rt2. by rewrite Ekey, Eid, Ert.
  - cbn. unfold without_state. rewrite Est. by rewrite (lst_state _ _ _ Hs1).
  - unfold only_heaps, s3. cbn. rewrite (lst_state _ _ _ Hs1). done.
Qed.

(** What a load looks at in a region. *)
Definition claim_view (r : region_entry) := (r_id r, r_claim_handler r, r_require_claim r).

(** What a dispatch looks at. *)
Definition dispatch_view (r : region_entry) := (r_hook_dispatch r, r_subtree_flags r).

(** What is left after the module [e] has gone. *)
Record unloaded (s s' : state) (hd : qmap string loc) (k : string) (e : loc) (m : mod_entry)
    (l : loc) (ms1 ms2 : list loc) : Prop := {
  ul_running : running s';
  ul_exact : registry_exact s';
  ul_list : mod_list s' l (ms1 ++ ms2);
  ul_others : forall a ms, a <> l -> mod_list s a ms -> mod_list s' a ms;
  ul_gone : st_mod s' !! e = None;
  ul_modules : forall x, x <> e -> bare <$> st_mod s' !! x = bare <$> st_mod s !! x;
  ul_rt : exists ix, rt_mod_by_region_hd (st_rt s) = Some ix /\
    st_rt s' = unloaded_rt (qdel hd k) (qmdel ix (m_region_id m)) (st_rt s);
  ul_trace : st_trace s' = st_trace s ++ free_events m;
  ul_regions : agree claim_view (st_reg s) (st_reg s');
  ul_tree : agree shape (st_reg s) (st_reg s');
  ul_dispatch : agree dispatch_view (st_reg s) (st_reg s');
  ul_renewed : renewed l (st_reg s) (st_reg s');
  ul_caches : forall x, x <> e -> option_Forall2 (forgets (m_handle m)) (st_mod s !! x) (st_mod s' !! x);
  ul_memory : st_mem s' = without_state m (st_mem s);
  ul_rest : only_heaps s s'
}.

(** The prefix and the suffix in one. *)
Lemma unload_rest_spec exec s e m l ms1 ms2 hd ix :
  running s -> registry_exact s -> quiet_cleanup exec -> st_mod s !! e = Some m ->
  mod_list s l (ms1 ++ e :: ms2) -> is_Some (m_load_path m) -> rt_mod_hd (st_rt s) = Some hd ->
  rt_mod_by_region_hd (st_rt s) = Some ix ->
  exists s', (unload_prefix e;; unload_suffix exec e) s = Ok (XY_OK, s') /\
    unloaded s s' hd (m_mod_key m) e m l ms1 ms2.
Proof using QL.
  intros Hrun Hexact Hq Hm Hl Hpath Hhd Hix. pose proof Hl as (r & Hr & _).
  assert (m_region_entry m = Some l) as Hown.
  { pose proof (mod_list_owner _ _ _ _ (run_mods _ Hrun) Hl (ltac:(apply elem_of_app; right; left) : e ∈ _)) as Ho.
    unfold owner_of in Ho. rewrite Hm in Ho. by injection Ho. }
  assert (qget hd (m_mod_key m) = Some e) as Hg.
  { destruct Hexact as (hd' & E & Hexact). rewrite Hhd in E. injection E as <-. apply Hexact. by exists m. }
  destruct (unload_prefix_spec s e m l r hd Hrun Hm Hown Hpath Hr Hhd)
    as (mods & p & Hp & Hpre & Hrun1 & He & Hl1 & Hk1 & Hfg).
  { intros k' x Hx. destruct Hexact as (hd' & E & Hexact). rewrite Hhd in E. injection E as <-.
    apply Hexact in Hx as (mx & Hx & _). by eexists. }
  set (s1 := set_st_reg _ _) in Hpre, Hrun1, Hl1.
  destruct (unload_suffix_spec exec s1 e m l ms1 ms2 hd ix Hrun1 Hq He (Hl1 _ _ Hl) Hhd Hix)
    as (s2 & Hsuf & Hrun2 & Hl2 & Ho2 & Hgone & Hkeys & Hrt & Htrace & Hreg & Hren & Hmem & Hrest).
  assert (forall x, x <> e -> bare <$> st_mod s2 !! x = bare <$> st_mod s !! x) as Hall.
  { intros x Hx. rewrite <- Hk1. by apply (fmap_through mod_core), Hkeys. }
  assert (forall T (f : region_entry -> T), (forall r, f (reg_core r) = f r) ->
    f (undeny_module p r) = f r -> agree f (st_reg s) (st_reg s2)) as Hag.
  { intros T f Hf Hu. etransitivity; [|apply (agree_core f); [done|exact Hreg]].
    by apply (agree_insert f _ _ r). }
  exists s2. split; [by rewrite (bind_Ok _ _ _ _ _ Hpre)|].
  split; [done| |done| |done|done|by exists ix|done| | | | | |exact Hmem|].
  - eapply (registry_exact_del s); [done..|by rewrite Hrt|done|].
    intros x Hx. by apply (fmap_through bare), Hall.
  - intros a ms Ha' Hms. by apply Ho2, Hl1.
  - apply Hag; [done|]. unfold undeny_module. by destruct (remove_denies_loop _ _ _).
  - apply Hag; [done|]. unfold undeny_module. by destruct (remove_denies_loop _ _ _).
  - apply Hag; [done|]. unfold undeny_module. by destruct (remove_denies_loop _ _ _).
  - intros r1 r2 Hr1 Hr2. rewrite Hr in Hr1. injection Hr1 as <-.
    rewrite (Hren (undeny_module p r) r2 (lookup_insert_eq _ _ _) Hr2). unfold undeny_module.
    by destruct (remove_denies_loop _ _ _).
  - intros x Hx. specialize (Hfg x). specialize (Hkeys x Hx). cbn in Hkeys.
    destruct Hfg as [m1 m2 Hf|]; [|by destruct (st_mod s2 !! x)].
    destruct (st_mod s2 !! x) as [m3|]; [|done]. apply (inj Some) in Hkeys. constructor.
    unfold forgets. change (m_fn_cache m3) with (m_fn_cache (mod_core m3)).
    change (m_hook_impl_bits m3) with (m_hook_impl_bits (mod_core m3)). by rewrite Hkeys.
  - unfold only_heaps. rewrite Hrest. done.
Qed.

Lemma mod_unload_last exec fname id s hd k e m l ms1 ms2 :
  leaf_module s hd k e m l ms1 ms2 -> st_alloc s = [] -> quiet_cleanup exec ->
  k = registry_key (resolved fname) id ->
  exists s', mod_unload exec fname id s = Ok (XY_OK, s') /\ unloaded s s' hd k e m l ms1 ms2.
Proof using QL.
  intros Hleaf Ha Hq ->.
  pose proof Hleaf as [Hrun Hexact [ix Hix] Hhd Hg Hm Href Hl Hpath Hnoch].
  set (m0 := set_m_refcount 0 m). set (s0 := set_st_mod (<[e := m0]> (st_mod s)) s).
  destruct (refcount_frame s e m 0 Hrun Hm) as (Hrun0 & Hl0 & Hk0). fold m0 in Hrun0, Hl0, Hk0.
  fold s0 in Hrun0, Hl0, Hk0.
  assert (m_mod_key m = registry_key (resolved fname) id) as Ekey.
  { destruct Hexact as (hd' & E & Hexact). rewrite Hhd in E. injection E as <-.
    apply Hexact in Hg as (m' & Hm' & <-). rewrite Hm in Hm'. by injection Hm' as <-. }
  destruct (unload_rest_spec exec s0 e m0 l ms1 ms2 hd ix Hrun0) as (s2 & Hrest & Hul); try done.
  { by apply (registry_exact_keys s). }
  { apply lookup_insert_eq. }
  { by apply Hl0. }
  change (m_mod_key m0) with (m_mod_key m) in Hul. rewrite Ekey in Hul. exists s2. split.
  - unfold mod_unload. rewrite (bind_Ok _ _ s s (size (st_mod s)) eq_refl).
    rewrite (mod_unload_parts_eq exec _ fname id s hd e m) by (done || lia).
    rewrite Href. fold m0. fold s0. rewrite loaded_by_leaf.
    2: { intros x mx Hx Hp'. cbn in Hx. apply lookup_insert_Some in Hx as [[-> _]|[_ Hx]]; [done|by eapply Hnoch]. }
    cbn [unload_children]. by rewrite (bind_Ok (mret tt) _ s0 s0 tt eq_refl).
  - destruct Hul as [? ? ? Ho ? Hmods ? ? ? ? ? ? Hcs ? ?]. split; try done.
    + intros a ms Ha' Hms. by apply Ho, Hl0.
    + intros x Hx. rewrite Hmods by done. cbn. by rewrite lookup_insert_ne.
    + intros x Hx. specialize (Hcs x Hx). cbn in Hcs. by rewrite lookup_insert_ne in Hcs.
Qed.

(** Unloading, under its name and the caller's region, a module that has a
    single reference and has loaded nothing removes it: from its region's list,
    where the others keep their order, from the registry and from the heap; its
    image is closed, the module count goes down by one, and the runtime stays
    consistent. *)
Theorem xy_unload_last exec fname s hd k e m l ms1 ms2 :
  leaf_module s hd k e m l ms1 ms2 -> st_alloc s = [] -> quiet_cleanup exec ->
  k = registry_key (resolved fname) (t_region_id (st_tls s)) ->
  exists s', xy_unload exec fname s = Ok (XY_OK, s') /\ running s' /\ registry_exact s' /\
    mod_list s' l (ms1 ++ ms2) /\ (forall a ms, a <> l -> mod_list s a ms -> mod_list s' a ms) /\
    st_mod s' !! e = None /\ rt_mod_hd (st_rt s') = Some (qdel hd k) /\
    rt_mod_count (st_rt s') = rt_mod_count (st_rt s) - 1 /\
    st_trace s' = st_trace s ++ free_events m /\ st_tls s' = st_tls s /\ st_err s' = XY_OK.
Proof using QL.
  intros Hleaf Ha Hq Hk.
  destruct (mod_unload_last exec fname _ s hd k e m l ms1 ms2 Hleaf Ha Hq Hk) as (s' & Hrun & Hul).
  pose proof Hul as [? ? ? ? ? _ (ix & _ & Ert) ? _ _ _ _ _ _ Hrest]. exists (set_st_err XY_OK s'). split.
  { unfold xy_unload. rewrite with_runtime_inited by apply Hleaf.
    rewrite (bind_Ok _ _ s s (t_region_id (st_tls s)) eq_refl). by rewrite (bind_Ok _ _ _ _ _ Hrun). }
  split; [by apply running_err|]. do 4 (split; [done|]). cbn. rewrite Ert. do 3 (split; [done|]).
  split; [|done]. unfold only_heaps in Hrest. by rewrite Hrest.
Qed.

(** A reference that is not the last is all that an unload takes. *)
Lemma mod_unload_shared_eq exec fuel fname id s hd e m :
  st_alloc s = [] -> rt_mod_hd (st_rt s) = Some hd ->
  qget hd (registry_key (resolved fname) id) = Some e -> st_mod s !! e = Some m -> 1 < m_refcount m ->
  _mod_unload exec (S fuel) fname id s =
    Ok (XY_OK, set_st_mod (<[e := set_m_refcount (m_refcount m - 1) m]> (st_mod s)) s).
Proof.
  intros Ha Hhd Hg Hm Href. cbn [_mod_unload].
  rewrite (bind_Ok _ _ _ _ _ (module_lookup_from_fname_eq fname id hd s Ha Hhd)).
  cbn [lk_err lk_entry negb Z.eqb XY_OK]. rewrite Hg.
  set (s1 := set_st_mod _ s).
  rewrite (bind_Ok _ _ s s1 tt) by (apply wp_eq; by eapply wp_upd_module).
  rewrite (bind_Ok (module_at e) _ s1 s1 (set_m_refcount (m_refcount m - 1) m))
    by (apply wp_eq; eapply wp_module_at; [apply lookup_insert_eq|done]).
  cbn [m_refcount set_m_refcount]. by destruct (Z.ltb_spec 0 (m_refcount m - 1)); [|lia].
Qed.

(** Unloading a name that is not loaded from the caller's region fails with
    NOTFOUND and changes nothing but the error; unloading a module with more
    than one reference takes one away and leaves everything else. *)
Theorem xy_unload_shared exec fname s hd :
  running s -> st_alloc s = [] -> rt_mod_hd (st_rt s) = Some hd ->
  (qget hd (registry_key (resolved fname) (t_region_id (st_tls s))) = None ->
   xy_unload exec fname s = Ok (XY_ERR_NOTFOUND, set_st_err XY_ERR_NOTFOUND s)) /\
  (forall e m, qget hd (registry_key (resolved fname) (t_region_id (st_tls s))) = Some e ->
   st_mod s !! e = Some m -> 1 < m_refcount m ->
   let s' := set_st_err XY_OK
     (set_st_mod (<[e := set_m_refcount (m_refcount m - 1) m]> (st_mod s)) s) in
   xy_unload exec fname s = Ok (XY_OK, s') /\ running s').
Proof.
  intros Hrun Ha Hhd. unfold xy_unload, mod_unload. rewrite with_runtime_inited by apply Hrun.
  rewrite (bind_Ok _ _ s s (t_region_id (st_tls s)) eq_refl).
  rewrite bind_assoc, (bind_Ok (gets _) _ s s (size (st_mod s))) by done. split.
  - intros Hg. cbn [_mod_unload].
    rewrite bind_assoc, (bind_Ok _ _ _ _ _ (module_lookup_from_fname_eq fname _ hd s Ha Hhd)).
    cbn [lk_err lk_entry negb Z.eqb XY_OK]. by rewrite Hg.
  - intros e m Hg Hm Href. cbv zeta. split; [|by apply running_err; eapply refcount_frame].
    by rewrite (bind_Ok _ _ _ _ _ (mod_unload_shared_eq exec _ fname _ s hd e m Ha Hhd Hg Hm Href)).
Qed.

End UnloadSpec.
