(* ===== verification/Cascade.v ===== *)
(** * The cascade of an unload

    Which modules go when a module loses its last reference: those it has
    loaded lose one too, and so on.  The first part says so of the heap of
    modules, the second part shows that [_mod_unload] of src/libxylem-module.c
    does it: it ends, however deep the cascade is, and removes these modules and
    no others. *)

From S2P Require Import Prelude QMap Status State Machine ModKey Linked Region RegionTree ModList.
From S2P Require Import Runtime Paths Identity FnCache RegionApi Deny Claim Load LoadSpec Unload.
From S2P Require Import UnloadSpec.
From stdpp Require Import options.
Local Open Scope Z_scope.

(** ** Modules and the modules that loaded them *)

Section Forest.
Implicit Types (mods : gmap loc mod_entry) (e x y c : loc) (m : mod_entry).

Definition parent_in mods x : option loc := mods !! x ≫= m_parent_entry.

(** [x] is [e], or was loaded by a module below [e]. *)
Inductive below mods e : loc -> Prop :=
| below_self : is_Some (mods !! e) -> below mods e e
| below_child x y : below mods e y -> parent_in mods x = Some y -> below mods e x.

(** An unload of [e] takes a reference from [x]: [x] is [e], or the module that
    loaded [x] loses its last reference. *)
Inductive loses mods e : loc -> Prop :=
| loses_self : is_Some (mods !! e) -> loses mods e e
| loses_child x y my : loses mods e y -> mods !! y = Some my -> m_refcount my <= 1 ->
    parent_in mods x = Some y -> loses mods e x.

(** A module is younger than the one that loaded it. *)
Definition aged mods : Prop := forall x y, parent_in mods x = Some y -> (y < x)%positive.

Lemma parent_in_live mods x y : parent_in mods x = Some y -> is_Some (mods !! x).
Proof. unfold parent_in. destruct (mods !! x); [by eexists|done]. Qed.

Lemma below_live mods e x : below mods e x -> is_Some (mods !! x).
Proof. intros [?|? y _ Hp]; [done|by eapply parent_in_live]. Qed.

Lemma loses_below mods e x : loses mods e x -> below mods e x.
Proof. induction 1; [by constructor|by eapply below_child]. Qed.

Lemma below_older mods e x : aged mods -> below mods e x -> (e <= x)%positive.
Proof. intros Ha. induction 1 as [|x y _ IH Hp]; [lia|]. specialize (Ha _ _ Hp). lia. Qed.

Lemma below_parent mods e c x :
  below mods c x -> parent_in mods c = Some e -> is_Some (mods !! e) -> below mods e x.
Proof.
  intros Hb Hp He. induction Hb as [|x y _ IH Hx]; [|by eapply below_child].
  eapply below_child; [by constructor|done].
Qed.

(** Two modules that were loaded by the same one have nothing below them in
    common. *)
Lemma below_disjoint mods e c c' x :
  aged mods -> parent_in mods c = Some e -> parent_in mods c' = Some e -> c <> c' ->
  below mods c x -> below mods c' x -> False.
Proof.
  intros Ha Hc Hc' Hne Hb. assert (forall d, parent_in mods d = Some e -> below mods d e -> False) as Hup.
  { intros d Hd Hde%below_older; [|done]. specialize (Ha _ _ Hd). lia. }
  induction Hb as [_|x y Hb IH Hx]; intros Hb'.
  - inversion Hb' as [|? y Hy Hp]; subst; [done|]. rewrite Hc in Hp. injection Hp as <-. by apply (Hup c').
  - inversion Hb' as [|? y' Hy Hp]; subst.
    + rewrite Hc' in Hx. injection Hx as <-. by apply (Hup c).
    + rewrite Hx in Hp. injection Hp as <-. by apply IH.
Qed.

(** What [loses] looks at. *)
Definition claim_on m := (m_parent_entry m, m_refcount m).

Lemma parent_in_agree mods mods' x :
  claim_on <$> mods' !! x = claim_on <$> mods !! x -> parent_in mods' x = parent_in mods x.
Proof.
  unfold parent_in, claim_on. destruct (mods' !! x), (mods !! x); try done. cbn. congruence.
Qed.

(** It depends on the modules below [e] only. *)
Lemma loses_mono mods mods' e x :
  (forall y, below mods e y -> claim_on <$> mods' !! y = claim_on <$> mods !! y) ->
  loses mods e x -> loses mods' e x.
Proof.
  intros Hag. induction 1 as [[m Hm]|x y my Hl IH Hy Href Hp].
  - constructor. specialize (Hag e ltac:(constructor; by exists m)). rewrite Hm in Hag.
    destruct (mods' !! e); [by eexists|done].
  - pose proof (Hag y (loses_below _ _ _ Hl)) as Ey. rewrite Hy in Ey.
    destruct (mods' !! y) as [my'|] eqn:Hy'; [|done]. cbn in Ey. injection Ey as _ Ey.
    eapply (loses_child _ _ x y my'); [done|done|lia|].
    rewrite <- Hp. apply parent_in_agree, Hag. eapply below_child; [by apply loses_below|done].
Qed.

(** A heap with fewer modules, each with its parent, has less below a module. *)
Lemma below_sub mods mods' e x :
  (forall y p, parent_in mods' y = Some p -> parent_in mods y = Some p) ->
  (is_Some (mods' !! e) -> is_Some (mods !! e)) -> below mods' e x -> below mods e x.
Proof.
  intros Hp He. induction 1 as [|x y _ IH Hx]; [constructor; by apply He|].
  eapply below_child; [done|by apply Hp].
Qed.

End Forest.

(** ** Cutting *)

(** The entry of a module that loses a reference, if [lost], and goes with the
    last one. *)
Definition after_loss (lost : bool) (m : mod_entry) : option mod_entry :=
  if lost then
    if 0 <? m_refcount m - 1 then Some (bare (set_m_refcount (m_refcount m - 1) m)) else None
  else Some (bare m).

Lemma after_loss_bare lost m : after_loss lost (bare m) = after_loss lost m.
Proof. done. Qed.

Lemma after_loss_bind lost (o : option mod_entry) :
  o ≫= after_loss lost = (bare <$> o) ≫= after_loss lost.
Proof. by destruct o. Qed.

Section Cut.
Context {Q : QMapOps} {QL : QMapLaws Q} {P : Platform}.
Implicit Types (s : state) (m : mod_entry) (e x : loc) (L : gset loc).

(** The events of freeing the modules [order], one after the other. *)
Definition freeing_of (mods : gmap loc mod_entry) (order : list loc) : list ext_event :=
  order ≫= fun x => match mods !! x with Some m => free_events m | None => [] end.

(** In [order] a module comes after each one that it has loaded. *)
Definition children_first (mods : gmap loc mod_entry) (order : list loc) : Prop :=
  forall i j x y, order !! i = Some x -> order !! j = Some y -> parent_in mods x = Some y -> (i < j)%nat.

Lemma children_first_app mods o1 o2 :
  children_first mods o1 -> children_first mods o2 ->
  (forall x y, x ∈ o2 -> y ∈ o1 -> parent_in mods x <> Some y) -> children_first mods (o1 ++ o2).
Proof.
  intros H1 H2 Hx i j x y Hi Hj Hp. apply lookup_app_Some in Hi as [Hi|[Hli Hi]].
  - pose proof (lookup_lt_Some _ _ _ Hi). apply lookup_app_Some in Hj as [Hj|[Hlj _]]; [|lia].
    by apply (H1 i j x y).
  - apply lookup_app_Some in Hj as [Hj|[Hlj Hj]].
    + destruct (Hx x y); [by eapply list_elem_of_lookup_2..|done].
    + pose proof (H2 _ _ x y Hi Hj Hp). lia.
Qed.

Lemma children_first_agree mods mods' order :
  (forall x y, x ∈ order -> parent_in mods x = Some y -> parent_in mods' x = Some y) ->
  children_first mods' order -> children_first mods order.
Proof.
  intros Hp H i j x y Hi Hj Hxy. apply (H i j x y); [done..|]. apply Hp; [|done].
  by eapply list_elem_of_lookup_2.
Qed.

(** From [s] to [s'] the modules [L] lose a reference, and those among them go
    for which it is the last; nothing else happens to the modules, the lists
    and the regions.  A module goes after those that it has loaded. *)
Record cut L s s' : Prop := {
  ct_mod : forall x, bare <$> st_mod s' !! x = st_mod s !! x ≫= after_loss (bool_decide (x ∈ L));
  ct_lists : forall l ms, mod_list s l ms ->
    mod_list s' l (filter (fun x => is_Some (st_mod s' !! x)) ms);
  ct_order : exists order, NoDup order /\
    (forall x, x ∈ order <-> is_Some (st_mod s !! x) /\ st_mod s' !! x = None) /\
    st_trace s' = st_trace s ++ freeing_of (st_mod s) order /\
    rt_mod_count (st_rt s') = rt_mod_count (st_rt s) - Z.of_nat (length order) /\
    children_first (st_mod s) order;
  ct_rt : exists hd ix n, st_rt s' = set_rt_mod_count n (set_rt_mod_hd hd
    (set_rt_mod_by_region_hd ix (st_rt s)));
  ct_tree : agree shape (st_reg s) (st_reg s');
  ct_claims : agree claim_view (st_reg s) (st_reg s');
  ct_rest : only_heaps s s'
}.

(** A module of [s'] was there in [s]. *)
Lemma cut_back L s s' x m' :
  cut L s s' -> st_mod s' !! x = Some m' ->
  exists m n, st_mod s !! x = Some m /\ bare m' = bare (set_m_refcount n m).
Proof.
  intros Hc Hm. pose proof (ct_mod _ _ _ Hc x) as E. rewrite Hm in E. cbn in E.
  destruct (st_mod s !! x) as [m|]; [|done]. cbn in E. unfold after_loss in E. exists m.
  destruct (bool_decide _).
  - destruct (0 <? _); [|done]. apply (inj Some) in E. by eexists.
  - apply (inj Some) in E. exists (m_refcount m). split; [done|]. rewrite E. by destruct m.
Qed.

(** A module that loses nothing is as it was. *)
Lemma cut_kept L s s' x : cut L s s' -> x ∉ L -> bare <$> st_mod s' !! x = bare <$> st_mod s !! x.
Proof.
  intros Hc Hx. rewrite (ct_mod _ _ _ Hc). rewrite bool_decide_eq_false_2 by done.
  by destruct (st_mod s !! x).
Qed.

Lemma cut_parent L s s' x y :
  cut L s s' -> parent_in (st_mod s') x = Some y -> parent_in (st_mod s) x = Some y.
Proof.
  intros Hc. unfold parent_in. destruct (st_mod s' !! x) as [m'|] eqn:Hm; [|done].
  destruct (cut_back _ _ _ _ _ Hc Hm) as (m & n & -> & E). cbn. intros <-.
  change (m_parent_entry (bare (set_m_refcount n m)) = m_parent_entry (bare m')). by rewrite E.
Qed.

Lemma cut_parent_live L s s' x y :
  cut L s s' -> is_Some (st_mod s' !! x) -> parent_in (st_mod s) x = Some y ->
  parent_in (st_mod s') x = Some y.
Proof.
  intros Hc [m' Hm']. destruct (cut_back _ _ _ _ _ Hc Hm') as (m & n & Hm & E).
  unfold parent_in. rewrite Hm, Hm'. cbn. intros <-.
  change (m_parent_entry (bare m') = m_parent_entry (bare (set_m_refcount n m))). by rewrite E.
Qed.

(** A module that goes has lost a reference. *)
Lemma cut_gone L s s' x : cut L s s' -> is_Some (st_mod s !! x) -> st_mod s' !! x = None -> x ∈ L.
Proof.
  intros Hc [m Hm] Hx. destruct (decide (x ∈ L)) as [|Hn]; [done|].
  pose proof (cut_kept _ _ _ _ Hc Hn) as E. by rewrite Hx, Hm in E.
Qed.

Lemma cut_none L s s' x : cut L s s' -> st_mod s !! x = None -> st_mod s' !! x = None.
Proof.
  intros Hc Hx. pose proof (ct_mod _ _ _ Hc x) as E. rewrite Hx in E. by destruct (st_mod s' !! x).
Qed.

Lemma filter_live (mods : gmap loc mod_entry) (ms : list loc) :
  (forall x, x ∈ ms -> is_Some (mods !! x)) -> filter (fun x => is_Some (mods !! x)) ms = ms.
Proof.
  induction ms as [|x ms IH]; [done|]. intros H. rewrite filter_cons_True by (apply H; left).
  rewrite IH; [done|]. intros y Hy. apply H. by right.
Qed.

Lemma only_heaps_refl s : only_heaps s s.
Proof. by destruct s. Qed.

Lemma only_heaps_trans s s1 s2 : only_heaps s s1 -> only_heaps s1 s2 -> only_heaps s s2.
Proof. unfold only_heaps. intros E1 E2. rewrite E2. rewrite E1. done. Qed.

Lemma cut_refl s : cut ∅ s s.
Proof.
  split.
  - intros x. rewrite bool_decide_eq_false_2 by apply not_elem_of_empty. by destruct (st_mod s !! x).
  - intros l ms Hms. rewrite filter_live; [done|]. intros x Hx. by eapply mod_list_live.
  - exists []. split; [constructor|]. split; [|split_and!; [by rewrite app_nil_r|cbn; lia|done]].
    intros x. split; [by intros ?%not_elem_of_nil|]. intros [[m Hm] Hn]. congruence.
  - exists (rt_mod_hd (st_rt s)), (rt_mod_by_region_hd (st_rt s)), (rt_mod_count (st_rt s)).
    by destruct (st_rt s).
  - done.
  - done.
  - apply only_heaps_refl.
Qed.

Lemma free_events_bare m m' n : bare m' = bare (set_m_refcount n m) -> free_events m' = free_events m.
Proof.
  intros E. change (free_events (bare m') = free_events (bare (set_m_refcount n m))). by rewrite E.
Qed.

Lemma freeing_of_cut L s s' order :
  cut L s s' -> (forall x, x ∈ order -> is_Some (st_mod s' !! x)) ->
  freeing_of (st_mod s') order = freeing_of (st_mod s) order.
Proof.
  intros Hc. induction order as [|x order IH]; [done|]. intros Hl. cbn.
  unfold freeing_of in IH. rewrite IH by (intros y Hy; apply Hl; by right). f_equal.
  destruct (Hl x ltac:(left)) as [m' Hm']. rewrite Hm'.
  destruct (cut_back _ _ _ _ _ Hc Hm') as (m & n & -> & E). by eapply free_events_bare.
Qed.

Lemma filter_twice (mods mods' : gmap loc mod_entry) (ms : list loc) :
  (forall x, is_Some (mods' !! x) -> is_Some (mods !! x)) ->
  filter (fun x => is_Some (mods' !! x)) (filter (fun x => is_Some (mods !! x)) ms) =
  filter (fun x => is_Some (mods' !! x)) ms.
Proof.
  intros H. induction ms as [|x ms IH]; [done|]. rewrite !(filter_cons _ x ms).
  repeat case_decide; rewrite ?filter_cons; repeat case_decide; rewrite ?IH; try done.
  destruct H0. by apply H.
Qed.

Lemma cut_trans L1 L2 s s1 s2 :
  (forall x, x ∈ L1 -> x ∉ L2) ->
  (forall x y, x ∈ L2 -> y ∈ L1 -> parent_in (st_mod s) x <> Some y) ->
  cut L1 s s1 -> cut L2 s1 s2 -> cut (L1 ∪ L2) s s2.
Proof.
  intros Hd Hp H1 H2. assert (forall x, is_Some (st_mod s2 !! x) -> is_Some (st_mod s1 !! x)) as Hsub.
  { intros x [m Hm]. by destruct (cut_back _ _ _ _ _ H2 Hm) as (m' & _ & -> & _). }
  split.
  - intros x. rewrite (ct_mod _ _ _ H2), after_loss_bind, (ct_mod _ _ _ H1).
    destruct (st_mod s !! x) as [m|]; [|done]. cbn. specialize (Hd x). unfold after_loss.
    destruct (decide (x ∈ L1)) as [H1x|H1x].
    + rewrite (bool_decide_eq_true_2 (x ∈ L1)), (bool_decide_eq_false_2 (x ∈ L2)), bool_decide_eq_true_2
        by (rewrite ?elem_of_union; auto). by destruct (0 <? _).
    + rewrite (bool_decide_eq_false_2 (x ∈ L1)) by done. cbn. destruct (decide (x ∈ L2)).
      * rewrite !bool_decide_eq_true_2 by (rewrite ?elem_of_union; auto). done.
      * rewrite !bool_decide_eq_false_2 by (rewrite ?elem_of_union; naive_solver). done.
  - intros l ms Hms. rewrite <- (filter_twice (st_mod s1)) by done.
    by apply (ct_lists _ _ _ H2), (ct_lists _ _ _ H1).
  - destruct (ct_order _ _ _ H1) as (o1 & Hn1 & Hx1 & Et1 & Ec1 & Hf1).
    destruct (ct_order _ _ _ H2) as (o2 & Hn2 & Hx2 & Et2 & Ec2 & Hf2). exists (o1 ++ o2). split_and!.
    + apply NoDup_app. split; [done|]. split; [|done]. intros x [_ Hx]%Hx1 [[m Hm] _]%Hx2. congruence.
    + intros x. rewrite elem_of_app, Hx1, Hx2. split.
      * intros [[Hl Hn]|[[m Hm] Hn]]; (split; [|done || by eapply cut_none]); [done|].
        by destruct (cut_back _ _ _ _ _ H1 Hm) as (m' & _ & -> & _).
      * intros [Hl Hn]. destruct (st_mod s1 !! x) eqn:E; [right; split; [by eexists|done]|by left].
    + rewrite Et2, Et1. unfold freeing_of. rewrite bind_app, app_assoc. f_equal. fold (freeing_of (st_mod s) o2).
      eapply freeing_of_cut; [done|]. by intros x [? _]%Hx2.
    + rewrite Ec2, Ec1, length_app. lia.
    + apply children_first_app; [done| |].
      * apply (children_first_agree _ (st_mod s1)); [|done]. intros x y [Hx _]%Hx2. by eapply cut_parent_live.
      * intros x y [Hl Hn]%Hx2 [Hl1 Hn1']%Hx1. apply Hp; [by eapply (cut_gone _ s1 s2)|by eapply (cut_gone _ s s1)].
  - destruct (ct_rt _ _ _ H1) as (hd1 & ix1 & n1 & E1). destruct (ct_rt _ _ _ H2) as (hd2 & ix2 & n2 & E2).
    exists hd2, ix2, n2. by rewrite E2, E1.
  - etransitivity; [apply H1|apply H2].
  - etransitivity; [apply H1|apply H2].
  - eapply only_heaps_trans; [apply H1|apply H2].
Qed.

End Cut.

(** ** Modules that can be unloaded *)

Section Orderly.
Context {Q : QMapOps} {QL : QMapLaws Q} {P : Platform}.
Implicit Types (s : state) (m : mod_entry) (e x c : loc) (L : gset loc).

(** The module is on a list, and if another module has loaded it, its function
    table names it by a path under which it is registered. *)
Record tidy s x m : Prop := {
  ti_listed : exists l ms, mod_list s l ms /\ x ∈ ms;
  ti_path : is_Some (m_load_path m);
  ti_named : forall y, m_parent_entry m = Some y -> exists c t p, m_ctx m = Some c /\
    st_ctx s !! c = Some t /\ x_module_path t = Some p /\
    m_mod_key m = registry_key (resolved p) (m_region_id m)
}.

Record orderly s : Prop := {
  od_running : running s;
  od_exact : registry_exact s;
  od_index : is_Some (rt_mod_by_region_hd (st_rt s));
  od_alloc : st_alloc s = [];
  od_aged : aged (st_mod s);
  od_tidy : forall x m, st_mod s !! x = Some m -> tidy s x m
}.

Lemma only_heaps_same s s' : only_heaps s s' -> st_ctx s' = st_ctx s /\ st_alloc s' = st_alloc s.
Proof. unfold only_heaps. intros ->. done. Qed.

Lemma orderly_cut L s s' :
  orderly s -> cut L s s' -> running s' -> registry_exact s' -> is_Some (rt_mod_by_region_hd (st_rt s')) ->
  orderly s'.
Proof.
  intros [_ _ _ Ha Hage Htidy] Hc Hrun Hexact Hix.
  destruct (only_heaps_same _ _ (ct_rest _ _ _ Hc)) as [Ectx Eal]. split; try done.
  - by rewrite Eal.
  - intros x y Hp. by eapply Hage, cut_parent.
  - intros x m' Hm'. destruct (cut_back _ _ _ _ _ Hc Hm') as (m & n & Hm & E).
    assert (forall T (f : mod_entry -> T), (forall u, f (bare u) = f u) ->
      (forall u, f (set_m_refcount n u) = f u) -> f m' = f m) as Hf.
    { intros T f H1 H2. by rewrite <- (H1 m'), E, H1, H2. }
    destruct (Htidy x m Hm) as [(l & ms & Hms & Hx) Hpath Hnamed]. split.
    + exists l, (filter (fun y => is_Some (st_mod s' !! y)) ms). split; [by apply (ct_lists _ _ _ Hc)|].
      apply list_elem_of_filter. split; [by eexists|done].
    + by rewrite (Hf _ m_load_path).
    + intros y. rewrite (Hf _ m_parent_entry), (Hf _ m_ctx), (Hf _ m_mod_key), (Hf _ m_region_id), Ectx by done.
      apply Hnamed.
Qed.

(** Nothing of it depends on the rest of the state. *)
Lemma orderly_more s s' :
  orderly s -> st_reg s' = st_reg s -> st_mod s' = st_mod s -> st_rt s' = st_rt s ->
  st_next s' = st_next s -> st_alloc s' = [] ->
  (forall c (x : xy_t), st_ctx s !! c = Some x -> st_ctx s' !! c = Some x) -> orderly s'.
Proof.
  intros [Hrun Hexact Hix Ha Hage Htidy] Er Em Et En Ea Hctx. split.
  - by apply (running_same s).
  - by apply (registry_exact_keys s); [|rewrite Et|intros x; rewrite Em].
  - by rewrite Et.
  - done.
  - by rewrite Em.
  - intros x m Hm. rewrite Em in Hm. destruct (Htidy x m Hm) as [(l & ms & Hms & Hx) Hpath Hnamed].
    split; [|done|].
    + exists l, ms. split; [|done]. apply (mod_list_frame s); [done|by rewrite Er|by intros; rewrite Em].
    + intros y Hy. destruct (Hnamed y Hy) as (c & tbl & p & Hc & Ht & H). exists c, tbl, p.
      split; [done|]. split; [by apply Hctx|done].
Qed.

(** The first thing an unload does. *)
Lemma orderly_refcount s e m n :
  orderly s -> st_mod s !! e = Some m ->
  let s0 := set_st_mod (<[e := set_m_refcount n m]> (st_mod s)) s in
  orderly s0 /\ (forall l ms, mod_list s l ms -> mod_list s0 l ms) /\
  forall x, parent_in (st_mod s0) x = parent_in (st_mod s) x.
Proof.
  intros [Hrun Hexact Hix Ha Hage Htidy] Hm s0.
  destruct (refcount_frame s e m n Hrun Hm) as (Hrun0 & Hl0 & Hk0). fold s0 in Hrun0, Hl0, Hk0.
  assert (forall x, parent_in (st_mod s0) x = parent_in (st_mod s) x) as Hp.
  { intros x. unfold parent_in. cbn. rewrite lookup_insert. case_decide; [|done]. subst. by rewrite Hm. }
  split; [|done]. split; try done.
  - by apply (registry_exact_keys s).
  - intros x y. rewrite Hp. apply Hage.
  - intros x mx Hx. assert (exists mx', st_mod s !! x = Some mx' /\ m_load_path mx = m_load_path mx' /\
      m_parent_entry mx = m_parent_entry mx' /\ m_ctx mx = m_ctx mx' /\ m_mod_key mx = m_mod_key mx' /\
      m_region_id mx = m_region_id mx') as (mx' & Hx' & E1 & E2 & E3 & E4 & E5).
    { cbn in Hx. apply lookup_insert_Some in Hx as [[<- <-]|[_ Hx]]; eexists; done. }
    destruct (Htidy x mx' Hx') as [(l & ms & Hms & Hin) Hpath Hnamed]. split.
    + exists l, ms. split; [by apply Hl0|done].
    + by rewrite E1.
    + rewrite E2, E3, E4, E5. apply Hnamed.
Qed.

(** *** The two ends of a cut *)

Lemma cut_one s e m :
  orderly s -> st_mod s !! e = Some m -> 1 < m_refcount m ->
  cut {[e]} s (set_st_mod (<[e := set_m_refcount (m_refcount m - 1) m]> (st_mod s)) s).
Proof.
  intros Ho Hm Href. destruct (orderly_refcount s e m (m_refcount m - 1) Ho Hm) as (_ & Hl0 & _).
  set (s0 := set_st_mod _ s) in *.
  assert (forall x, is_Some (st_mod s !! x) -> is_Some (st_mod s0 !! x)) as Hlive.
  { intros x Hx. cbn. rewrite lookup_insert. case_decide; [by eexists|done]. }
  split.
  - intros x. cbn. rewrite lookup_insert. destruct (decide (e = x)) as [<-|Hne].
    + rewrite Hm. cbn. rewrite bool_decide_eq_true_2 by by apply elem_of_singleton. unfold after_loss.
      by destruct (Z.ltb_spec 0 (m_refcount m - 1)); [|lia].
    + rewrite bool_decide_eq_false_2 by by intros ?%elem_of_singleton. by destruct (st_mod s !! x).
  - intros l ms Hms. rewrite filter_live; [by apply Hl0|]. intros x Hx. by eapply Hlive, mod_list_live.
  - exists []. split; [constructor|]. split; [|split_and!; [by rewrite app_nil_r|cbn; lia|done]].
    intros x. split; [by intros ?%not_elem_of_nil|]. intros [[y Hy]%Hlive Hn]. congruence.
  - exists (rt_mod_hd (st_rt s)), (rt_mod_by_region_hd (st_rt s)), (rt_mod_count (st_rt s)).
    cbn. by destruct (st_rt s).
  - done.
  - done.
  - done.
Qed.

(** The lists once [e] has gone from one of them. *)
Lemma unloaded_lists s s' hd k e m l ms1 ms2 l' ms :
  running s -> mod_list s l (ms1 ++ e :: ms2) -> unloaded s s' hd k e m l ms1 ms2 ->
  mod_list s l' ms -> mod_list s' l' (filter (fun x => is_Some (st_mod s' !! x)) ms).
Proof.
  intros Hrun Hl Hul Hms.
  assert (forall x, x <> e -> is_Some (st_mod s !! x) -> is_Some (st_mod s' !! x)) as Hlive.
  { intros x Hx [mx Hmx]. pose proof (ul_modules _ _ _ _ _ _ _ _ _ Hul x Hx) as E. rewrite Hmx in E.
    destruct (st_mod s' !! x); [by eexists|done]. }
  assert (forall x, x ∈ ms -> is_Some (st_mod s !! x)) as Hin by (intros x Hx; by eapply mod_list_live).
  destruct (decide (l' = l)) as [->|Hne].
  - rewrite (mod_list_det s l ms (ms1 ++ e :: ms2)) in Hin |- * by done.
    destruct Hl as (r & _ & _ & Hnd). apply NoDup_app in Hnd as (_ & Hnd & [He2 _]%NoDup_cons).
    rewrite filter_app, filter_cons_False.
    2: { rewrite (ul_gone _ _ _ _ _ _ _ _ _ Hul). by intros []. }
    rewrite !filter_live; [apply Hul| |]; intros x Hx; apply Hlive.
    + by intros ->.
    + apply Hin, elem_of_app. right. by right.
    + intros ->. apply (Hnd e); [done|left].
    + apply Hin, elem_of_app. by left.
  - rewrite filter_live; [by apply Hul|]. intros x Hx. apply Hlive; [|by apply Hin]. intros ->.
    pose proof (mod_list_owner _ _ _ _ (run_mods _ Hrun) Hms Hx) as E1.
    pose proof (mod_list_owner _ _ _ _ (run_mods _ Hrun) Hl (ltac:(apply elem_of_app; right; left) : e ∈ _)) as E2.
    congruence.
Qed.

(** The whole cut of a last reference: what the modules below [e] lose, and [e]
    itself. *)
Lemma cut_last L s s1 s' e m m1 hd k l ms1 ms2 :
  let s0 := set_st_mod (<[e := set_m_refcount (m_refcount m - 1) m]> (st_mod s)) s in
  orderly s -> st_mod s !! e = Some m -> m_refcount m <= 1 -> (forall x, x ∈ L -> (e < x)%positive) -> cut L s0 s1 -> running s1 ->
  st_mod s1 !! e = Some m1 -> mod_list s1 l (ms1 ++ e :: ms2) -> unloaded s1 s' hd k e m1 l ms1 ms2 ->
  cut (L ∪ {[e]}) s s'.
Proof.
  intros s0 Ho Hm Href Hyoung Hc Hrun1 Hm1 Hl Hul.
  assert (e ∉ L) as He by (intros ?%Hyoung; lia).
  destruct (orderly_refcount s e m (m_refcount m - 1) Ho Hm) as (_ & Hl0 & Hp0). fold s0 in Hl0, Hp0.
  pose proof Hul as [_ _ _ _ Hgone Hmods (ix & _ & Ert) Etr Eclaim Etree _ _ _ _ Hrest].
  assert (bare m1 = bare (set_m_refcount (m_refcount m - 1) m)) as Em1.
  { pose proof (cut_kept _ _ _ _ Hc He) as E. rewrite Hm1 in E. cbn in E. rewrite lookup_insert_eq in E.
    by apply (inj Some) in E. }
  assert (forall x, x <> e -> st_mod s0 !! x = st_mod s !! x) as Hs0.
  { intros x Hx. cbn. by rewrite lookup_insert_ne. }
  split.
  - intros x. destruct (decide (x = e)) as [->|Hx].
    + rewrite Hgone, Hm, bool_decide_eq_true_2 by (apply elem_of_union; right; by apply elem_of_singleton).
      cbn. by destruct (Z.ltb_spec 0 (m_refcount m - 1)); [lia|].
    + rewrite Hmods, (ct_mod _ _ _ Hc), Hs0 by done. f_equal. f_equal. apply bool_decide_ext.
      rewrite elem_of_union, elem_of_singleton. naive_solver.
  - intros l' ms Hms. rewrite <- (filter_twice (st_mod s1)).
    + eapply unloaded_lists; [done..|]. by apply (ct_lists _ _ _ Hc), Hl0.
    + intros x Hx. destruct (decide (x = e)) as [->|Hne]; [by eexists|].
      specialize (Hmods x Hne). destruct Hx as [mx Hx]. rewrite Hx in Hmods. by destruct (st_mod s1 !! x).
  - destruct (ct_order _ _ _ Hc) as (o & Hnd & Hin & Et & Ec & Hfirst). exists (o ++ [e]). split_and!.
    + apply NoDup_app. split; [done|]. split; [|apply NoDup_singleton].
      intros x [_ Hx]%Hin ->%list_elem_of_singleton. congruence.
    + intros x. rewrite elem_of_app, list_elem_of_singleton, Hin. destruct (decide (x = e)) as [->|Hx].
      * rewrite Hgone, Hm. split; [by split; [eexists|]|by right].
      * rewrite Hs0 by done. specialize (Hmods x Hx).
        destruct (st_mod s' !! x), (st_mod s1 !! x); try done; naive_solver.
    + rewrite Etr, Et. unfold freeing_of. rewrite bind_app, app_assoc. cbn. rewrite Hm, app_nil_r.
      f_equal; [|by eapply free_events_bare]. f_equal. apply list_bind_ext; [|done]. intros x.
      cbn. rewrite lookup_insert. case_decide; [|done]. subst. by rewrite Hm.
    + rewrite Ert. cbn. rewrite Ec, length_app. cbn. lia.
    + apply children_first_app.
      * apply (children_first_agree _ (st_mod s0)); [|done]. intros x y _. by rewrite Hp0.
      * intros i j x y Hi Hj Hxy. apply list_lookup_singleton_Some in Hi as [_ <-], Hj as [_ <-].
        pose proof (od_aged _ Ho _ _ Hxy). lia.
      * intros x y ->%list_elem_of_singleton [Hl1 Hn1]%Hin Hxy.
        pose proof (Hyoung y (cut_gone _ _ _ _ Hc Hl1 Hn1)). pose proof (od_aged _ Ho _ _ Hxy). lia.
  - destruct (ct_rt _ _ _ Hc) as (hd1 & ix1 & n1 & E1). unfold unloaded_rt in Ert. rewrite E1 in Ert.
    do 3 eexists. rewrite Ert. reflexivity.
  - etransitivity; [apply (ct_tree _ _ _ Hc)|done].
  - etransitivity; [apply (ct_claims _ _ _ Hc)|done].
  - eapply only_heaps_trans; [|exact Hrest]. pose proof (ct_rest _ _ _ Hc) as E. unfold only_heaps in E |- *.
    rewrite E. done.
Qed.

End Orderly.

(** ** The cascade *)

Section Cascade.
Context {Q : QMapOps} {QL : QMapLaws Q} {P : Platform}.
Implicit Types (s : state) (m : mod_entry) (e x c : loc) (L : gset loc).

(** The number of modules that are younger than [e]: the bound of the depth. *)
Definition younger s e : nat := size (filter (fun x => (e < x)%positive) (dom (st_mod s))).

Lemma younger_child s e c : (e < c)%positive -> is_Some (st_mod s !! c) -> (younger s c < younger s e)%nat.
Proof.
  intros Hlt Hc. apply subset_size. split.
  - intros x. rewrite !elem_of_filter. intros [? ?]. split; [lia|done].
  - intros Hsub. specialize (Hsub c). rewrite !elem_of_filter in Hsub.
    destruct Hsub as [? _]; [split; [done|by apply elem_of_dom]|lia].
Qed.

Lemma younger_sub s s' e : dom (st_mod s') ⊆ dom (st_mod s) -> (younger s' e <= younger s e)%nat.
Proof.
  intros Hsub. apply subseteq_size. intros x. rewrite !elem_of_filter. intros [? ?].
  split; [done|by apply Hsub].
Qed.

Lemma cut_dom L s s' : cut L s s' -> dom (st_mod s') ⊆ dom (st_mod s).
Proof.
  intros Hc x. rewrite !elem_of_dom. intros [m' Hm'].
  destruct (cut_back _ _ _ _ _ Hc Hm') as (m & _ & Hm & _). by eexists.
Qed.

(** Unloading the module [e] does what it should. *)
Definition unloads (unload : string -> Z -> XM Z) s e m : Prop :=
  forall fname id, registry_key (resolved fname) id = m_mod_key m ->
  exists s' L, unload fname id s = Ok (XY_OK, s') /\ orderly s' /\
    (forall x, x ∈ L <-> loses (st_mod s) e x) /\ cut L s s'.

(** What the unload of the modules [e] has loaded, but [cs], has taken a
    reference from. *)
Definition behind s e (cs : list loc) L : Prop :=
  forall x, x ∈ L -> exists c, (c ∉ cs) /\ parent_in (st_mod s) c = Some e /\ below (st_mod s) c x.

Lemma behind_below s e c cs L x :
  aged (st_mod s) -> parent_in (st_mod s) c = Some e -> behind s e (c :: cs) L ->
  below (st_mod s) c x -> x ∉ L.
Proof.
  intros Hage Hp Hb Hx (c' & Hc' & Hp' & Hx')%Hb. apply not_elem_of_cons in Hc' as [Hne _].
  by eapply (below_disjoint (st_mod s) e c c').
Qed.

(** Below a module that is still to come, nothing has changed. *)
Lemma loses_later s s1 e c cs L x :
  aged (st_mod s) -> parent_in (st_mod s) c = Some e -> behind s e (c :: cs) L -> cut L s s1 ->
  loses (st_mod s1) c x <-> loses (st_mod s) c x.
Proof.
  intros Hage Hp Hb Hc.
  assert (forall y, below (st_mod s) c y -> claim_on <$> st_mod s1 !! y = claim_on <$> st_mod s !! y) as Hag.
  { intros y Hy. apply (fmap_through bare); [done|]. eapply cut_kept; [done|by eapply behind_below]. }
  split; apply loses_mono; [|done]. intros y Hy. symmetry. apply Hag.
  eapply below_sub; [| |exact Hy]; [intros z p; by eapply cut_parent|].
  intros _. by eapply parent_in_live.
Qed.

Lemma unload_children_spec unload s e cs s1 L :
  orderly s -> NoDup cs -> (forall c, c ∈ cs -> parent_in (st_mod s) c = Some e) ->
  (forall t c m, orderly t -> dom (st_mod t) ⊆ dom (st_mod s) -> c ∈ cs -> st_mod t !! c = Some m ->
     unloads unload t c m) ->
  orderly s1 -> cut L s s1 -> behind s e cs L ->
  exists s' L', unload_children unload cs s1 = Ok (tt, s') /\ orderly s' /\ cut L' s s' /\
    forall x, x ∈ L' <-> x ∈ L \/ exists c, c ∈ cs /\ loses (st_mod s) c x.
Proof.
  intros Ho. pose proof (od_aged _ Ho) as Hage. revert s1 L. induction cs as [|c cs IH];
    intros s1 L Hnd Hps Hun Ho1 Hc Hb.
  { exists s1, L. split; [done|]. split; [done|]. split; [done|]. intros x. split; [by left|].
    intros [?|(c & ?%not_elem_of_nil & _)]; done. }
  apply NoDup_cons in Hnd as [Hnew Hnd]. pose proof (Hps c ltac:(left)) as Hp.
  assert (below (st_mod s) c c) as Hcc by (constructor; by eapply parent_in_live).
  pose proof (cut_kept _ _ _ _ Hc (behind_below s e c cs L c Hage Hp Hb Hcc)) as Ek.
  assert (parent_in (st_mod s1) c = Some e) as Hp1.
  { rewrite <- Hp. by apply parent_in_agree, (fmap_through bare). }
  unfold parent_in in Hp1. destruct (st_mod s1 !! c) as [m|] eqn:Hm; [|done]. cbn in Hp1.
  destruct (ti_named _ _ _ (od_tidy _ Ho1 c m Hm) e Hp1) as (x & tbl & p & Hctx & Hx & Hpath & Hkey).
  destruct (Hun s1 c m Ho1 ltac:(by eapply cut_dom) ltac:(left) Hm p (m_region_id m) ltac:(done))
    as (s2 & L2 & Hrun & Ho2 & HL2 & Hc2).
  assert (forall y, y ∈ L2 <-> loses (st_mod s) c y) as HL2'.
  { intros y. rewrite HL2. by eapply loses_later. }
  destruct (IH s2 (L ∪ L2)) as (s' & L' & Hrest & Ho' & Hc' & HL'); [done| | |done| | |].
  - intros d Hd. apply Hps. by right.
  - intros t d md Hot Hdom Hd. apply Hun; [done..|by right].
  - eapply cut_trans; [| |done..].
    + intros y Hy H2%HL2'. by apply (behind_below s e c cs L y Hage Hp Hb (loses_below _ _ _ H2)).
    + intros y z Hy%HL2'%loses_below (d & [Hne _]%not_elem_of_cons & Hpd & Hz)%Hb Hyz.
      apply (below_disjoint (st_mod s) e d c y Hage Hpd Hp Hne); [by eapply below_child|done].
  - intros y [Hy|Hy%HL2'%loses_below]%elem_of_union; [|by exists c].
    destruct (Hb y Hy) as (d & [_ Hd]%not_elem_of_cons & Hd'). by exists d.
  - exists s', L'. split; [|split; [done|split; [done|]]].
    + cbn [unload_children]. rewrite (bind_Ok (module_at c) _ s1 s1 m) by (apply wp_eq; by eapply wp_module_at).
      rewrite Hctx, (bind_Ok _ _ s1 s1 (Some p)); [by rewrite (bind_Ok _ _ _ _ _ Hrun)|].
      rewrite (bind_Ok (ctx_at x) _ s1 s1 tbl) by (apply wp_eq; by eapply wp_ctx_at). by rewrite Hpath.
    + intros y. rewrite HL', elem_of_union, HL2'. setoid_rewrite elem_of_cons. naive_solver.
Qed.

(** What [loaded_by] collects. *)
Lemma loaded_by_spec s hd e :
  registry_exact s -> rt_mod_hd (st_rt s) = Some hd -> aged (st_mod s) ->
  NoDup (loaded_by (st_mod s) e (qiter hd)) /\
  forall c, c ∈ loaded_by (st_mod s) e (qiter hd) <-> parent_in (st_mod s) c = Some e.
Proof using QL.
  intros (hd' & E & Hexact) Hhd Hage. rewrite Hhd in E. injection E as <-. unfold loaded_by. split.
  - apply NoDup_filter, qvalues_nodup. intros k k' v Hk%Hexact Hk'%Hexact. naive_solver congruence.
  - intros c. rewrite list_elem_of_filter, list_elem_of_fmap. unfold parent_in. split.
    + intros [[_ Hp] _]. destruct (st_mod s !! c); [|done]. by injection Hp as Hp.
    + intros Hp. destruct (st_mod s !! c) as [m|] eqn:Hm; [|done]. cbn in Hp. split.
      * split; [|cbn; by rewrite Hp]. intros ->. specialize (Hage e e). unfold parent_in in Hage.
        rewrite Hm in Hage. specialize (Hage Hp). lia.
      * exists (m_mod_key m, c). split; [done|]. apply qiter_get, Hexact. by exists m.
Qed.

(** What a last reference takes along. *)
Lemma loses_last s e m x :
  aged (st_mod s) -> st_mod s !! e = Some m -> m_refcount m <= 1 ->
  let s0 := set_st_mod (<[e := set_m_refcount (m_refcount m - 1) m]> (st_mod s)) s in
  loses (st_mod s) e x <->
  x = e \/ (exists c, parent_in (st_mod s0) c = Some e /\ loses (st_mod s0) c x).
Proof.
  intros Hage Hm Href s0.
  assert (forall y, parent_in (st_mod s0) y = parent_in (st_mod s) y) as Hp.
  { intros y. unfold parent_in. cbn. rewrite lookup_insert. case_decide; [|done]. subst. by rewrite Hm. }
  assert (aged (st_mod s0)) as Hage0 by (intros y z; rewrite Hp; apply Hage).
  assert (forall c y, parent_in (st_mod s0) c = Some e -> loses (st_mod s0) c y ->
    st_mod s0 !! y = st_mod s !! y) as Hsame.
  { intros c y Hc Hy%loses_below%below_older; [|done]. rewrite Hp in Hc. specialize (Hage _ _ Hc).
    cbn. rewrite lookup_insert_ne; [done|]. intros ->. lia. }
  split.
  - induction 1 as [|x y my _ IH Hy Hr Hx]; [by left|]. right. destruct IH as [->|(c & Hc & Hl)].
    + exists x. rewrite Hp. split; [done|]. constructor. apply (parent_in_live _ x e). by rewrite Hp.
    + exists c. split; [done|]. apply (loses_child _ _ x y my); [done| |done|by rewrite Hp].
      by rewrite (Hsame c y).
  - intros [->|(c & Hc & Hl)]; [constructor; by eexists|]. induction Hl as [_|x y my Hl IH Hy Hr Hx].
    + eapply (loses_child _ _ c e m); [constructor; by eexists|done|done|by rewrite <- Hp].
    + rewrite (Hsame c y Hc Hl) in Hy. eapply (loses_child _ _ x y my); [done..|by rewrite <- Hp].
Qed.

(** The last reference to [e], given that the cascade below works. *)
Lemma unload_last_spec exec fuel s e m :
  orderly s -> quiet_cleanup exec -> st_mod s !! e = Some m -> m_refcount m <= 1 ->
  (forall t c mc, orderly t -> dom (st_mod t) ⊆ dom (st_mod s) -> (e < c)%positive ->
     st_mod t !! c = Some mc -> unloads (_mod_unload exec fuel) t c mc) ->
  unloads (_mod_unload exec (S fuel)) s e m.
Proof using QL.
  intros Ho Hq Hm Href IH fname id Hkey. pose proof Ho as [Hrun Hexact _ Ha Hage _].
  pose proof Hexact as (hd & Hhd & Hget).
  set (s0 := set_st_mod (<[e := set_m_refcount (m_refcount m - 1) m]> (st_mod s)) s).
  destruct (orderly_refcount s e m (m_refcount m - 1) Ho Hm) as (Ho0 & _ & Hp0). fold s0 in Ho0, Hp0.
  assert (qget hd (registry_key (resolved fname) id) = Some e) as Hg by (apply Hget; by exists m).
  destruct (loaded_by_spec s0 hd e (od_exact _ Ho0) Hhd (od_aged _ Ho0)) as [Hnd Hcs].
  set (cs := loaded_by (st_mod s0) e (qiter hd)) in *.
  assert (dom (st_mod s0) = dom (st_mod s)) as Hdom by (apply dom_insert_lookup_L; by eexists).
  destruct (unload_children_spec (_mod_unload exec fuel) s0 e cs s0 ∅ Ho0 Hnd) as (s1 & L & Hch & Ho1 & Hc & HL).
  { intros c. by apply Hcs. }
  { intros t c mc Ht Hsub Hc. rewrite Hdom in Hsub. apply IH; [done..|]. apply Hcs in Hc.
    by apply (od_aged _ Ho0). }
  { done. }
  { apply cut_refl. }
  { by intros x ?%not_elem_of_empty. }
  assert (forall x, x ∈ L <-> exists c, parent_in (st_mod s0) c = Some e /\ loses (st_mod s0) c x) as HL'.
  { intros x. rewrite HL. setoid_rewrite Hcs. split; [by intros [?%not_elem_of_empty|?]|by right]. }
  assert (forall x, x ∈ L -> (e < x)%positive) as Hyoung.
  { intros x (c & Hc' & Hl%loses_below%below_older)%HL'; [|apply Ho0]. pose proof (od_aged _ Ho0 _ _ Hc'). lia. }
  assert (e ∉ L) as He by (intros ?%Hyoung; lia).
  pose proof (cut_kept _ _ _ _ Hc He) as Ek. cbn in Ek. rewrite lookup_insert_eq in Ek.
  destruct (st_mod s1 !! e) as [m1|] eqn:Hm1; [|done]. apply (inj Some) in Ek.
  destruct (od_tidy _ Ho1 e m1 Hm1) as [(l & ms & Hms & Hin) Hpath _].
  apply list_elem_of_split in Hin as (ms1 & ms2 & ->).
  destruct (od_exact _ Ho1) as (hd1 & Hhd1 & _). destruct (od_index _ Ho1) as [ix1 Hix1].
  destruct (unload_rest_spec exec s1 e m1 l ms1 ms2 hd1 ix1 (od_running _ Ho1) (od_exact _ Ho1) Hq Hm1 Hms Hpath Hhd1 Hix1)
    as (s' & Hrest & Hul).
  assert (cut (L ∪ {[e]}) s s') as Hcut.
  { eapply cut_last; [exact Ho|done..|apply Ho1|exact Hm1|exact Hms|exact Hul]. }
  exists s', (L ∪ {[e]}). split; [|split; [|split; [|done]]].
  - rewrite (mod_unload_parts_eq exec fuel fname id s hd e m) by done. fold s0 cs.
    by rewrite (bind_Ok _ _ _ _ _ Hch).
  - apply (orderly_cut (L ∪ {[e]}) s s'); [done|done|apply Hul|apply Hul|]. destruct (ul_rt _ _ _ _ _ _ _ _ _ Hul) as (ix & _ & ->). by eexists.
  - intros x. rewrite elem_of_union, elem_of_singleton, HL', (loses_last s e m x) by done. fold s0. naive_solver.
Qed.

(** An unload ends, with the number of younger modules as a bound of its depth. *)
Lemma mod_unload_spec exec fuel s e m :
  quiet_cleanup exec -> orderly s -> st_mod s !! e = Some m -> (younger s e < fuel)%nat ->
  unloads (_mod_unload exec fuel) s e m.
Proof using QL.
  intros Hq. revert s e m. induction fuel as [|fuel IH]; [lia|]. intros s e m Ho Hm Hfuel.
  destruct (decide (m_refcount m <= 1)) as [Href|Href].
  - apply unload_last_spec; [done..|]. intros t c mc Ht Hsub Hec Hc. apply IH; [done..|].
    pose proof (younger_sub s t c Hsub). assert (is_Some (st_mod s !! c)) as Hlive.
    { apply elem_of_dom, Hsub, elem_of_dom. by eexists. }
    pose proof (younger_child s e c Hec Hlive). lia.
  - intros fname id Hkey. destruct (od_exact _ Ho) as (hd & Hhd & Hget).
    assert (qget hd (registry_key (resolved fname) id) = Some e) as Hg by (apply Hget; by exists m).
    eexists _, {[e]}. split; [by apply (mod_unload_shared_eq exec fuel fname id s hd e m (od_alloc _ Ho)); [..|lia]|].
    split; [by apply orderly_refcount|]. split; [|apply cut_one; [done|done|lia]].
    intros x. rewrite elem_of_singleton. split; [intros ->; constructor; by eexists|].
    intros Hl. induction Hl as [|x y my _ IHl Hy Hr _]; [done|]. subst y. rewrite Hm in Hy. injection Hy as <-. lia.
Qed.

Lemma xy_unload_spec exec fname s hd e :
  orderly s -> quiet_cleanup exec -> rt_mod_hd (st_rt s) = Some hd ->
  qget hd (registry_key (resolved fname) (t_region_id (st_tls s))) = Some e ->
  exists t L, xy_unload exec fname s = Ok (XY_OK, set_st_err XY_OK t) /\ orderly t /\
    (forall x, x ∈ L <-> loses (st_mod s) e x) /\ cut L s t.
Proof using QL.
  intros Ho Hq Hhd Hg. pose proof (od_exact _ Ho) as (hd' & E & Hget). rewrite Hhd in E. injection E as <-.
  apply Hget in Hg as (m & Hm & Hkey).
  destruct (mod_unload_spec exec (S (size (st_mod s))) s e m Hq Ho Hm) with (fname := fname)
    (id := t_region_id (st_tls s)) as (t & L & Hrun & Ht & HL & Hc); [|done|].
  { unfold younger. rewrite <- size_dom. apply Nat.lt_succ_r, subseteq_size. intros x [_ ?]%elem_of_filter. done. }
  exists t, L. split; [|done]. unfold xy_unload. rewrite with_runtime_inited by apply Ho.
  rewrite (bind_Ok _ _ s s (t_region_id (st_tls s)) eq_refl). unfold mod_unload.
  rewrite bind_assoc, (bind_Ok (gets _) _ s s (size (st_mod s))) by done. by rewrite (bind_Ok _ _ _ _ _ Hrun).
Qed.

(** C9: an unload under a name that is registered in the caller's region ends and
    answers XY_OK.  The module loses a reference.  If it was the last one, the
    module goes, and so do, to any depth, the modules that it has loaded and
    that nothing else has loaded; the others lose a reference.  No other module
    changes; the lists keep their order; each image that goes is closed, and its
    temporary file removed, once and after those of the modules that it has loaded;
    and the library is as orderly as before, so
    that any module can be unloaded next. *)
Theorem xy_unload_cascade exec fname s hd e :
  orderly s -> quiet_cleanup exec -> rt_mod_hd (st_rt s) = Some hd ->
  qget hd (registry_key (resolved fname) (t_region_id (st_tls s))) = Some e ->
  exists t L, xy_unload exec fname s = Ok (XY_OK, set_st_err XY_OK t) /\ orderly t /\
    (forall x, x ∈ L <-> loses (st_mod s) e x) /\ cut L s t.
Proof using QL. apply xy_unload_spec. Qed.

End Cascade.
