(* ===== verification/LoadUnload.v ===== *)
(** * Loading and unloading again

    A module that is loaded and unloaded leaves the library as it was; and a
    module that is loaded can be unloaded: a first load calls xy_install in a
    state with the invariant that the cascade of Cascade.v needs. *)

From S2P Require Import Prelude QMap Status State Machine ModKey Linked Region RegionTree ModList.
From S2P Require Import Runtime Paths Identity FnCache RegionApi Deny Claim Dispatch Areg CopyFile.
From S2P Require Import Load LoadSpec LoadFresh LoadClaim Unload UnloadSpec Cascade.
From stdpp Require Import options.
Local Open Scope Z_scope.

Section LoadUnload.
Context {Q : QMapOps} {QL : QMapLaws Q} {P : Platform}.
Implicit Types (s : state) (m : mod_entry) (r : region_entry).

(** The installer [cb] does nothing to the library. *)
Definition quiet_install (exec : executor) (cb : loc) : Prop :=
  forall s, exists out, exec (CbInstall cb) s = Ok (out, s).

(** The modules, and the one that is being loaded, were loaded by modules that
    have been allocated before. *)
Definition known_parents s : Prop :=
  (forall x m y, st_mod s !! x = Some m -> m_parent_entry m = Some y -> (y < st_next s)%positive) /\
  forall y, t_loading_mod (st_tls s) = Some y -> (y < st_next s)%positive.

(** The installed module, with the thread back where it was. *)
Definition after_install s s1 : state :=
  set_st_err XY_OK (set_st_tls (set_t_pending_ctx None (st_tls s)) s1).

Lemma install_quiet_eq exec s fname l r ms hd ids tmp evs h ctx cb me s1 :
  quiet_install exec cb -> installing s fname l r ms hd ids tmp evs h ctx me s1 ->
  (ret ← install_and_leave exec cb me (t_loading_mod (st_tls s)) (t_region_id (st_tls s))
           (t_region_entry (st_tls s)); return_err ret) s1 = Ok (XY_OK, after_install s s1).
Proof.
  intros Hq Hin. unfold install_and_leave. rewrite bind_assoc.
  set (s2 := set_st_tls (set_t_loading_mod (Some me) (st_tls s1)) s1).
  rewrite (bind_Ok (upd_tls _) _ s1 s2 tt) by done. destruct (Hq s2) as [out Hout].
  rewrite bind_assoc, (bind_Ok _ _ _ _ _ Hout). unfold after_install, s2.
  cbn. rewrite (in_tls _ _ _ _ _ _ _ _ _ _ _ _ _ Hin). by destruct (st_tls s).
Qed.

(** A first load with such an installer. *)
Lemma load_quiet_eq exec s fname l r ms hd ids tmp evs h ctx cb :
  loadable s fname l r ms hd ids tmp evs h ctx -> plat_dlsym (Some h) "xy_install" = Some cb ->
  quiet_install exec cb ->
  exists me s1, installing s fname l r ms hd ids tmp evs h ctx me s1 /\
    xy_load exec fname s = Ok (XY_OK, after_install s s1).
Proof using QL.
  intros Hload Hcb Hqi.
  destruct (mod_load_fresh exec s fname l r ms hd ids tmp evs h ctx cb Hload Hcb) as (me & s1 & Hin & Hrun).
  exists me, s1. split; [done|].
  unfold xy_load. rewrite with_runtime_inited by apply Hload. unfold mbind at 1, M_bind at 1. rewrite Hrun.
  exact (install_quiet_eq exec s fname l r ms hd ids tmp evs h ctx cb me s1 Hqi Hin).
Qed.

(** It has loaded nothing, so it can go. *)
Lemma installed_leaf s fname l r ms hd ids tmp evs h ctx me s1 :
  known_parents s -> installing s fname l r ms hd ids tmp evs h ctx me s1 ->
  exists m, leaf_module (after_install s s1) (qput hd (registry_key (resolved fname) (r_id r)) me)
      (registry_key (resolved fname) (r_id r)) me m l ms [] /\
    free_events m = EvDlclose h :: unlink_events tmp /\ m_region_id m = r_id r.
Proof using QL.
  intros [Hkp Hkl] [Hrun Hexact Hhd Hl _ (m & Hm & Hh & Href & _ & Hpar & Hid & Htmp & Hst & _) [_ Hmods]
    (ix & ih & _ & Hix & _) _ Htls _ _ [Hnew (m' & Hm' & Hpath)]].
  rewrite Hm in Hm'. injection Hm' as <-. exists m. split.
  - split; try done.
    + by apply (running_same s1).
    + by rewrite qget_put, decide_True.
    + intros x mx Hx Hp. destruct (decide (x = me)) as [|Hne]; [done|]. exfalso.
      specialize (Hmods x Hne). change (st_mod s1 !! x = Some mx) in Hx. rewrite Hx in Hmods.
      destruct (st_mod s !! x) as [m0|] eqn:Hm0; [|done]. apply (inj Some) in Hmods.
      assert (m_parent_entry m0 = Some me) as Hp0.
      { rewrite <- Hp. change (m_parent_entry (bare m0) = m_parent_entry (bare mx)). by rewrite Hmods. }
      specialize (Hkp x m0 me Hm0 Hp0). lia.
  - split; [|done]. unfold free_events, cleanup_events. by rewrite Hst, Hh, Htmp.
Qed.

(** ** Loads keep the library orderly *)

(** The table [ctx], if it belongs to a module of the library already (another
    instance of the image), belongs to one that the name [fname] fits as well. *)
Definition table_shared s (fname : string) (ctx : loc) : Prop :=
  forall x m, st_mod s !! x = Some m -> m_ctx m = Some ctx -> is_Some (m_parent_entry m) ->
    m_mod_key m = registry_key (resolved fname) (m_region_id m).

(** A new module, listed and named, next to orderly ones. *)
Lemma orderly_add s s1 fname ctx me m :
  orderly s -> known_parents s -> table_shared s fname ctx -> named_table s s1 fname ctx ->
  running s1 -> registry_exact s1 -> is_Some (rt_mod_by_region_hd (st_rt s1)) -> st_alloc s1 = [] ->
  (forall l ms, mod_list s l ms -> exists ms', mod_list s1 l ms' /\ forall x, x ∈ ms -> x ∈ ms') ->
  (exists l ms, mod_list s1 l ms /\ me ∈ ms) -> (st_next s <= me)%positive ->
  st_mod s1 !! me = Some m -> is_Some (m_load_path m) -> m_ctx m = Some ctx ->
  m_parent_entry m = t_loading_mod (st_tls s) ->
  m_mod_key m = registry_key (resolved fname) (m_region_id m) ->
  (forall x, x <> me -> bare <$> st_mod s1 !! x = bare <$> st_mod s !! x) -> orderly s1.
Proof.
  intros [_ _ _ _ Hage Htidy] [Hkp Hkl] Hsh [(x0 & Hx0 & Hf0) Htab] Hrun Hexact Hix Ha Hlists Hin Hnew Hm Hpath
    Hctx Hpar Hkey Hmods.
  assert (forall x mx, x <> me -> st_mod s1 !! x = Some mx -> exists m0, st_mod s !! x = Some m0 /\
    bare mx = bare m0) as Hold.
  { intros x mx Hx Hmx. specialize (Hmods x Hx). rewrite Hmx in Hmods.
    destruct (st_mod s !! x) as [m0|]; [|done]. exists m0. split; [done|]. by apply (inj Some). }
  assert (forall T (f : mod_entry -> T) mx m0, (forall u, f (bare u) = f u) -> bare mx = bare m0 -> f mx = f m0) as Hf.
  { intros T f mx m0 Hf E. by rewrite <- (Hf mx), E, Hf. }
  split; [done|done|done|done| |].
  - intros x y. unfold parent_in. destruct (st_mod s1 !! x) as [mx|] eqn:Hmx; [|done]. cbn. intros Hp.
    destruct (decide (x = me)) as [->|Hne].
    + rewrite Hm in Hmx. injection Hmx as <-. rewrite Hpar in Hp. specialize (Hkl _ Hp). lia.
    + destruct (Hold x mx Hne Hmx) as (m0 & Hm0 & E). apply Hage. unfold parent_in. rewrite Hm0. cbn.
      by rewrite <- (Hf _ m_parent_entry _ _ ltac:(done) E).
  - intros x mx Hmx. destruct (decide (x = me)) as [->|Hne].
    + rewrite Hm in Hmx. injection Hmx as <-. split; [done|done|]. intros y _. by exists ctx, x0, fname.
    + destruct (Hold x mx Hne Hmx) as (m0 & Hm0 & E).
      destruct (Htidy x m0 Hm0) as [(l & ms & Hms & Hx) Hpath0 Hnamed].
      destruct (Hlists l ms Hms) as (ms' & Hms' & Hsub). split; [by exists l, ms'; auto| |].
      * by rewrite (Hf _ m_load_path _ _ ltac:(done) E).
      * intros y. rewrite (Hf _ m_parent_entry _ _ ltac:(done) E), (Hf _ m_ctx _ _ ltac:(done) E),
          (Hf _ m_mod_key _ _ ltac:(done) E), (Hf _ m_region_id _ _ ltac:(done) E). intros Hp.
        destruct (Hnamed y Hp) as (c & tbl & p & Hc & Ht & Hpth & Hk).
        destruct (decide (c = ctx)) as [->|Hcne].
        { exists ctx, x0, fname. split_and!; [done..|]. apply (Hsh x m0); [done..|by eexists]. }
        exists c, tbl, p. split_and!; [done| |done|done]. by apply Htab.
Qed.

(** Both kinds of first loads call xy_install in an orderly state. *)
Lemma installing_orderly s fname l r ms hd ids tmp evs h ctx me s1 :
  orderly s -> known_parents s -> table_shared s fname ctx -> mod_list s l ms ->
  installing s fname l r ms hd ids tmp evs h ctx me s1 -> orderly s1.
Proof.
  intros Ho Hkp Hsh Hl [Hrun Hexact _ Hl1 Ho1 (m & Hm & _ & _ & Hctx & Hpar & Hid & _ & _ & Hkey & _)
    [_ Hmods] (ix & ih & _ & Hix & _) _ _ [Ha _] _ [Hnew (m' & Hm' & Hpath)] Htab].
  rewrite Hm in Hm'. injection Hm' as <-.
  apply (orderly_add s s1 fname ctx me m); try done.
  - intros a ms' Hms. destruct (decide (a = l)) as [->|Hne].
    + exists (ms ++ [me]). split; [done|]. rewrite (mod_list_det s l ms' ms) by done.
      intros x Hx. apply elem_of_app. by left.
    + exists ms'. split; [by apply Ho1|done].
  - exists l, (ms ++ [me]). split; [done|]. apply elem_of_app. right. left.
  - by rewrite Hid.
Qed.

Lemma installing_own_orderly s fname l r hd ids tmp evs h ctx granted id me c s1 :
  orderly s -> known_parents s -> table_shared s fname ctx ->
  installing_own s fname l r hd ids tmp evs h ctx granted id me c s1 -> orderly s1.
Proof.
  intros Ho Hkp Hsh [Hrun Hexact _ _ Hl1 Ho1 (m & Hm & _ & _ & Hctx & Hpar & Hid & _ & Hkey & _)
    [_ Hmods] _ _ _ [Ha _] _ Hix [Hnew (m' & Hm' & Hpath)] Htab].
  rewrite Hm in Hm'. injection Hm' as <-.
  apply (orderly_add s s1 fname ctx me m); try done.
  - intros a ms Hms. exists ms. split; [by apply Ho1|done].
  - exists c, [me]. split; [done|left].
  - by rewrite Hid.
Qed.

(** C11: a module that claims nothing, has no region state, and whose xy_install
    does nothing (in particular it loads no module) is loaded for the first time
    and unloaded again.  Both calls answer
    XY_OK, every list and every registration by name is as it was, no module has
    changed in more than its caches, the count of modules is as before and so is
    the thread's context (but that a pending context is used up).  The index by
    region has had the module put in and one entry of the region taken out; which
    one that is, is libqmap's choice.  The path of the file stays interned.  To the
    environment the library has made a copy of the file if it was to, opened and
    closed the image once and removed the copy. *)
Theorem load_unload exec s fname l r ms hd ids tmp evs h ctx cb :
  loadable s fname l r ms hd ids tmp evs h ctx -> plat_dlsym (Some h) "xy_install" = Some cb ->
  quiet_install exec cb -> quiet_cleanup exec -> known_parents s ->
  exists s1 s2, xy_load exec fname s = Ok (XY_OK, s1) /\ xy_unload exec fname s1 = Ok (XY_OK, s2) /\
    running s2 /\ registry_exact s2 /\ (forall a ms', mod_list s a ms' -> mod_list s2 a ms') /\
    (exists hd', rt_mod_hd (st_rt s2) = Some hd' /\ forall k, qget hd' k = qget hd k) /\
    (forall x, bare <$> st_mod s2 !! x = bare <$> st_mod s !! x) /\
    (exists me ix, rt_mod_by_region_hd (st_rt s) = Some ix /\
       rt_mod_by_region_hd (st_rt s2) = Some (qmdel (qmput ix (r_id r) me) (r_id r))) /\
    path_added (intern_hd s) (intern_hd s2) (resolved fname) /\
    rt_mod_count (st_rt s2) = rt_mod_count (st_rt s) /\
    st_tls s2 = set_t_pending_ctx None (st_tls s) /\
    st_trace s2 = st_trace s ++ evs ++ [EvDlopen (default (resolved fname) tmp); EvDlclose h] ++
      unlink_events tmp.
Proof using QL.
  intros Hload Hcb Hqi Hqc Hkp.
  destruct (load_quiet_eq exec s fname l r ms hd ids tmp evs h ctx cb Hload Hcb Hqi) as (me & s1 & Hin & Hrun).
  destruct (installed_leaf s fname l r ms hd ids tmp evs h ctx me s1 Hkp Hin) as (m & Hleaf & Hev & Hid).
  pose proof Hin as [Hrun1 _ Hhd1 Hl1 Ho1 _ [Hnone Hmods] (ix & ih & Hix & Hix1 & Hih & Hadd) Hcount _ [Ha _] Htr _].
  pose proof (ld_current _ _ _ _ _ _ _ _ _ _ (ld_fetchable _ _ _ _ _ _ _ _ _ _ _ Hload)) as Hcur.
  destruct (mod_unload_last exec fname (r_id r) _ _ _ _ _ _ _ _ Hleaf Ha Hqc eq_refl) as (s2 & Hun & Hul).
  pose proof Hul as [Hrun2 Hexact2 Hl2 Ho2 Hgone Hmods2 (ix2 & Hix2 & Ert) Htr2 _ _ _ _ _ _ Hrest].
  exists (after_install s s1), (set_st_err XY_OK s2). split; [done|split; [|split; [by apply running_err|split; [done|]]]].
  - unfold xy_unload. rewrite with_runtime_inited by apply Hleaf.
    rewrite (bind_Ok (gets _) _ _ (after_install s s1) (r_id r)); [|by unfold gets; cbn; rewrite Hcur].
    by rewrite (bind_Ok _ _ _ _ _ Hun).
  - split_and!.
    + intros a ms' Hms. destruct (decide (a = l)) as [->|Ha'].
      * rewrite app_nil_r in Hl2. by rewrite (mod_list_det s l ms' ms) by (done || apply Hload).
      * apply Ho2; [done|]. by apply Ho1.
    + exists (qdel (qput hd (registry_key (resolved fname) (r_id r)) me) (registry_key (resolved fname) (r_id r))).
      split; [cbn; by rewrite Ert|]. intros k. rewrite qget_del, qget_put. case_decide; [|done].
      subst k. by rewrite (ld_new _ _ _ _ _ _ _ _ _ _ (ld_fetchable _ _ _ _ _ _ _ _ _ _ _ Hload)).
    + intros x. cbn. destruct (decide (x = me)) as [->|Hne]; [by rewrite Hgone, Hnone|].
      by rewrite Hmods2, <- Hmods.
    + exists me, ix. split; [done|]. change (rt_mod_by_region_hd (st_rt s1) = Some ix2) in Hix2.
      cbn. rewrite Ert. cbn. rewrite Hid. congruence.
    + unfold intern_hd at 2. cbn. rewrite Ert. cbn. by rewrite Hih.
    + cbn. rewrite Ert. cbn. rewrite Hcount. lia.
    + cbn. unfold only_heaps in Hrest. by rewrite Hrest.
    + cbn. rewrite Htr2. cbn. rewrite Htr, Hev, <- !app_assoc. done.
Qed.

End LoadUnload.
