(* ===== verification/AbortSpec.v ===== *)
(** * Giving up a load: theorems

    A load whose module has no xy_install is undone. *)

From S2P Require Import Prelude QMap Status State Machine ModKey Linked Region RegionTree ModList.
From S2P Require Import Runtime Paths Identity FnCache RegionApi Deny Claim Dispatch Areg CopyFile.
From S2P Require Import Load LoadSpec LoadFresh Unload UnloadSpec.
From stdpp Require Import options.
Local Open Scope Z_scope.

Section AbortSpec.
Context {Q : QMapOps} {QL : QMapLaws Q} {P : Platform}.
Implicit Types (s : state) (m : mod_entry) (r : region_entry).

(** The abort takes a module off its list as a detachment does; of the module
    itself, which is freed next, it changes something else. *)
Lemma abort_detach_spec s l e ms1 ms2 :
  running s -> mod_list s l (ms1 ++ e :: ms2) ->
  exists ls s1 m, linked (parent_of (st_reg s)) (Some l) ls /\ list_step ls s s1 /\ running s1 /\ mod_list s1 l (ms1 ++ ms2) /\
    (forall a ms, a <> l -> mod_list s a ms -> mod_list s1 a ms) /\ on_no_list s1 e /\
    abort_detach e s = Ok (tt, set_st_mod (<[e := m]> (st_mod s1)) s1) /\
    Some (mod_core m) = mod_core <$> st_mod s !! e.
Proof.
  intros Hrun Hl. destruct (listed_at s l e ms1 ms2 Hrun Hl) as (m & Hm & Eo & Ep & En & Hlp & Hln & Hnp & Hnn).
  destruct (detach_spec s l e ms1 ms2 Hrun Hl) as (ls & s1 & Hls & Hdet & Hrun1 & Hs1 & Hl1 & Ho1).
  pose proof (detached_off s s1 l e e ms1 ms2 ls Hrun Hl Hs1 Hl1 Ho1 ltac:(by left)) as Hoff.
  assert (is_Some (st_reg s !! l)) as Hr by (destruct Hl as (r & -> & _); by eexists).
  rewrite <- Ep in Hlp, Hnp. rewrite <- En in Hln, Hnn.
  rewrite (module_region_detach_eq s e l m ls Hm Eo Hr Hlp Hln Hnp Hnn Hls) in Hdet. injection Hdet as Es1.
  set (p := m_region_prev m) in *. set (n := m_region_next m) in *. set (u := unlinked l p n s).
  assert (is_Some (st_mod u !! e)) as [x Hx] by (apply is_Some_unlinked; by eexists).
  pose proof (lst_core _ _ _ Hs1 e) as Hcore.
  assert (forall f, alter f e (st_mod u) = <[e := f x]> (st_mod s1)) as Hal.
  { intros f. rewrite <- Es1. apply map_eq. intros i. change (st_mod (detached e l p n ls s)) with
      (alter (set_m_region_next None) e (alter (set_m_region_prev None) e (st_mod u))).
    destruct (decide (e = i)) as [<-|Hne].
    - by rewrite lookup_insert_eq, lookup_alter_eq, Hx.
    - by rewrite lookup_insert_ne, !lookup_alter_ne by done. }
  exists ls, s1, (set_m_region_entry None x). split_and!; [done..| |].
  - unfold abort_detach. rewrite (bind_Ok (module_at e) _ s s m) by (apply wp_eq; by eapply wp_module_at).
    rewrite Eo. fold p n. rewrite (unlink_eq s e l m _ Hm Hr Hlp Hln Hnp). fold p n u.
    rewrite (bind_Ok _ _ u (set_st_reg (dirtied ls (st_reg u)) u) tt).
    2: { apply mark_subtree_dirty_eq. exact (unlinked_chain l p n s (st_mod u) (Some l) ls Hls). }
    rewrite upd_module_eq by (by eexists). cbn [st_mod set_st_reg]. rewrite Hal. do 2 f_equal.
    rewrite <- Es1. by destruct s.
  - rewrite <- Hcore, <- Es1. change (st_mod (detached e l p n ls s)) with
      (alter (set_m_region_next None) e (alter (set_m_region_prev None) e (st_mod u))).
    by rewrite !lookup_alter_eq, Hx.
Qed.

(** The state once the module [e], which is on no list of [s], is freed, its
    temporary file removed and its image closed. *)
Definition abandoned (e h : loc) (m : mod_entry) (rt : runtime) s : state :=
  set_st_trace (st_trace s ++ unlink_events (m_tmp_load_path m) ++ [EvDlclose h])
    (set_st_mod (delete e (st_mod s)) (set_st_rt rt s)).

Lemma abort_rest_eq s e h m hd ix :
  rt_mod_hd (st_rt s) = Some hd -> rt_mod_by_region_hd (st_rt s) = Some ix ->
  (unregister e;; m ← module_at e; free_module e;; unlink_opt (m_tmp_load_path m);;
   unlink_opt None;; dlclose (Some h)) (set_st_mod (<[e := m]> (st_mod s)) s) =
  Ok (tt, abandoned e h m (set_rt_mod_hd (Some (qdel hd (m_mod_key m)))
    (set_rt_mod_by_region_hd (Some (qmdel ix (m_region_id m))) (st_rt s))) s).
Proof.
  intros Hhd Hix. set (s1 := set_st_mod _ s).
  assert (st_mod s1 !! e = Some m) as Hm by apply lookup_insert_eq.
  rewrite (bind_Ok _ _ _ _ _ (unregister_eq s1 e m hd ix Hm Hhd Hix)).
  set (rt2 := set_rt_mod_hd _ _). set (s2 := set_st_rt rt2 s1).
  rewrite (bind_Ok (module_at e) _ s2 s2 m) by (apply wp_eq; by eapply wp_module_at).
  set (s3 := set_st_mod (delete e (st_mod s2)) s2).
  rewrite (bind_Ok (free_module e) _ s2 s3 tt eq_refl).
  rewrite (bind_Ok _ _ _ _ _ (unlink_opt_eq (m_tmp_load_path m) s3)). set (s4 := set_st_trace _ s3).
  rewrite (bind_Ok (unlink_opt None) _ s4 s4 tt eq_refl), dlclose_eq. do 2 f_equal.
  unfold s4, s3, s2, s1, abandoned. cbn -[insert delete]. by rewrite delete_insert_eq, app_assoc.
Qed.

(** An abort of a load that has come as far as xy_install. *)
Lemma mod_load_abort_eq exec tx err s e h m :
  tx_context_active tx = true -> tx_mod_entry tx = Some e -> tx_published_entry tx = true ->
  tx_tmp_load_path tx = None -> tx_handle tx = Some h ->
  st_mod s !! e = Some m -> m_region_state m = None ->
  mod_load_abort exec tx err s =
    ((abort_detach e;; unregister e;; m ← module_at e; free_module e;; unlink_opt (m_tmp_load_path m);;
      unlink_opt None;; dlclose (Some h));; mret err)
    (set_st_tls (set_t_region_entry (tx_prev_region_entry tx)
       (set_t_region_id (tx_prev_region_id tx) (st_tls s))) s).
Proof.
  intros Hact Hme Hpub Htmp Hh Hm Hst. unfold mod_load_abort, mod_load_restore_context. rewrite Hact.
  set (s1 := set_st_tls _ s). rewrite (bind_Ok _ _ s s1 (set_tx_context_active false tx)) by done.
  set (tx1 := set_tx_context_active false tx).
  change (tx_mod_entry tx1) with (tx_mod_entry tx). change (tx_published_entry tx1) with (tx_published_entry tx).
  change (tx_tmp_load_path tx1) with (tx_tmp_load_path tx). change (tx_handle tx1) with (tx_handle tx).
  rewrite Hme, Hpub, Htmp, Hh, bind_assoc, (bind_Ok _ _ s1 s1 tt).
  2: { unfold module_cleanup_region_state.
       rewrite (bind_Ok (module_at e) _ s1 s1 m) by (apply wp_eq; by eapply wp_module_at). by rewrite Hst. }
  rewrite !bind_assoc. apply bind_ext. intros [] s2 _. rewrite !bind_assoc. apply bind_ext. intros [] s3 _.
  rewrite !bind_assoc. apply bind_ext. intros m' s4 _. rewrite !bind_assoc. apply bind_ext. intros [] s5 _.
  rewrite !bind_assoc. apply bind_ext. intros [] s6 _. rewrite !bind_assoc. apply bind_ext. by intros [] s7 _.
Qed.

Lemma finish_missing_eq exec tx l s me id entry :
  tx_mod_entry tx = Some me -> plat_dlsym (tx_handle tx) "xy_install" = None ->
  finish_load exec (entered_txn tx l id entry) s =
    mod_load_abort exec (entered_txn tx l id entry) XY_ERR_NOTFOUND s.
Proof.
  intros Hme Hno. unfold finish_load. rewrite (bind_Ok _ _ s s XY_ERR_NOTFOUND); [done|].
  unfold mod_load_run_install, _mod_run.
  change (tx_handle (entered_txn tx l id entry)) with (tx_handle tx). rewrite Hno.
  by destruct s as [? ? []].
Qed.

Lemma finish_missing_spec exec tx s l e m ms1 ms2 h hd ix id entry :
  running s -> registry_exact s -> mod_list s l (ms1 ++ e :: ms2) -> st_mod s !! e = Some m ->
  m_region_state m = None -> rt_mod_hd (st_rt s) = Some hd -> rt_mod_by_region_hd (st_rt s) = Some ix ->
  tx_mod_entry tx = Some e -> tx_published_entry tx = true -> tx_tmp_load_path tx = None ->
  tx_handle tx = Some h -> plat_dlsym (Some h) "xy_install" = None ->
  exists s', finish_load exec (entered_txn tx l id entry) s = Ok (XY_ERR_NOTFOUND, s') /\
    running s' /\ registry_exact s' /\ mod_list s' l (ms1 ++ ms2) /\
    (forall a ms, a <> l -> mod_list s a ms -> mod_list s' a ms) /\
    st_mod s' !! e = None /\
    (forall x, x <> e -> mod_core <$> st_mod s' !! x = mod_core <$> st_mod s !! x) /\
    st_rt s' = set_rt_mod_hd (Some (qdel hd (m_mod_key m)))
      (set_rt_mod_by_region_hd (Some (qmdel ix (m_region_id m))) (st_rt s)) /\
    st_tls s' = set_t_region_entry entry (set_t_region_id id (st_tls s)) /\
    st_trace s' = st_trace s ++ unlink_events (m_tmp_load_path m) ++ [EvDlclose h].
Proof using QL.
  intros Hrun He Hl Hm Hst Hhd Hix Hme Hpub Htmp Hh Hno.
  rewrite (finish_missing_eq exec tx l s e) by (done || by rewrite Hh).
  rewrite (mod_load_abort_eq exec _ _ s e h m) by done.
  set (s1 := set_st_tls (set_t_region_entry entry (set_t_region_id id (st_tls s))) s).
  assert (running s1) as Hrun1 by by apply (running_same s).
  destruct (abort_detach_spec s1 l e ms1 ms2 Hrun1 Hl)
    as (ls & s2 & m2 & _ & Hs2 & Hrun2 & Hl2 & Ho2 & Hoff & Hdet & Em2).
  assert (mod_core m2 = mod_core m) as Ec by (change (st_mod s1) with (st_mod s) in Em2; rewrite Hm in Em2; by apply (inj Some) in Em2).
  assert (m_mod_key m2 = m_mod_key m /\ m_region_id m2 = m_region_id m /\ m_tmp_load_path m2 = m_tmp_load_path m)
    as (Ekey & Eid & Etmp).
  { destruct m, m2. unfold mod_core in Ec. cbn in *. by injection Ec. }
  assert (st_rt s2 = st_rt s /\ st_trace s2 = st_trace s /\ st_tls s2 = st_tls s1) as (Ert & Etr & Etls)
    by (rewrite (lst_state _ _ _ Hs2); done).
  pose proof (abort_rest_eq s2 e h m2 hd ix ltac:(by rewrite Ert) ltac:(by rewrite Ert)) as Hrest.
  rewrite Ekey, Eid, Ert in Hrest. set (s3 := abandoned _ _ _ _ s2) in Hrest. exists s3. split.
  { rewrite bind_assoc, (bind_Ok _ _ _ _ _ Hdet). by rewrite (bind_Ok _ _ _ _ _ Hrest). }
  destruct (running_delete s2 s3 e Hrun2 Hoff) as [Hrun3 Hkeep];
    [done|done|cbn; by rewrite Ert|cbn; by rewrite Ert|done|].
  assert (forall x, x <> e -> mod_core <$> st_mod s3 !! x = mod_core <$> st_mod s !! x) as Hcore.
  { intros x Hx. cbn. rewrite lookup_delete_ne by done. apply (lst_core _ _ _ Hs2). }
  assert (qget hd (m_mod_key m) = Some e) as Hg.
  { destruct He as (hd' & E & Hx). rewrite Hhd in E. injection E as <-. apply Hx. by exists m. }
  split; [done|]. split.
  { eapply (registry_exact_del s s3 hd _ e He Hhd Hg); [done|apply lookup_delete_eq|].
    intros x Hx. pose proof (f_equal (fmap m_mod_key) (Hcore x Hx)) as E.
    by rewrite <- !option_fmap_compose in E. }
  split; [by apply Hkeep|]. split; [intros a ms Ha Hms; by apply Hkeep, Ho2|].
  split; [apply lookup_delete_eq|]. split; [done|]. split; [done|]. split; [done|].
  cbn. by rewrite Etr, Etmp.
Qed.

(** C20: loading a module that opens and claims nothing, but has no xy_install, fails
    with NOTFOUND and is undone: the module is freed, unregistered and off its
    region's list, the other modules (but for their caches) and the registry by
    name are as before, the caller's region is put back, the temporary file is
    removed and the image closed.  The index by region has had the module put in
    and one entry of the region taken out.  Two things are not undone: the count of
    modules stays one higher, and the path of the file stays interned. *)
Theorem xy_load_not_installed exec s fname l r ms hd ids tmp evs h ctx :
  loadable s fname l r ms hd ids tmp evs h ctx -> plat_dlsym (Some h) "xy_install" = None ->
  exists s', xy_load exec fname s = Ok (XY_ERR_NOTFOUND, s') /\
    running s' /\ registry_exact s' /\ mod_list s' l ms /\
    (forall a ms', a <> l -> mod_list s a ms' -> mod_list s' a ms') /\
    (forall x, bare <$> st_mod s' !! x = bare <$> st_mod s !! x) /\
    (exists hd', rt_mod_hd (st_rt s') = Some hd' /\ forall k, qget hd' k = qget hd k) /\
    st_tls s' = set_t_pending_ctx None (st_tls s) /\
    st_trace s' = st_trace s ++ evs ++ [EvDlopen (default (resolved fname) tmp)] ++
                  unlink_events tmp ++ [EvDlclose h] /\
    (exists me ix, rt_mod_by_region_hd (st_rt s) = Some ix /\
       rt_mod_by_region_hd (st_rt s') = Some (qmdel (qmput ix (r_id r) me) (r_id r))) /\
    path_added (intern_hd s) (intern_hd s') (resolved fname) /\
    rt_mod_count (st_rt s') = rt_mod_count (st_rt s) + 1 /\ st_err s' = XY_ERR_NOTFOUND.
Proof using QL.
  intros Hload Hno.
  destruct (mod_load_listed exec s fname l r ms hd ids tmp evs h ctx Hload) as (p & me & s1 & Hin & Hrun).
  pose proof Hin as [Hrun1 He1 Hhd1 Hl1 Ho1 (m & Hm & _ & _ & _ & _ & Hid & Htmp & Hst & Hkey & _)
    [Hnone Hall] (ix0 & ih & Hix0 & Hix & Hih & Hadd) Hcount Htls _ Htr].
  destruct (finish_missing_spec exec (published_txn (opened_txn s fname hd h tmp) fname
      (registry_key (resolved fname) (t_region_id (st_tls s))) p me) s1 l me m ms [] h _ _
      (t_region_id (st_tls s)) (t_region_entry (st_tls s)) Hrun1 He1 Hl1 Hm Hst Hhd1 Hix)
    as (s2 & Hfin & Hrun2 & He2 & Hl2 & Ho2 & Hgone & Hcore & Ert & Etls & Etr); [done..|].
  rewrite app_nil_r in Hl2. rewrite Hkey in Ert. exists (set_st_err XY_ERR_NOTFOUND s2). split.
  { unfold xy_load. rewrite with_runtime_inited by apply Hload.
    by rewrite (bind_Ok _ _ s s2 XY_ERR_NOTFOUND) by (rewrite Hrun; exact Hfin). }
  split; [by apply running_err|]. split; [done|]. split; [done|].
  split; [intros a ms' Ha Hms; by apply Ho2, Ho1|]. split.
  { intros x. cbn. destruct (decide (x = me)) as [->|Hne]; [by rewrite Hgone, Hnone|].
    rewrite <- (Hall x Hne). pose proof (f_equal (fmap (fun u => set_m_hook_impl_bits [] (set_m_fn_cache [] u)))
      (Hcore x Hne)) as E. by rewrite <- !option_fmap_compose in E. }
  split.
  { eexists. split; [cbn; rewrite Ert; reflexivity|]. intros k. rewrite qget_del, qget_put. case_decide; [|done].
    subst k. by rewrite (ld_new _ _ _ _ _ _ _ _ _ _ (ld_fetchable _ _ _ _ _ _ _ _ _ _ _ Hload)). }
  split; [|split; [|split; [|split; [|split; [|done]]]]].
  - cbn. rewrite Etls, Htls. by destruct s as [? ? []].
  - cbn. by rewrite Etr, Htr, Htmp, <- !app_assoc.
  - exists me, ix0. split; [done|]. cbn. by rewrite Ert, Hid.
  - unfold intern_hd at 2. cbn. rewrite Ert. cbn. by rewrite Hih.
  - cbn. by rewrite Ert.
Qed.

End AbortSpec.
