(* ===== verification/ReloadSpec.v ===== *)
(** * Reloading: theorems

    [xy_reload] puts a new instance of a module where the old one was. *)

From S2P Require Import Prelude QMap Status State Machine ModKey Linked Region RegionTree ModList.
From S2P Require Import Runtime Paths Identity FnCache RegionApi Deny Claim Dispatch Areg CopyFile.
From S2P Require Import Load LoadSpec LoadFresh Unload UnloadSpec.
From stdpp Require Import options.
Local Open Scope Z_scope.

Section ReloadSpec.
Context {Q : QMapOps} {QL : QMapLaws Q} {P : Platform}.
Implicit Types (s : state) (m : mod_entry) (r : region_entry).

(** The module [e] is the third of its region's list between [ms1] and [ms2],
    has one reference and has loaded nothing; its region asks for no claim; and
    the image [h] that its file opens as can be loaded. *)
Record reloadable (s : state) (fname : string) (hd : qmap string loc) (e : loc) (m : mod_entry)
    (l : loc) (r : region_entry) (ms1 ms2 : list loc) (ids : qmap string Z)
    (tmp : option string) (evs : list ext_event) (h ctx : loc) : Prop := {
  rl_leaf : leaf_module s hd (registry_key (resolved fname) (r_id r)) e m l ms1 ms2;
  rl_alloc : st_alloc s = [];
  rl_fresh : forall x, is_Some (st_mod s !! x) -> (x < st_next s)%positive;
  rl_hooks : hooks_ok s;
  rl_ids : rt_hook_id_hd (st_rt s) = Some ids;
  rl_region : st_reg s !! l = Some r;
  rl_current : t_region_id (st_tls s) = r_id r;
  rl_no_claim : r_claim_handler r = None /\ r_require_claim r = false;
  rl_open : opens (set_st_reloading true (traced (free_events m) s)) (resolved fname) tmp evs h;
  rl_ctx : exists g x, plat_dlsym (Some h) "get_xy_ptr" = Some g /\ plat_get_xy g = Some ctx /\
    (st_ctx s ∪ list_to_map (plat_image_ctx h)) !! ctx = Some x;
  rl_stateless : plat_dlsym (Some h) "xy_region_state_size" = None
}.

(** xy_install leaves a consistent state in which the module [me] is registered
    under [k] and listed in [l] among [ms]. *)
Record settled (s : state) (k : string) (me l : loc) (ms : list loc) : Prop := {
  se_running : running s;
  se_exact : registry_exact s;
  se_alloc : st_alloc s = [];
  se_key : m_mod_key <$> st_mod s !! me = Some k;
  se_list : mod_list s l ms
}.

Lemma opens_trace s s' path tmp evs h :
  st_trace s' = st_trace s -> st_reloading s' = st_reloading s ->
  opens s path tmp evs h -> opens s' path tmp evs h.
Proof.
  intros Et Er [Hf Ho]. split; [|by rewrite Et]. unfold fetched in *. rewrite Er.
  destruct (st_reloading s); [|done]. by eapply copy_to_tmp_trace.
Qed.

(** The unload leaves a state in which the module can be loaded. *)
Lemma unloaded_loadable s s0 fname hd e m l r ms1 ms2 ids tmp evs h ctx :
  reloadable s fname hd e m l r ms1 ms2 ids tmp evs h ctx ->
  unloaded s s0 hd (registry_key (resolved fname) (r_id r)) e m l ms1 ms2 ->
  exists r0, loadable (set_st_reloading true s0) fname l r0 (ms1 ++ ms2)
    (qdel hd (registry_key (resolved fname) (r_id r))) ids tmp evs h ctx /\ r_id r0 = r_id r.
Proof using QL.
  intros [Hleaf Ha Hfresh Hhooks Hids Hr Hcur Hc Ho Hx Hsz] [Hrun Hexact Hl Hoth Hgone Hkeys (ix & _ & Ert) Etr Hreg _ _ _ _ _ Hrest].
  pose proof (Hreg l) as Hrl. rewrite Hr in Hrl. destruct (st_reg s0 !! l) as [r0|] eqn:Hr0; [|done].
  assert (claim_view r0 = claim_view r) as Ev by by apply (inj Some) in Hrl.
  unfold claim_view in Ev. injection Ev as Eid Ech Erq. exists r0. split; [|done].
  assert (st_alloc s0 = st_alloc s /\ st_next s0 = st_next s /\ st_tls s0 = st_tls s /\ st_ctx s0 = st_ctx s)
    as (E1 & E2 & E3 & E4) by (rewrite Hrest; done).
  split; [split| |].
  - by apply (running_same s0).
  - cbn. by rewrite E1.
  - done.
  - cbn. rewrite Ert. by eexists.
  - intros x Hx0. change (st_next (set_st_reloading true s0)) with (st_next s0). rewrite E2. apply Hfresh.
    change (is_Some (st_mod s0 !! x)) in Hx0. assert (x <> e) as Hne by (intros ->; rewrite Hgone in Hx0; by destruct Hx0).
    specialize (Hkeys x Hne). destruct Hx0 as [mx Hmx]. rewrite Hmx in Hkeys. by destruct (st_mod s !! x).
  - unfold hooks_ok. cbn. by rewrite Ert.
  - cbn. by rewrite Ert.
  - cbn. by rewrite Ert.
  - rewrite qget_del, Eid. by rewrite decide_True.
  - done.
  - cbn. by rewrite E3, Hcur.
  - eapply opens_trace; [| |exact Ho]; [|done]. cbn. done.
  - cbn. by rewrite E4.
  - done.
  - done.
  - rewrite Ech, Erq. done.
Qed.

(** ** Back to the old place *)

Lemma list_step_exact ls s s' : list_step ls s s' -> registry_exact s -> registry_exact s'.
Proof.
  intros Hs He. apply (registry_exact_keys s); [done|by rewrite (lst_state _ _ _ Hs)|]. intros x.
  pose proof (lst_core _ _ _ Hs x) as E. apply (f_equal (fmap m_mod_key)) in E.
  by rewrite <- !option_fmap_compose in E.
Qed.

(** A listed module is moved to where [ms1] ends. *)
Lemma move_spec s k me l ms1 ms2 ms3 :
  settled s k me l (ms1 ++ ms2 ++ me :: ms3) ->
  exists s1 s2, module_region_detach me s = Ok (tt, s1) /\
    module_region_insert_after (Some l) me (last ms1) s1 = Ok (tt, s2) /\
    running s2 /\ registry_exact s2 /\ mod_list s2 l (ms1 ++ me :: ms2 ++ ms3) /\
    (forall a ms, a <> l -> mod_list s a ms -> mod_list s2 a ms) /\
    s2 = set_st_reg (st_reg s2) (set_st_mod (st_mod s2) s).
Proof.
  intros [Hrun He _ Hk Hl]. rewrite app_assoc in Hl.
  destruct (detach_spec s l me (ms1 ++ ms2) ms3 Hrun Hl) as (ls & s1 & _ & E1 & Hrun1 & Hs1 & Hl1 & Ho1).
  pose proof (detached_off s s1 l me me (ms1 ++ ms2) ms3 ls Hrun Hl Hs1 Hl1 Ho1 ltac:(by left)) as Hoff.
  rewrite <- app_assoc in Hl1.
  destruct (insert_after_spec s1 l me ms1 (ms2 ++ ms3) Hrun1 Hl1) as (ls' & s2 & _ & E2 & Hrun2 & Hs2 & Hl2 & Ho2).
  { apply (list_step_live _ _ _ _ Hs1). by destruct (st_mod s !! me). }
  { done. }
  exists s1, s2. split_and!; [done..|by eapply list_step_exact, list_step_exact|done| |].
  - intros a ms Ha Hms. by apply Ho2, Ho1.
  - rewrite (lst_state _ _ _ Hs2) at 1. by rewrite (lst_state _ _ _ Hs1).
Qed.

(** The part of [xy_reload] that follows the load. *)
Definition put_back (fname : string) (id : Z) (re insert_after : option loc) : XM Z :=
  lookup ← module_lookup_from_fname fname id;
  if negb (lk_err lookup =? XY_OK) then return_err (lk_err lookup)
  else
    match lk_entry lookup, re with
    | Some new_entry, Some _ =>
        module_region_detach new_entry;;
        module_region_insert_after re new_entry insert_after;;
        return_err XY_OK
    | _, _ => return_err XY_OK
    end.

Lemma put_back_spec s fname id me l ms1 ms2 ms3 :
  settled s (registry_key (resolved fname) id) me l (ms1 ++ ms2 ++ me :: ms3) ->
  exists s', put_back fname id (Some l) (last ms1) s = Ok (XY_OK, s') /\
    running s' /\ registry_exact s' /\ mod_list s' l (ms1 ++ me :: ms2 ++ ms3) /\
    (forall a ms, a <> l -> mod_list s a ms -> mod_list s' a ms) /\
    s' = set_st_err XY_OK (set_st_reg (st_reg s') (set_st_mod (st_mod s') s)).
Proof.
  intros Hse. destruct (move_spec _ _ _ _ _ _ _ Hse) as (s1 & s2 & E1 & E2 & Hrun & He & Hl & Ho & Hs2).
  destruct Hse as [_ (hd & Hhd & Hexact) Ha Hk _].
  assert (qget hd (registry_key (resolved fname) id) = Some me) as Hg.
  { apply Hexact. destruct (st_mod s !! me) as [m|]; [|done]. exists m. split; [done|]. by injection Hk. }
  exists (set_st_err XY_OK s2). split.
  - unfold put_back. rewrite (bind_Ok _ _ _ _ _ (module_lookup_from_fname_eq fname id hd s Ha Hhd)).
    cbn [lk_err lk_entry negb Z.eqb XY_OK]. rewrite Hg.
    by rewrite (bind_Ok _ _ _ _ _ E1), (bind_Ok _ _ _ _ _ E2).
  - split; [by apply running_err|]. split_and!; [done..|]. by rewrite Hs2.
Qed.

Lemma settled_same s s' k me l ms :
  settled s k me l ms -> st_reg s' = st_reg s -> st_mod s' = st_mod s -> st_rt s' = st_rt s ->
  st_next s' = st_next s -> st_alloc s' = st_alloc s -> settled s' k me l ms.
Proof.
  intros [Hrun He Ha Hk (r & Hr & Hd)] Er Em Et En Ea. split.
  - by apply (running_same s).
  - destruct He as (hd & Hhd & He). exists hd. split; [by rewrite Et|]. intros k' x. by rewrite He, Em.
  - by rewrite Ea.
  - by rewrite Em.
  - exists r. split; [by rewrite Er|]. by rewrite Em.
Qed.

(** Up to the load of the new instance, and past it. *)
Lemma xy_reload_eq exec s fname hd e m l r ms1 ms2 ids tmp evs h ctx s0 :
  reloadable s fname hd e m l r ms1 ms2 ids tmp evs h ctx ->
  mod_unload exec fname (t_region_id (st_tls s)) s = Ok (XY_OK, s0) ->
  xy_reload exec fname s =
    (lret ← _mod_load exec fname;
     modify (set_st_reloading false);;
     if negb (lret =? XY_OK) then return_err lret
     else put_back fname (t_region_id (st_tls s)) (Some l) (last ms1)) (set_st_reloading true s0).
Proof.
  intros Hre Hun. pose proof (rl_leaf _ _ _ _ _ _ _ _ _ _ _ _ _ _ Hre) as Hleaf.
  pose proof (lm_list _ _ _ _ _ _ _ _ Hleaf) as Hl. pose proof (lm_module _ _ _ _ _ _ _ _ Hleaf) as Hm.
  pose proof (lm_running _ _ _ _ _ _ _ _ Hleaf) as Hrun.
  assert (m_region_prev m = last ms1) as Eprev.
  { destruct Hl as (r' & _ & Hd). destruct (dll_at _ _ _ _ _ _ _ Hd) as [Hp _]. unfold mod_prev in Hp.
    rewrite Hm in Hp. by injection Hp. }
  assert (m_region_entry m = Some l) as Hown.
  { pose proof (mod_list_owner _ _ _ _ (run_mods _ Hrun) Hl (ltac:(apply elem_of_app; right; left) : e ∈ _)) as Ho.
    unfold owner_of in Ho. rewrite Hm in Ho. by injection Ho. }
  unfold xy_reload. rewrite with_runtime_inited by apply Hrun.
  rewrite (bind_Ok (gets _) _ s s (t_region_id (st_tls s)) eq_refl).
  rewrite (bind_Ok _ _ _ _ _ (module_lookup_from_fname_eq fname _ hd s (rl_alloc _ _ _ _ _ _ _ _ _ _ _ _ _ _ Hre)
    (lm_hd _ _ _ _ _ _ _ _ Hleaf))). cbn [lk_err lk_entry negb Z.eqb XY_OK].
  rewrite (rl_current _ _ _ _ _ _ _ _ _ _ _ _ _ _ Hre), (lm_entry _ _ _ _ _ _ _ _ Hleaf).
  rewrite (rl_current _ _ _ _ _ _ _ _ _ _ _ _ _ _ Hre) in Hun.
  rewrite (bind_Ok (module_at e) _ s s m) by (apply wp_eq; by eapply wp_module_at).
  rewrite (bind_Ok _ _ _ _ _ Hun). cbn [negb Z.eqb XY_OK].
  rewrite (bind_Ok (modify _) _ s0 (set_st_reloading true s0) tt eq_refl). by rewrite Eprev, Hown.
Qed.

(** C10: reloading a module that only its loader refers to: the old instance is
    gone for good, the new one is made from a copy of the file and installed at
    the end of the region's list, and when xy_install has returned, having
    perhaps loaded more modules, it is moved to the place of the old one.  The
    caller's region and outer load are put back, the registry is exact and the
    reload answers XY_OK. *)
Theorem xy_reload_in_place exec s fname hd e m l r ms1 ms2 ids tmp evs h ctx cb :
  reloadable s fname hd e m l r ms1 ms2 ids tmp evs h ctx -> quiet_cleanup exec ->
  plat_dlsym (Some h) "xy_install" = Some cb ->
  let key := registry_key (resolved fname) (r_id r) in
  exists s0 r0 me s1, unloaded s s0 hd key e m l ms1 ms2 /\ r_id r0 = r_id r /\
    installing (set_st_reloading true s0) fname l r0 (ms1 ++ ms2) (qdel hd key) ids tmp evs h ctx me s1 /\
    forall out s2 ms3,
      exec (CbInstall cb) (set_st_tls (set_t_loading_mod (Some me) (st_tls s1)) s1) = Ok (out, s2) ->
      settled s2 key me l (ms1 ++ ms2 ++ me :: ms3) ->
      exists s', xy_reload exec fname s = Ok (XY_OK, s') /\
        running s' /\ registry_exact s' /\ mod_list s' l (ms1 ++ me :: ms2 ++ ms3) /\
        (forall a ms, a <> l -> mod_list s2 a ms -> mod_list s' a ms) /\
        st_rt s' = st_rt s2 /\ st_trace s' = st_trace s2 /\ st_reloading s' = false /\
        t_region_id (st_tls s') = t_region_id (st_tls s) /\
        t_region_entry (st_tls s') = t_region_entry (st_tls s) /\
        t_loading_mod (st_tls s') = t_loading_mod (st_tls s).
Proof using QL.
  intros Hre Hq Hcb key. pose proof (rl_leaf _ _ _ _ _ _ _ _ _ _ _ _ _ _ Hre) as Hleaf.
  pose proof (rl_current _ _ _ _ _ _ _ _ _ _ _ _ _ _ Hre) as Hcur.
  destruct (mod_unload_last exec fname (t_region_id (st_tls s)) s hd key e m l ms1 ms2 Hleaf
    (rl_alloc _ _ _ _ _ _ _ _ _ _ _ _ _ _ Hre) Hq ltac:(unfold key; by rewrite Hcur)) as (s0 & Hun & Hul).
  destruct (unloaded_loadable s s0 fname hd e m l r ms1 ms2 ids tmp evs h ctx Hre Hul) as (r0 & Hload & Eid).
  destruct (mod_load_fresh exec _ fname l r0 _ _ ids tmp evs h ctx cb Hload Hcb) as (me & s1 & Hin & Hrun).
  exists s0, r0, me, s1. do 3 (split; [done|]). intros out s2 ms3 Hex Hse.
  assert (st_tls s0 = st_tls s) as Etls by (rewrite (ul_rest _ _ _ _ _ _ _ _ _ Hul); done).
  set (t := set_t_region_entry (t_region_entry (st_tls s)) (set_t_region_id (t_region_id (st_tls s))
    (set_t_loading_mod (t_loading_mod (st_tls s)) (st_tls s2)))).
  set (s3 := set_st_reloading false (set_st_tls t s2)).
  assert (settled s3 key me l (ms1 ++ ms2 ++ me :: ms3)) as Hse3 by by apply (settled_same s2).
  unfold key in Hse3. rewrite <- Hcur in Hse3.
  destruct (put_back_spec _ _ _ _ _ _ _ _ Hse3) as (s4 & Hput & Hrun4 & He4 & Hl4 & Ho4 & E4).
  exists s4. split.
  - rewrite (xy_reload_eq exec s fname hd e m l r ms1 ms2 ids tmp evs h ctx s0 Hre Hun).
    rewrite (bind_Ok _ _ _ (set_st_tls t s2) XY_OK).
    2: { rewrite Hrun. unfold install_and_leave. rewrite (bind_Ok (upd_tls _) _ s1 _ tt eq_refl).
         rewrite (bind_Ok _ _ _ _ _ Hex). cbn. rewrite Etls. done. }
    rewrite (bind_Ok (modify _) _ _ s3 tt eq_refl). exact Hput.
  - split_and!; [done..|by apply Ho4| | | | | |]; by rewrite E4.
Qed.

End ReloadSpec.
