(* ===== verification/Lifecycle.v ===== *)
(** * Shutdown

    [xy_runtime_teardown] and [xy_shutdown] of src/libxylem-runtime.c. *)

From S2P Require Import Prelude QMap Status State Machine ModKey Linked Region RegionTree ModList.
From S2P Require Import Runtime Paths Identity FnCache RegionApi Deny Claim Load Unload.
From stdpp Require Import options.
Local Open Scope Z_scope.

Section Lifecycle.
Context {Q : QMapOps} {P : Platform}.

Fixpoint free_modules (exec : executor) (ms : list (string * loc)) : XM unit :=
  match ms with
  | [] => mret tt
  | (_, entry) :: rest => module_free_entry exec entry true;; free_modules exec rest
  end.

(** The slot arrays of a region's dispatch caches. *)
Definition slot_arrays (r : region_entry) : list loc := omap hc_slots (r_hook_dispatch r).

Definition region_entry_free (l : loc) : XM unit :=
  r ← region_at l;
  modify (fun s => set_st_slots (foldr delete (st_slots s) (slot_arrays r)) s);;
  modify (fun s => set_st_reg (delete l (st_reg s)) s).

Fixpoint free_regions (rs : list (Z * loc)) : XM unit :=
  match rs with
  | [] => mret tt
  | (_, l) :: rest => region_entry_free l;; free_regions rest
  end.

(** The part that goes through the maps. *)
Definition teardown_maps (exec : executor) : XM unit :=
  hd ← gets (fun s => rt_mod_hd (st_rt s));
  (match hd with
   | Some hd => free_modules exec (qiter hd);; upd_rt (set_rt_mod_hd None)
   | None => mret tt
   end);;
  upd_rt (set_rt_mod_by_region_hd None);;
  rhd ← gets (fun s => rt_region_hd (st_rt s));
  (match rhd with
   | Some rhd => free_regions (qiter rhd);; upd_rt (set_rt_region_hd None)
   | None => mret tt
   end).

(** The part that resets variables. *)
Definition teardown_vars : XM unit :=
  path_intern_free_all;;
  upd_rt (set_rt_mod_count 0);;
  upd_tls (fun t => set_t_last_retp None (set_t_last_ran 0
    (set_t_region_id XY_REGION_ROOT (set_t_region_entry None t))));;
  upd_xy (fun _ => xy_t_zero).

Definition xy_runtime_teardown (exec : executor) : XM unit :=
  upd_rt (set_rt_inited false);;
  teardown_maps exec;;
  teardown_vars.

Definition xy_shutdown (exec : executor) : XM unit :=
  inited ← gets (fun s => rt_inited (st_rt s));
  if inited : bool then xy_runtime_teardown exec;; XY_SET_ERR XY_OK
  else XY_SET_ERR XY_OK.

End Lifecycle.
