(* ===== verification/LifecycleSpec.v ===== *)
(** * Shutdown: theorems

    A shutdown frees every module and every region, and leaves a state from
    which the runtime starts again. *)

From S2P Require Import Prelude QMap Status State Machine ModKey Linked Region RegionTree ModList.
From S2P Require Import Runtime Paths Identity FnCache RegionApi Deny Claim Load LoadSpec Unload.
From S2P Require Import Lifecycle.
From stdpp Require Import options.
Local Open Scope Z_scope.

Section LifecycleSpec.
Context {Q : QMapOps} {QL : QMapLaws Q} {P : Platform}.
Implicit Types (s : state) (m : mod_entry) (r : region_entry).

(** The events of freeing the modules of a registry, in the order of the
    iteration. *)
Definition freeing (mods : gmap loc mod_entry) (ms : list (string * loc)) : list ext_event :=
  ms ≫= fun kv => match mods !! kv.2 with Some m => free_events m | None => [] end.

Lemma freeing_delete mods e l : e ∉ l.*2 -> freeing (delete e mods) l = freeing mods l.
Proof.
  unfold freeing. induction l as [|[k' e'] l IH]; [done|]. cbn.
  intros [Hne He]%not_elem_of_cons. rewrite IH by done. by rewrite lookup_delete_ne.
Qed.

Lemma free_modules_eq exec l s :
  quiet_cleanup exec -> NoDup l.*2 -> (forall k e, (k, e) ∈ l -> is_Some (st_mod s !! e)) ->
  exists mods mem, free_modules exec l s =
      Ok (tt, set_st_mod mods (set_st_mem mem (set_st_trace (st_trace s ++ freeing (st_mod s) l) s))) /\
    forall x, mods !! x = if decide (x ∈ l.*2) then None else st_mod s !! x.
Proof.
  intros Hq. revert s. induction l as [|[k e] l IH]; intros s Hnd Hl.
  { exists (st_mod s), (st_mem s). split; [|done]. cbn. rewrite app_nil_r. by destruct s. }
  cbn in Hnd. apply NoDup_cons in Hnd as [He Hnd]. destruct (Hl k e) as [m Hm]; [left|].
  cbn [free_modules]. rewrite (bind_Ok _ _ _ _ _ (module_free_entry_eq exec e m s Hq Hm)).
  set (s1 := freed e m s).
  destruct (IH s1 Hnd) as (mods & mem & Hrun & Hmods).
  { intros k' e' Hin. destruct (Hl k' e') as [m' Hm']; [by right|]. exists m'. cbn.
    rewrite lookup_delete_ne; [done|]. intros <-. apply He, list_elem_of_fmap. by exists (k', e). }
  exists mods, mem. rewrite Hrun. change (st_mod s1) with (delete e (st_mod s)) in *.
  rewrite freeing_delete by done. split.
  - assert (freeing (st_mod s) ((k, e) :: l) = free_events m ++ freeing (st_mod s) l) as ->
      by (unfold freeing; cbn; by rewrite Hm).
    by rewrite app_assoc.
  - intros x. rewrite Hmods. cbn. destruct (decide (x = e)) as [->|Hne].
    + rewrite decide_False by done. rewrite decide_True by left. by rewrite lookup_delete_eq.
    + rewrite lookup_delete_ne by done. destruct (decide (x ∈ l.*2)).
      * by rewrite decide_True by by right.
      * by rewrite decide_False by by rewrite not_elem_of_cons.
Qed.

Lemma free_regions_eq l s :
  NoDup l.*2 -> (forall k e, (k, e) ∈ l -> is_Some (st_reg s !! e)) ->
  exists reg arrs, free_regions l s = Ok (tt, set_st_reg reg (set_st_slots arrs s)) /\
    forall x, reg !! x = if decide (x ∈ l.*2) then None else st_reg s !! x.
Proof.
  revert s. induction l as [|[k e] l IH]; intros s Hnd Hl.
  { exists (st_reg s), (st_slots s). split; [by destruct s|done]. }
  cbn in Hnd. apply NoDup_cons in Hnd as [He Hnd]. destruct (Hl k e) as [r Hr]; [left|].
  cbn [free_regions]. set (s1 := set_st_reg (delete e (st_reg s))
    (set_st_slots (foldr delete (st_slots s) (slot_arrays r)) s)).
  assert (region_entry_free e s = Ok (tt, s1)) as Hfree.
  { unfold region_entry_free.
    by rewrite (bind_Ok (region_at e) _ s s r) by (apply wp_eq; by eapply wp_region_at). }
  rewrite (bind_Ok _ _ _ _ _ Hfree).
  destruct (IH s1 Hnd) as (reg & arrs & Hrun & Hreg).
  { intros k' e' Hin. destruct (Hl k' e') as [r' Hr']; [by right|]. exists r'. cbn.
    rewrite lookup_delete_ne; [done|]. intros <-. apply He, list_elem_of_fmap. by exists (k', e). }
  exists reg, arrs. rewrite Hrun. split; [done|]. intros x. rewrite Hreg. cbn.
  destruct (decide (x = e)) as [->|Hne].
  - rewrite decide_False by done. rewrite decide_True by left. by rewrite lookup_delete_eq.
  - rewrite lookup_delete_ne by done. destruct (decide (x ∈ l.*2)).
    + by rewrite decide_True by by right.
    + by rewrite decide_False by by rewrite not_elem_of_cons.
Qed.

(** C13: a shutdown of a running library frees every module (each image is closed
    and its temporary copy removed, in the order of the registry) and every
    region, puts the calling thread back into the root, and leaves the library
    cold, so that it can be started again; the hooks and their ids survive. *)
Theorem xy_shutdown_complete exec s hd :
  running s -> quiet_cleanup exec -> registry_exact s -> rt_mod_hd (st_rt s) = Some hd ->
  exists s', xy_shutdown exec s = Ok (tt, s') /\ cold s' /\
    st_trace s' = st_trace s ++ freeing (st_mod s) (qiter hd) /\
    rt_mod_hd (st_rt s') = None /\ rt_region_hd (st_rt s') = None /\
    rt_mod_count (st_rt s') = 0 /\
    rt_hook_id_hd (st_rt s') = rt_hook_id_hd (st_rt s) /\
    rt_adapter_by_id (st_rt s') = rt_adapter_by_id (st_rt s) /\
    t_region_entry (st_tls s') = None /\ st_xy s' = xy_t_zero /\ st_err s' = XY_OK.
Proof using QL.
  intros Hrun Hq (hd' & E & Hexact) Hhd. rewrite Hhd in E. injection E as <-.
  destruct (to_hd _ (run_tree _ Hrun)) as (rhd & Hrhd & Hreg).
  set (s0 := set_st_rt (set_rt_inited false (st_rt s)) s).
  destruct (free_modules_eq exec (qiter hd) s0 Hq) as (mods & mem & Hfm & Hmods).
  { apply qvalues_nodup. intros k k' l H1%Hexact H2%Hexact. naive_solver. }
  { intros k e (m & Hm & _)%qiter_get%Hexact. by exists m. }
  set (s1 := set_st_mod mods _) in Hfm.
  set (s2 := set_st_rt (set_rt_mod_by_region_hd None (set_rt_mod_hd None (st_rt s0))) s1).
  destruct (free_regions_eq (qiter rhd) s2) as (reg & arrs & Hfr & Hregs).
  { apply qvalues_nodup. intros k k' l H1%Hreg H2%Hreg. naive_solver. }
  { intros k e (r & Hr & _)%qiter_get%Hreg. by exists r. }
  set (s3 := set_st_reg reg _) in Hfr.
  set (s4 := set_st_rt (set_rt_region_hd None (st_rt s2)) s3).
  assert (teardown_maps exec s0 = Ok (tt, s4)) as Hmaps.
  { unfold teardown_maps. rewrite (bind_Ok _ _ s0 s0 (Some hd)) by (unfold gets; do 2 f_equal; exact Hhd).
    rewrite (bind_Ok _ _ s0 (set_st_rt (set_rt_mod_hd None (st_rt s0)) s1) tt)
      by by rewrite (bind_Ok _ _ _ _ _ Hfm).
    rewrite (bind_Ok (upd_rt _) _ (set_st_rt (set_rt_mod_hd None (st_rt s0)) s1) s2 tt eq_refl).
    rewrite (bind_Ok _ _ s2 s2 (Some rhd)) by (unfold gets; do 2 f_equal; exact Hrhd).
    by rewrite (bind_Ok _ _ _ _ _ Hfr). }
  unfold xy_shutdown. rewrite (bind_Ok _ _ s s true) by (unfold gets; do 2 f_equal; apply Hrun).
  eassert (teardown_vars s4 = Ok (tt, _)) as Hvars by reflexivity.
  assert (forall s5, teardown_vars s4 = Ok (tt, s5) -> xy_runtime_teardown exec s = Ok (tt, s5)) as Hall.
  { intros s5 H5. unfold xy_runtime_teardown.
    by rewrite (bind_Ok (upd_rt _) _ s s0 tt eq_refl), (bind_Ok _ _ _ _ _ Hmaps). }
  rewrite (bind_Ok _ _ _ _ _ (Hall _ Hvars)). eexists. split; [reflexivity|].
  split; [|done]. split; [done|]. split; [|split; [|done]].
  - apply map_eq. intros x. cbn. rewrite Hregs, lookup_empty. case_decide as Hx; [done|].
    apply eq_None_not_Some. intros [r Hr]. apply Hx, list_elem_of_fmap.
    exists (r_id r, x). split; [done|]. apply qiter_get, Hreg. by exists r.
  - apply map_eq. intros x. cbn. rewrite Hmods, lookup_empty. case_decide as Hx; [done|].
    apply eq_None_not_Some. intros [m Hm]. apply Hx, list_elem_of_fmap.
    exists (m_mod_key m, x). split; [done|]. apply qiter_get, Hexact. by exists m.
Qed.

End LifecycleSpec.
