(* ===== verification/Evolve.v ===== *)
(** * What a run of the library keeps

    Module code can call the library from everywhere: while it is being loaded,
    from its hooks, from its claim handlers.  This file says what any such
    activity leaves intact: the invariant [sound] of a whole state, and the
    relation [evo] between the states before and after, which holds of every
    entry point (ApiSound.v) and is what the library relies on when it goes on
    after a callback. *)

From S2P Require Import Prelude QMap Status State Machine ModKey Linked Region RegionTree ModList.
From S2P Require Import Runtime Vectors Paths Identity FnCache RegionApi Deny Claim Dispatch Load.
From S2P Require Import LoadSpec LoadFresh Unload UnloadSpec AbortSpec Lifecycle.
From stdpp Require Import options.
Local Open Scope Z_scope.

(** ** Definitions *)

Section Defs.
Context {Q : QMapOps}.

(** The module [x] is on the list of the region [l]. *)
Definition listed (s : state) (l x : loc) : Prop := exists ms, mod_list s l ms /\ x ∈ ms.

(** A module that says it belongs to a live region is on that region's list. *)
Definition placed (s : state) (x : loc) : Prop :=
  forall l, owner_of s x = Some (Some l) -> is_Some (st_reg s !! l) -> listed s l x.

(** The module [x] is registered under the key [k]. *)
Definition in_registry (s : state) (k : string) (x : loc) : Prop :=
  exists hd, rt_mod_hd (st_rt s) = Some hd /\ qget hd k = Some x.

(** No two hooks have the same id, and the next id is new. *)
Definition hook_table_ok (s : state) : Prop :=
  0 <= rt_hook_id_counter (st_rt s) /\ forall ids, rt_hook_id_hd (st_rt s) = Some ids ->
    (forall n h, qget ids n = Some h -> 0 <= h < rt_hook_id_counter (st_rt s)) /\
    (forall n n' h, qget ids n = Some h -> qget ids n' = Some h -> n = n').

(** The functions of the library that _xy_init puts into the table of a module. *)
Record tabled (x : xy_t) : Prop := {
  tb_call : x_call x = Some Api_call;
  tb_areg : x_areg x = Some Api_areg;
  tb_load : x_load x = Some Api_load;
  tb_last : x_last x = Some Api_last;
  tb_shutdown : x_shutdown x = Some Api_shutdown;
  tb_deny : x_deny x = Some Api_deny;
  tb_require_claim : x_require_claim x = Some Api_require_claim;
  tb_region_each : x_region_each x = Some Api_region_each;
  tb_with_region : x_with_region x = Some Api_with_region;
  tb_current_region : x_current_region x = Some Api_current_region;
  tb_unload : x_unload x = Some Api_unload;
  tb_reload : x_reload x = Some Api_reload
}.

(** The table [c] of a module is filled in. *)
Definition bound (s : state) (c : loc) : Prop := exists x, st_ctx s !! c = Some x /\ tabled x.

(** What is true of the library between any two calls of its functions. *)
Record sound (s : state) : Prop := {
  so_running : rt_inited (st_rt s) = true -> running s;
  so_cold : rt_inited (st_rt s) = false -> st_reg s = ∅;
  so_fresh : forall x, is_Some (st_mod s !! x) -> (x < st_next s)%positive;
  so_owner : forall x l, owner_of s x = Some (Some l) -> (l < st_next s)%positive;
  so_placed : forall k x, in_registry s k x -> placed s x;
  so_hooks : hook_table_ok s;
  so_intern : intern_ok s;
  so_vectors : vectors s
}.

(** From [s] to [s'], as far as the objects below [n] are concerned: what is
    freed stays freed, a module keeps its region and its place on that region's
    list, and no module gets a registration that it did not have; and a table
    that is filled in stays so. *)
Record evo (n : loc) (s s' : state) : Prop := {
  ev_next : (st_next s <= st_next s')%positive;
  ev_mod : forall x, (x < n)%positive -> is_Some (st_mod s' !! x) -> is_Some (st_mod s !! x);
  ev_reg : forall l, (l < n)%positive -> is_Some (st_reg s' !! l) -> is_Some (st_reg s !! l);
  ev_owner : forall x, (x < n)%positive -> is_Some (st_mod s' !! x) -> owner_of s' x = owner_of s x;
  ev_listed : forall l x, (x < n)%positive -> (l < n)%positive -> listed s l x -> is_Some (st_mod s' !! x) ->
    is_Some (st_reg s' !! l) -> listed s' l x;
  ev_registry : forall k x, (x < n)%positive -> in_registry s' k x -> in_registry s k x;
  ev_bound : forall c, bound s c -> bound s' c
}.

(** A step that keeps the invariant, with respect to the objects below [n], and
    with respect to all objects of the state it starts in. *)
Definition evolves (n : loc) (s s' : state) : Prop :=
  (n <= st_next s)%positive -> sound s -> sound s' /\ evo n s s'.
Definition keeps (s s' : state) : Prop := evolves (st_next s) s s'.

(** A step that changes none of the pointers the invariant is about. *)
Record frame (s s' : state) : Prop := {
  fr_next : (st_next s <= st_next s')%positive;
  fr_skel : agree skel (st_reg s) (st_reg s');
  fr_gens : gens_ok (st_reg s) -> gens_ok (st_reg s');
  fr_links : forall x, mod_links <$> st_mod s' !! x = mod_links <$> st_mod s !! x;
  fr_region_hd : rt_region_hd (st_rt s') = rt_region_hd (st_rt s);
  fr_mod_hd : rt_mod_hd (st_rt s') = rt_mod_hd (st_rt s);
  fr_inited : rt_inited (st_rt s') = rt_inited (st_rt s);
  fr_hooks : hook_table_ok s -> hook_table_ok s';
  fr_intern : intern_ok s -> intern_ok s';
  fr_bound : forall c, bound s c -> bound s' c;
  fr_vectors : running s -> vectors s -> vectors s'
}.

End Defs.

(** ** Consequences *)

Section Facts.
Context {Q : QMapOps}.
Implicit Types (s : state) (x l n : loc).

Lemma listed_live s l x : listed s l x -> is_Some (st_reg s !! l) /\ is_Some (st_mod s !! x).
Proof.
  intros (ms & Hl & Hx). split; [destruct Hl as (r & -> & _); by eexists|by eapply mod_list_live].
Qed.

(** A step of a runtime that has not been started finds no vector. *)
Lemma vectors_either s s' :
  (rt_inited (st_rt s) = true -> running s) -> (rt_inited (st_rt s) = false -> st_reg s = ∅) ->
  agree skel (st_reg s) (st_reg s') -> (running s -> vectors s') -> vectors s'.
Proof.
  intros Hrun Hcold Hsk Hv. destruct (rt_inited (st_rt s)) eqn:Hi; [auto|].
  intros l r h ms Hr. specialize (Hsk l). by rewrite (Hcold eq_refl), Hr in Hsk.
Qed.

Lemma sound_running s l : sound s -> is_Some (st_reg s !! l) -> running s.
Proof.
  intros Hs [r Hr]. destruct (rt_inited (st_rt s)) eqn:Hi; [by apply Hs|].
  by rewrite (so_cold _ Hs Hi) in Hr.
Qed.

Lemma sound_region s l : sound s -> is_Some (st_reg s !! l) -> (l < st_next s)%positive.
Proof. intros Hs Hl. eapply to_fresh; [|done]. apply run_tree. by eapply sound_running. Qed.

Lemma listed_owner s l x : sound s -> listed s l x -> owner_of s x = Some (Some l).
Proof.
  intros Hs Hl. pose proof (proj1 (listed_live _ _ _ Hl)) as Hr. destruct Hl as (ms & Hms & Hx).
  by eapply mod_list_owner; [apply run_mods; eapply sound_running| |].
Qed.

Lemma unowned_off s x : sound s -> owner_of s x = Some None -> on_no_list s x.
Proof.
  intros Hs Ho a ms Hms Hx. assert (listed s a x) as Hl by by exists ms.
  apply (listed_owner _ _ _ Hs) in Hl. congruence.
Qed.

Lemma owner_live s x o : owner_of s x = Some o -> is_Some (st_mod s !! x).
Proof. unfold owner_of. destruct (st_mod s !! x); [by eexists|done]. Qed.

#[export] Instance evolves_refl n : Reflexive (evolves n).
Proof. intros s Hn Hs. split; [done|]. by split. Qed.

#[export] Instance keeps_refl : Reflexive keeps.
Proof. intros s. apply evolves_refl. Qed.

Lemma evo_trans n s1 s2 s3 : evo n s1 s2 -> evo n s2 s3 -> evo n s1 s3.
Proof.
  intros [A1 A2 A3 A4 A5 A6 A7] [B1 B2 B3 B4 B5 B6 B7]. split; [lia|eauto..| | |eauto|eauto].
  - intros x Hx Hl. rewrite B4 by done. by apply A4; [|apply B2].
  - intros l x Hx Hl Hin Hm Hr. apply B5; [done..| |done|done].
    by apply A5; [..|apply B2|apply B3].
Qed.

#[export] Instance evolves_trans n : Transitive (evolves n).
Proof.
  intros s1 s2 s3 H12 H23 Hn Hs. destruct (H12 Hn Hs) as [Hs2 E2].
  destruct (H23 ltac:(pose proof (ev_next _ _ _ E2); lia) Hs2) as [Hs3 E3].
  split; [done|by eapply evo_trans].
Qed.

(** A callback is called later than the bound was taken. *)
Lemma evo_weaken n n' s s' : (n <= n')%positive -> evo n' s s' -> evo n s s'.
Proof.
  intros Hn [A1 A2 A3 A4 A5 A6 A7].
  split; [done|..|done]; intros; (first [eapply A2|eapply A3|eapply A4|eapply A5|eapply A6]); try done; lia.
Qed.

Lemma keeps_evolves n s s' : keeps s s' -> evolves n s s'.
Proof.
  intros H Hn Hs. destruct (H ltac:(done) Hs) as [? ?]. split; [done|by eapply evo_weaken].
Qed.

#[export] Instance keeps_trans : Transitive keeps.
Proof.
  intros s1 s2 s3 H12 H23 Hn Hs. destruct (H12 Hn Hs) as [Hs2 E2].
  apply (keeps_evolves (st_next s1)) in H23. destruct (H23 (ev_next _ _ _ E2) Hs2) as [Hs3 E3].
  split; [done|by eapply evo_trans].
Qed.

(** ** Steps that move no pointer *)

#[export] Instance frame_refl : Reflexive frame.
Proof. intros s. by split. Qed.

(** A function of a module's links. *)
Lemma frame_fmap {T} (f : mod_entry -> T) s s' x :
  (forall m m', mod_links m = mod_links m' -> f m = f m') -> frame s s' ->
  f <$> st_mod s' !! x = f <$> st_mod s !! x.
Proof.
  intros Hf Hfr. pose proof (fr_links _ _ Hfr x) as E.
  destruct (st_mod s' !! x), (st_mod s !! x); try done. cbn in *. f_equal. apply Hf. congruence.
Qed.

Lemma frame_owner s s' x : frame s s' -> owner_of s' x = owner_of s x.
Proof. apply frame_fmap. unfold mod_links. congruence. Qed.

Lemma frame_mod s s' x : frame s s' -> is_Some (st_mod s' !! x) <-> is_Some (st_mod s !! x).
Proof.
  intros Hfr. pose proof (fr_links _ _ Hfr x) as E. rewrite <- !not_eq_None_Some.
  by destruct (st_mod s' !! x), (st_mod s !! x).
Qed.

Lemma frame_region s s' l : frame s s' -> is_Some (st_reg s' !! l) <-> is_Some (st_reg s !! l).
Proof.
  intros Hfr. pose proof (fr_skel _ _ Hfr l) as E. rewrite <- !not_eq_None_Some.
  by destruct (st_reg s' !! l), (st_reg s !! l).
Qed.

Lemma frame_listed s s' l x : frame s s' -> listed s l x -> listed s' l x.
Proof.
  intros Hfr (ms & Hms & Hx). exists ms. split; [|done].
  apply (mod_list_frame s); [done|apply Hfr|]. intros y _. apply Hfr.
Qed.

Lemma frame_running s s' : frame s s' -> running s -> running s'.
Proof.
  intros Hfr Hrun. eapply running_frame; [exact Hrun|apply Hfr..].
  apply tree_ok_gens, Hrun.
Qed.

#[export] Instance frame_trans : Transitive frame.
Proof.
  intros s1 s2 s3 H12 [B1 B2 B3 B4 B5 B6 B7 B8 B9 B10 B11].
  pose proof H12 as [A1 A2 A3 A4 A5 A6 A7 A8 A9 A10 A11]. split.
  - lia.
  - by transitivity (st_reg s2).
  - auto.
  - intros x. by rewrite B4, A4.
  - congruence.
  - congruence.
  - congruence.
  - auto.
  - auto.
  - auto.
  - intros Hrun Hv. apply B11; [by eapply frame_running|by apply A11].
Qed.

Lemma frame_placed s s' x : frame s s' -> placed s x -> placed s' x.
Proof.
  intros Hfr Hp l Ho Hl. eapply frame_listed; [done|].
  apply Hp; [by rewrite <- (frame_owner s s')|by apply (frame_region s s')].
Qed.

Lemma frame_sound s s' : frame s s' -> sound s -> sound s'.
Proof.
  intros Hfr [S1 S2 S3 S4 S5 S6 S7 S8]. split.
  - rewrite (fr_inited _ _ Hfr). intros Hi. eapply frame_running; eauto.
  - rewrite (fr_inited _ _ Hfr). intros Hi. apply map_empty. intros l. apply eq_None_not_Some.
    intros Hl%(frame_region s s'); [|done]. rewrite (S2 Hi) in Hl. by destruct Hl.
  - intros x Hx%(frame_mod s s'); [|done]. apply S3 in Hx. pose proof (fr_next _ _ Hfr). lia.
  - intros x l. rewrite (frame_owner s s') by done. intros Ho%S4. pose proof (fr_next _ _ Hfr). lia.
  - intros k x (hd & Hhd & Hg). rewrite (fr_mod_hd _ _ Hfr) in Hhd.
    eapply frame_placed; [done|]. apply (S5 k). by exists hd.
  - by apply Hfr.
  - by apply Hfr.
  - apply (vectors_either s); [done|done|apply Hfr|intros Hrun; by apply (fr_vectors _ _ Hfr Hrun)].
Qed.

Lemma frame_evo n s s' : frame s s' -> evo n s s'.
Proof.
  intros Hfr. split.
  - apply Hfr.
  - intros x _ Hx. by apply (frame_mod s s').
  - intros x _ Hx. by apply (frame_region s s').
  - intros x _ _. by apply frame_owner.
  - intros l x _ _ Hl _ _. by eapply frame_listed.
  - intros k x _ (hd & Hhd & Hg). exists hd. by rewrite <- (fr_mod_hd _ _ Hfr).
  - apply Hfr.
Qed.

Lemma frame_evolves n s s' : frame s s' -> evolves n s s'.
Proof. intros Hfr Hn Hs. split; [by eapply frame_sound|by apply frame_evo]. Qed.

Lemma frame_keeps s s' : frame s s' -> keeps s s'.
Proof. apply frame_evolves. Qed.

Lemma preserves_mono {A} (R R' : state -> state -> Prop) (m : M state A) :
  (forall s s', R s s' -> R' s s') -> preserves R m -> preserves R' m.
Proof. intros HR Hm s a s' H. by eapply HR, Hm. Qed.

Lemma preserves_frame {A} n (m : M state A) : preserves frame m -> preserves (evolves n) m.
Proof. apply preserves_mono. intros s s'. apply frame_evolves. Qed.

Lemma preserves_frame_keeps {A} (m : M state A) : preserves frame m -> preserves keeps m.
Proof. apply preserves_mono. intros s s'. apply frame_keeps. Qed.

End Facts.

(** ** Steps that move one module

    The steps that do move pointers (a module is made, listed, freed or given
    another key, a region is claimed, everything is shut down) move those of one
    module at most, and keep the others in their places. *)

Section Shifts.
Context {Q : QMapOps}.
Implicit Types (s : state) (x l n : loc) (e : option loc).

Record shifts e s s' : Prop := {
  sh_running : rt_inited (st_rt s') = true -> running s';
  sh_cold : rt_inited (st_rt s') = false -> st_reg s' = ∅;
  sh_next : (st_next s <= st_next s')%positive;
  sh_reg : forall l, (l < st_next s)%positive -> is_Some (st_reg s' !! l) -> is_Some (st_reg s !! l);
  sh_mod : forall x, e <> Some x -> is_Some (st_mod s' !! x) ->
    is_Some (st_mod s !! x) /\ owner_of s' x = owner_of s x;
  sh_listed : forall l x, e <> Some x -> listed s l x -> is_Some (st_mod s' !! x) ->
    is_Some (st_reg s' !! l) -> listed s' l x;
  sh_registry : forall k x, e <> Some x -> in_registry s' k x -> in_registry s k x;
  sh_hooks : hook_table_ok s -> hook_table_ok s';
  sh_intern : intern_ok s -> intern_ok s';
  sh_bound : forall c, bound s c -> bound s' c;
  sh_vectors : vectors s -> vectors s'
}.

(** The module that is moved ends in its place, *)
Record homed s' x : Prop := {
  hm_fresh : is_Some (st_mod s' !! x) -> (x < st_next s')%positive;
  hm_owner : forall l, owner_of s' x = Some (Some l) -> (l < st_next s')%positive;
  hm_placed : placed s' x
}.

(** which is the old one if it has been there before. *)
Record stays s s' x : Prop := {
  st_was : is_Some (st_mod s' !! x) -> is_Some (st_mod s !! x);
  st_owner : is_Some (st_mod s' !! x) -> owner_of s' x = owner_of s x;
  st_listed : forall l, listed s l x -> is_Some (st_mod s' !! x) -> is_Some (st_reg s' !! l) ->
    listed s' l x;
  st_registered : forall k, in_registry s' k x -> in_registry s k x
}.

Lemma homed_gone s' x : st_mod s' !! x = None -> homed s' x.
Proof.
  intros Hx. split; [rewrite Hx; by intros []|..]; intros l; unfold owner_of; by rewrite Hx.
Qed.

Lemma shifts_sound e s s' :
  sound s -> shifts e s s' -> (forall x, e = Some x -> homed s' x) -> sound s'.
Proof.
  intros Hs Hsh He. split.
  - apply Hsh.
  - apply Hsh.
  - intros x Hx. destruct (decide (e = Some x)) as [E|E]; [by apply He|].
    destruct (sh_mod _ _ _ Hsh x E Hx) as [Hx' _]. apply (so_fresh _ Hs) in Hx'.
    pose proof (sh_next _ _ _ Hsh). lia.
  - intros x l Ho. destruct (decide (e = Some x)) as [E|E]; [by apply (hm_owner _ _ (He _ E))|].
    destruct (sh_mod _ _ _ Hsh x E (owner_live _ _ _ Ho)) as [_ Eo]. rewrite Eo in Ho.
    apply (so_owner _ Hs) in Ho. pose proof (sh_next _ _ _ Hsh). lia.
  - intros k x Hk l Ho Hl. destruct (decide (e = Some x)) as [E|E]; [by apply (hm_placed _ _ (He _ E))|].
    pose proof (owner_live _ _ _ Ho) as Hx. destruct (sh_mod _ _ _ Hsh x E Hx) as [_ Eo]. rewrite Eo in Ho.
    apply (sh_listed _ _ _ Hsh); [done| |done..]. apply (so_placed _ Hs k x); [|done|].
    + by apply (sh_registry _ _ _ Hsh).
    + apply (sh_reg _ _ _ Hsh); [|done]. by apply (so_owner _ Hs) in Ho.
  - apply Hsh, Hs.
  - apply Hsh, Hs.
  - apply Hsh, Hs.
Qed.

Lemma shifts_evo n e s s' :
  (n <= st_next s)%positive -> shifts e s s' ->
  (forall x, e = Some x -> (x < n)%positive -> stays s s' x) -> evo n s s'.
Proof.
  intros Hn Hsh He. split.
  - apply Hsh.
  - intros x Hx Hl. destruct (decide (e = Some x)) as [E|E]; [by apply (He x)|].
    by apply (sh_mod _ _ _ Hsh).
  - intros l Hl. apply Hsh. lia.
  - intros x Hx Hl. destruct (decide (e = Some x)) as [E|E]; [by apply (He x)|].
    by apply (sh_mod _ _ _ Hsh).
  - intros l x Hx Hl Hin Hm Hr. destruct (decide (e = Some x)) as [E|E]; [by apply (He x)|].
    by apply (sh_listed _ _ _ Hsh).
  - intros k x Hx Hk. destruct (decide (e = Some x)) as [E|E]; [by apply (He x)|].
    by apply (sh_registry _ _ _ Hsh).
  - apply Hsh.
Qed.

(** What a module keeps while others are at work. *)
Lemma evo_placed s s' x :
  sound s -> evo (st_next s) s s' -> (x < st_next s)%positive -> placed s x -> placed s' x.
Proof.
  intros Hs He Hx Hp l Ho Hl. pose proof (owner_live _ _ _ Ho) as Hm.
  rewrite (ev_owner _ _ _ He) in Ho by done. pose proof (so_owner _ Hs _ _ Ho) as Hln.
  apply (ev_listed _ _ _ He); [done..| |done|done]. apply Hp; [done|].
  by apply (ev_reg _ _ _ He).
Qed.

End Shifts.

(** ** Ways to move a module *)

Section Moves.
Context {Q : QMapOps}.
Implicit Types (s : state) (x l n : loc) (e r : option loc).

(** As [frame], but for the links of the module [e] and the registrations of the
    module [r]. *)
Record near e r s s' : Prop := {
  nr_next : (st_next s <= st_next s')%positive;
  nr_skel : agree skel (st_reg s) (st_reg s');
  nr_gens : gens_ok (st_reg s) -> gens_ok (st_reg s');
  nr_links : forall x, e <> Some x -> mod_links <$> st_mod s' !! x = mod_links <$> st_mod s !! x;
  nr_region_hd : rt_region_hd (st_rt s') = rt_region_hd (st_rt s);
  nr_inited : rt_inited (st_rt s') = rt_inited (st_rt s);
  nr_registry : forall k x, r <> Some x -> in_registry s' k x -> in_registry s k x;
  nr_hooks : hook_table_ok s -> hook_table_ok s';
  nr_intern : intern_ok s -> intern_ok s';
  nr_bound : forall c, bound s c -> bound s' c;
  nr_vectors : running s -> (forall x, e = Some x -> on_no_list s x) -> vectors s -> vectors s'
}.

#[export] Instance near_refl e r : Reflexive (near e r).
Proof. intros s. by split. Qed.

(** A change in the heap of modules that leaves all lists alone. *)
Lemma unlisted_vectors e s s' :
  st_reg s' = st_reg s -> rt_region_hd (st_rt s') = rt_region_hd (st_rt s) ->
  (st_next s <= st_next s')%positive ->
  (forall x, e <> Some x -> mod_links <$> st_mod s' !! x = mod_links <$> st_mod s !! x) ->
  running s -> (forall x, e = Some x -> on_no_list s x) -> vectors s -> vectors s'.
Proof.
  intros Er Ehd Hn Hl Hrun Hoff. apply vectors_same; [done|by rewrite Er| |done|done| |].
  - rewrite Er. apply tree_ok_gens, Hrun.
  - intros a r r' Ha Ha'. rewrite Er in Ha'. by assert (r = r') as -> by congruence.
  - intros a ms Hms. apply (mod_list_frame s); [done|by rewrite Er|]. intros x Hx. apply Hl.
    intros E. by apply (Hoff x E a ms).
Qed.

Lemma frame_near e r s s' : frame s s' -> near e r s s'.
Proof.
  intros [A1 A2 A3 A4 A5 A6 A7 A8 A9 A10 A11]. split; try done.
  - intros k x _ (hd & Hhd & Hg). exists hd. by rewrite <- A6.
  - intros Hrun _. by apply A11.
Qed.

Lemma near_fmap {T} (f : mod_entry -> T) e r s s' x :
  (forall m m', mod_links m = mod_links m' -> f m = f m') -> near e r s s' -> e <> Some x ->
  f <$> st_mod s' !! x = f <$> st_mod s !! x.
Proof.
  intros Hf Hn Hx. pose proof (nr_links _ _ _ _ Hn x Hx) as E.
  destruct (st_mod s' !! x), (st_mod s !! x); try done. cbn in *. f_equal. apply Hf. congruence.
Qed.

Lemma near_list e r s s' a ms :
  near e r s s' -> (forall x, e = Some x -> on_no_list s x) -> mod_list s a ms -> mod_list s' a ms.
Proof.
  intros Hn Hoff Hms. apply (mod_list_frame s); [done|apply Hn|]. intros x Hx. apply Hn.
  intros E. by apply (Hoff x E _ _ Hms).
Qed.

Lemma near_running e r s s' :
  running s -> near e r s s' -> (forall x, e = Some x -> on_no_list s x) -> running s'.
Proof.
  intros Hrun Hn Hoff. split.
  - rewrite (nr_inited _ _ _ _ Hn). apply Hrun.
  - eapply tree_ok_frame; [apply Hrun|apply skel_shape, Hn| |apply Hn..].
    apply Hn, tree_ok_gens, Hrun.
  - intros l rl' Hl'. pose proof (nr_skel _ _ _ _ Hn l) as E. rewrite Hl' in E.
    destruct (st_reg s !! l) as [rl|] eqn:Hl; [|done].
    destruct (mods_ok_list _ _ _ (run_mods _ Hrun) Hl) as (ms & Hms & Ho).
    destruct (near_list _ _ _ _ _ _ Hn Hoff Hms) as (r' & Hr' & Hd).
    assert (r' = rl') as -> by congruence. exists ms. split; [done|].
    intros x Hx. rewrite (near_fmap m_region_entry e r s s'); [by apply Ho| |done|].
    + unfold mod_links. congruence.
    + intros Ex. by apply (Hoff x Ex _ _ Hms).
Qed.

Lemma near_off e r s s' x :
  running s -> near e r s s' -> (forall y, e = Some y -> on_no_list s y) -> on_no_list s x ->
  on_no_list s' x.
Proof.
  intros Hrun Hn He Hx a ms' Hms' Hin. pose proof Hms' as (r' & Hr' & _).
  pose proof (nr_skel _ _ _ _ Hn) as Hsk. symmetry in Hsk.
  destruct (agree_lookup _ _ _ _ _ Hsk Hr') as (ra & Hra & _).
  destruct (mods_ok_list _ _ _ (run_mods _ Hrun) Hra) as (ms & Hms & _).
  rewrite (mod_list_det s' a ms' ms Hms') in Hin; [by apply (Hx _ _ Hms)|by eapply near_list].
Qed.

#[export] Instance near_trans e r : Transitive (near e r).
Proof.
  intros s1 s2 s3 H12 [B1 B2 B3 B4 B5 B6 B7 B8 B9 B10 B11].
  pose proof H12 as [A1 A2 A3 A4 A5 A6 A7 A8 A9 A10 A11]. split.
  - lia.
  - by transitivity (st_reg s2).
  - auto.
  - intros x Hx. by rewrite B4, A4.
  - congruence.
  - congruence.
  - auto.
  - auto.
  - auto.
  - auto.
  - intros Hrun Hoff Hv. apply B11; [by eapply near_running| |by apply A11].
    intros x Hx. apply (near_off e r s1); [done..|by apply Hoff].
Qed.

Lemma near_shifts e r d s s' :
  (rt_inited (st_rt s) = true -> running s) -> (rt_inited (st_rt s) = false -> st_reg s = ∅) ->
  near e r s s' -> (forall x, e = Some x -> on_no_list s x) ->
  (forall x, d <> Some x -> e <> Some x /\ r <> Some x) -> shifts d s s'.
Proof.
  intros Hrun Hcold Hn Hoff Hd. split.
  - rewrite (nr_inited _ _ _ _ Hn). intros Hi. by eapply near_running; [apply Hrun|..].
  - rewrite (nr_inited _ _ _ _ Hn). intros Hi. apply map_empty. intros l.
    pose proof (nr_skel _ _ _ _ Hn l) as E. rewrite (Hcold Hi) in E. cbn in E.
    by destruct (st_reg s' !! l).
  - apply Hn.
  - intros l _ Hl. pose proof (nr_skel _ _ _ _ Hn l) as E. apply not_eq_None_Some. intros E'.
    rewrite E' in E. destruct Hl as [rl Hl]. by rewrite Hl in E.
  - intros x Hx Hl. destruct (Hd x Hx) as [Ex _]. split.
    + pose proof (nr_links _ _ _ _ Hn x Ex) as E. apply not_eq_None_Some. intros E'.
      rewrite E' in E. destruct Hl as [m Hl]. by rewrite Hl in E.
    + apply (near_fmap _ e r s s'); [|done..]. unfold mod_links. congruence.
  - intros l x _ (ms & Hms & Hx) _ _. exists ms. split; [by eapply near_list|done].
  - intros k x Hx. apply Hn. by apply Hd.
  - apply Hn.
  - apply Hn.
  - apply Hn.
  - intros Hv. apply (vectors_either s); [done|done|apply Hn|intros Hr; by apply (nr_vectors _ _ _ _ Hn)].
Qed.

(** Two moves of the same module. *)
Lemma shifts_trans e s1 s2 s3 :
  (forall l, is_Some (st_reg s1 !! l) -> (l < st_next s1)%positive) ->
  shifts e s1 s2 -> shifts e s2 s3 -> shifts e s1 s3.
Proof.
  intros Hfresh [A1 A2 A3 A4 A5 A6 A7 A8 A9 A10 A11] [B1 B2 B3 B4 B5 B6 B7 B8 B9 B10 B11].
  split; [done|done|lia|..].
  - intros l Hl Hl3. apply A4; [done|]. apply B4; [lia|done].
  - intros x Hx Hx3. destruct (B5 x Hx Hx3) as [Hx2 E2]. destruct (A5 x Hx Hx2) as [Hx1 E1].
    split; [done|congruence].
  - intros l x Hx Hin Hx3 Hl3. pose proof (Hfresh l (proj1 (listed_live _ _ _ Hin))) as Hl.
    apply B6; [done| |done|done]. apply A6; [done|done|by apply B5|]. apply B4; [lia|done].
  - auto.
  - auto.
  - auto.
  - auto.
  - auto.
Qed.

(** A list operation. *)
Lemma list_shifts ls s s' l x ms ms' :
  running s -> running s' -> linked (parent_of (st_reg s)) (Some l) ls -> list_step ls s s' ->
  mod_list s l ms -> mod_list s' l ms' ->
  (forall a mss, a <> l -> mod_list s a mss -> mod_list s' a mss) ->
  (forall y, y <> x -> y ∈ ms -> y ∈ ms') -> (forall y, y <> x -> owner_of s' y = owner_of s y) ->
  shifts (Some x) s s'.
Proof.
  intros Hrun0 Hrun Hch Hls Hl Hl' Hoth Hin Hown. pose proof (lst_state _ _ _ Hls) as Est.
  assert (st_rt s' = st_rt s /\ st_next s' = st_next s /\ st_str s' = st_str s /\ st_ctx s' = st_ctx s)
    as (Er & En & Es & Ec)
    by (rewrite Est; done).
  split.
  - done.
  - intros Hi. rewrite (run_inited _ Hrun) in Hi. done.
  - by rewrite En.
  - intros a _ Ha. pose proof (lst_reg _ _ _ Hls a) as E. apply not_eq_None_Some. intros E'.
    rewrite E' in E. destruct Ha as [ra Ha]. by rewrite Ha in E.
  - intros y Hy Hly. split; [by apply (list_step_live ls s s')|]. apply Hown. congruence.
  - intros a y Hy (mss & Hmss & Hiny) _ _. destruct (decide (a = l)) as [->|Hne].
    + rewrite (mod_list_det _ _ _ _ Hmss Hl) in Hiny. exists ms'. split; [done|].
      apply Hin; [congruence|done].
    + exists mss. split; [by apply Hoth|done].
  - intros k y _. unfold in_registry. by rewrite Er.
  - unfold hook_table_ok. by rewrite Er.
  - unfold intern_ok. by rewrite Er, En, Es.
  - intros c. unfold bound. by rewrite Ec.
  - by apply (vectors_list_step s s' l ls).
Qed.

End Moves.
