(* ===== verification/Frames.v ===== *)
(** * Operations that move no pointer

    Most functions of the library change caches, flags, results and
    thread-local variables, but none of the pointers that [sound] is about:
    they are steps of [frame]. *)

From S2P Require Import Prelude QMap Status State Machine ModKey Linked Region RegionTree ModList.
From S2P Require Import Runtime Vectors Paths Identity FnCache RegionApi Deny Claim Dispatch CopyFile.
From S2P Require Import Load LoadSpec LoadFresh Unload UnloadSpec AbortSpec Lifecycle Evolve.
From stdpp Require Import options.
Local Open Scope Z_scope.

Create HintDb frames.

(** The proof that a program is a step of [frame]: its structure, and the lemmas
    about its calls. *)
Ltac frame_step := split; cbn; try done; try lia.
Ltac frame_call := first [solve [eauto 2 with frames] | solve [frame_step]].
Ltac frames := cbv zeta; repeat first [frame_call | preserve_step; cbv zeta].

Section Frames.
Context {Q : QMapOps} {QL : QMapLaws Q} {P : Platform}.
Implicit Types (s : state) (l : loc).

(** ** The machine *)

Lemma frame_gets {A} (f : state -> A) : preserves frame (gets f).
Proof. by apply preserves_gets. Qed.

Lemma region_at_frame l : preserves frame (region_at l).
Proof. unfold region_at. frames. Qed.
Lemma module_at_frame l : preserves frame (module_at l).
Proof. unfold module_at. frames. Qed.
Lemma ctx_at_frame l : preserves frame (ctx_at l).
Proof. unfold ctx_at. frames. Qed.
Lemma adapter_at_frame l : preserves frame (adapter_at l).
Proof. unfold adapter_at. frames. Qed.
Lemma handle_frame {A} (f : runtime -> option A) : preserves frame (handle f).
Proof. unfold handle. frames. Qed.

Lemma upd_ctx_frame l f : (forall x, tabled x -> tabled (f x)) -> preserves frame (upd_ctx l f).
Proof.
  intros Hf. unfold upd_ctx. intros s a s' H. apply bind_inv in H as (x & s1 & H1 & H2).
  unfold ctx_at in H1. apply bind_inv in H1 as (o & s2 & [= <- <-] & H1).
  destruct (st_ctx s !! l) as [x0|] eqn:Hx; [|done]. injection H1 as <- <-. injection H2 as _ <-.
  split; try done. intros c (y & Hy & Ht). unfold bound. cbn. destruct (decide (l = c)) as [->|Hne].
  - exists (f x0). rewrite lookup_insert_eq. split; [done|]. apply Hf. congruence.
  - exists y. by rewrite lookup_insert_ne.
Qed.
Lemma upd_adapter_frame l f : preserves frame (upd_adapter l f).
Proof. unfold upd_adapter, adapter_at. frames. Qed.
Lemma mem_write_frame l bs : preserves frame (mem_write l bs).
Proof. unfold mem_write. frames. Qed.
Lemma mem_read_frame l n : preserves frame (mem_read l n).
Proof. unfold mem_read. frames. Qed.
Lemma memset0_frame l n : preserves frame (memset0 l n).
Proof. apply mem_write_frame. Qed.

Lemma try_alloc_frame : preserves frame try_alloc.
Proof. intros s b s'. unfold try_alloc. destruct (st_alloc s); intros [= _ <-]; by split. Qed.

Lemma intern_ok_next s nx :
  (st_next s <= nx)%positive -> intern_ok s -> intern_ok (set_st_next nx s).
Proof. intros Hn [H1 H2]. split; [done|]. intros l Hl%H2. cbn. lia. Qed.

Lemma fresh_loc_frame : preserves frame fresh_loc.
Proof.
  unfold fresh_loc. intros s l s'. cbn. intros [= _ <-]. split; try done; [cbn; lia|].
  apply (intern_ok_next s). lia.
Qed.

Lemma set_err_frame e : preserves frame (XY_SET_ERR e).
Proof. unfold XY_SET_ERR. frames. Qed.
Lemma return_err_frame e : preserves frame (return_err e).
Proof. unfold return_err, XY_SET_ERR. frames. Qed.
Lemma upd_tls_frame f : preserves frame (upd_tls f).
Proof. unfold upd_tls. frames. Qed.
Lemma upd_xy_frame f : preserves frame (upd_xy f).
Proof. unfold upd_xy. frames. Qed.
Lemma emit_frame e : preserves frame (emit e).
Proof. unfold emit. frames. Qed.
Lemma set_current_region_frame id e : preserves frame (set_current_region id e).
Proof. apply upd_tls_frame. Qed.

(** What [frame] reads of the runtime. *)
Definition rt_view (rt : runtime) :=
  (rt_region_hd rt, rt_mod_hd rt, rt_inited rt, rt_hook_id_hd rt, rt_hook_id_counter rt,
   rt_path_intern_hd rt).

Lemma upd_rt_frame f : (forall rt, rt_view (f rt) = rt_view rt) -> preserves frame (upd_rt f).
Proof.
  intros Hf. unfold upd_rt. intros s a s' [= _ <-]. specialize (Hf (st_rt s)).
  injection Hf as E1 E2 E3 E4 E5 E6. split; cbn; try done.
  - unfold hook_table_ok. cbn. by rewrite E4, E5.
  - unfold intern_ok. cbn. by rewrite E6.
Qed.

(** ** Heap objects *)

Lemma put_region_frame_at s l r r' :
  st_reg s !! l = Some r -> skel r' = skel r ->
  (1 <= r_dispatch_gen r < two64 -> 1 <= r_dispatch_gen r' < two64) -> vec_kept r r' ->
  frame s (set_st_reg (<[l := r']> (st_reg s)) s).
Proof.
  intros Hr Hsk Hg Hv. set (s' := set_st_reg _ s).
  assert (agree skel (st_reg s) (st_reg s')) as Hag by by apply (agree_insert skel _ _ r).
  assert (gens_ok (st_reg s) -> gens_ok (st_reg s')) as Hgens.
  { intros H. apply gens_ok_insert; [done|]. by apply Hg, (H l). }
  split; try done. intros Hrun. apply vectors_same; [done|by apply skel_shape| |done|done| |].
  - apply Hgens, tree_ok_gens, Hrun.
  - intros a ra ra' Ha Ha'. cbn in Ha'. apply lookup_insert_Some in Ha' as [[<- <-]|[_ Ha']].
    + by assert (ra = r) as -> by congruence.
    + assert (ra = ra') as -> by congruence. done.
  - intros a ms Hms. by apply (mod_list_frame s).
Qed.

Lemma upd_region_frame l f :
  (forall r, skel (f r) = skel r) ->
  (forall r, 1 <= r_dispatch_gen r < two64 -> 1 <= r_dispatch_gen (f r) < two64) ->
  (forall r, vec_kept r (f r)) -> preserves frame (upd_region l f).
Proof.
  intros Hf Hg Hv s a s' (r & Hr & ->)%upd_region_inv. apply (put_region_frame_at s l r); auto.
Qed.

Lemma put_module_frame_at s l m m' :
  st_mod s !! l = Some m -> mod_links m' = mod_links m ->
  frame s (set_st_mod (<[l := m']> (st_mod s)) s).
Proof.
  intros Hm Hl. set (s' := set_st_mod _ s).
  assert (forall x, mod_links <$> st_mod s' !! x = mod_links <$> st_mod s !! x) as Hlinks.
  { intros x. cbn. rewrite lookup_insert. case_decide; [|done]. subst. rewrite Hm. cbn. by rewrite Hl. }
  split; try done. intros Hrun. apply vectors_same; [done|done|exact (tree_ok_gens s (run_tree _ Hrun))|done|done| |].
  - intros a r r' Ha Ha'. cbn in Ha'. by assert (r = r') as -> by congruence.
  - intros a ms Hms. apply (mod_list_frame s); [done|done|]. intros x _. apply Hlinks.
Qed.

Lemma upd_module_frame l f :
  (forall m, mod_links (f m) = mod_links m) -> preserves frame (upd_module l f).
Proof.
  intros Hf s a s'. unfold upd_module, module_at, put_module. intros H.
  apply bind_inv in H as (m & s1 & H1 & H2). apply bind_inv in H1 as (o & s2 & [= <- <-] & H1).
  destruct (st_mod s !! l) as [m0|] eqn:Hm; [|done]. injection H1 as <- <-. injection H2 as _ <-.
  apply (put_module_frame_at s l m0); auto.
Qed.

End Frames.

#[export] Hint Resolve frame_gets region_at_frame module_at_frame ctx_at_frame adapter_at_frame
  handle_frame upd_adapter_frame mem_write_frame mem_read_frame memset0_frame
  try_alloc_frame fresh_loc_frame set_err_frame return_err_frame upd_tls_frame upd_xy_frame
  emit_frame set_current_region_frame : frames.
#[export] Hint Extern 2 (preserves frame (upd_ctx _ _)) =>
  apply upd_ctx_frame; intros ? [] ; by split : frames.
#[export] Hint Extern 2 (preserves frame (upd_rt _)) => apply upd_rt_frame; intros; reflexivity : frames.
#[export] Hint Extern 2 (preserves frame (upd_region _ _)) =>
  apply upd_region_frame; [intros; reflexivity|by intros|by intros] : frames.
#[export] Hint Extern 2 (preserves frame (upd_module _ _)) =>
  apply upd_module_frame; intros; reflexivity : frames.

(** ** The components *)

Section Components.
Context {Q : QMapOps} {QL : QMapLaws Q} {P : Platform}.
Implicit Types (s : state) (l : loc).

Lemma out_of_fuel_frame {A} : preserves frame (out_of_fuel : XM A).
Proof. done. Qed.
#[local] Hint Resolve out_of_fuel_frame : frames.

(** *** Regions *)

Lemma region_lookup_frame id : preserves frame (region_lookup id).
Proof. unfold region_lookup. frames. Qed.

Lemma ancestor_loop_frame fuel f e :
  (forall r, skel (f r) = skel r) ->
  (forall r, 1 <= r_dispatch_gen r < two64 -> 1 <= r_dispatch_gen (f r) < two64) ->
  (forall r, vec_kept r (f r)) -> preserves frame (ancestor_loop fuel f e).
Proof.
  intros Hf Hg Hv. assert (forall l, preserves frame (upd_region l f)) as Hu by (intros; by apply upd_region_frame).
  revert e. induction fuel as [|fuel IH]; intros [l|]; cbn; frames.
Qed.

Lemma region_dispatch_gen_bump_frame e : preserves frame (region_dispatch_gen_bump e).
Proof.
  unfold region_dispatch_gen_bump, for_ancestors. frames. apply ancestor_loop_frame; [done| |done].
  intros r _. apply next_gen_range.
Qed.

Lemma region_propagate_deny_frame e : preserves frame (region_propagate_deny e).
Proof. unfold region_propagate_deny, for_ancestors. frames. by apply ancestor_loop_frame. Qed.

Lemma chain_walk_frame n e : preserves frame (chain_walk n e).
Proof. revert e. induction n as [|n IH]; intros [l|]; cbn; frames. Qed.

Lemma region_ancestor_chain_frame e n : preserves frame (region_ancestor_chain e n).
Proof. unfold region_ancestor_chain. frames. apply chain_walk_frame. Qed.

(** Filling the vector of a dirty region, *)
Lemma filling_frame l r s s' :
  st_reg s !! l = Some r -> r_subtree_mods_dirty r = true -> filling l s s' -> frame s s'.
Proof.
  intros Hr Hd Hf. pose proof (fi_state _ _ _ Hf) as Est. pose proof (fi_root _ _ _ Hf) as Eroot.
  assert (forall T (g : region_entry -> T), (forall x, g (no_vec x) = g x) ->
    agree g (st_reg s) (st_reg s')) as Hag.
  { intros T g Hg a. destruct (decide (a = l)) as [->|Hne]; [|by rewrite (fi_other _ _ _ Hf)].
    rewrite Hr in *. destruct (st_reg s' !! l) as [r'|]; [|done]. apply (inj Some) in Eroot. cbn.
    by rewrite <- (Hg r), <- (Hg r'), Eroot. }
  assert (gens_ok (st_reg s) -> gens_ok (st_reg s')) as Hgens.
  { intros H a ra' Ha'. pose proof (Hag _ r_dispatch_gen (fun _ => eq_refl) a) as E. rewrite Ha' in E.
    destruct (st_reg s !! a) as [ra|] eqn:Ha; [|done]. apply (inj Some) in E. cbn in E. rewrite <- E.
    by eapply H. }
  assert (agree skel (st_reg s) (st_reg s')) as Hsk by by apply Hag.
  assert (st_rt s' = st_rt s /\ st_next s' = st_next s /\ st_str s' = st_str s /\ st_ctx s' = st_ctx s /\
    st_mod s' = st_mod s) as (Ert & En & Estr & Ectx & Em) by (rewrite Est; done).
  split; unfold hook_table_ok, intern_ok, bound; rewrite ?Ert, ?En, ?Estr, ?Ectx, ?Em; try done.
  intros Hrun. apply vectors_same; [done|by apply skel_shape| |by rewrite Ert|by rewrite En| |].
  - apply Hgens, tree_ok_gens, Hrun.
  - intros a ra ra' Ha Ha'. destruct (decide (a = l)) as [->|Hne].
    + intros Hc. pose proof (Hag _ r_subtree_mods_dirty (fun _ => eq_refl) l) as E.
      rewrite Ha', Hr in E. cbn in E. congruence.
    + rewrite (fi_other _ _ _ Hf a Hne) in Ha'. assert (ra = ra') as -> by congruence. done.
  - intros a ms Hms. apply (mod_list_frame s); [done|done|]. by rewrite Em.
Qed.

(** and a whole refresh. *)
Lemma refresh_subtree_mods_frame l : preserves frame (refresh_subtree_mods l).
Proof.
  intros s rc s' H. unfold refresh_subtree_mods in H. binv H r s1 E. apply region_at_inv in E as [Hr ->].
  destruct (r_subtree_mods_dirty r) eqn:Hd; [|injection H as _ <-; reflexivity].
  destruct (rebuild_inv _ _ _ _ H) as (s1 & Hf & Hend). pose proof (filling_frame l r s s1 Hr Hd Hf) as Hfr.
  destruct Hend as [->|(r1 & Hr1 & Es' & _)]; [done|].
  assert (agree skel (st_reg s1) (st_reg s')) as Hsk.
  { rewrite Es'. by apply (agree_insert skel _ _ r1). }
  assert (gens_ok (st_reg s1) -> gens_ok (st_reg s')) as Hg.
  { intros Hg. rewrite Es'. apply gens_ok_insert; [done|]. exact (Hg l r1 Hr1). }
  assert (st_rt s' = st_rt s1 /\ st_next s' = st_next s1 /\ st_str s' = st_str s1 /\ st_ctx s' = st_ctx s1 /\
    st_mod s' = st_mod s1) as (Ert & En & Estr & Ectx & Em) by (rewrite Es'; done).
  destruct Hfr as [A1 A2 A3 A4 A5 A6 A7 A8 A9 A10 _].
  split; unfold hook_table_ok, intern_ok, bound; rewrite ?Ert, ?En, ?Estr, ?Ectx, ?Em; try done.
  - by etransitivity.
  - auto.
  - intros Hrun. by apply (rebuild_vectors s l r rc).
Qed.

Lemma region_alloc_slot_frame l bits : preserves frame (region_alloc_slot l bits).
Proof. unfold region_alloc_slot. frames. Qed.

(** *** Paths and names *)

Lemma module_load_path_frame fname : preserves frame (module_load_path fname).
Proof. unfold module_load_path. frames. Qed.

Lemma path_intern_frame path : preserves frame (module_path_intern path).
Proof using QL.
  destruct path as [p|]; [|cbn; frames]. intros s a s' H.
  destruct (module_path_intern_frame s p) as (l & h & strs & nx & E & Hn & _).
  rewrite E in H. injection H as _ <-. split; try done.
  intros Hok. destruct (module_path_intern_correct s p Hok) as (l' & s' & E' & Hok' & _).
  rewrite E in E'. by injection E' as _ <-.
Qed.

Lemma module_lookup_frame fname id : preserves frame (module_lookup_from_fname fname id).
Proof. unfold module_lookup_from_fname. frames. apply module_load_path_frame. Qed.

(** *** Function caches *)

Lemma fn_cache_set_frame me h cb : preserves frame (fn_cache_set me h cb).
Proof.
  unfold fn_cache_set. intros s a s' H. apply bind_inv in H as (m & s1 & H1 & H2).
  unfold module_at in H1. apply bind_inv in H1 as (o & s2 & [= <- <-] & H1).
  destruct (st_mod s !! me) as [m0|] eqn:Hm; [|done]. injection H1 as <- <-.
  case_decide; [|done]. injection H2 as _ <-. by apply (put_module_frame_at s me m0).
Qed.
#[local] Hint Resolve fn_cache_set_frame : frames.

Lemma ensure_fn_cache_cap_frame me n : preserves frame (module_ensure_fn_cache_cap me n).
Proof. unfold module_ensure_fn_cache_cap. frames. Qed.

Lemma mark_hook_implemented_frame me h : preserves frame (module_mark_hook_implemented me h).
Proof. unfold module_mark_hook_implemented, module_ensure_hook_impl_words. frames. Qed.
#[local] Hint Resolve ensure_fn_cache_cap_frame mark_hook_implemented_frame : frames.

Lemma fn_cache_resolve_frame me h name : preserves frame (fn_cache_resolve me h name).
Proof. unfold fn_cache_resolve, resolve_slow. frames. Qed.

Lemma prewarm_loop_frame me hs : preserves frame (prewarm_loop me hs).
Proof. induction hs as [|[name h] l IH]; cbn; frames. Qed.

Lemma fn_cache_prewarm_frame me : preserves frame (fn_cache_prewarm me).
Proof. unfold fn_cache_prewarm. frames. apply prewarm_loop_frame. Qed.

Lemma clear_loop_frame e base ms : preserves frame (clear_loop e base ms).
Proof. induction ms as [|[k m] ms IH]; cbn; frames. Qed.

Lemma clear_fn_cache_frame e : preserves frame (module_clear_fn_cache_for_handle e).
Proof. unfold module_clear_fn_cache_for_handle. frames. apply clear_loop_frame. Qed.

(** *** Temporary copies *)

Lemma copy_file_calls_frame :
  (forall t, preserves frame (mkstemps t)) /\ (forall p, preserves frame (open_in p)) /\
  (forall p, preserves frame (open_dir p)) /\ (forall n bs, preserves frame (read_in n bs)) /\
  (forall bs, preserves frame (write_out bs)) /\ preserves frame fchmod /\
  (forall fd, preserves frame (fsync fd)) /\ (forall fd, preserves frame (close_fd fd)).
Proof.
  unfold mkstemps, open_in, open_dir, read_in, write_out, fchmod, fsync, close_fd.
  split_and!; intros; frames.
Qed.

Lemma write_loop_frame n bs : preserves frame (write_loop n bs).
Proof.
  destruct copy_file_calls_frame as (_ & _ & _ & _ & Hw & _).
  revert bs. induction n as [|n IH]; intros [|b bs]; cbn; frames.
Qed.

Lemma read_loop_frame n bs : preserves frame (read_loop n bs).
Proof.
  destruct copy_file_calls_frame as (_ & _ & _ & Hr & _). pose proof write_loop_frame.
  revert bs. induction n as [|n IH]; intros bs; cbn; frames.
Qed.

Lemma copy_one_frame src tmpl : preserves frame (copy_one src tmpl).
Proof.
  destruct copy_file_calls_frame as (? & ? & ? & _ & _ & ? & ? & ?). pose proof read_loop_frame.
  unfold copy_one, copy_bytes, sync_dir. frames.
Qed.

Lemma copy_to_tmp_frame path : preserves frame (copy_to_tmp path).
Proof. pose proof copy_one_frame. unfold copy_to_tmp, copy_fallbacks. frames. Qed.

End Components.

#[export] Hint Resolve out_of_fuel_frame region_lookup_frame region_dispatch_gen_bump_frame
  region_propagate_deny_frame region_ancestor_chain_frame refresh_subtree_mods_frame
  region_alloc_slot_frame module_load_path_frame path_intern_frame module_lookup_frame
  fn_cache_resolve_frame fn_cache_prewarm_frame ensure_fn_cache_cap_frame
  mark_hook_implemented_frame clear_fn_cache_frame copy_to_tmp_frame : frames.
