(* ===== verification/System.v ===== *)
(** * The closed system

    Host and module code as programs over the library's interface
    (include/ttypt/xy.h), and the executor that runs them when the library
    calls back: the knot between the library and the code it loads. *)

From S2P Require Import Prelude QMap Status State Machine ModKey Linked Region RegionTree ModList.
From S2P Require Import Runtime Paths Identity FnCache RegionApi Deny Claim Dispatch Load Unload.
From S2P Require Import Lifecycle.
From stdpp Require Import options.
Local Open Scope Z_scope.

(** The calls a program can make. *)
Inductive api_call :=
| Call_load (fname : string)
| Call_unload (fname : string)
| Call_reload (fname : string)
| Call_call (retp reg : option loc) (arg : list Z)
| Call_areg (name : string) (adapter : loc)
| Call_last (ret : option loc)
| Call_errno
| Call_deny (what : string) (type : xy_deny_type)
| Call_require_claim (fn : option loc) (ud : Z)
| Call_region_each (fn : loc) (ud : Z)
| Call_with_region (id : Z) (fn : option loc) (ud : Z)
| Call_current_region
| Call_shutdown
| Call_init
| Call_self_init_ctx (ctx : option loc).

(** A program: a result, a call and what follows on its answer, a read or a
    write of a byte of memory, or a read of a function table of type xy_t (where
    a module finds its region state, XY_RS). *)
Inductive prog :=
| Return (out : list Z)
| Invoke (c : api_call) (k : Z -> prog)
| ReadByte (l : loc) (i : nat) (k : Z -> prog)
| WriteByte (l : loc) (i : nat) (b : Z) (k : prog)
| ReadXy (ctx : loc) (k : xy_t -> prog).

Section System.
Context {Q : QMapOps} {P : Platform}.

Definition xy_errno : XM Z := XY_GET_ERR.

Definition xy_self_init_ctx (ctx : option loc) : XM unit := upd_tls (set_t_pending_ctx ctx).

Definition api_sem (exec : executor) (c : api_call) : XM Z :=
  match c with
  | Call_load fname => xy_load exec fname
  | Call_unload fname => xy_unload exec fname
  | Call_reload fname => xy_reload exec fname
  | Call_call retp reg arg => xy_call exec retp reg arg
  | Call_areg name adapter => xy_areg name adapter
  | Call_last ret => xy_last ret
  | Call_errno => xy_errno
  | Call_deny what type => xy_deny what type
  | Call_require_claim fn ud => xy_require_claim fn ud
  | Call_region_each fn ud => xy_region_each exec fn ud
  | Call_with_region id fn ud => xy_with_region exec id fn ud
  | Call_current_region => xy_current_region
  | Call_shutdown => xy_shutdown exec;; mret 0
  | Call_init => xy_init;; mret 0
  | Call_self_init_ctx ctx => xy_self_init_ctx ctx;; mret 0
  end.

(** The byte [i] of the buffer [l]: outside of it is undefined behaviour. *)
Definition read_byte (l : loc) (i : nat) : XM Z :=
  buf ← gets (fun s => st_mem s !! l) ≫= must; must (buf !! i).

Definition write_byte (l : loc) (i : nat) (b : Z) : XM unit :=
  buf ← gets (fun s => st_mem s !! l) ≫= must;
  must (buf !! i);;
  modify (fun s => set_st_mem (<[l := <[i := wrap8 b]> buf]> (st_mem s)) s).

Fixpoint run (exec : executor) (p : prog) : XM (list Z) :=
  match p with
  | Return out => mret out
  | Invoke c k => r ← api_sem exec c; run exec (k r)
  | ReadByte l i k => b ← read_byte l i; run exec (k b)
  | WriteByte l i b k => write_byte l i b;; run exec k
  | ReadXy ctx k => x ← ctx_at ctx; run exec (k x)
  end.

(** [code] gives the program behind each callback; [fuel] bounds the nesting
    of callbacks. *)
Fixpoint exec_of (code : callback -> prog) (fuel : nat) : executor := fun cb =>
  match fuel with
  | O => out_of_fuel
  | S fuel' => run (exec_of code fuel') (code cb)
  end.

(** A host program on a fresh process, after the constructor of the library. *)
Definition host (code : callback -> prog) (fuel : nat) (p : prog) : XM (list Z) :=
  xy_init;; run (exec_of code fuel) p.

End System.
