(* ===== verification/ApiSound.v ===== *)
(** * Soundness of the calls that load and unload nothing

    The entry points that deny, call, register and enumerate keep the invariant
    [sound] and the promises of [evo], if the code they call back does. *)

From S2P Require Import Prelude QMap Status State Machine ModKey Linked Region RegionTree ModList.
From S2P Require Import Runtime Vectors Paths Identity FnCache RegionApi Deny Claim Dispatch CopyFile.
From S2P Require Import Load LoadSpec LoadFresh Unload UnloadSpec AbortSpec Lifecycle Evolve Frames.
From S2P Require Import System.
From stdpp Require Import options.
Local Open Scope Z_scope.

Create HintDb keeps.

(** As [frames], for [keeps]. *)
Ltac keeping_call :=
  first [solve [apply preserves_frame_keeps; frame_call] | solve [eauto 2 with keeps]].
Ltac keeping := cbv zeta; repeat first [keeping_call | preserve_step; cbv zeta].

(** Only memory that belongs to code outside the library differs. *)
Definition memory_only {Q : QMapOps} (s s' : state) : Prop := s' = set_st_mem (st_mem s') s.

(** What a run of the library asks of code outside it: it keeps what the library
    keeps (a program that calls the library and uses memory does), and its
    clean-up functions use memory only and do not call the library. *)
Record well_behaved {Q : QMapOps} (exec : executor) : Prop := {
  wb_keeps : forall cb, preserves keeps (exec cb);
  wb_quiet : forall fn st s out s', exec (CbCleanup fn st) s = Ok (out, s') -> memory_only s s'
}.

(** ** Starting *)

Section Starting.
Context {Q : QMapOps} {QL : QMapLaws Q}.
Implicit Types (s : state).

Lemma open_once_get {K V} `{Countable K} (hd : option (qmap K V)) m k v :
  open_once qopen hd = Some m -> qget m k = Some v -> hd = Some m.
Proof using QL.
  destruct hd as [hd|]; cbn; [done|]. intros [= <-]. by rewrite qget_open.
Qed.

Lemma started_sound s : sound s -> rt_inited (st_rt s) = false -> sound (started s).
Proof using QL.
  intros Hs Hi. pose proof (so_cold _ Hs Hi) as Hreg.
  assert (st_mod (started s) = st_mod s) as Em by done.
  assert (st_next (started s) = Pos.succ (st_next s)) as En by done. split.
  - intros _. split; [done|by apply started_tree|by apply started_mods].
  - done.
  - intros x Hx%(so_fresh _ Hs). rewrite En. lia.
  - intros x l Ho%(so_owner _ Hs). rewrite En. lia.
  - intros k x (hd & [= <-] & Hg). by rewrite qget_open in Hg.
  - destruct (so_hooks _ Hs) as [Hc Hids]. split; [done|]. intros ids Ho.
    change (open_once qopen (rt_hook_id_hd (st_rt s)) = Some ids) in Ho.
    change (rt_hook_id_counter (st_rt (started s))) with (rt_hook_id_counter (st_rt s)). split.
    + intros n h Hg. by apply (proj1 (Hids ids (open_once_get _ _ _ _ Ho Hg)) n).
    + intros n n' h Hg. by apply (proj2 (Hids ids (open_once_get _ _ _ _ Ho Hg)) n n').
  - destruct (so_intern _ Hs) as [H1 H2]. split.
    + intros hd p l Ho Hg. apply (H1 hd); [|done]. by apply (open_once_get _ _ _ _ Ho Hg).
    + intros l Hl%H2. rewrite En. lia.
  - intros l r h ms. rewrite started_reg, lookup_singleton_Some by done. intros [<- <-] Hpre _.
    inversion Hpre as [? ? r ms1 ks ms2 Hr Hms Hks Hmss]; subst.
    rewrite lookup_singleton_eq in Hr. injection Hr as <-.
    inversion Hms; subst. inversion Hks; subst. by inversion Hmss.
Qed.

Lemma started_keeps s : rt_inited (st_rt s) = false -> keeps s (started s).
Proof using QL.
  intros Hi Hn Hs. pose proof (so_cold _ Hs Hi) as Hreg. split; [by apply started_sound|]. split.
  - change (st_next (started s)) with (Pos.succ (st_next s)). lia.
  - done.
  - intros l Hl. rewrite (started_reg _ Hreg), lookup_singleton_ne by lia. by intros [].
  - done.
  - intros l x _ _ Hl. destruct (listed_live _ _ _ Hl) as [[r Hr] _]. by rewrite Hreg in Hr.
  - intros k x _ (hd & [= <-] & Hg). by rewrite qget_open in Hg.
  - done.
Qed.

Lemma xy_runtime_ensure_keeps : preserves keeps xy_runtime_ensure.
Proof using QL.
  intros s a s' H. unfold xy_runtime_ensure in H. apply bind_inv in H as (b & s1 & [= <- <-] & H).
  destruct (rt_inited (st_rt s)) eqn:Hi; [injection H as _ <-; reflexivity|].
  rewrite xy_runtime_bootstrap_eq in H. injection H as _ <-. by apply started_keeps.
Qed.
#[local] Hint Resolve xy_runtime_ensure_keeps : keeps.

Lemma with_runtime_keeps body : preserves keeps body -> preserves keeps (with_runtime body).
Proof using QL. intros Hb. unfold with_runtime. keeping. Qed.

End Starting.

#[export] Hint Resolve xy_runtime_ensure_keeps with_runtime_keeps : keeps.

(** ** Regions and denials *)

Section Regions.
Context {Q : QMapOps} {QL : QMapLaws Q} {P : Platform}.
Implicit Types (s : state).

Lemma xy_deny_keeps what type : preserves keeps (xy_deny what type).
Proof using QL.
  unfold xy_deny. apply with_runtime_keeps, preserves_frame_keeps. frames.
Qed.

Lemma set_claim_handler_frame l fn ud : preserves frame (upd_region l (set_claim_handler fn ud)).
Proof. apply upd_region_frame; by destruct fn. Qed.

Lemma xy_require_claim_keeps fn ud : preserves keeps (xy_require_claim fn ud).
Proof using QL.
  unfold xy_require_claim. apply with_runtime_keeps, preserves_frame_keeps.
  pose proof set_claim_handler_frame. frames.
Qed.

Lemma xy_current_region_keeps : preserves keeps xy_current_region.
Proof using QL. unfold xy_current_region. keeping. Qed.

Section Callbacks.
Context (exec : executor) (Hexec : forall cb, preserves keeps (exec cb)).

Lemma each_loop_keeps fuel fn ud e ret : preserves keeps (each_loop exec fuel fn ud e ret).
Proof using Hexec.
  revert e ret. induction fuel as [|fuel IH]; intros [l|] ret; cbn; keeping.
Qed.

Lemma xy_region_each_keeps fn ud : preserves keeps (xy_region_each exec fn ud).
Proof using QL Hexec.
  unfold xy_region_each. apply with_runtime_keeps. pose proof each_loop_keeps. keeping.
Qed.

Lemma xy_with_region_keeps id fn ud : preserves keeps (xy_with_region exec id fn ud).
Proof using QL Hexec. unfold xy_with_region. apply with_runtime_keeps. keeping. Qed.

End Callbacks.
End Regions.

(** ** Dispatch *)

Section Dispatch.
Context {Q : QMapOps} {QL : QMapLaws Q} {P : Platform}.
Implicit Types (s : state).

Lemma module_is_denied_frame re path : preserves frame (module_is_denied re path).
Proof. unfold module_is_denied. frames. Qed.
#[local] Hint Resolve module_is_denied_frame : frames.

Lemma denied_by_chain_frame chain path : preserves frame (denied_by_chain chain path).
Proof. induction chain as [|a chain IH]; cbn; frames. Qed.

Lemma cache_at_frame re h : preserves frame (cache_at re h).
Proof. unfold cache_at. frames. Qed.

Lemma upd_cache_frame re h f : preserves frame (upd_cache re h f).
Proof. unfold upd_cache, cache_at. frames. Qed.

Lemma slots_at_frame l : preserves frame (slots_at l).
Proof. unfold slots_at. frames. Qed.
#[local] Hint Resolve denied_by_chain_frame cache_at_frame upd_cache_frame slots_at_frame : frames.

Lemma slots_push_frame re h sl : preserves frame (slots_push re h sl).
Proof. unfold slots_push, slots_grow, slot_write. frames. Qed.
#[local] Hint Resolve slots_push_frame : frames.

Lemma rebuild_turn_frame re h name chain me : preserves frame (rebuild_turn re h name chain me).
Proof. unfold rebuild_turn. frames. Qed.
#[local] Hint Resolve rebuild_turn_frame : frames.

Lemma rebuild_loop_frame re h name chain ms : preserves frame (rebuild_loop re h name chain ms).
Proof. induction ms as [|me ms IH]; cbn; frames. Qed.

Lemma ensure_hook_dispatch_cap_frame re h : preserves frame (region_ensure_hook_dispatch_cap re h).
Proof. unfold region_ensure_hook_dispatch_cap. frames. Qed.
#[local] Hint Resolve rebuild_loop_frame ensure_hook_dispatch_cap_frame : frames.

Lemma call_prepare_frame h name chain e : preserves frame (call_prepare h name chain e).
Proof. unfold call_prepare, region_rebuild_hook_dispatch. frames. Qed.

Lemma xy_set_last_ret_frame retp size : preserves frame (xy_set_last_ret retp size).
Proof. unfold xy_set_last_ret. frames. Qed.

Lemma xy_zero_ret_frame retp reg : preserves frame (xy_zero_ret retp reg).
Proof. unfold xy_zero_ret. frames. Qed.
#[local] Hint Resolve call_prepare_frame xy_set_last_ret_frame xy_zero_ret_frame : frames.

Lemma call_fail_frame retp reg code : preserves frame (call_fail retp reg code).
Proof. unfold call_fail. frames. Qed.

Lemma call_finish_frame retp reg ran : preserves frame (call_finish retp reg ran).
Proof. unfold call_finish. frames. Qed.

Lemma canonical_adapter_frame h : preserves frame (canonical_adapter h).
Proof. unfold canonical_adapter. frames. Qed.
#[local] Hint Resolve call_fail_frame call_finish_frame canonical_adapter_frame : frames.

Lemma call_resolve_frame reg : preserves frame (call_resolve reg).
Proof. unfold call_resolve. frames. Qed.

Lemma call_trampoline_frame h tr : preserves frame (call_trampoline h tr).
Proof. unfold call_trampoline. frames. Qed.

Lemma call_chain_frame e : preserves frame (call_chain e).
Proof. unfold call_chain. frames. Qed.

Lemma hook_denied_by_chain_frame chain name : preserves frame (hook_denied_by_chain chain name).
Proof. induction chain as [|l chain IH]; cbn; frames. Qed.
#[local] Hint Resolve hook_denied_by_chain_frame : frames.

Lemma call_denied_frame e chain name : preserves frame (call_denied e chain name).
Proof. unfold call_denied. frames. Qed.
#[local] Hint Resolve call_resolve_frame call_trampoline_frame call_chain_frame call_denied_frame : frames.

Lemma xy_last_keeps ret : preserves keeps (xy_last ret).
Proof using QL. unfold xy_last. apply with_runtime_keeps, preserves_frame_keeps. frames. Qed.

Section Calls.
Context (exec : executor) (Hexec : forall cb, preserves keeps (exec cb)).

Lemma adapter_call_keeps tr res fn arg : preserves keeps (adapter_call exec tr res fn arg).
Proof using Hexec. unfold adapter_call. keeping. Qed.
#[local] Hint Resolve adapter_call_keeps : keeps.

Lemma dispatch_slot_call_keeps retp reg tr arg id sl :
  preserves keeps (dispatch_slot_call exec retp reg tr arg id sl).
Proof using Hexec. unfold dispatch_slot_call. keeping. Qed.
#[local] Hint Resolve dispatch_slot_call_keeps : keeps.

Lemma run_slot_keeps retp reg tr arg id slots i :
  preserves keeps (run_slot exec retp reg tr arg id slots i).
Proof using Hexec. unfold run_slot. keeping. Qed.
#[local] Hint Resolve run_slot_keeps : keeps.

Lemma run_slots_keeps retp reg tr arg id slots turns mi ran :
  preserves keeps (run_slots exec retp reg tr arg id slots turns mi ran).
Proof using Hexec. revert mi ran. induction turns as [|turns IH]; intros mi ran; cbn; keeping. Qed.
#[local] Hint Resolve run_slots_keeps : keeps.

Lemma call_entry_keeps retp reg tr arg id h name chain e :
  preserves keeps (call_entry exec retp reg tr arg id h name chain e).
Proof using QL Hexec. unfold call_entry, call_slots. keeping. Qed.
#[local] Hint Resolve call_entry_keeps : keeps.

Lemma xy_call_keeps retp reg arg : preserves keeps (xy_call exec retp reg arg).
Proof using QL Hexec. unfold xy_call, call_hook. keeping. Qed.

End Calls.

(** ** Registration *)

Lemma prewarm_all_frame ms : preserves frame (prewarm_all ms).
Proof using QL. induction ms as [|[k m] ms IH]; cbn; frames. Qed.

(** The name gets the next id. *)
Lemma enter_hook_frame {A} name (k : Z -> XM A) :
  (forall h, preserves frame (k h)) ->
  preserves frame
    (hook_id ← gets (fun s => rt_hook_id_counter (st_rt s));
     upd_rt (set_rt_hook_id_counter (hook_id + 1));;
     ids ← handle rt_hook_id_hd;
     upd_rt (set_rt_hook_id_hd (Some (qput ids name hook_id)));;
     k hook_id).
Proof using QL.
  intros Hk s a s' H. apply bind_inv in H as (h & s1 & [= <- <-] & H). set (h := rt_hook_id_counter _) in *.
  apply bind_inv in H as ([] & s1 & [= <-] & H). apply bind_inv in H as (ids & s2 & H1 & H).
  unfold handle in H1. apply bind_inv in H1 as (o & s3 & [= <- <-] & H1). cbn in H1.
  destruct (rt_hook_id_hd (st_rt s)) as [ids0|] eqn:Hids; [|done]. injection H1 as <- <-.
  apply bind_inv in H as ([] & s3 & [= <-] & H). etransitivity; [|by eapply Hk].
  split; try done. intros [Hc Hok]. destruct (Hok ids0 Hids) as [Hr Hi]. fold h in Hc, Hr.
  split; [cbn; lia|]. intros ids' [= <-]. cbn. fold h. split.
  - intros n h'. rewrite qget_put. case_decide; [intros [= <-]; lia|]. intros Hg%Hr. lia.
  - intros n n' h'. rewrite !qget_put. case_decide; case_decide; try congruence.
    + intros [= <-] Hg%Hr. lia.
    + intros Hg%Hr [= <-]. lia.
    + apply Hi.
Qed.

Lemma areg_publish_frame h adapter : preserves frame (areg_publish h adapter).
Proof using QL. unfold areg_publish. pose proof prewarm_all_frame. frames. Qed.

Lemma xy_areg_keeps name adapter : preserves keeps (xy_areg name adapter).
Proof using QL.
  unfold xy_areg. pose proof areg_publish_frame as Hpub.
  apply preserves_bind; [apply _|apply xy_runtime_ensure_keeps|]. intros rc.
  apply preserves_frame_keeps.
  assert (forall h, preserves frame (upd_adapter adapter (set_a_hook_id h);;
    cap ← gets (fun s => Z.of_nat (length (rt_adapter_by_id (st_rt s))));
    if cap <=? h then
      ok ← try_alloc;
      if ok : bool then
        upd_rt (fun rt => set_rt_adapter_by_id (grow_adapters h (rt_adapter_by_id rt)) rt);;
        areg_publish h adapter
      else XY_SET_ERR XY_ERR_INVALID;; mret (XY_ERR_INVALID mod two32)
    else areg_publish h adapter)) as Hk by (intros; frames).
  pose proof (enter_hook_frame name _ Hk) as Henter. frames.
Qed.

End Dispatch.
