(* ===== verification/FreeSound.v ===== *)
(** * Soundness of taking a module away

    Detaching a module from its list, freeing it, and undoing a load keep the
    invariant [sound] and the promises of [evo]. *)

From S2P Require Import Prelude QMap Status State Machine ModKey Linked Region RegionTree ModList.
From S2P Require Import RegionSlots Runtime Vectors Paths Identity FnCache RegionApi Deny Claim Dispatch.
From S2P Require Import CopyFile Load LoadSpec LoadFresh Unload UnloadSpec AbortSpec Lifecycle Evolve.
From S2P Require Import Frames System ApiSound.
From stdpp Require Import options.
Local Open Scope Z_scope.

(** ** List operations *)

Section Lists.
Context {Q : QMapOps}.
Implicit Types (s : state) (l x : loc).

(** What the list operations do not touch: which objects are live, and the
    owners of all modules but [e]. *)
Record owners (e : loc) s s' : Prop := {
  ow_reg : forall l, is_Some (st_reg s' !! l) <-> is_Some (st_reg s !! l);
  ow_owner : forall x, x <> e -> owner_of s' x = owner_of s x;
  ow_registry : forall k x, in_registry s' k x -> in_registry s k x
}.

#[export] Instance owners_refl e : Reflexive (owners e).
Proof. intros s. by split. Qed.
#[export] Instance owners_trans e : Transitive (owners e).
Proof.
  intros s1 s2 s3 [A1 A2 A3] [B1 B2 B3].
  split.
  - intros l. by rewrite B1.
  - intros x Hx. by rewrite B2, A2.
  - auto.
Qed.

Lemma upd_region_owners e l f : preserves (owners e) (upd_region l f).
Proof.
  intros s a s' (r & Hr & ->)%upd_region_inv. split; [|done..]. intros k. cbn.
  rewrite lookup_insert. case_decide; [|done]. subst. rewrite Hr. split; by eexists.
Qed.

Lemma upd_module_owners e l f :
  l = e \/ (forall m, m_region_entry (f m) = m_region_entry m) -> preserves (owners e) (upd_module l f).
Proof.
  intros Hf s a s' (m & Hm & ->)%upd_module_inv. split; [done| |done]. intros x Hx. unfold owner_of. cbn.
  rewrite lookup_insert. case_decide as E; [|done]. subst. destruct Hf as [->|Hf]; [done|].
  rewrite Hm. cbn. by rewrite Hf.
Qed.

Lemma frame_owners e s s' : frame s s' -> owners e s s'.
Proof.
  intros Hfr. split; [intros l; by apply frame_region|intros x _; by apply frame_owner|].
  intros k x (hd & Hhd & Hg). exists hd. by rewrite <- (fr_mod_hd _ _ Hfr).
Qed.

Lemma ancestor_loop_owners e fuel f o : preserves (owners e) (ancestor_loop fuel f o).
Proof.
  revert o. induction fuel as [|fuel IH]; intros [l|]; cbn; preserve ltac:(first
    [done|apply upd_region_owners|apply IH|eapply preserves_mono; [apply frame_owners|frame_call]]).
Qed.

Lemma mark_subtree_dirty_owners e o : preserves (owners e) (region_mark_subtree_dirty o).
Proof.
  unfold region_mark_subtree_dirty, region_dispatch_gen_bump, for_ancestors.
  preserve ltac:(apply ancestor_loop_owners).
Qed.

Lemma set_next_or_head_owners e l p v : preserves (owners e) (set_next_or_head l p v).
Proof.
  unfold set_next_or_head. preserve ltac:(first [apply upd_region_owners|apply upd_module_owners; by right]).
Qed.

Lemma set_prev_or_tail_owners e l p v : preserves (owners e) (set_prev_or_tail l p v).
Proof.
  unfold set_prev_or_tail. preserve ltac:(first [apply upd_region_owners|apply upd_module_owners; by right]).
Qed.

Ltac owners_call := first
  [apply set_next_or_head_owners | apply set_prev_or_tail_owners | apply mark_subtree_dirty_owners
  |apply upd_region_owners | apply upd_module_owners; by left | apply upd_module_owners; by right
  |eapply preserves_mono; [apply frame_owners|frame_call]].

Lemma detach_owners e : preserves (owners e) (module_region_detach e).
Proof. unfold module_region_detach. preserve owners_call. Qed.

Lemma abort_detach_owners e : preserves (owners e) (abort_detach e).
Proof. unfold abort_detach. preserve owners_call. Qed.

Lemma insert_after_owners e re after : preserves (owners e) (module_region_insert_after re e after).
Proof. unfold module_region_insert_after. cbv zeta. preserve owners_call. Qed.

Lemma append_owners e re : preserves (owners e) (module_region_append re e).
Proof. unfold module_region_append. preserve ltac:(first [apply insert_after_owners|owners_call]). Qed.

(** Marking a region dirty needs a live region. *)
Lemma mark_subtree_dirty_live l s a s' :
  region_mark_subtree_dirty (Some l) s = Ok (a, s') -> is_Some (st_reg s !! l).
Proof.
  unfold region_mark_subtree_dirty, region_dispatch_gen_bump, for_ancestors. intros H.
  binv H u s1 E. binv E n s2 En. injection En as <- <-.
  destruct (size (st_reg s)); [done|]. cbn in E. binv E v s2 Eu.
  apply upd_region_inv in Eu as (r & Hr & _). by eexists.
Qed.

(** Inserting needs a live region, a live module and a live predecessor. *)
Lemma insert_after_live l e after s a s' :
  module_region_insert_after (Some l) e after s = Ok (a, s') ->
  is_Some (st_reg s !! l) /\ is_Some (st_mod s !! e) /\
  forall x, after = Some x -> is_Some (st_mod s !! x).
Proof.
  unfold module_region_insert_after. intros H. binv H u s1 E1. binv H u2 s2 E2.
  apply mark_subtree_dirty_live in H. pose proof (upd_module_owners e e _ (or_introl eq_refl) s _ _ E1) as O1.
  apply upd_module_inv in E1 as (m & Hm & ->). split_and!.
  - apply (ow_reg _ _ _ O1). revert E2. match goal with |- ?p _ = _ -> _ =>
      assert (preserves (owners e) p) as Hp by preserve owners_call end.
    intros E2. by apply (ow_reg _ _ _ (Hp _ _ _ E2)).
  - by exists m.
  - intros x ->. binv E2 r s3 E3. apply module_at_inv in E3 as [Hx _]. cbn in Hx.
    rewrite lookup_insert in Hx. case_decide; [subst; by exists m|by exists r].
Qed.

End Lists.

(** ** Taking a module off its list *)

Section Cutting.
Context {Q : QMapOps} {QL : QMapLaws Q} {P : Platform}.
Implicit Types (s : state) (l x e : loc).

Lemma shifts_refl d s : sound s -> shifts d s s.
Proof. intros Hs. split; try done; apply Hs. Qed.

Lemma placed_split s e l :
  placed s e -> owner_of s e = Some (Some l) -> is_Some (st_reg s !! l) ->
  exists ms1 ms2, mod_list s l (ms1 ++ e :: ms2).
Proof.
  intros Hp Ho Hl. destruct (Hp l Ho Hl) as (ms & Hms & Hin).
  apply list_elem_of_split in Hin as (ms1 & ms2 & ->). eauto.
Qed.

Lemma owner_of_eq s e m : st_mod s !! e = Some m -> owner_of s e = Some (m_region_entry m).
Proof. intros Hm. unfold owner_of. by rewrite Hm. Qed.

(** A module with an owner can only be detached from a live region. *)
Lemma detach_live e m l s a s' :
  module_region_detach e s = Ok (a, s') -> st_mod s !! e = Some m -> m_region_entry m = Some l ->
  is_Some (st_reg s !! l).
Proof.
  unfold module_region_detach. intros H Hm Ho. binv H m0 s1 E. apply module_at_inv in E as [Hm0 ->].
  rewrite Hm in Hm0. injection Hm0 as <-. rewrite Ho in H.
  binv H u s2 E1. binv H m2 s3 E2. apply module_at_inv in E2 as [_ ->]. binv H u2 s3 E3.
  binv H u3 s4 E4. binv H u4 s5 E5. apply mark_subtree_dirty_live in H.
  apply (set_next_or_head_owners e) in E1. apply (set_prev_or_tail_owners e) in E3.
  apply (upd_module_owners e) in E4, E5; [|by left..].
  by apply (ow_reg _ _ _ E1), (ow_reg _ _ _ E3), (ow_reg _ _ _ E4), (ow_reg _ _ _ E5).
Qed.

Lemma abort_detach_live e m l s a s' :
  abort_detach e s = Ok (a, s') -> st_mod s !! e = Some m -> m_region_entry m = Some l ->
  is_Some (st_reg s !! l).
Proof.
  unfold abort_detach. intros H Hm Ho. binv H m0 s1 E. apply module_at_inv in E as [Hm0 ->].
  rewrite Hm in Hm0. injection Hm0 as <-. rewrite Ho in H.
  binv H u s2 E1. binv H m2 s3 E2. apply module_at_inv in E2 as [_ ->]. binv H u2 s3 E3.
  binv H u3 s4 E4. apply mark_subtree_dirty_live in E4.
  apply (set_next_or_head_owners e) in E1. apply (set_prev_or_tail_owners e) in E3.
  by apply (ow_reg _ _ _ E1), (ow_reg _ _ _ E3).
Qed.

Lemma detach_shifts e s a s' :
  sound s -> placed s e -> module_region_detach e s = Ok (a, s') ->
  shifts (Some e) s s' /\ on_no_list s' e.
Proof.
  intros Hs Hp H. assert (exists m, st_mod s !! e = Some m) as [m Hm].
  { unfold module_region_detach in H. binv H m s1 E. apply module_at_inv in E as [Hm _]. by exists m. }
  pose proof (owner_of_eq _ _ _ Hm) as Ho. destruct (m_region_entry m) as [l|] eqn:Hl.
  - pose proof (detach_live _ _ _ _ _ _ H Hm Hl) as Hr.
    pose proof (sound_running _ _ Hs Hr) as Hrun.
    destruct (placed_split _ _ _ Hp Ho Hr) as (ms1 & ms2 & Hms).
    destruct (detach_spec s l e ms1 ms2 Hrun Hms) as (ls & s1 & Hch & E & Hrun1 & Hls & Hms1 & Hoth).
    pose proof (detach_owners e s a s' H) as Hown. rewrite E in H. injection H as _ <-. split.
    + eapply (list_shifts ls s s1 l e _ _ Hrun Hrun1 Hch Hls Hms Hms1 Hoth); [|apply Hown].
      intros y Hy. rewrite !elem_of_app, elem_of_cons. tauto.
    + eapply detached_off; [exact Hrun|exact Hms|exact Hls|exact Hms1|exact Hoth|by left].
  - unfold module_region_detach in H. binv H m0 s1 E. apply module_at_inv in E as [Hm0 ->].
    rewrite Hm in Hm0. injection Hm0 as <-. rewrite Hl in H. injection H as _ <-.
    split; [by apply shifts_refl|by apply unowned_off].
Qed.

Lemma on_no_list_insert s e m m' :
  st_mod s !! e = Some m -> on_no_list s e -> running s ->
  near (Some e) None s (set_st_mod (<[e := m']> (st_mod s)) s) /\
  on_no_list (set_st_mod (<[e := m']> (st_mod s)) s) e.
Proof.
  intros Hm Hoff Hrun. set (s' := set_st_mod _ s).
  assert (near (Some e) None s s') as Hn.
  { assert (forall x, Some e <> Some x -> mod_links <$> st_mod s' !! x = mod_links <$> st_mod s !! x) as Hl.
    { intros x Hx. cbn. rewrite lookup_insert_ne; [done|]. congruence. }
    split; try done. by apply unlisted_vectors. }
  split; [done|]. apply (near_off (Some e) None s); [done|done|by intros x [= <-]|done].
Qed.

Lemma abort_detach_shifts e s a s' :
  sound s -> placed s e -> abort_detach e s = Ok (a, s') ->
  shifts (Some e) s s' /\ on_no_list s' e.
Proof.
  intros Hs Hp H. assert (exists m, st_mod s !! e = Some m) as [m Hm].
  { unfold abort_detach in H. binv H m s1 E. apply module_at_inv in E as [Hm _]. by exists m. }
  pose proof (owner_of_eq _ _ _ Hm) as Ho. destruct (m_region_entry m) as [l|] eqn:Hl.
  - pose proof (abort_detach_live _ _ _ _ _ _ H Hm Hl) as Hr.
    pose proof (sound_running _ _ Hs Hr) as Hrun.
    destruct (placed_split _ _ _ Hp Ho Hr) as (ms1 & ms2 & Hms).
    destruct (abort_detach_spec s l e ms1 ms2 Hrun Hms)
      as (ls & s1 & m1 & Hch & Hls & Hrun1 & Hms1 & Hoth & Hoff & E & Hcore).
    pose proof (abort_detach_owners e s a s' H) as Hown. rewrite E in H. injection H as _ <-.
    assert (is_Some (st_mod s1 !! e)) as [m1' Hm1] by (apply (list_step_live _ _ _ _ Hls); by eexists).
    destruct (on_no_list_insert s1 e m1' m1 Hm1 Hoff Hrun1) as [Hn Hoff2]. split; [|done].
    apply (shifts_trans _ s s1); [intros a'; by apply sound_region| |].
    + eapply (list_shifts ls s s1 l e _ _ Hrun Hrun1 Hch Hls Hms Hms1 Hoth).
      * intros y Hy. rewrite !elem_of_app, elem_of_cons. tauto.
      * intros y Hy. rewrite <- (ow_owner _ _ _ Hown y Hy). unfold owner_of. cbn.
        by rewrite lookup_insert_ne.
    + eapply (near_shifts (Some e) None); [by intros| |exact Hn|by intros x [= <-]|done].
      intros Hi. by rewrite (run_inited _ Hrun1) in Hi.
  - unfold abort_detach in H. binv H m0 s1 E. apply module_at_inv in E as [Hm0 ->].
    rewrite Hm in Hm0. injection Hm0 as <-. rewrite Hl in H. injection H as _ <-.
    split; [by apply shifts_refl|by apply unowned_off].
Qed.

(** ** Freeing a module *)

Lemma unregister_near d e : preserves (near d None) (unregister e).
Proof using QL.
  intros s a s' H. unfold unregister in H. binv H m s1 E. apply module_at_inv in E as [_ ->].
  binv H ix s1 E. apply handle_inv in E as [_ ->]. binv H u s1 E. injection E as _ <-.
  binv H hd s2 E. apply handle_inv in E as [Hhd ->]. injection H as _ <-. split; try done.
  intros k x _ (hd' & [= <-] & Hg). rewrite qget_del in Hg. case_decide; [done|]. by exists hd.
Qed.

Lemma free_module_near e : preserves (near (Some e) None) (free_module e).
Proof.
  intros s a s' [= _ <-].
  assert (forall x, Some e <> Some x -> mod_links <$> delete e (st_mod s) !! x = mod_links <$> st_mod s !! x) as Hl.
  { intros x Hx. rewrite lookup_delete_ne; [done|]. congruence. }
  split; try done. by apply unlisted_vectors.
Qed.

(** A module that has been taken off its list, and then freed. *)
Lemma gone_sound n e s s1 s2 :
  sound s -> (n <= st_next s)%positive -> shifts (Some e) s s1 -> owners e s s1 -> on_no_list s1 e ->
  near (Some e) None s1 s2 -> st_mod s2 !! e = None -> sound s2 /\ evo n s s2.
Proof.
  intros Hs Hn Hsh Hown Hoff Hne Hgone. assert (shifts (Some e) s s2) as Hsh2.
  { apply (shifts_trans _ s s1); [intros l; by apply sound_region|done|].
    eapply (near_shifts (Some e) None); [apply Hsh|apply Hsh|done|by intros x [= <-]|done]. }
  split.
  - apply (shifts_sound _ _ _ Hs Hsh2). intros x [= <-]. by apply homed_gone.
  - assert (~ is_Some (st_mod s2 !! e)) as Hno by (rewrite Hgone; by intros []).
    apply (shifts_evo n _ _ _ Hn Hsh2). intros x [= <-] _. split; [done|done|done|].
    + intros k Hk. apply Hown. by apply (nr_registry _ _ _ _ Hne).
Qed.

Section Quiet.
Context (exec : executor)
  (Hquiet : forall fn st s out s', exec (CbCleanup fn st) s = Ok (out, s') -> memory_only s s').

Lemma cleanup_frame e : preserves frame (module_cleanup_region_state exec e).
Proof using Hquiet.
  assert (forall fn st, preserves frame (exec (CbCleanup fn st))) as Hq.
  { intros fn st s out s' H%Hquiet. rewrite H. by split. }
  unfold module_cleanup_region_state. frames.
Qed.

Lemma unlink_opt_frame p : preserves frame (unlink_opt p).
Proof. unfold unlink_opt. frames. Qed.

Lemma dlclose_frame h : preserves frame (dlclose h).
Proof. unfold dlclose. frames. Qed.

Lemma free_entry_gone e close s a s' :
  module_free_entry exec e close s = Ok (a, s') ->
  near (Some e) None s s' /\ st_mod s' !! e = None.
Proof using Hquiet.
  unfold module_free_entry. intros H. binv H m s1 E. apply module_at_inv in E as [_ ->].
  cbv zeta in H. binv H u s1 E. apply cleanup_frame in E. binv H u2 s2 E2.
  assert (st_mod s2 !! e = None) as Hgone by (injection E2 as _ <-; apply lookup_delete_eq).
  apply free_module_near in E2.
  assert (frame s2 s') as Hf.
  { binv H u3 s3 E3. transitivity s3; [|by eapply unlink_opt_frame].
    destruct close, (m_handle m); first [by eapply dlclose_frame|injection E3 as _ <-; reflexivity]. }
  split.
  - transitivity s1; [by apply frame_near|]. transitivity s2; [done|by apply frame_near].
  - apply eq_None_not_Some. intros Hx%(frame_mod s2 s'); [|done]. rewrite Hgone in Hx. by destruct Hx.
Qed.

(** ** Undoing a load *)

Lemma restore_context_frame tx : preserves frame (mod_load_restore_context tx).
Proof. unfold mod_load_restore_context. frames. Qed.

Lemma restore_context_entry tx s tx' s' :
  mod_load_restore_context tx s = Ok (tx', s') ->
  tx_mod_entry tx' = tx_mod_entry tx.
Proof.
  unfold mod_load_restore_context. destruct (tx_context_active tx); [|by intros [= <- <-]].
  intros H. binv H u s1 E. by injection H as <- <-.
Qed.

Lemma mod_load_abort_evolves n tx err s a s' :
  mod_load_abort exec tx err s = Ok (a, s') -> sound s -> (n <= st_next s)%positive ->
  (forall me, tx_mod_entry tx = Some me -> placed s me) -> sound s' /\ evo n s s'.
Proof using QL Hquiet.
  intros H Hs Hn Hme. unfold mod_load_abort in H. binv H tx1 s1 E.
  pose proof (restore_context_entry _ _ _ _ E) as Eme. apply restore_context_frame in E.
  binv H u s2 E2. assert (frame s2 s') as Hf.
  { clear E2. revert s2 a s' H. change (preserves frame
      (unlink_opt (tx_tmp_load_path tx1);;
       (match tx_handle tx1 with Some _ => dlclose (tx_handle tx1) | None => mret tt end);; mret err)).
    pose proof unlink_opt_frame. pose proof dlclose_frame. frames. }
  enough (sound s2 /\ evo n s s2) as [Hs2 He2].
  { split; [by eapply frame_sound|]. eapply evo_trans; [done|by apply frame_evo]. }
  destruct (tx_mod_entry tx1) as [me|] eqn:Etx.
  2: { injection E2 as _ <-. split; [by eapply frame_sound|by apply frame_evo]. }
  specialize (Hme me ltac:(congruence)). apply (frame_placed s s1) in Hme; [|done].
  binv E2 u1 s3 E3. apply cleanup_frame in E3. binv E2 u2 s4 E4.
  assert (frame s s3) as Hf3 by by transitivity s1. pose proof (frame_sound _ _ Hf3 Hs) as Hs3.
  destruct (abort_detach_shifts me s3 _ _ Hs3 (frame_placed _ _ _ E3 Hme) E4) as [Hsh Hoff].
  pose proof (abort_detach_owners me _ _ _ E4) as Hown.
  binv E2 u3 s5 E5. assert (near (Some me) None s4 s5) as Hn5.
  { destruct (tx_published_entry tx1); [by eapply unregister_near|]. injection E5 as _ <-. reflexivity. }
  binv E2 m s6 E6. apply module_at_inv in E6 as [_ ->]. binv E2 u4 s6 E6.
  assert (st_mod s6 !! me = None) as Hgone by (injection E6 as _ <-; apply lookup_delete_eq).
  apply free_module_near in E6. apply unlink_opt_frame in E2.
  destruct (gone_sound n me s3 s4 s2 Hs3) as [Hs2 He2].
  - pose proof (fr_next _ _ Hf3). lia.
  - done.
  - done.
  - done.
  - transitivity s5; [done|]. transitivity s6; [done|by apply frame_near].
  - apply eq_None_not_Some. intros Hx%(frame_mod s6 s2); [|done]. rewrite Hgone in Hx. by destruct Hx.
  - split; [done|]. eapply evo_trans; [by apply frame_evo|done].
Qed.

End Quiet.
End Cutting.
