(* ===== verification/LoadSound.v ===== *)
(** * Soundness of loading

    The load transaction keeps the invariant [sound] and the promises of [evo],
    on every way through it: when it fails and is undone, when it claims a
    region, and whatever the module does while it is being loaded. *)

From S2P Require Import Prelude QMap Status State Machine ModKey Linked Region RegionTree ModList.
From S2P Require Import RegionSlots Runtime Vectors Paths Identity FnCache RegionApi Deny Claim Dispatch.
From S2P Require Import CopyFile Load LoadSpec LoadFresh Unload UnloadSpec AbortSpec Lifecycle Evolve.
From S2P Require Import Frames System ApiSound FreeSound.
From stdpp Require Import options.
Local Open Scope Z_scope.

(** ** A module on its way in

    From the allocation of its entry to the end of the load, the module [me] is
    in the hands of the transaction, but callbacks come in between. *)

Section During.
Context {Q : QMapOps}.
Implicit Types (s : state) (n me x l : loc) (I : state -> Prop).

(** Not yet on any region's list. *)
Definition unowned s me : Prop := forall l, owner_of s me <> Some (Some l).

(** Whatever is registered under [K] is no older than the call. *)
Definition recent (n : loc) (K : string) s : Prop := forall y, in_registry s K y -> (n <= y)%positive.

(** A step of the transaction that began at [n]. *)
Definition during I n me s s' : Prop :=
  sound s -> (n <= me < st_next s)%positive -> I s ->
  sound s' /\ (me < st_next s')%positive /\ I s' /\ evo n s s'.

(** Facts about [me] that survive whatever happens outside the transaction. *)
Record stable I me : Prop := {
  sb_frame : forall s s', frame s s' -> I s -> I s';
  sb_evo : forall s s', sound s -> evo (st_next s) s s' -> (me < st_next s)%positive -> I s -> I s'
}.

#[export] Instance during_refl I n me : Reflexive (during I n me).
Proof. intros s Hs [Hn Hme] Hi. split_and!; [done..|]. by split. Qed.

#[export] Instance during_trans I n me : Transitive (during I n me).
Proof.
  intros s1 s2 s3 H12 H23 Hs Hn Hi. destruct (H12 Hs Hn Hi) as (Hs2 & Hme2 & Hi2 & He2).
  destruct (H23 Hs2 ltac:(lia) Hi2) as (Hs3 & Hme3 & Hi3 & He3).
  split_and!; [done..|by apply (evo_trans n s1 s2 s3)].
Qed.

Lemma frame_during I n me s s' : stable I me -> frame s s' -> during I n me s s'.
Proof.
  intros HI Hf Hs Hn Hi. pose proof (fr_next _ _ Hf).
  split_and!; [by eapply frame_sound|lia|by apply (sb_frame I me HI s s')|by apply frame_evo].
Qed.

Lemma keeps_during I n me s s' : stable I me -> keeps s s' -> during I n me s s'.
Proof.
  intros HI Hk Hs Hn Hi. destruct (Hk ltac:(done) Hs) as [Hs' He]. pose proof (ev_next _ _ _ He).
  split_and!; [done|lia|apply (sb_evo I me HI s s'); [done|done|lia|done]|apply (evo_weaken n (st_next s)); [lia|done]].
Qed.

Lemma placed_stable me : stable (fun s => placed s me) me.
Proof.
  split; [intros s s' Hf; by apply frame_placed|intros s s' Hs He Hme; by apply evo_placed].
Qed.

Lemma unowned_evo s s' me :
  sound s -> evo (st_next s) s s' -> (me < st_next s)%positive -> unowned s me -> unowned s' me.
Proof.
  intros Hs He Hme Hu l Ho. pose proof (owner_live _ _ _ Ho) as Hm.
  rewrite (ev_owner _ _ _ He) in Ho by done. by apply (Hu l).
Qed.

Lemma in_registry_frame s s' k x : frame s s' -> in_registry s' k x -> in_registry s k x.
Proof. intros Hf (hd & Hhd & Hg). exists hd. by rewrite <- (fr_mod_hd _ _ Hf). Qed.

(** What holds of the module until it is put on a list. *)
Definition waiting n K me s : Prop := unowned s me /\ recent n K s.

Lemma waiting_stable n K me : (n <= me)%positive -> stable (waiting n K me) me.
Proof.
  intros Hn. split.
  - intros s s' Hf [Hu Hr]. split.
    + intros l. rewrite (frame_owner s s') by done. apply Hu.
    + intros y Hy. by apply Hr, (in_registry_frame s s').
  - intros s s' Hs He Hme [Hu Hr]. split; [by apply (unowned_evo s)|]. intros y Hy.
    destruct (decide (y < st_next s)%positive); [|lia]. by apply Hr, (ev_registry _ _ _ He).
Qed.

Lemma unowned_placed s me : unowned s me -> placed s me.
Proof. intros Hu l Ho. by destruct (Hu l). Qed.

(** *** Registrations *)

Lemma near_owner r s s' x : near None r s s' -> owner_of s' x = owner_of s x.
Proof.
  intros Hne. apply (near_fmap m_region_entry None r s s'); [|done|done]. unfold mod_links. congruence.
Qed.

Lemma near_placed r s s' x : near None r s s' -> placed s x -> placed s' x.
Proof.
  intros Hne Hp l Ho Hl. destruct (Hp l) as (ms & Hms & Hx).
  - by rewrite <- (near_owner r s s').
  - pose proof (nr_skel _ _ _ _ Hne l) as E. apply not_eq_None_Some. intros E'. rewrite E' in E.
    destruct Hl as [rl Hl]. by rewrite Hl in E.
  - exists ms. split; [by eapply near_list|done].
Qed.

(** A module in its place gets a registration. *)
Lemma registered_sound n x s s' :
  sound s -> (n <= st_next s)%positive -> near None (Some x) s s' -> placed s x -> (n <= x)%positive ->
  sound s' /\ evo n s s'.
Proof.
  intros Hs Hn Hne Hp Hx. pose proof (nr_next _ _ _ _ Hne).
  assert (shifts (Some x) s s') as Hsh.
  { eapply (near_shifts None (Some x)); [apply Hs|apply Hs|done|done|by intros]. }
  split.
  - apply (shifts_sound _ _ _ Hs Hsh). intros y [= <-]. split.
    + intros [m' Hm']. pose proof (nr_links _ _ _ _ Hne x ltac:(done)) as E. rewrite Hm' in E.
      destruct (st_mod s !! x) as [m|] eqn:Hm; [|done].
      pose proof (so_fresh _ Hs x ltac:(by exists m)). lia.
    + intros l. rewrite (near_owner (Some x) s s') by done. intros Ho%(so_owner _ Hs). lia.
    + by eapply near_placed.
  - apply (shifts_evo n _ _ _ Hn Hsh). intros y [= <-]. lia.
Qed.

(** A new module that is on no list. *)
Lemma new_module_sound n x s s' :
  sound s -> (n <= st_next s)%positive -> near (Some x) (Some x) s s' ->
  (st_next s <= x < st_next s')%positive -> unowned s' x -> sound s' /\ evo n s s'.
Proof.
  intros Hs Hn Hne Hx Hu. assert (shifts (Some x) s s') as Hsh.
  { eapply (near_shifts (Some x) (Some x)); [apply Hs|apply Hs|done| |done].
    intros y [= <-] a ms Hms Hin. pose proof (mod_list_live _ _ _ _ Hms Hin) as Hl.
    apply (so_fresh _ Hs) in Hl. lia. }
  split.
  - apply (shifts_sound _ _ _ Hs Hsh). intros y [= <-].
    split; [lia|intros l Ho; by destruct (Hu l)|by apply unowned_placed].
  - apply (shifts_evo n _ _ _ Hn Hsh). intros y [= <-]. lia.
Qed.

End During.

(** ** Claiming a region *)

Section Claiming.
Context {Q : QMapOps} {QL : QMapLaws Q} {P : Platform}.
Implicit Types (s : state) (n me x l : loc).

Lemma try_alloc_same s b s' : try_alloc s = Ok (b, s') -> frame s s'.
Proof. apply try_alloc_frame. Qed.

(** What a lookup answers. *)
Lemma module_lookup_inv fname id s lk s' :
  module_lookup_from_fname fname id s = Ok (lk, s') -> frame s s' /\
  ((lk_err lk <> XY_OK /\ lk_entry lk = None /\ lk_key lk = None /\ lk_load_path lk = None) \/
   (lk_key lk = Some (registry_key (resolved fname) id) /\ lk_load_path lk = Some (resolved fname) /\
    lk_err lk = XY_OK /\
    forall e, lk_entry lk = Some e -> in_registry s' (registry_key (resolved fname) id) e)).
Proof using QL.
  intros H. split; [by eapply module_lookup_frame|]. unfold module_lookup_from_fname, module_load_path in H.
  binv H path s1 E. binv E b s2 E1. destruct b; [|injection E as <- <-; injection H as <- <-; by left].
  injection E as <- <-. binv H b s3 E2. destruct b; [|injection H as <- <-; by left].
  binv H tbl s4 E3. apply handle_inv in E3 as [Hhd ->]. injection H as <- <-. right.
  split_and!; [done..|]. cbn. intros e He. by exists tbl.
Qed.

(** *** Re-keying *)

(** A change of the registry, and the rest of the program. *)
Lemma set_mod_hd_near {A} x (f : qmap string loc -> qmap string loc) (k : XM A) :
  (forall hd key y, y <> x -> qget (f hd) key = Some y -> qget hd key = Some y) ->
  preserves frame k ->
  preserves (near None (Some x)) (hd ← handle rt_mod_hd; upd_rt (set_rt_mod_hd (Some (f hd)));; k).
Proof.
  intros Hget Hk s a s' H. binv H tbl s1 E. apply handle_inv in E as [Hhd ->]. binv H u s1 E.
  injection E as _ <-. etransitivity; [|by eapply frame_near, Hk]. split; try done.
  intros key y Hy (hd' & [= <-] & Hg). exists tbl. split; [done|]. apply Hget; [congruence|done].
Qed.

Lemma rekey_near x old path parent_id child_id :
  preserves (near None (Some x)) (module_rekey_loaded_entry x old path parent_id child_id).
Proof using QL.
  assert (forall A (m : XM A), preserves frame m -> preserves (near None (Some x)) m) as Hfr.
  { intros A m. apply preserves_mono. intros s s'. apply frame_near. }
  unfold module_rekey_loaded_entry, module_rekey_region_index.
  apply preserves_bind; [apply _|apply Hfr; frames|]. intros [|]; [|apply Hfr; frames].
  apply preserves_bind; [apply _|apply Hfr; frames|]. intros _. apply set_mod_hd_near; [|frames].
  intros hd key y Hy. rewrite qget_del. case_decide; [done|]. rewrite qget_put.
  case_decide; [congruence|done].
Qed.

Lemma module_rekey_during n me caller parent_id child_id :
  let K := registry_key (resolved caller) parent_id in
  preserves (during (waiting n K me) n me) (module_rekey_for_claim caller parent_id child_id).
Proof using QL.
  intros K s a s' H Hs Hn Hw. unfold module_rekey_for_claim in H. binv H lk s1 E.
  apply module_lookup_inv in E as [Hf Hlk].
  assert (stable (waiting n K me) me) as Hst by (apply waiting_stable; lia).
  destruct (frame_during _ n me s s1 Hst Hf Hs Hn Hw) as (Hs1 & Hme1 & [Hu1 Hr1] & He1).
  assert (s' = s1 \/ exists y, in_registry s1 K y /\ near None (Some y) s1 s') as [->|(y & Hy & Hne)].
  { destruct Hlk as [(_ & _ & _ & E)|(E1 & E2 & _ & E3)]; rewrite ?E, ?E1, ?E2 in H.
    - injection H as _ <-. by left.
    - destruct (lk_entry lk) as [y|]; [|injection H as _ <-; by left].
      right. exists y. split; [by apply E3|by eapply rekey_near]. }
  { done. }
  pose proof (nr_next _ _ _ _ Hne).
  destruct (registered_sound n y s1 s' Hs1) as [Hs' He]; [lia|done|by apply (so_placed _ Hs1 K)|by apply Hr1|].
  split_and!; [done|lia| |by apply (evo_trans n s s1 s')]. split.
  - intros l. rewrite (near_owner (Some y) s1 s') by done. apply Hu1.
  - intros z Hz. destruct (decide (z = y)) as [->|Hzy]; [by apply Hr1|].
    apply Hr1, (nr_registry _ _ _ _ Hne); [congruence|done].
Qed.

(** *** The new region *)

Lemma region_alloc_slot_live l granted s a s' :
  region_alloc_slot l granted s = Ok (a, s') -> exists p, st_reg s !! l = Some p.
Proof.
  unfold region_alloc_slot. intros H. binv H p s1 E. apply region_at_inv in E as [Hp _]. by exists p.
Qed.

Lemma claim_state_vectors s l p id granted caller ls :
  running s -> running (claim_state s l p id granted caller ls) -> st_reg s !! l = Some p ->
  linked (parent_of (st_reg s)) (Some l) ls -> vectors s -> vectors (claim_state s l p id granted caller ls).
Proof.
  intros Hrun Hrun' Hl Hls. set (s' := claim_state _ _ _ _ _ _ _) in *. set (c := st_next s).
  pose proof (next_unused _ (run_tree _ Hrun)) as Hc. assert (c <> l) as Hcl by (unfold c; congruence).
  assert (l ∈ ls) as Hin by (inversion Hls; subst; left).
  assert (c ∉ ls) as Hcls.
  { intros Hx. destruct (linked_live _ _ _ _ Hls Hx) as [o Ho]. unfold parent_of, c in Ho. by rewrite Hc in Ho. }
  set (e := first_child p l id granted caller).
  assert (st_reg s' = dirtied ls (with_child c l e (st_reg s))) as Er by done.
  assert (forall a, a ∉ ls -> st_reg s' !! a = with_child c l e (st_reg s) !! a) as Hclean.
  { intros a Ha. rewrite Er. unfold dirtied. rewrite !lookup_apply_on.
    destruct (with_child c l e (st_reg s) !! a); [|done]. cbn. by rewrite !decide_False. }
  apply (vectors_moved s s' (c :: ls)); [done|apply Hrun'|..].
  - intros k a [->|Hk]%elem_of_cons Hp.
    + unfold parent_of in Hp. rewrite Hclean, with_child_lookup, decide_True in Hp by done.
      injection Hp as <-. by right.
    + right. eapply linked_closed; [exact Hls|done|]. rewrite <- Hp, Er. unfold parent_of.
      rewrite <- (agree_dirtied r_parent ls _ (fun _ => eq_refl) (fun _ => eq_refl) k).
      symmetry. apply with_child_fmap; [done|by intros ->|done].
  - intros a r' [Hac Ha]%not_elem_of_cons Hr'. rewrite Hclean, with_child_lookup in Hr' by done.
    rewrite decide_False, decide_False in Hr' by (congruence || intros ->; done). by exists r'.
  - intros a ms _. by apply claim_state_list.
  - intros a r' h ms [->|Ha]%elem_of_cons Hr' Hpre Hd.
    + pose proof Hr' as Hr1. rewrite Hclean, with_child_lookup, decide_True in Hr1 by done.
      injection Hr1 as <-. inversion Hpre as [? ? r ms1 ks ms2 Hr Hms Hks Hmss]; subst.
      assert (r = e) as -> by congruence. inversion Hms; subst. inversion Hks; subst. by inversion Hmss.
    + rewrite Er in Hr'. destruct (dirtied_lookup _ _ _ _ Ha Hr') as (r & _ & ->). done.
Qed.

Lemma claim_state_shifts s l p id granted caller ls :
  sound s -> running s -> st_reg s !! l = Some p -> linked (parent_of (st_reg s)) (Some l) ls ->
  leaf_ok s p (set_r_sibling_next (r_children_head p) (new_child p l id granted caller)) ->
  shifts None s (claim_state s l p id granted caller ls).
Proof using QL.
  intros Hs Hrun Hl Hls Hleaf. pose proof (run_tree _ Hrun) as Hok. pose proof (next_unused _ Hok) as Hc.
  assert (st_next s <> l) as Hcl by congruence. set (s' := claim_state _ _ _ _ _ _ _).
  assert (running s') as Hrun' by by apply claim_state_running.
  assert (st_next s' = Pos.succ (st_next s)) as En by done. split.
  - done.
  - intros Hi. by rewrite (run_inited _ Hrun') in Hi.
  - lia.
  - intros a Ha Hla. pose proof (claim_state_heads s l p id granted caller ls a Hl Hc ltac:(lia)) as Hreg.
    fold s' in Hreg. apply not_eq_None_Some. intros E.
    rewrite E in Hreg. destruct Hla as [ra Hla]. by rewrite Hla in Hreg.
  - done.
  - intros a x _ (ms & Hms & Hx) _ _. exists ms.
    split; [by apply claim_state_list|done].
  - done.
  - done.
  - intros Hi. apply (intern_ok_next s); [lia|done].
  - done.
  - by apply claim_state_vectors.
Qed.

Lemma shifts_during n K me s s' :
  sound s -> shifts None s s' -> during (waiting n K me) n me s s'.
Proof.
  intros Hs Hsh _ Hn [Hu Hr]. pose proof (sh_next _ _ _ Hsh).
  split_and!; [by apply (shifts_sound None s)|lia| |by apply (shifts_evo n None); [lia| |]]. split.
  - intros l Ho. pose proof (owner_live _ _ _ Ho) as Hm.
    destruct (sh_mod _ _ _ Hsh me ltac:(done) Hm) as [_ E]. rewrite E in Ho. by apply (Hu l).
  - intros y Hy. by apply Hr, (sh_registry _ _ _ Hsh).
Qed.

Lemma claim_slot_during n me l caller parent_id granted :
  let K := registry_key (resolved caller) parent_id in
  1 <= granted <= 64 ->
  preserves (during (waiting n K me) n me) (claim_slot l parent_id granted (Some caller)).
Proof using QL.
  intros K Hg s a s' H Hs Hn Hw.
  assert (exists p, st_reg s !! l = Some p) as [p Hl].
  { unfold claim_slot in H. binv H id s1 E. by eapply region_alloc_slot_live. }
  assert (running s) as Hrun by (eapply sound_running; [done|by exists p]).
  assert (stable (waiting n K me) me) as Hst by (apply waiting_stable; lia).
  pose proof (run_tree _ Hrun) as Hok.
  destruct (alloc_slot_id s l p granted Hok Hl Hg) as (id & Halloc & Hid).
  destruct (decide (id = XY_REGION_INVALID)) as [->|Hne].
  { unfold claim_slot in H. rewrite (bind_Ok _ _ _ _ _ Halloc) in H. rewrite decide_True in H by done.
    apply return_err_frame in H. by apply (frame_during _ n me s s' Hst). }
  destruct (to_hd _ Hok) as (hd & Hhd & _).
  destruct (up_chain _ _ _ Hok Hl) as (ls & Hls & _).
  destruct (new_child_leaf s l p id granted (Some caller) Hok Hl ltac:(lia) (Hid Hne)) as [_ Hleaf].
  rewrite (claim_slot_run s l p parent_id id granted (Some caller) ls hd) in H;
    [|done|by apply next_unused|done..].
  set (s1 := claim_state s l p id granted (Some caller) ls) in *.
  assert (during (waiting n K me) n me s s1) as Hd1 by (by apply shifts_during, claim_state_shifts).
  binv H u s2 E2. apply (module_rekey_during n me) in E2. apply return_err_frame in H.
  revert Hs Hn Hw. apply (during_trans _ n me s s1 s'); [done|]. etransitivity; [exact E2|].
  by apply frame_during.
Qed.

Section Callbacks.
Context (exec : executor) (Hexec : forall cb, preserves keeps (exec cb)).

Lemma claim_for_load_during n me caller parent_id bits :
  let K := registry_key (resolved caller) parent_id in
  (n <= me)%positive ->
  preserves (during (waiting n K me) n me) (_xy_claim_for_load exec (Some caller) parent_id bits).
Proof using QL Hexec.
  intros K Hn. pose proof (waiting_stable n K me Hn) as Hst.
  assert (forall A (m : XM A), preserves frame m -> preserves (during (waiting n K me) n me) m) as Hfr.
  { intros A m. apply preserves_mono. intros s s'. by apply frame_during. }
  unfold _xy_claim_for_load. destruct (_ || _); [apply Hfr; frames|].
  apply preserves_bind; [apply _|apply Hfr; frames|]. intros [parent|]; [|apply Hfr; frames].
  apply preserves_bind; [apply _|apply Hfr; frames|]. intros p.
  destruct (r_claim_handler p) as [h|]; [|apply Hfr; frames].
  apply preserves_bind; [apply _| |].
  { intros s a s' H. apply keeps_during; [done|]. by eapply Hexec. }
  intros out. cbv zeta. destruct (negb _); [apply Hfr; frames|].
  destruct ((granted_byte out =? 0) || _) eqn:Eg; [apply Hfr; frames|].
  apply orb_false_iff in Eg as [E1%Z.eqb_neq E2%Z.ltb_ge]. apply claim_slot_during.
  pose proof (wrap8_u8 (default 0 (out !! 1%nat))) as Hu. fold (granted_byte out) in Hu.
  unfold is_u8 in Hu. lia.
Qed.

Lemma claim_if_needed_during n me tx caller :
  let K := registry_key (resolved caller) (tx_inherited_region_id tx) in
  (n <= me)%positive -> tx_stable_fname tx = Some caller ->
  preserves (during (waiting n K me) n me) (mod_load_claim_if_needed exec tx).
Proof using QL Hexec.
  intros K Hn Ecaller. pose proof (waiting_stable n K me Hn) as Hst. unfold mod_load_claim_if_needed.
  rewrite Ecaller. destruct (tx_inherited_reg tx) as [reg|]; [|by apply preserves_mret, _].
  apply preserves_bind; [apply _| |].
  { intros s a s' H. apply frame_during; [done|]. by eapply region_at_frame. }
  intros r. destruct (plat_dlsym _ _); [|by apply preserves_mret, _].
  destruct (_ && _); [by apply preserves_mret, _|]. by apply claim_for_load_during.
Qed.

End Callbacks.
End Claiming.

(** ** The transaction *)

Section Transaction.
Context {Q : QMapOps} {QL : QMapLaws Q} {P : Platform}.
Implicit Types (s : state) (n me x l : loc) (tx : load_txn).

Section Opening.
Context (exec : executor) (Hexec : forall cb, preserves keeps (exec cb)).

Lemma map_image_frame h : preserves frame (map_image h).
Proof.
  unfold map_image. apply preserves_modify. intros s. split; try done.
  intros c (x & Hx & Ht). exists x. split; [|done]. by apply lookup_union_Some_l.
Qed.

Lemma dlopen_keeps path : preserves keeps (dlopen exec path).
Proof using Hexec. unfold dlopen. pose proof map_image_frame. keeping. Qed.

Lemma open_handle_keeps tx fname : preserves keeps (mod_load_open_handle exec tx fname).
Proof using QL Hexec.
  unfold mod_load_open_handle. pose proof dlopen_keeps. keeping.
Qed.

(** What the transaction knows after its first step. *)
Lemma open_handle_inv tx fname s tx' s' :
  mod_load_open_handle exec tx fname s = Ok ((XY_OK, tx'), s') ->
  tx_mod_entry tx' = tx_mod_entry tx /\ tx_stable_fname tx' = tx_stable_fname tx /\
  tx_inherited_region_id tx' = tx_inherited_region_id tx /\
  lk_key (tx_lookup tx') = Some (registry_key (resolved fname) (tx_inherited_region_id tx)).
Proof using QL.
  unfold mod_load_open_handle. intros H. binv H lk s1 E. apply module_lookup_inv in E as [_ Hlk].
  cbv zeta in H. destruct (Z.eqb_spec (lk_err lk) XY_OK) as [Ek|Ek]; cbn [negb] in H.
  2: { by injection H as H _ _. }
  destruct Hlk as [(? & _)|(Ekey & Epath & _ & _)]; [done|]. rewrite Epath in H.
  binv H reloading s2 E2. binv H tmp s3 E3. destruct tmp as [tmp|]; binv H h s4 E4.
  - destruct h as [h|]; [by injection H as <- _|]. binv H u s5 E5. done.
  - destruct h as [h|]; [by injection H as <- _|]. done.
Qed.

End Opening.

Lemma try_reuse_frame tx : preserves frame (mod_load_try_reuse_existing tx).
Proof. unfold mod_load_try_reuse_existing. pose proof dlclose_frame. pose proof unlink_opt_frame. frames. Qed.

(** The entry is new, and on no list. *)
Lemma alloc_entry_inv tx fname s rc tx' s' :
  mod_load_alloc_entry tx fname s = Ok ((rc, tx'), s') ->
  tx_mod_entry tx = None -> tx_stable_fname tx = None ->
  tx_inherited_region_id tx' = tx_inherited_region_id tx /\
  ((rc <> XY_OK /\ frame s s' /\ tx_mod_entry tx' = None) \/
   (rc = XY_OK /\ tx_stable_fname tx' = Some fname /\ tx_stable_key tx' = lk_key (tx_lookup tx) /\
    exists me, tx_mod_entry tx' = Some me /\ (st_next s <= me < st_next s')%positive /\
      near (Some me) (Some me) s s' /\ unowned s' me)).
Proof using QL.
  unfold mod_load_alloc_entry. intros H Eme Efn. binv H b s1 E1. apply try_alloc_frame in E1. cbv zeta in H.
  destruct b; cbn [tx_stable_fname set_tx_stable_fname eta_load_txn] in H.
  2: { rewrite Efn in H. injection H as <- <- <-. split; [done|]. by left. }
  cbn [tx_lookup set_tx_stable_fname eta_load_txn] in H.
  destruct (lk_key (tx_lookup tx)) as [key|]; [|injection H as <- <- <-; split; [done|by left]].
  binv H interned s2 E2. apply path_intern_frame in E2. assert (frame s s2) as Hf2 by by transitivity s1.
  destruct interned as [i|]; [|injection H as <- <- <-; split; [done|by left]].
  binv H b s3 E3. apply try_alloc_frame in E3. assert (frame s s3) as Hf3 by by transitivity s2.
  destruct b; [|injection H as <- <- <-; split; [done|by left]].
  binv H me s4 E4. injection E4 as <- <-. binv H ld s4 E4. injection E4 as <- <-. binv H u s4 E4.
  injection E4 as _ <-. injection H as <- <- <-. split; [done|]. right. split_and!; [done..|].
  pose proof (fr_next _ _ Hf3). exists (st_next s3). split; [done|]. split; [cbn; lia|]. split.
  - transitivity s3; [by apply frame_near|]. split; try done.
    + cbn. lia.
    + intros x Hx. cbn. rewrite lookup_insert_ne; [done|congruence].
    + intros Hi. apply (intern_ok_next s3); [lia|done].
    + apply unlisted_vectors; [done|done|cbn; lia|]. intros x Hx. cbn. rewrite lookup_insert_ne; [done|congruence].
  - intros l. unfold owner_of. cbn. rewrite lookup_insert_eq. by intros [=].
Qed.

Lemma publish_entry_inv tx s rc tx' s' :
  mod_load_publish_entry tx s = Ok ((rc, tx'), s') ->
  rc = XY_OK /\ tx_mod_entry tx' = tx_mod_entry tx /\ tx_stable_fname tx' = tx_stable_fname tx /\
  tx_inherited_region_id tx' = tx_inherited_region_id tx /\
  exists me K, tx_mod_entry tx = Some me /\ tx_stable_key tx = Some K /\
    near None (Some me) s s' /\ forall y, in_registry s' K y -> y = me.
Proof using QL.
  unfold mod_load_publish_entry. intros H. binv H me s1 E. apply must_inv in E as [Eme ->].
  binv H K s1 E. apply must_inv in E as [EK ->]. binv H tbl s1 E. apply handle_inv in E as [Hhd ->].
  binv H u s1 E. injection E as _ <-. set (s1 := set_st_rt _ s) in *.
  binv H m s2 E. apply module_at_inv in E as [_ ->]. binv H ix s2 E. apply handle_inv in E as [_ ->].
  binv H u2 s2 E. injection E as _ <-. injection H as <- <- <-. split_and!; [done..|].
  exists me, K. split_and!; [done..| |].
  - split; try done. intros k y Hy (hd' & [= <-] & Hg). exists tbl. split; [done|].
    rewrite qget_put in Hg. case_decide; [congruence|done].
  - intros y (hd' & [= <-] & Hg). rewrite qget_put_eq in Hg. congruence.
Qed.

(** *** Steps that change no pointer *)

Lemma bind_xy_frame tx : preserves frame (mod_load_bind_xy tx).
Proof. unfold mod_load_bind_xy, _xy_init. frames. Qed.

Lemma bind_xy_inv tx s rc tx' s' : mod_load_bind_xy tx s = Ok ((rc, tx'), s') -> rc = XY_OK /\ tx' = tx.
Proof.
  unfold mod_load_bind_xy. intros H. cbv zeta in H. binv H pending s1 E. binv H u s2 E2.
  destruct (match match plat_dlsym (tx_handle tx) "get_xy_ptr" with
            | Some get_xy => plat_get_xy get_xy | None => None end with
            | Some c => Some c | None => pending end) as [c|]; [|by injection H as <- <- _].
  binv H u2 s3 E3. binv H me s4 E4. binv H u3 s5 E5. by injection H as <- <- _.
Qed.

Lemma enter_context_frame tx : preserves frame (mod_load_enter_context tx).
Proof. unfold mod_load_enter_context. frames. Qed.

Lemma enter_context_inv tx s rc tx' s' :
  mod_load_enter_context tx s = Ok ((rc, tx'), s') ->
  rc = XY_OK /\ tx_mod_entry tx' = tx_mod_entry tx /\ tx_stable_fname tx' = tx_stable_fname tx /\
  tx_inherited_region_id tx' = tx_inherited_region_id tx.
Proof.
  unfold mod_load_enter_context. intros H. binv H reg s1 E. binv H id s2 E2. binv H pe s3 E3.
  binv H u s4 E4. by injection H as <- <- _.
Qed.

Lemma alloc_region_state_frame me h : preserves frame (alloc_region_state me h).
Proof. unfold alloc_region_state. frames. Qed.

(** *** Joining the list *)

Lemma append_during n me re s a s' :
  module_region_append re me s = Ok (a, s') -> sound s -> (n <= me < st_next s)%positive ->
  owner_of s me = Some None ->
  sound s' /\ (me < st_next s')%positive /\ placed s' me /\ evo n s s'.
Proof.
  intros H Hs Hn Hu. destruct re as [l|].
  2: { unfold module_region_append, module_region_insert_after in H. binv H t s1 E.
       injection E as _ <-. injection H as _ <-.
       split_and!; [done|lia|intros l; congruence|by split]. }
  assert (exists r, st_reg s !! l = Some r) as [r Hr].
  { unfold module_region_append in H. binv H t s1 E. binv E r s2 E2.
    apply region_at_inv in E2 as [Hr _]. by exists r. }
  pose proof (sound_running s l Hs ltac:(by exists r)) as Hrun.
  destruct (mods_ok_list _ _ _ (run_mods _ Hrun) Hr) as (ms & Hms & _).
  destruct (append_spec s l me ms Hrun Hms (owner_live _ _ _ Hu) (unowned_off s me Hs Hu))
    as (ls & s1 & Hch & E & Hrun1 & Hls & Hms1 & Hoth).
  pose proof (append_owners me _ s _ _ H) as Hown. rewrite E in H. injection H as _ <-.
  assert (shifts (Some me) s s1) as Hsh.
  { apply (list_shifts ls s s1 l me _ _ Hrun Hrun1 Hch Hls Hms Hms1 Hoth); [|apply Hown].
    intros y _ Hy. apply elem_of_app. by left. }
  assert (owner_of s1 me = Some (Some l)) as Ho.
  { eapply mod_list_owner; [apply Hrun1|exact Hms1|]. apply elem_of_app. right. by left. }
  pose proof (sh_next _ _ _ Hsh). assert (homed s1 me) as Hhome.
  { split.
    - lia.
    - intros l' Ho'. assert (l' = l) as -> by congruence.
      pose proof (sound_region s l Hs ltac:(by exists r)). lia.
    - intros l' Ho' _. assert (l' = l) as -> by congruence. exists (ms ++ [me]). split; [done|].
      apply elem_of_app. right. by left. }
  split_and!; [|lia|apply Hhome|].
  - apply (shifts_sound _ _ _ Hs Hsh). by intros x [= <-].
  - apply (shifts_evo n (Some me) s s1); [lia|done|]. intros x [= <-]. lia.
Qed.

(** *** All steps together *)

Section Load.
Context (exec : executor) (Hwb : well_behaved exec).
Let Hexec := wb_keeps exec Hwb.
Let Hquiet := wb_quiet exec Hwb.

(** A failure after a step of the transaction. *)
Lemma abort_after n tx me s err rc s' :
  mod_load_abort exec tx err s = Ok (rc, s') -> tx_mod_entry tx = Some me ->
  sound s -> (n <= me < st_next s)%positive -> placed s me -> sound s' /\ evo n s s'.
Proof using QL Hquiet.
  intros H Eme Hs Hn Hp. eapply (mod_load_abort_evolves exec Hquiet n tx err); [done|done|lia|].
  intros x. rewrite Eme. by intros [= <-].
Qed.

(** From the installation of the module on. *)
Lemma run_install_during n me tx :
  preserves (during (fun s => placed s me) n me) (mod_load_run_install exec tx).
Proof using Hexec.
  pose proof (placed_stable me) as Hst.
  assert (preserves keeps (mod_load_run_install exec tx)) as Hk
    by (unfold mod_load_run_install, _mod_run; keeping).
  intros s a s' H. apply keeps_during; [done|]. by eapply Hk.
Qed.

Lemma load_enter_sound n me tx s rc s' :
  load_enter exec tx s = Ok (rc, s') -> tx_mod_entry tx = Some me -> sound s ->
  (n <= me < st_next s)%positive -> unowned s me -> sound s' /\ evo n s s'.
Proof using QL Hexec Hquiet.
  intros H Eme Hs Hn Hu. unfold load_enter in H. binv H u s1 E1.
  assert (frame s s1) as Hf1.
  { revert E1. apply (upd_rt_frame (fun rt => set_rt_mod_count (rt_mod_count rt + 1) rt)). done. }
  binv H me' s2 E2. apply must_inv in E2 as [E2 ->]. assert (me' = me) as -> by congruence.
  binv H u2 s3 E3. apply alloc_region_state_frame in E3. assert (frame s s3) as Hf3 by by transitivity s1.
  binv H m s4 E4. apply module_at_inv in E4 as [Hm ->].
  binv H re s5 E5. apply region_lookup_frame in E5. assert (frame s s5) as Hf5 by by transitivity s3.
  pose proof (frame_sound _ _ Hf5 Hs) as Hs5. pose proof (fr_next _ _ Hf5).
  assert (owner_of s5 me = Some None) as Ho5.
  { rewrite (frame_owner s3 s5) by done. rewrite (owner_of_eq s3 me m Hm). f_equal.
    destruct (m_region_entry m) as [l|] eqn:El; [|done]. exfalso. apply (Hu l).
    rewrite <- (frame_owner s s3) by done. by rewrite (owner_of_eq s3 me m Hm), El. }
  binv H u3 s6 E6. assert (module_region_append re me s5 = Ok (tt, s6)) as Happ.
  { destruct u3, re as [l|]; [done|]. injection E6 as <-. done. }
  destruct (append_during n me re s5 _ s6 Happ Hs5 ltac:(lia) Ho5) as (Hs6 & Hme6 & Hp6 & He6).
  assert (evo n s s6) as He06 by (apply (evo_trans n s s5 s6); [by apply frame_evo|done]).
  binv H u4 s7 E7. apply fn_cache_prewarm_frame in E7. binv H ret s8 E8.
  apply (run_install_during n me tx) in E8. pose proof (fr_next _ _ E7).
  destruct (E8 (frame_sound _ _ E7 Hs6) ltac:(lia) (frame_placed _ _ _ E7 Hp6)) as (Hs8 & Hme8 & Hp8 & He8).
  assert (evo n s s8) as He08.
  { apply (evo_trans n s s6 s8); [done|]. apply (evo_trans n s6 s7 s8); [by apply frame_evo|done]. }
  assert (sound s' /\ evo n s8 s') as [Hs' He'].
  { destruct (negb _).
    - eapply abort_after; [done|done|done|lia|done].
    - binv H tx' s9 E9. injection H as _ <-. apply restore_context_frame in E9.
      split; [by eapply frame_sound|by apply frame_evo]. }
  split; [done|by apply (evo_trans n s s8 s')].
Qed.

(** From the claim on. *)
Lemma load_claimed_sound n me tx fname s rc s' :
  (ret ← mod_load_claim_if_needed exec tx;
   if negb (ret =? XY_OK) then mod_load_abort exec tx ret else load_enter exec tx) s = Ok (rc, s') ->
  tx_mod_entry tx = Some me -> tx_stable_fname tx = Some fname -> sound s ->
  (n <= me < st_next s)%positive ->
  waiting n (registry_key (resolved fname) (tx_inherited_region_id tx)) me s ->
  sound s' /\ evo n s s'.
Proof using QL Hexec Hquiet.
  intros H Eme Efn Hs Hn Hw. binv H ret s1 E1.
  apply (claim_if_needed_during exec Hexec n me tx fname) in E1; [|lia|done].
  destruct (E1 Hs Hn Hw) as (Hs1 & Hme1 & [Hu1 _] & He1).
  assert (sound s' /\ evo n s1 s') as [Hs' He'].
  { destruct (negb _).
    - eapply abort_after; [done|done|done|lia|by apply unowned_placed].
    - eapply load_enter_sound; [done|done|done|lia|done]. }
  split; [done|by apply (evo_trans n s s1 s')].
Qed.

(** From the allocated entry on. *)
Lemma load_published_sound n me tx fname s rc s' :
  txn_step exec (mod_load_publish_entry tx) (fun tx =>
  txn_step exec (mod_load_bind_xy tx) (fun tx =>
  txn_step exec (mod_load_enter_context tx) (fun tx =>
    ret ← mod_load_claim_if_needed exec tx;
    if negb (ret =? XY_OK) then mod_load_abort exec tx ret else load_enter exec tx))) s = Ok (rc, s') ->
  tx_mod_entry tx = Some me -> tx_stable_fname tx = Some fname ->
  tx_stable_key tx = Some (registry_key (resolved fname) (tx_inherited_region_id tx)) ->
  sound s -> (n <= me < st_next s)%positive -> unowned s me -> sound s' /\ evo n s s'.
Proof using QL Hexec Hquiet.
  intros H Eme Efn EK Hs Hn Hu. unfold txn_step in H. binv H o s1 E1. destruct o as [rc1 tx1].
  apply publish_entry_inv in E1 as (-> & E1 & E2 & E3 & me' & K & Eme' & EK' & Hne & HK).
  assert (me' = me) as -> by congruence. rewrite EK in EK'. injection EK' as <-.
  destruct (registered_sound n me s s1 Hs) as [Hs1 He1]; [lia|done|by apply unowned_placed|lia|].
  pose proof (nr_next _ _ _ _ Hne). cbn [negb Z.eqb XY_OK] in H.
  binv H o s2 E4. destruct o as [rc2 tx2]. pose proof (bind_xy_inv _ _ _ _ _ E4) as [-> ->].
  apply bind_xy_frame in E4. cbn [negb Z.eqb XY_OK] in H.
  binv H o s3 E5. destruct o as [rc3 tx3].
  pose proof (enter_context_inv _ _ _ _ _ E5) as (-> & E6 & E7 & E8). apply enter_context_frame in E5.
  cbn [negb Z.eqb XY_OK] in H.
  assert (frame s1 s3) as Hf by by transitivity s2. pose proof (fr_next _ _ Hf).
  destruct (load_claimed_sound n me tx3 fname s3 rc s' H) as [Hs' He'].
  - congruence.
  - congruence.
  - by eapply frame_sound.
  - lia.
  - rewrite E8, E3. apply (sb_frame _ _ (waiting_stable n _ me ltac:(lia)) s1 s3 Hf). split.
    + intros l. rewrite (near_owner (Some me) s s1) by done. apply Hu.
    + intros y ->%HK. lia.
  - split; [done|]. apply (evo_trans n s s1 s'); [done|]. apply (evo_trans n s1 s3 s'); [by apply frame_evo|done].
Qed.

Lemma _mod_load_keeps fname : preserves keeps (_mod_load exec fname).
Proof using QL Hexec Hquiet.
  intros s rc s' H Hn Hs. unfold _mod_load in H. binv H id s1 E. injection E as _ <-.
  binv H o s1 E1. destruct o as [rc1 tx1].
  pose proof (open_handle_keeps exec Hexec _ _ _ _ _ E1 Hn Hs) as [Hs1 He1].
  pose proof (ev_next _ _ _ He1) as Hn1.
  enough (evolves (st_next s) s1 s') as Hd.
  { destruct (Hd Hn1 Hs1) as [? ?]. split; [done|by apply (evo_trans _ s s1 s')]. }
  destruct (Z.eqb_spec rc1 XY_OK) as [->|]; cbn [negb] in H.
  2: { apply return_err_frame in H. by apply frame_evolves. }
  apply open_handle_inv in E1 as (Eme1 & Efn1 & Eid1 & EK1).
  cbn in Eme1, Efn1, Eid1, EK1.
  binv H reused s2 E2. apply try_reuse_frame in E2. transitivity s2; [by apply frame_evolves|].
  destruct reused; [injection H as _ <-; reflexivity|]. intros Hn2 Hs2. unfold txn_step at 1 in H.
  binv H o s3 E3. destruct o as [rc2 tx2].
  destruct (alloc_entry_inv _ _ _ _ _ _ E3 Eme1 Efn1) as [Eid2 [(Hrc & Hf & Eme2)|(-> & Efn2 & EK2 & me & Eme2 & Hme & Hne & Hu)]].
  - destruct (Z.eqb_spec rc2 XY_OK); [done|]. cbn [negb] in H. pose proof (fr_next _ _ Hf).
    destruct (mod_load_abort_evolves exec Hquiet (st_next s) tx2 rc2 s3 rc s' H) as [Hs' He'].
    + by eapply frame_sound.
    + lia.
    + intros x. by rewrite Eme2.
    + split; [done|]. apply (evo_trans _ s2 s3 s'); [by apply frame_evo|done].
  - cbn [negb Z.eqb XY_OK] in H.
    destruct (new_module_sound (st_next s) me s2 s3 Hs2 Hn2 Hne Hme Hu) as [Hs3 He3].
    destruct (load_published_sound (st_next s) me tx2 fname s3 rc s' H Eme2 Efn2) as [Hs' He'].
    + by rewrite EK2, EK1, Eid2, Eid1.
    + done.
    + lia.
    + done.
    + split; [done|by apply (evo_trans _ s2 s3 s')].
Qed.

Lemma xy_load_keeps fname : preserves keeps (xy_load exec fname).
Proof using QL Hexec Hquiet.
  unfold xy_load. apply with_runtime_keeps. pose proof _mod_load_keeps. keeping.
Qed.

End Load.
End Transaction.
