(* ===== verification/UnloadSound.v ===== *)
(** * Soundness of unloading and reloading

    An unload cascade, a reload and a shutdown keep the invariant [sound] and
    the promises of [evo]. *)

From S2P Require Import Prelude QMap Status State Machine ModKey Linked Region RegionTree ModList.
From S2P Require Import Runtime Vectors Paths Identity FnCache RegionApi Deny Claim Dispatch CopyFile.
From S2P Require Import Load LoadSpec LoadFresh Unload UnloadSpec AbortSpec Lifecycle Evolve.
From S2P Require Import Frames System ApiSound FreeSound LoadSound.
From stdpp Require Import options.
Local Open Scope Z_scope.

(** ** Unloading *)

Section Unloading.
Context {Q : QMapOps} {QL : QMapLaws Q} {P : Platform}.
Implicit Types (s : state) (n x l e : loc).

Lemma undeny_frame l path : preserves frame (upd_region l (undeny_module path)).
Proof.
  apply upd_region_frame; intros r; unfold undeny_module;
    by destruct (remove_denies_loop path (r_denied_modules r) (r_denied_modules_set r)).
Qed.

Lemma remove_entries_frame re path h : preserves frame (module_remove_path_owned_entries re path h).
Proof. pose proof undeny_frame. unfold module_remove_path_owned_entries, module_remove_denies. frames. Qed.

Section Exec.
Context (exec : executor) (Hwb : well_behaved exec).
Let Hexec := wb_keeps exec Hwb.
Let Hquiet := wb_quiet exec Hwb.

Lemma unload_children_keeps unload children :
  (forall path id, preserves keeps (unload path id)) -> preserves keeps (unload_children unload children).
Proof. intros Hu. induction children as [|c children IH]; cbn; keeping. Qed.

(** The module goes: from its list, from the registries, and from the heap. *)
Lemma unload_entry_sound n e s rc s' :
  (module_region_detach e;; unregister e;;
   upd_rt (fun rt => set_rt_mod_count (rt_mod_count rt - 1) rt);;
   module_free_entry exec e true;; mret XY_OK) s = Ok (rc, s') ->
  sound s -> (n <= st_next s)%positive -> placed s e -> sound s' /\ evo n s s'.
Proof using QL Hquiet.
  intros H Hs Hn Hp. binv H u s1 E1. destruct (detach_shifts e s _ _ Hs Hp E1) as [Hsh Hoff].
  apply (detach_owners e) in E1. binv H u2 s2 E2. apply (unregister_near (Some e)) in E2.
  binv H u3 s3 E3. assert (frame s2 s3) as Hf.
  { revert E3. apply (upd_rt_frame (fun rt => set_rt_mod_count (rt_mod_count rt - 1) rt)). done. }
  binv H u4 s4 E4. injection H as _ <-. apply (free_entry_gone exec Hquiet) in E4 as [Hne Hgone].
  eapply (gone_sound n e s s1 s4); [done..| |done].
  transitivity s2; [done|]. transitivity s3; [by apply frame_near|done].
Qed.

Lemma _mod_unload_keeps fuel fname id : preserves keeps (_mod_unload exec fuel fname id).
Proof using QL Hquiet.
  revert fname id. induction fuel as [|fuel IH]; intros fname id s rc s' H; [done|].
  intros Hn Hs. cbn [_mod_unload] in H. binv H lk s1 E1. apply module_lookup_inv in E1 as [Hf1 Hlk].
  pose proof (frame_sound _ _ Hf1 Hs) as Hs1. pose proof (fr_next _ _ Hf1) as Hn1.
  enough (evolves (st_next s) s1 s') as Hd.
  { destruct (Hd Hn1 Hs1) as [? ?]. split; [done|]. apply (evo_trans _ s s1 s'); [by apply frame_evo|done]. }
  destruct (negb _); [apply return_err_frame in H; by apply frame_evolves|].
  destruct (lk_entry lk) as [e|] eqn:Ee; [|apply return_err_frame in H; by apply frame_evolves].
  assert (placed s1 e) as Hp1.
  { destruct Hlk as [(_ & E & _)|(_ & _ & _ & Hin)]; [done|]. eapply (so_placed _ Hs1), Hin. done. }
  binv H u s2 E2. assert (frame s1 s2) as Hf2.
  { revert E2. apply (upd_module_frame e (fun m => set_m_refcount (m_refcount m - 1) m)). done. }
  binv H m s3 E3. apply module_at_inv in E3 as [Hm ->].
  transitivity s2; [by apply frame_evolves|].
  destruct (0 <? m_refcount m); [injection H as _ <-; reflexivity|]. intros Hn2 Hs2.
  binv H hd s3 E3. apply handle_inv in E3 as [_ ->]. binv H mods s3 E3. injection E3 as _ <-.
  binv H u2 s3 E3. assert (s3 = s2) as -> by (destruct (all_live _ _); [by injection E3|done]).
  binv H u3 s4 E4. pose proof (unload_children_keeps _ _ IH _ _ _ E4) as Hk.
  destruct (Hk ltac:(done) Hs2) as [Hs4 He4].
  assert (e < st_next s2)%positive as Hlt by (apply (so_fresh _ Hs2); by eexists).
  assert (placed s4 e) as Hp4 by (apply (evo_placed s2); [done..|by eapply frame_placed]).
  binv H u4 s5 E5. apply clear_fn_cache_frame in E5. binv H m5 s6 E6. apply module_at_inv in E6 as [_ ->].
  binv H u5 s6 E6. assert (frame s5 s6) as Hf6.
  { pose proof remove_entries_frame. revert u5 E6.
    match goal with |- forall u5, ?p s5 = _ -> _ => assert (preserves frame p) as Hpr by frames end.
    intros u5. apply Hpr. }
  assert (frame s4 s6) as Hf46 by by transitivity s5.
  pose proof (ev_next _ _ _ He4). pose proof (fr_next _ _ Hf46).
  destruct (unload_entry_sound (st_next s) e s6 rc s' H) as [Hs' He'].
  - by eapply frame_sound.
  - lia.
  - by eapply frame_placed.
  - split; [done|]. apply (evo_trans _ s2 s4 s'); [by apply (evo_weaken _ (st_next s2)); [lia|]|].
    apply (evo_trans _ s4 s6 s'); [by apply frame_evo|done].
Qed.

Lemma mod_unload_keeps fname id : preserves keeps (mod_unload exec fname id).
Proof using QL Hquiet. unfold mod_unload. pose proof _mod_unload_keeps. keeping. Qed.

Lemma xy_unload_keeps fname : preserves keeps (xy_unload exec fname).
Proof using QL Hquiet.
  unfold xy_unload. apply with_runtime_keeps. pose proof mod_unload_keeps. keeping.
Qed.

End Exec.
End Unloading.

(** ** Reloading *)

Section Reloading.
Context {Q : QMapOps} {QL : QMapLaws Q} {P : Platform}.
Implicit Types (s : state) (n x y l e : loc).

(** The insertion of a module that is on no list. *)
Lemma insert_after_shifts s y l after a s' :
  (is_Some (st_reg s !! l) -> running s) -> on_no_list s y ->
  (forall x, after = Some x -> is_Some (st_mod s !! x) -> is_Some (st_reg s !! l) -> listed s l x) ->
  module_region_insert_after (Some l) y after s = Ok (a, s') ->
  shifts (Some y) s s' /\ owner_of s' y = Some (Some l) /\ listed s' l y /\ is_Some (st_reg s !! l).
Proof.
  intros Hrun0 Hoff Hafter H. destruct (insert_after_live _ _ _ _ _ _ H) as (Hl & Hy & Hx).
  pose proof (Hrun0 Hl) as Hrun. pose proof Hl as [r Hr].
  assert (exists ms1 ms2, mod_list s l (ms1 ++ ms2) /\ after = last ms1) as (ms1 & ms2 & Hms & ->).
  { destruct after as [x|].
    - destruct (Hafter x eq_refl (Hx x eq_refl) Hl) as (ms & Hms & Hin).
      apply list_elem_of_split in Hin as (ms1 & ms2 & ->). exists (ms1 ++ [x]), ms2.
      rewrite <- app_assoc, last_snoc. done.
    - destruct (mods_ok_list _ _ _ (run_mods _ Hrun) Hr) as (ms & Hms & _). by exists [], ms. }
  destruct (insert_after_spec s l y ms1 ms2 Hrun Hms Hy Hoff) as (ls & s1 & Hch & E & Hrun1 & Hls & Hms1 & Hoth).
  pose proof (insert_after_owners y _ _ _ _ _ H) as Hown. rewrite E in H. injection H as _ <-.
  assert (y ∈ ms1 ++ y :: ms2) as Hin by (apply elem_of_app; right; by left).
  split_and!.
  - eapply (list_shifts ls s s1 l y _ _ Hrun Hrun1 Hch Hls Hms Hms1 Hoth); [|apply Hown].
    intros z _. rewrite !elem_of_app, elem_of_cons. tauto.
  - eapply mod_list_owner; [apply Hrun1|exact Hms1|exact Hin].
  - by exists (ms1 ++ y :: ms2).
  - by exists r.
Qed.

(** The module [y] takes the place after [after] in the list of [l]. *)
Lemma replace_sound n y l after s a s' :
  (module_region_detach y;; module_region_insert_after (Some l) y after) s = Ok (a, s') ->
  sound s -> (n <= st_next s)%positive -> placed s y ->
  (forall x, after = Some x -> is_Some (st_mod s !! x) -> is_Some (st_reg s !! l) ->
     x <> y /\ listed s l x) ->
  (is_Some (st_mod s !! y) -> (y < n)%positive -> owner_of s y = Some (Some l)) ->
  sound s' /\ evo n s s'.
Proof.
  intros H Hs Hn Hp Hafter Hold. binv H u s1 E1. destruct (detach_shifts y s _ _ Hs Hp E1) as [Hsh1 Hoff].
  pose proof (detach_owners y s _ _ E1) as O1. pose proof (insert_after_owners y _ _ _ _ _ H) as O2.
  assert (is_Some (st_mod s !! y)) as Hlive.
  { unfold module_region_detach in E1. binv E1 m s2 E2. apply module_at_inv in E2 as [Hm _]. by exists m. }
  destruct (insert_after_shifts s1 y l after a s') as (Hsh2 & Ho & Hin & Hl1); [|done| |done|].
  { intros [r Hr]. apply Hsh1. destruct (rt_inited (st_rt s1)) eqn:Hi; [done|].
    by rewrite (sh_cold _ _ _ Hsh1 Hi) in Hr. }
  { intros x Hx Hxl Hl. destruct (decide (x = y)) as [->|Hxy].
    - by destruct (Hafter y Hx Hlive (proj1 (ow_reg _ _ _ O1 l) Hl)).
    - assert (Some y <> Some x) as Hyx by congruence.
      apply (sh_listed _ _ _ Hsh1); [done| |done|done].
      apply Hafter; [done|by apply (sh_mod _ _ _ Hsh1)|by apply (ow_reg _ _ _ O1)]. }
  assert (shifts (Some y) s s') as Hsh
    by (apply (shifts_trans _ s s1); [intros b; by apply sound_region|done|done]).
  pose proof (sh_next _ _ _ Hsh). split.
  - apply (shifts_sound _ _ _ Hs Hsh). intros z [= <-]. split.
    + intros _. pose proof (so_fresh _ Hs y Hlive). lia.
    + intros l' Ho'. assert (l' = l) as -> by congruence.
      pose proof (sound_region s l Hs (proj1 (ow_reg _ _ _ O1 l) Hl1)). lia.
    + intros l' Ho' _. by assert (l' = l) as -> by congruence.
  - apply (shifts_evo n _ _ _ Hn Hsh). intros z [= <-] Hlt. specialize (Hold Hlive Hlt). split.
    + done.
    + intros _. congruence.
    + intros l' Hin' _ _. apply (listed_owner _ _ _ Hs) in Hin'. by assert (l' = l) as -> by congruence.
    + intros k Hk. by apply (ow_registry _ _ _ O1), (ow_registry _ _ _ O2).
Qed.

(** The predecessor of a module that is in its place. *)
Lemma placed_prev s e m l x :
  sound s -> placed s e -> st_mod s !! e = Some m -> m_region_entry m = Some l ->
  is_Some (st_reg s !! l) -> m_region_prev m = Some x -> x <> e /\ listed s l x.
Proof.
  intros Hs Hp Hm Ho Hl Hx. pose proof (owner_of_eq s e m Hm) as Hoe. rewrite Ho in Hoe.
  destruct (placed_split s e l Hp Hoe Hl) as (ms1 & ms2 & Hms).
  destruct (listed_at s l e ms1 ms2 (sound_running s l Hs Hl) Hms) as (m' & Hm' & _ & Ep & _ & _ & _ & Hne & _).
  assert (m' = m) as -> by congruence. rewrite <- Ep, Hx in Hne. split; [congruence|].
  exists (ms1 ++ e :: ms2). split; [done|]. apply elem_of_app. left. apply last_Some_elem_of. congruence.
Qed.

Section Exec.
Context (exec : executor) (Hwb : well_behaved exec).

(** The new instance takes the place of the old one. *)
Lemma reload_replace_sound K s s1 e m y a s' :
  sound s -> in_registry s K e -> st_mod s !! e = Some m ->
  sound s1 -> evo (st_next s) s s1 -> in_registry s1 K y ->
  (match m_region_entry m with
   | Some _ => module_region_detach y;;
               module_region_insert_after (m_region_entry m) y (m_region_prev m);; return_err XY_OK
   | None => return_err XY_OK
   end) s1 = Ok (a, s') -> sound s' /\ evo (st_next s) s s'.
Proof.
  intros Hs He Hm Hs1 Hev Hy H. pose proof (ev_next _ _ _ Hev) as Hn.
  enough (sound s' /\ evo (st_next s) s1 s') as [Hs' Hev'].
  { split; [done|by apply (evo_trans _ s s1 s')]. }
  destruct (m_region_entry m) as [l|] eqn:El.
  2: { apply return_err_frame in H. split; [by eapply frame_sound|by apply frame_evo]. }
  assert (owner_of s e = Some (Some l)) as Ho by by rewrite (owner_of_eq s e m Hm), El.
  pose proof (so_owner _ Hs _ _ Ho) as Hln.
  assert ((y < st_next s)%positive -> y = e) as Hyold.
  { intros Hlt. destruct (ev_registry _ _ _ Hev K y Hlt Hy) as (tbl & E1 & G1).
    destruct He as (tbl' & E2 & G2). congruence. }
  binv H u s2 E1. binv H u2 s3 E2. apply return_err_frame in H.
  destruct (replace_sound (st_next s) y l (m_region_prev m) s1 u2 s3) as [Hs3 He3].
  - by rewrite (bind_Ok _ _ _ _ _ E1).
  - done.
  - done.
  - by apply (so_placed _ Hs1 K).
  - intros x Hx Hxl Hl. pose proof (ev_reg _ _ _ Hev l Hln Hl) as Hl0.
    destruct (placed_prev s e m l x Hs (so_placed _ Hs K e He) Hm El Hl0 Hx) as [Hne Hin].
    pose proof (so_fresh _ Hs x (proj2 (listed_live _ _ _ Hin))) as Hxn. split.
    + intros ->. by apply Hne, Hyold.
    + by apply (ev_listed _ _ _ Hev).
  - intros Hlive Hlt. pose proof (Hyold Hlt) as ->. by rewrite (ev_owner _ _ _ Hev) by done.
  - split; [by eapply frame_sound|]. apply (evo_trans _ s1 s3 s'); [done|by apply frame_evo].
Qed.

Lemma xy_reload_keeps fname : preserves keeps (xy_reload exec fname).
Proof using QL Hwb.
  unfold xy_reload. apply with_runtime_keeps. intros s rc s' H Hn Hs.
  binv H id s1 E. injection E as _ <-. binv H lk s1 E1. apply module_lookup_inv in E1 as [Hf1 Hlk].
  pose proof (frame_sound _ _ Hf1 Hs) as Hs1. pose proof (fr_next _ _ Hf1) as Hn1.
  enough (keeps s1 s') as Hd.
  { destruct (keeps_evolves (st_next s) _ _ Hd Hn1 Hs1) as [? ?].
    split; [done|]. apply (evo_trans _ s s1 s'); [by apply frame_evo|done]. }
  destruct (negb _); [apply return_err_frame in H; by apply frame_keeps|].
  destruct (lk_entry lk) as [e|] eqn:Ee; [|apply return_err_frame in H; by apply frame_keeps].
  set (K := registry_key (resolved fname) id) in *.
  assert (in_registry s1 K e) as He
    by (destruct Hlk as [(_ & E & _)|(_ & _ & _ & Hin)]; [done|by apply Hin]).
  binv H m s2 E2. apply module_at_inv in E2 as [Hm ->]. cbv zeta in H. binv H uret s2 E2.
  apply (mod_unload_keeps exec Hwb) in E2.
  destruct (negb _); [apply return_err_frame in H; transitivity s2; [done|by apply frame_keeps]|].
  binv H u s3 E3. assert (frame s2 s3) as Hf3 by (injection E3 as _ <-; by split).
  binv H lret s4 E4. apply (_mod_load_keeps exec Hwb) in E4.
  binv H u2 s5 E5. assert (frame s4 s5) as Hf5 by (injection E5 as _ <-; by split).
  assert (keeps s1 s5) as Hk5.
  { transitivity s2; [done|]. transitivity s3; [by apply frame_keeps|].
    transitivity s4; [done|by apply frame_keeps]. }
  destruct (negb _); [apply return_err_frame in H; transitivity s5; [done|by apply frame_keeps]|].
  binv H lk2 s6 E6. apply module_lookup_inv in E6 as [Hf6 Hlk2].
  assert (keeps s1 s6) as Hk6 by (transitivity s5; [done|by apply frame_keeps]).
  destruct (negb _); [apply return_err_frame in H; transitivity s6; [done|by apply frame_keeps]|].
  destruct (lk_entry lk2) as [y|] eqn:Ey.
  2: { apply return_err_frame in H; transitivity s6; [done|by apply frame_keeps]. }
  assert (in_registry s6 K y) as Hy
    by (destruct Hlk2 as [(_ & E & _)|(_ & _ & _ & Hin)]; [done|by apply Hin]).
  intros Hn1' _. destruct (Hk6 ltac:(done) Hs1) as [Hs6 He6].
  by apply (reload_replace_sound K s1 s6 e m y rc s').
Qed.

End Exec.

End Reloading.
