(* ===== verification/SystemSound.v ===== *)
(** * Soundness of the whole system

    A shutdown keeps the invariant too, and with it every call a program can
    make; hence every run of a host program keeps it, whatever the modules do
    when they are called back. *)

From S2P Require Import Prelude QMap Status State Machine ModKey Linked Region RegionTree ModList.
From S2P Require Import Runtime Vectors Paths Identity FnCache RegionApi Deny Claim Dispatch CopyFile.
From S2P Require Import Load LoadSpec LoadFresh Unload UnloadSpec AbortSpec Lifecycle Evolve.
From S2P Require Import Frames System ApiSound FreeSound LoadSound UnloadSound.
From stdpp Require Import options.
Local Open Scope Z_scope.

(** ** Shutting down *)

Section ShuttingDown.
Context {Q : QMapOps} {QL : QMapLaws Q} {P : Platform}.
Implicit Types (s : state) (n x l e : loc).

(** Freeing modules touches nothing but modules and memory. *)
Record tidy s s' : Prop := {
  td_reg : st_reg s' = st_reg s;
  td_rt : st_rt s' = st_rt s;
  td_next : st_next s' = st_next s;
  td_str : st_str s' = st_str s;
  td_ctx : st_ctx s' = st_ctx s;
  td_owner : forall x o, owner_of s' x = Some o -> owner_of s x = Some o
}.

#[local] Instance tidy_refl : Reflexive tidy.
Proof. by intros s. Qed.
#[local] Instance tidy_trans : Transitive tidy.
Proof. intros s1 s2 s3 [A1 A2 A3 A4 A5 A6] [B1 B2 B3 B4 B5 B6]. split; try congruence. auto. Qed.

Lemma module_at_tidy e : preserves tidy (module_at e).
Proof. intros s m s' [_ ->]%module_at_inv. reflexivity. Qed.

Lemma forget_state_tidy e : preserves tidy (upd_module e (set_m_region_state None)).
Proof.
  intros s a s' (m & Hm & ->)%upd_module_inv. split; try done. intros x o. unfold owner_of. cbn.
  rewrite lookup_insert. case_decide; [|done]. subst. by rewrite Hm.
Qed.

Lemma free_module_tidy e : preserves tidy (free_module e).
Proof.
  unfold free_module. apply preserves_modify. intros s. split; try done. intros x o. unfold owner_of. cbn.
  rewrite lookup_delete. by case_decide.
Qed.

Section Quiet.
Context (exec : executor)
  (Hquiet : forall fn st s out s', exec (CbCleanup fn st) s = Ok (out, s') -> memory_only s s').

Lemma free_entry_tidy e : preserves tidy (module_free_entry exec e true).
Proof using Hquiet.
  assert (forall fn st, preserves tidy (exec (CbCleanup fn st))) as Hq.
  { intros fn st s out s' H%Hquiet. rewrite H. by split. }
  unfold module_free_entry, module_cleanup_region_state, dlclose, unlink_opt, emit. cbv zeta.
  preserve ltac:(first [apply module_at_tidy|apply forget_state_tidy|apply free_module_tidy|apply Hq|by split]).
Qed.

Lemma free_modules_tidy ms : preserves tidy (free_modules exec ms).
Proof using Hquiet.
  induction ms as [|[k e] ms IH]; cbn; preserve ltac:(first [apply free_entry_tidy|apply IH]).
Qed.

End Quiet.

Lemma free_regions_inv rs s a s' :
  free_regions rs s = Ok (a, s') ->
  st_mod s' = st_mod s /\ st_rt s' = st_rt s /\ st_next s' = st_next s /\ st_str s' = st_str s /\
  st_ctx s' = st_ctx s /\
  forall l, is_Some (st_reg s' !! l) -> is_Some (st_reg s !! l) /\ l ∉ rs.*2.
Proof.
  revert s. induction rs as [|[id l] rs IH]; intros s H; cbn in H.
  { injection H as _ <-. split_and!; [done..|]. intros l Hl. split; [done|]. by apply not_elem_of_nil. }
  binv H u s1 E. unfold region_entry_free in E. binv E r s2 E1. apply region_at_inv in E1 as [Hr ->].
  binv E u2 s2 E1. injection E1 as _ <-. injection E as _ <-.
  apply IH in H as (-> & -> & -> & -> & -> & Hreg). split_and!; [done..|]. intros x Hx.
  destruct (Hreg x Hx) as [Hx1 Hnot]. cbn in Hx1 |- *. rewrite lookup_delete in Hx1.
  case_decide as Hne; [by destruct Hx1|]. split; [done|]. rewrite not_elem_of_cons. split; [congruence|done].
Qed.

(** What a shutdown leaves of a state. *)
Record torn s s' : Prop := {
  tn_inited : rt_inited (st_rt s') = false;
  tn_mod_hd : rt_mod_hd (st_rt s') = None;
  tn_hooks : hook_table_ok s -> hook_table_ok s';
  tn_paths : rt_path_intern_hd (st_rt s') = None;
  tn_reg : st_reg s' = ∅;
  tn_next : st_next s' = st_next s;
  tn_str : st_str s' = st_str s;
  tn_ctx : st_ctx s' = st_ctx s;
  tn_owner : forall x o, owner_of s' x = Some o -> owner_of s x = Some o
}.

Lemma torn_sound s s' : sound s -> torn s s' -> sound s' /\ evo (st_next s) s s'.
Proof.
  intros Hs [T1 T2 T3 T4 T5 T6 T7 TC T8].
  assert (forall x, is_Some (st_mod s' !! x) -> owner_of s' x = owner_of s x /\ is_Some (st_mod s !! x)) as Hlive.
  { intros x [m Hm]. pose proof (owner_of_eq s' x m Hm) as Ho. pose proof (T8 x _ Ho) as Ho'.
    split; [congruence|by eapply owner_live]. }
  assert (forall k x, ~ in_registry s' k x) as Hnone by (intros k x (hd & Hhd & _); congruence).
  split; split; rewrite ?T1, ?T5, ?T6; try done.
  - intros x Hx. by apply (so_fresh _ Hs), Hlive.
  - intros x l Ho. by eapply (so_owner _ Hs), T8.
  - intros k x Hk. by destruct (Hnone k x).
  - apply T3, Hs.
  - split; [intros hd p l; by rewrite T4|]. rewrite T6, T7. apply (so_intern _ Hs).
  - intros l r h ms Hr. by rewrite T5 in Hr.
  - intros x _. apply Hlive.
  - intros l _. by intros [].
  - intros x _. apply Hlive.
  - intros l x _ _ _ _. by intros [].
  - intros k x _ Hk. by destruct (Hnone k x).
  - intros c. unfold bound. by rewrite TC.
Qed.

Lemma no_mod_hd rt : rt_mod_hd rt = None -> rt = set_rt_mod_hd None rt.
Proof. destruct rt. cbn. by intros ->. Qed.

Lemma teardown_torn exec s a s' :
  (forall fn st s out s', exec (CbCleanup fn st) s = Ok (out, s') -> memory_only s s') ->
  rt_inited (st_rt s) = true -> sound s -> xy_runtime_teardown exec s = Ok (a, s') ->
  torn s s'.
Proof using QL.
  intros Hq Hi Hs H. pose proof (so_running _ Hs Hi) as Hrun.
  destruct (to_hd _ (run_tree _ Hrun)) as (rhd & Hrhd & Hget).
  unfold xy_runtime_teardown in H. binv H u s0 E0. injection E0 as _ <-. binv H u1 s5 E.
  unfold teardown_maps in E. binv E hd s1 E1. injection E1 as <- <-. binv E u2 s2 E2.
  set (s0 := set_st_rt (set_rt_inited false (st_rt s)) s) in *.
  assert (st_rt s2 = set_rt_mod_hd None (st_rt s0) /\ st_reg s2 = st_reg s /\ st_next s2 = st_next s /\
    st_str s2 = st_str s /\ st_ctx s2 = st_ctx s /\
    forall x o, owner_of s2 x = Some o -> owner_of s x = Some o) as (R2 & G2 & N2 & T2 & C2 & O2).
  { change (rt_mod_hd (st_rt s0)) with (rt_mod_hd (st_rt s)) in E2.
    destruct (rt_mod_hd (st_rt s)) as [hd|] eqn:Hhd.
    - binv E2 u3 t E3. injection E2 as _ <-. apply (free_modules_tidy exec Hq) in E3 as [T1 T2 T3 T4 TC T5].
      split_and!; [cbn; by rewrite T2|done..].
    - injection E2 as _ <-. split_and!; [|done..]. cbn. by apply no_mod_hd. }
  binv E u3 s3 E3. injection E3 as _ <-. binv E rh s3 E3. injection E3 as <- <-. cbn in E.
  rewrite R2 in E. cbn in E. rewrite Hrhd in E. binv E u4 s4 E4. injection E as _ <-.
  apply free_regions_inv in E4 as (M4 & R4 & N4 & T4 & C4 & G4). cbn in M4, R4, N4, T4, C4, G4.
  assert (st_reg s4 = ∅) as Hempty.
  { apply map_empty. intros l. apply eq_None_not_Some. intros Hl. destruct (G4 l Hl) as [Hl2 Hnot].
    rewrite G2 in Hl2. destruct Hl2 as [r Hr]. apply Hnot, list_elem_of_fmap.
    exists (r_id r, l). split; [done|]. apply qiter_get, Hget. by exists r. }
  injection H as _ <-. split; cbn; rewrite ?R4; try done.
  - by rewrite N4.
  - by rewrite T4.
  - by rewrite C4.
  - intros x o. unfold owner_of. cbn. rewrite M4. apply O2.
Qed.

Lemma xy_shutdown_keeps exec : well_behaved exec -> preserves keeps (xy_shutdown exec).
Proof using QL.
  intros Hwb s a s' H Hn Hs. unfold xy_shutdown in H. binv H b s1 E. injection E as <- <-.
  destruct (rt_inited (st_rt s)) eqn:Hi.
  - binv H u s1 E. apply (teardown_torn exec) in E; [|apply Hwb|done..].
    destruct (torn_sound s s1 Hs E) as [Hs1 He1]. apply set_err_frame in H.
    split; [by eapply frame_sound|]. apply (evo_trans _ s s1 s'); [done|by apply frame_evo].
  - apply set_err_frame in H. by apply frame_keeps.
Qed.

End ShuttingDown.

(** ** Every call, and every program *)

Section Everything.
Context {Q : QMapOps} {QL : QMapLaws Q} {P : Platform}.
Implicit Types (s : state).

Lemma xy_init_keeps : preserves keeps xy_init.
Proof using QL. unfold xy_init. keeping. Qed.

Lemma api_sem_keeps exec c : well_behaved exec -> preserves keeps (api_sem exec c).
Proof using QL.
  intros Hwb. pose proof (wb_keeps exec Hwb) as Hexec. destruct c; cbn.
  - by apply xy_load_keeps.
  - by apply xy_unload_keeps.
  - by apply xy_reload_keeps.
  - by apply xy_call_keeps.
  - apply xy_areg_keeps.
  - apply xy_last_keeps.
  - apply preserves_frame_keeps. unfold xy_errno, XY_GET_ERR. frames.
  - apply xy_deny_keeps.
  - apply xy_require_claim_keeps.
  - by apply xy_region_each_keeps.
  - by apply xy_with_region_keeps.
  - apply xy_current_region_keeps.
  - pose proof (xy_shutdown_keeps exec Hwb). keeping.
  - pose proof xy_init_keeps. keeping.
  - apply preserves_frame_keeps. unfold xy_self_init_ctx. frames.
Qed.

Lemma read_prog_frame l i : preserves frame (read_byte l i).
Proof. unfold read_byte. frames. Qed.

Lemma write_prog_frame l i b : preserves frame (write_byte l i b).
Proof. unfold write_byte. frames. Qed.

Lemma run_keeps exec p : well_behaved exec -> preserves keeps (run exec p).
Proof using QL.
  intros Hwb. induction p as [out|c k IH|l i k IH|l i b k IH|l k IH]; cbn.
  - apply preserves_mret, _.
  - apply preserves_bind; [apply _|by apply api_sem_keeps|apply IH].
  - apply preserves_bind; [apply _|apply preserves_frame_keeps, read_prog_frame|apply IH].
  - apply preserves_bind; [apply _|apply preserves_frame_keeps, write_prog_frame|intros _; apply IH].
  - apply preserves_bind; [apply _|apply preserves_frame_keeps, ctx_at_frame|apply IH].
Qed.

(** A program that calls no function of the library. *)
Fixpoint calls_nothing (p : prog) : Prop :=
  match p with
  | Return _ => True
  | Invoke _ _ => False
  | ReadByte _ _ k => forall b, calls_nothing (k b)
  | WriteByte _ _ _ k => calls_nothing k
  | ReadXy _ k => forall x, calls_nothing (k x)
  end.

#[local] Instance memory_only_refl : Reflexive memory_only.
Proof. intros s. by destruct s. Qed.
#[local] Instance memory_only_trans : Transitive memory_only.
Proof. unfold memory_only. intros s1 s2 s3 E1 E2. rewrite E2. rewrite E1. done. Qed.

Lemma calls_nothing_quiet exec p s out s' :
  calls_nothing p -> run exec p s = Ok (out, s') -> memory_only s s'.
Proof.
  intros Hp. revert s out s'. change (preserves memory_only (run exec p)).
  induction p as [o|c k IH|l i k IH|l i b k IH|l k IH]; cbn in *; [..|done| | |].
  all: unfold read_byte, write_byte, ctx_at; preserve ltac:(first [apply IH, Hp|done]).
Qed.

Lemma exec_of_well_behaved code fuel :
  (forall fn st, calls_nothing (code (CbCleanup fn st))) -> well_behaved (exec_of code fuel).
Proof using QL.
  intros Hcode. induction fuel as [|fuel IH]; [done|]. split.
  - intros cb. by apply run_keeps.
  - intros fn st s out s'. cbn. by apply calls_nothing_quiet.
Qed.

(** A process is sound before it calls the library. *)
Lemma process_start_sound adps mem first al : sound (process_start adps mem first al).
Proof.
  split.
  - done.
  - done.
  - intros x. cbn. rewrite lookup_empty. by intros [].
  - intros x l. unfold owner_of. cbn. by rewrite lookup_empty.
  - by intros k x (hd & Hhd & _).
  - by split.
  - split; [done|]. intros l. cbn. rewrite lookup_empty. by intros [].
  - by intros l r h ms Hr.
Qed.

(** C1: whatever a host program does, and whatever the constructors, the
    installers, the hooks, the claim handlers and the other callbacks of the
    modules it loads do, to any depth of calls back into the library: when it
    has run, the region tree and the module lists are well-formed, every
    registered module of a live region is on that region's list and on no other,
    every module vector that is not marked dirty is that of its subtree, and no two
    hooks share an id.  Clean-up functions must not call the library. *)
Theorem host_run_sound code fuel p adps mem first al out s' :
  (forall fn st, calls_nothing (code (CbCleanup fn st))) ->
  host code fuel p (process_start adps mem first al) = Ok (out, s') -> sound s'.
Proof using QL.
  intros Hcode H. unfold host in H. binv H u s1 E. pose proof (process_start_sound adps mem first al) as Hs.
  destruct (xy_init_keeps _ _ _ E ltac:(done) Hs) as [Hs1 _].
  destruct (run_keeps _ _ (exec_of_well_behaved code fuel Hcode) _ _ _ H ltac:(done) Hs1) as [Hs' _].
  done.
Qed.

(** C5: each call that a program can make takes a sound state to a sound state,
    one whose tree, lists, registrations and clean module vectors are right.
    The modules and regions that it finds there keep their places: none of them
    changes its region or leaves its list while it lives, none comes back after
    it has been freed, and none gets a registration that it did not have.  This
    is asked of the callbacks only where the library is sound, so it is sound
    whenever it calls one. *)
Theorem api_call_sound exec c s rc s' :
  well_behaved exec -> sound s -> api_sem exec c s = Ok (rc, s') -> sound s' /\ evo (st_next s) s s'.
Proof using QL. intros Hwb Hs H. by apply (api_sem_keeps exec c Hwb s rc s' H). Qed.

End Everything.
