(* ===== verification/Registry.v ===== *)
(** * The registry as a list of reference counts

    What a host sees of loading and unloading: for the modules of its region, in
    the order of their first load, how often each is loaded.  Any sequence of
    xy_load and xy_unload does on the library what it does on that list, and
    answers the codes that the list gives. *)

From S2P Require Import Prelude QMap Status State Machine ModKey Linked Region RegionTree ModList.
From S2P Require Import Runtime Vectors Paths Identity FnCache RegionApi Deny Claim Dispatch Areg CopyFile.
From S2P Require Import Load LoadSpec LoadFresh Unload UnloadSpec Cascade LoadUnload Lifecycle Evolve.
From S2P Require Import Frames System ApiSound FreeSound LoadSound UnloadSound SystemSound.
From stdpp Require Import options.
Local Open Scope Z_scope.

(** ** The specification *)

(** The keys of the loaded modules, each with its count. *)
Definition counts : Type := list (string * Z).

Fixpoint bump (k : string) (c : counts) : counts :=
  match c with
  | [] => []
  | (k', n) :: c => if decide (k' = k) then (k', n + 1) :: c else (k', n) :: bump k c
  end.

Fixpoint release (k : string) (c : counts) : counts :=
  match c with
  | [] => []
  | (k', n) :: c =>
      if decide (k' = k) then if n <=? 1 then c else (k', n - 1) :: c
      else (k', n) :: release k c
  end.

Inductive host_op := OpLoad (fname : string) | OpUnload (fname : string).

Definition op_call (op : host_op) : api_call :=
  match op with OpLoad f => Call_load f | OpUnload f => Call_unload f end.

Section Spec.
Context {P : Platform}.

(** The file [fname] can be opened; see [usable] below. *)
Definition can_open (fname : string) : bool :=
  match plat_dlopen [] (resolved fname) with Some _ => true | None => false end.

(** In the region [id]. *)
Definition spec_step (id : Z) (op : host_op) (c : counts) : Z * counts :=
  match op with
  | OpLoad f =>
      let k := registry_key (resolved f) id in
      if can_open f then (XY_OK, if decide (k ∈ c.*1) then bump k c else c ++ [(k, 1)])
      else (XY_ERR_NOTFOUND, c)
  | OpUnload f =>
      let k := registry_key (resolved f) id in
      if decide (k ∈ c.*1) then (XY_OK, release k c) else (XY_ERR_NOTFOUND, c)
  end.

Fixpoint spec_run (id : Z) (ops : list host_op) (c : counts) : list Z * counts :=
  match ops with
  | [] => ([], c)
  | op :: ops =>
      let '(rc, c) := spec_step id op c in
      let '(rcs, c) := spec_run id ops c in (rc :: rcs, c)
  end.

End Spec.

(** ** The library *)

Section Registry.
Context {Q : QMapOps} {QL : QMapLaws Q} {P : Platform}.
Implicit Types (s : state) (m : mod_entry) (c : counts).

Fixpoint perform (exec : executor) (ops : list host_op) : XM (list Z) :=
  match ops with
  | [] => mret []
  | op :: ops => rc ← api_sem exec (op_call op); rcs ← perform exec ops; mret (rc :: rcs)
  end.

(** The file that [op] loads cannot be opened, or is a module whose xy_install
    does nothing to the library, whenever it is opened. *)
Definition usable (exec : executor) (op : host_op) : Prop :=
  match op with
  | OpLoad f => (forall tr, plat_dlopen tr (resolved f) = None) \/
      exists h g ctx cb, (forall tr, plat_dlopen tr (resolved f) = Some (h, false)) /\
        plat_dlsym (Some h) "get_xy_ptr" = Some g /\ plat_get_xy g = Some ctx /\
        is_Some ((list_to_map (plat_image_ctx h) : gmap loc xy_t) !! ctx) /\
        plat_dlsym (Some h) "xy_region_state_size" = None /\
        plat_dlsym (Some h) "xy_install" = Some cb /\ quiet_install exec cb
  | OpUnload _ => True
  end.

(** The module [x] has the key and the count [kn]. *)
Definition entry_is (mods : gmap loc mod_entry) (x : loc) (kn : string * Z) : Prop :=
  exists m, mods !! x = Some m /\ m_mod_key m = kn.1 /\ m_refcount m = kn.2 /\
    m_parent_entry m = None /\ 1 <= kn.2.

(** The modules of the library are those of the region [l], and [c] lists them. *)
Definition registry_is s (l : loc) c : Prop :=
  exists ms, mod_list s l ms /\ Forall2 (entry_is (st_mod s)) ms c /\
    forall x, is_Some (st_mod s !! x) -> x ∈ ms.

(** A host in the region [l], [id], which does not ask for claims. *)
Record hosting s (l : loc) (id : Z) c : Prop := {
  ho_orderly : orderly s;
  ho_sound : sound s;
  ho_region : claim_view <$> st_reg s !! l = Some (id, None, false);
  ho_current : t_region_id (st_tls s) = id;
  ho_loading : t_loading_mod (st_tls s) = None;
  ho_reloading : st_reloading s = false;
  ho_hooks : is_Some (rt_hook_id_hd (st_rt s));
  ho_modules : registry_is s l c
}.

(** ** Entries and keys *)

Lemma entry_is_bare (mods mods' : gmap loc mod_entry) x kn :
  bare <$> mods' !! x = bare <$> mods !! x -> entry_is mods x kn -> entry_is mods' x kn.
Proof.
  intros E (m & Hm & H1 & H2 & H3 & H4). rewrite Hm in E. destruct (mods' !! x) as [m'|] eqn:Hm'; [|done].
  apply (inj Some) in E. exists m'.
  assert (forall T (f : mod_entry -> T), (forall u, f (bare u) = f u) -> f m' = f m) as Hf.
  { intros T f Hf. by rewrite <- (Hf m'), E. }
  by rewrite (Hf _ m_mod_key), (Hf _ m_refcount), (Hf _ m_parent_entry).
Qed.

Lemma entries_bare (mods mods' : gmap loc mod_entry) ms c :
  (forall x, x ∈ ms -> bare <$> mods' !! x = bare <$> mods !! x) ->
  Forall2 (entry_is mods) ms c -> Forall2 (entry_is mods') ms c.
Proof.
  intros H Hms. induction Hms as [|x kn ms c Hx _ IH]; constructor.
  - eapply entry_is_bare; [|done]. apply H. left.
  - apply IH. intros y Hy. apply H. by right.
Qed.

(** A key that is listed is registered, and the other way round. *)
Lemma registry_is_key s l c hd k :
  registry_exact s -> rt_mod_hd (st_rt s) = Some hd -> registry_is s l c ->
  k ∈ c.*1 <-> is_Some (qget hd k).
Proof.
  intros (hd' & E & Hexact) Hhd (ms & _ & Hms & Hall). rewrite Hhd in E. injection E as <-. split.
  - intros (kn & -> & Hin)%list_elem_of_fmap.
    apply list_elem_of_lookup in Hin as [i Hi].
    destruct (Forall2_lookup_r _ _ _ _ _ Hms Hi) as (x & _ & m & Hm & Hk & _).
    exists x. apply Hexact. by exists m.
  - intros [x (m & Hm & <-)%Hexact].
    assert (x ∈ ms) as Hin by (apply Hall; by eexists).
    apply list_elem_of_lookup in Hin as [i Hi].
    destruct (Forall2_lookup_l _ _ _ _ _ Hms Hi) as (kn & Hkn & m' & Hm' & Hk & _).
    rewrite Hm in Hm'. injection Hm' as <-. rewrite Hk. apply list_elem_of_fmap.
    exists kn. split; [done|]. by eapply list_elem_of_lookup_2.
Qed.

(** One more reference to the module [e] of the key [k]. *)
Lemma entries_bump (mods : gmap loc mod_entry) ms c e m :
  NoDup ms -> mods !! e = Some m -> Forall2 (entry_is mods) ms c ->
  (forall x mx, mods !! x = Some mx -> m_mod_key mx = m_mod_key m -> x = e) ->
  Forall2 (entry_is (<[e := set_m_refcount (m_refcount m + 1) m]> mods)) ms (bump (m_mod_key m) c).
Proof.
  intros Hnd Hm Hms Hkey. induction Hms as [|x [k n] ms c Hx Hms IH]; [constructor|].
  apply NoDup_cons in Hnd as [Hx' Hnd]. destruct Hx as (mx & Hmx & E1 & E2 & E3 & E4). cbn in *.
  case_decide as Ek.
  - assert (x = e) as -> by (apply (Hkey x mx); [done|congruence]).
    assert (mx = m) as -> by congruence. constructor.
    + exists (set_m_refcount (m_refcount m + 1) m). split; [apply lookup_insert_eq|]. cbn. rewrite E2.
      split_and!; [done|done|done|lia].
    + apply (entries_bare mods); [|done]. intros y Hy. rewrite lookup_insert_ne; [done|]. by intros <-.
  - constructor; [|by apply IH]. exists mx. rewrite lookup_insert_ne; [by split_and!|]. intros <-.
    apply Ek. congruence.
Qed.

(** One less. *)
Lemma entries_release (mods mods' : gmap loc mod_entry) ms c e m :
  NoDup ms -> mods !! e = Some m -> Forall2 (entry_is mods) ms c ->
  (forall x mx, mods !! x = Some mx -> m_mod_key mx = m_mod_key m -> x = e) ->
  (forall x, x <> e -> bare <$> mods' !! x = bare <$> mods !! x) ->
  bare <$> mods' !! e = after_loss true m ->
  Forall2 (entry_is mods') (filter (fun x => is_Some (mods' !! x)) ms) (release (m_mod_key m) c).
Proof.
  intros Hnd Hm Hms Hkey Hoth He.
  assert (forall x mx, x <> e -> mods !! x = Some mx -> is_Some (mods' !! x)) as Hlive.
  { intros x mx Hx Hmx. specialize (Hoth x Hx). rewrite Hmx in Hoth. destruct (mods' !! x); [by eexists|done]. }
  induction Hms as [|x [k n] ms c Hx Hms IH]; [constructor|].
  apply NoDup_cons in Hnd as [Hx' Hnd]. pose proof Hx as (mx & Hmx & E1 & E2 & E3 & E4). cbn in E1, E2, E4.
  cbn [release]. case_decide as Ek.
  - assert (x = e) as -> by (apply (Hkey x mx); [done|congruence]).
    assert (mx = m) as -> by congruence.
    assert (forall y, y ∈ ms -> y <> e) as Hne by (intros y Hy ->; done).
    assert (filter (fun x => is_Some (mods' !! x)) ms = ms) as Hf.
    { apply filter_live. intros y Hy. apply list_elem_of_lookup in Hy as [i Hi].
      destruct (Forall2_lookup_l _ _ _ _ _ Hms Hi) as (kn & _ & my & Hmy & _).
      eapply Hlive; [|done]. apply Hne. by eapply list_elem_of_lookup_2. }
    assert (Forall2 (entry_is mods') ms c) as Htl.
    { apply (entries_bare mods); [|done]. intros y Hy. by apply Hoth, Hne. }
    unfold after_loss in He. rewrite E2 in He. destruct (Z.leb_spec n 1), (Z.ltb_spec 0 (n - 1)); try lia.
    + destruct (mods' !! e) eqn:Hn; [done|]. rewrite filter_cons_False by (rewrite Hn; by intros []). by rewrite Hf.
    + destruct (mods' !! e) as [m'|] eqn:Hn; [|done]. rewrite filter_cons_True by (rewrite Hn; by eexists).
      rewrite Hf. constructor; [|done]. apply (inj Some) in He. exists m'. split; [done|].
      change (m_mod_key (bare m') = k /\ m_refcount (bare m') = n - 1 /\ m_parent_entry (bare m') = None /\ 1 <= n - 1).
      rewrite He. cbn. split_and!; [done|done|done|lia].
  - assert (x <> e) as Hne by (intros ->; apply Ek; congruence).
    rewrite filter_cons_True by (by eapply Hlive). constructor; [|by apply IH].
    by apply (entry_is_bare mods), Hx; apply Hoth.
Qed.

(** ** The steps *)

(** What a step has to show. *)
Lemma hosting_step exec op s s' rc l id c c' :
  well_behaved exec -> hosting s l id c -> api_sem exec (op_call op) s = Ok (rc, s') -> orderly s' ->
  agree claim_view (st_reg s) (st_reg s') ->
  t_region_id (st_tls s') = id -> t_loading_mod (st_tls s') = None -> st_reloading s' = false ->
  rt_hook_id_hd (st_rt s') = rt_hook_id_hd (st_rt s) -> registry_is s' l c' -> hosting s' l id c'.
Proof using QL.
  intros Hwb [_ Hs Hr _ _ _ Hh _] Hrun Ho Hag E1 E2 E3 E4 Hms. split; try done.
  - by apply (api_sem_keeps exec (op_call op) Hwb s rc s' Hrun).
  - by rewrite <- (Hag l).
  - by rewrite E4.
Qed.

Lemma hosting_region s l id c :
  hosting s l id c -> exists r, st_reg s !! l = Some r /\ r_id r = id /\ r_claim_handler r = None /\
    r_require_claim r = false.
Proof.
  intros [_ _ Hr _ _ _ _ _]. destruct (st_reg s !! l) as [r|]; [|done]. injection Hr as E1 E2 E3. by exists r.
Qed.

Lemma hosting_key s l id c x mx y my :
  hosting s l id c -> st_mod s !! x = Some mx -> st_mod s !! y = Some my -> m_mod_key mx = m_mod_key my -> x = y.
Proof.
  intros [Ho _ _ _ _ _ _ _] Hx Hy E. destruct (od_exact _ Ho) as (hd & _ & Hexact).
  assert (qget hd (m_mod_key my) = Some x) as H1 by (apply Hexact; by exists mx).
  assert (qget hd (m_mod_key my) = Some y) as H2 by (apply Hexact; by exists my). congruence.
Qed.

(** A registry is the same when the lists and the modules are. *)
Lemma registry_is_same s s' l c :
  st_reg s' = st_reg s -> st_mod s' = st_mod s -> registry_is s l c -> registry_is s' l c.
Proof.
  intros Er Em (ms & Hms & Hc & Hall). exists ms. split; [|by rewrite Em].
  apply (mod_list_frame s); [done|by rewrite Er|by intros; rewrite Em].
Qed.

(** Nobody has loaded another module. *)
Lemma registry_is_orphan s l c x y : registry_is s l c -> parent_in (st_mod s) x <> Some y.
Proof.
  intros (ms & _ & Hc & Hall) Hp. pose proof (Hall x (parent_in_live _ _ _ Hp)) as Hin.
  apply list_elem_of_lookup in Hin as [i Hi].
  destruct (Forall2_lookup_l _ _ _ _ _ Hc Hi) as (kn & _ & m & Hm & _ & _ & Hn & _).
  unfold parent_in in Hp. rewrite Hm in Hp. cbn in Hp. congruence.
Qed.

Lemma load_missing_step exec f s l id c :
  well_behaved exec -> hosting s l id c -> (forall tr, plat_dlopen tr (resolved f) = None) ->
  exists s', api_sem exec (Call_load f) s = Ok (XY_ERR_NOTFOUND, s') /\ hosting s' l id c.
Proof using QL.
  intros Hwb Hh Hno. pose proof Hh as [Ho _ _ Hcur Hload Hrel _ Hms].
  destruct (od_exact _ Ho) as (hd & Hhd & _).
  pose proof (xy_load_missing exec s f hd (od_running _ Ho) (od_alloc _ Ho) Hhd Hrel (Hno _)) as Hrun.
  eexists. split; [exact Hrun|]. eapply (hosting_step exec (OpLoad f)); [done|done|exact Hrun|..]; try done.
  by apply (orderly_more s); [..|apply (od_alloc _ Ho)|].
Qed.

Lemma load_again_step exec f h s l id c :
  well_behaved exec -> hosting s l id c -> (forall tr, plat_dlopen tr (resolved f) = Some (h, false)) ->
  registry_key (resolved f) id ∈ c.*1 ->
  exists s', api_sem exec (Call_load f) s = Ok (XY_OK, s') /\
    hosting s' l id (bump (registry_key (resolved f) id) c).
Proof using QL.
  intros Hwb Hh Hopen Hin. pose proof Hh as [Ho _ _ Hcur Hload Hrel _ Hms].
  destruct (od_exact _ Ho) as (hd & Hhd & Hexact).
  apply (registry_is_key s l c hd _ (od_exact _ Ho) Hhd Hms) in Hin as [e He].
  pose proof He as (m & Hm & Hk)%Hexact. rewrite <- Hcur in He.
  destruct (xy_load_reuses exec s f hd h e m (od_running _ Ho) (od_alloc _ Ho) Hhd Hrel (Hopen _) He Hm)
    as (s' & Hrun & Hrun' & Em & Er & Et & El & _ & _ & Ea & En & Erel & Ectx & _).
  destruct (orderly_refcount s e m (m_refcount m + 1) Ho Hm) as (Ho0 & Hl0 & _).
  exists s'. split; [exact Hrun|]. eapply (hosting_step exec (OpLoad f)); [done|done|exact Hrun|..].
  - apply (orderly_more (set_st_mod (<[e := set_m_refcount (m_refcount m + 1) m]> (st_mod s)) s)); try done.
    by rewrite Ea, (od_alloc _ Ho).
  - by rewrite Er.
  - by rewrite El.
  - by rewrite El.
  - by rewrite Erel.
  - by rewrite Et.
  - apply (registry_is_same (set_st_mod (<[e := set_m_refcount (m_refcount m + 1) m]> (st_mod s)) s)); [done|done|].
    destruct Hms as (ms & Hms & Hc & Hall). exists ms. split; [by apply Hl0|]. split.
    + rewrite <- Hk. apply entries_bump; [by destruct Hms as (? & _ & _ & ?)|done|done|].
      intros x mx Hx E. by eapply hosting_key.
    + intros x. cbn. rewrite lookup_insert. case_decide; [|apply Hall]. subst. intros _. apply Hall. by eexists.
Qed.

Lemma unload_missing_step exec f s l id c :
  well_behaved exec -> hosting s l id c -> registry_key (resolved f) id ∉ c.*1 ->
  exists s', api_sem exec (Call_unload f) s = Ok (XY_ERR_NOTFOUND, s') /\ hosting s' l id c.
Proof using QL.
  intros Hwb Hh Hno. pose proof Hh as [Ho _ _ Hcur Hload Hrel _ Hms].
  destruct (od_exact _ Ho) as (hd & Hhd & _).
  assert (qget hd (registry_key (resolved f) (t_region_id (st_tls s))) = None) as Hg.
  { rewrite Hcur. apply eq_None_not_Some. by rewrite <- (registry_is_key s l c hd _ (od_exact _ Ho) Hhd Hms). }
  pose proof (proj1 (xy_unload_shared exec f s hd (od_running _ Ho) (od_alloc _ Ho) Hhd) Hg) as Hrun.
  eexists. split; [exact Hrun|]. eapply (hosting_step exec (OpUnload f)); [done|done|exact Hrun|..]; try done.
  by apply (orderly_more s); [..|apply (od_alloc _ Ho)|].
Qed.

Lemma unload_step exec f s l id c :
  well_behaved exec -> quiet_cleanup exec -> hosting s l id c -> registry_key (resolved f) id ∈ c.*1 ->
  exists s', api_sem exec (Call_unload f) s = Ok (XY_OK, s') /\
    hosting s' l id (release (registry_key (resolved f) id) c).
Proof using QL.
  intros Hwb Hq Hh Hin. pose proof Hh as [Ho _ _ Hcur Hload Hrel _ Hms].
  destruct (od_exact _ Ho) as (hd & Hhd & Hexact).
  apply (registry_is_key s l c hd _ (od_exact _ Ho) Hhd Hms) in Hin as [e He].
  pose proof He as (m & Hm & Hk)%Hexact. rewrite <- Hcur in He.
  destruct (xy_unload_spec exec f s hd e Ho Hq Hhd He) as (t & L & Hrun & Ht & HL & Hc).
  assert (forall x, x ∈ L <-> x = e) as HL'.
  { intros x. rewrite HL. split; [|intros ->; constructor; by eexists].
    intros [_|x' y my _ _ _ Hp]; [done|]. by destruct (registry_is_orphan _ _ _ _ _ Hms Hp). }
  destruct (ct_rt _ _ _ Hc) as (hd' & ix' & n' & Ert).
  assert (st_tls t = st_tls s /\ st_reloading t = st_reloading s) as [Etls Erel]
    by (pose proof (ct_rest _ _ _ Hc) as E; unfold only_heaps in E; by rewrite E).
  eexists. split; [exact Hrun|]. eapply (hosting_step exec (OpUnload f)); [done|done|exact Hrun|..].
  - by apply (orderly_more t); [..|apply (od_alloc _ Ht)|].
  - apply (ct_claims _ _ _ Hc).
  - cbn. by rewrite Etls.
  - cbn. by rewrite Etls.
  - cbn. by rewrite Erel.
  - cbn. by rewrite Ert.
  - apply (registry_is_same t); [done|done|]. destruct Hms as (ms & Hms & Hcs & Hall).
    exists (filter (fun x => is_Some (st_mod t !! x)) ms). split; [by apply (ct_lists _ _ _ Hc)|]. split.
    + rewrite <- Hk. apply (entries_release (st_mod s) (st_mod t) ms c e m);
        [by destruct Hms as (? & _ & _ & ?)|done|done| | |].
      * intros x mx Hx E. by eapply hosting_key.
      * intros x Hx. apply (cut_kept L s t x Hc). by rewrite HL'.
      * rewrite (ct_mod _ _ _ Hc), Hm, bool_decide_eq_true_2 by by apply HL'. done.
    + intros x Hx. apply list_elem_of_filter. split; [done|]. apply Hall.
      destruct Hx as [mx Hx]. destruct (cut_back _ _ _ _ _ Hc Hx) as (m0 & _ & -> & _). by eexists.
Qed.

(** A module that is not loaded yet can be. *)
Lemma hosting_loadable f h g ctx s l id c :
  hosting s l id c -> plat_dlopen (st_trace s) (resolved f) = Some (h, false) ->
  plat_dlsym (Some h) "get_xy_ptr" = Some g -> plat_get_xy g = Some ctx ->
  is_Some ((list_to_map (plat_image_ctx h) : gmap loc xy_t) !! ctx) ->
  plat_dlsym (Some h) "xy_region_state_size" = None -> registry_key (resolved f) id ∉ c.*1 ->
  exists r ms hd ids, loadable s f l r ms hd ids None [] h ctx /\ r_id r = id /\
    Forall2 (entry_is (st_mod s)) ms c /\ forall x, is_Some (st_mod s !! x) -> x ∈ ms.
Proof.
  intros Hh Hopen Hg Hctx Himg Hsz Hno. pose proof Hh as [Ho Hs _ Hcur Hload Hrel [ids Hids] Hms].
  destruct (hosting_region _ _ _ _ Hh) as (r & Hr & Hid & Hc & Hq).
  destruct (od_exact _ Ho) as (hd & Hhd & _). destruct Hms as (ms & Hl & Hcs & Hall) eqn:E. clear E.
  exists r, ms, hd, ids. split; [|done]. split; [split| |].
  - apply Ho.
  - apply Ho.
  - apply Ho.
  - apply Ho.
  - apply (so_fresh _ Hs).
  - exists ids. split; [done|]. by apply (so_hooks _ Hs).
  - done.
  - done.
  - rewrite Hid. apply eq_None_not_Some. by rewrite <- (registry_is_key s l c hd _ (od_exact _ Ho) Hhd Hms).
  - done.
  - by rewrite Hcur.
  - split; [by unfold fetched; rewrite Hrel|]. by rewrite app_nil_r.
  - destruct Himg as [x Hx]. exists g. destruct (st_ctx s !! ctx) as [y|] eqn:Hy.
    + exists y. split_and!; [done|done|]. by apply lookup_union_Some_l.
    + exists x. split_and!; [done|done|]. by rewrite lookup_union_r.
  - done.
  - done.
  - done.
Qed.

Lemma load_first_step exec f h g ctx cb s l id c :
  well_behaved exec -> hosting s l id c -> (forall tr, plat_dlopen tr (resolved f) = Some (h, false)) ->
  plat_dlsym (Some h) "get_xy_ptr" = Some g -> plat_get_xy g = Some ctx ->
  is_Some ((list_to_map (plat_image_ctx h) : gmap loc xy_t) !! ctx) ->
  plat_dlsym (Some h) "xy_region_state_size" = None -> plat_dlsym (Some h) "xy_install" = Some cb ->
  quiet_install exec cb -> registry_key (resolved f) id ∉ c.*1 ->
  exists s', api_sem exec (Call_load f) s = Ok (XY_OK, s') /\
    hosting s' l id (c ++ [(registry_key (resolved f) id, 1)]).
Proof using QL.
  intros Hwb Hh Hopen Hg Hctx Himg Hsz Hcb Hqi Hno. pose proof Hh as [Ho _ _ Hcur Hlm Hrel _ Hms].
  destruct (hosting_loadable f h g ctx s l id c Hh (Hopen _) Hg Hctx Himg Hsz Hno)
    as (r & ms & hd & ids & Hload & Hid & Hcs & Hall).
  destruct (load_quiet_eq exec s f l r ms hd ids None [] h ctx cb Hload Hcb Hqi) as (me & s1 & Hin & Hrun).
  assert (orderly s1) as Ho1.
  { apply (installing_orderly s f l r ms hd ids None [] h ctx me s1); [done| | |apply Hload|done].
    - split; [|by rewrite Hlm]. intros x m y Hm Hp. destruct (registry_is_orphan s l c x y Hms).
      unfold parent_in. by rewrite Hm.
    - intros x m Hm _ [y Hp]. destruct (registry_is_orphan s l c x y Hms). unfold parent_in. by rewrite Hm. }
  pose proof Hin as [_ _ _ Hl1 _ (m & Hm & _ & Href & _ & Hpar & _ & _ & _ & Hkey & _) [Hnone Hmods] _ _ _
    (Ea & Erel & _) _ _ _ Ehooks Hregs].
  exists (after_install s s1). split; [exact Hrun|].
  eapply (hosting_step exec (OpLoad f)); [done|done|exact Hrun|..]; try done.
  - by apply (orderly_more s1).
  - apply (agree_core claim_view); [done|exact Hregs].
  - cbn. by rewrite Erel.
  - cbn. rewrite Ehooks. destruct Hload as [[]]. done.
  - apply (registry_is_same s1); [done|done|]. exists (ms ++ [me]). split; [done|]. split.
    + apply Forall2_app.
      * apply (entries_bare (st_mod s)); [|done]. intros x Hx. apply Hmods. intros ->.
        destruct (mod_list_live _ _ _ _ (ld_list _ _ _ _ _ _ _ _ _ _ _ Hload) Hx). congruence.
      * constructor; [|constructor]. exists m. rewrite Hpar, Hlm, Hkey, Hid, Href. by split_and!.
    + intros x Hx. apply elem_of_app. destruct (decide (x = me)) as [->|Hne]; [right; left|left].
      apply Hall. specialize (Hmods x Hne). destruct Hx as [mx Hx]. rewrite Hx in Hmods.
      by destruct (st_mod s !! x).
Qed.

(** One operation. *)
Lemma op_step exec op s l id c :
  well_behaved exec -> quiet_cleanup exec -> usable exec op -> hosting s l id c ->
  exists s', api_sem exec (op_call op) s = Ok ((spec_step id op c).1, s') /\
    hosting s' l id (spec_step id op c).2.
Proof using QL.
  intros Hwb Hq Hu Hh. destruct op as [f|f]; cbn [spec_step op_call].
  - unfold can_open. destruct Hu as [Hno|(h & g & ctx & cb & Hopen & Hg & Hctx & Himg & Hsz & Hcb & Hqi)].
    + rewrite Hno. by apply load_missing_step.
    + rewrite Hopen. case_decide as Hin; [by eapply load_again_step|by eapply load_first_step].
  - case_decide as Hin; [by apply unload_step|by apply unload_missing_step].
Qed.

(** C12: a host that loads and unloads modules whose xy_install does nothing, in
    any order and any number of times, sees a list of reference counts: each
    call answers the code that the list gives, and afterwards the modules of the
    region are those of the list, in its order, each registered under its key
    with its count. *)
Theorem registry_refines exec ops s l id c :
  well_behaved exec -> quiet_cleanup exec -> Forall (usable exec) ops -> hosting s l id c ->
  exists s', perform exec ops s = Ok ((spec_run id ops c).1, s') /\ hosting s' l id (spec_run id ops c).2.
Proof using QL.
  intros Hwb Hq Hu. revert s c. induction Hu as [|op ops Hop _ IH]; intros s c Hh; [by exists s|].
  destruct (op_step exec op s l id c Hwb Hq Hop Hh) as (s1 & Hrun1 & Hh1).
  cbn [spec_run perform]. destruct (spec_step id op c) as [rc c1]. cbn in Hrun1, Hh1.
  destruct (IH s1 c1 Hh1) as (s2 & Hrun2 & Hh2). destruct (spec_run id ops c1) as [rcs c2]. cbn in *.
  exists s2. split; [|done]. by rewrite (bind_Ok _ _ _ _ _ Hrun1), (bind_Ok _ _ _ _ _ Hrun2).
Qed.

End Registry.
