(* ===== verification/Service.v ===== *)
(** * Loading, unloading and calling as a service

    What a host sees that loads and unloads modules and calls their hooks in
    between: the files that are loaded, in the order of their first load, each
    with its count; a call is answered by the last of them that exports the hook.
    Any sequence of such requests does on the library what it does on that list,
    although the library answers from caches of functions, of the modules of a
    subtree and of the slots of a dispatch. *)

From S2P Require Import Prelude QMap Status State Machine ModKey Linked Region RegionTree ModList.
From S2P Require Import Runtime Vectors Paths Identity FnCache RegionApi Deny Claim Dispatch DispatchSpec.
From S2P Require Import CallSpec Areg CopyFile Load LoadSpec LoadFresh Unload UnloadSpec Cascade LoadUnload.
From S2P Require Import Lifecycle Evolve Frames System ApiSound FreeSound LoadSound UnloadSound SystemSound.
From S2P Require Import Registry.
From stdpp Require Import options.
Local Open Scope Z_scope.

(** ** The specification *)

(** A request of the host: it loads or unloads a file, or calls the hook of the
    adapter at [reg]. *)
Inductive request := Manage (op : host_op) | Ask (reg : loc) (arg : list Z).

Section Spec.
Context {P : Platform}.

(** What the file [p] exports under [name]. *)
Definition exported (name : string) (p : string) : option loc :=
  match plat_dlopen [] p with Some (h, _) => plat_dlsym (Some h) name | None => None end.

(** The files that are loaded are listed by their resolved paths. *)
Definition manage (op : host_op) (c : counts) : Z * counts :=
  match op with
  | OpLoad f =>
      if can_open f then
        (XY_OK, if decide (resolved f ∈ c.*1) then bump (resolved f) c else c ++ [(resolved f, 1)])
      else (XY_ERR_NOTFOUND, c)
  | OpUnload f =>
      if decide (resolved f ∈ c.*1) then (XY_OK, release (resolved f) c) else (XY_ERR_NOTFOUND, c)
  end.

(** [val] is what the functions of the modules compute. *)
Definition ask (val : loc -> list Z -> list Z) (a : adapter) (arg : list Z) (c : counts) : Z * list Z :=
  match last (omap (fun kn => exported (a_name a) kn.1) c) with
  | Some f => (XY_OK, ret_bytes (a_ret_size a) (val f arg))
  | None => (XY_ERR_NOTFOUND, replicate (Z.to_nat (a_ret_size a)) 0)
  end.

Definition reply (val : loc -> list Z -> list Z) (adps : gmap loc adapter) (q : request) (c : counts)
    : (Z * list Z) * counts :=
  match q with
  | Manage op => let '(rc, c) := manage op c in ((rc, []), c)
  | Ask reg arg =>
      (match adps !! reg with Some a => ask val a arg c | None => (XY_ERR_NOTFOUND, []) end, c)
  end.

Fixpoint replies val adps (qs : list request) (c : counts) : list (Z * list Z) * counts :=
  match qs with
  | [] => ([], c)
  | q :: qs =>
      let '(r, c) := reply val adps q c in
      let '(rs, c) := replies val adps qs c in (r :: rs, c)
  end.

End Spec.

(** ** Paths and keys *)

Section Keys.
Context {P : Platform}.
Implicit Types (c : counts).

(** The list as Registry.v has it, by keys. *)
Definition keyed (id : Z) : counts -> counts := fmap (fun kn => (registry_key kn.1 id, kn.2)).

#[export] Instance registry_key_inj id : Inj (=) (=) (fun p => registry_key p id).
Proof.
  intros p p' E. apply (f_equal bytes_of) in E. rewrite !registry_key_bytes in E.
  apply app_inj_2 in E as [E _]; [by apply (inj bytes_of)|done].
Qed.

Lemma keyed_fst id c : (keyed id c).*1 = (fun p => registry_key p id) <$> c.*1.
Proof. unfold keyed. rewrite <- !list_fmap_compose. by apply list_fmap_ext. Qed.

Lemma keyed_in id p c : registry_key p id ∈ (keyed id c).*1 <-> p ∈ c.*1.
Proof. rewrite keyed_fst. apply (list_elem_of_fmap_inj (fun p => registry_key p id)). Qed.

Lemma keyed_bump id p c : keyed id (bump p c) = bump (registry_key p id) (keyed id c).
Proof.
  induction c as [|[q n] c IH]; [done|]. cbn. destruct (decide (q = p)) as [->|Hne].
  - by rewrite decide_True.
  - rewrite decide_False by (intros E; by apply (inj (fun p => registry_key p id)) in E). cbn. by rewrite <- IH.
Qed.

Lemma keyed_release id p c : keyed id (release p c) = release (registry_key p id) (keyed id c).
Proof.
  induction c as [|[q n] c IH]; [done|]. cbn. destruct (decide (q = p)) as [->|Hne].
  - rewrite decide_True by done. by destruct (n <=? 1).
  - rewrite decide_False by (intros E; by apply (inj (fun p => registry_key p id)) in E). cbn. by rewrite <- IH.
Qed.

(** The two specifications of loading and unloading are one. *)
Lemma manage_keyed id op c :
  spec_step id op (keyed id c) = ((manage op c).1, keyed id (manage op c).2).
Proof.
  destruct op as [f|f]; cbn; [destruct (can_open f); [|done]|].
  - destruct (decide (resolved f ∈ c.*1)) as [Hin|Hout].
    + rewrite decide_True by by apply keyed_in. cbn. by rewrite keyed_bump.
    + rewrite decide_False by by rewrite keyed_in. cbn. f_equal. symmetry. exact (fmap_app _ c [(resolved f, 1)]).
  - destruct (decide (resolved f ∈ c.*1)) as [Hin|Hout].
    + rewrite decide_True by by apply keyed_in. cbn. by rewrite keyed_release.
    + by rewrite decide_False by by rewrite keyed_in.
Qed.

End Keys.

(** ** The library *)

Section Service.
Context {Q : QMapOps} {QL : QMapLaws Q} {P : Platform}.
Implicit Types (s : state) (m : mod_entry) (r : region_entry) (a : adapter) (c : counts).

(** A request, with what it leaves in the buffer [rp]. *)
Definition perform_request (exec : executor) (rp : loc) (q : request) : XM (Z * list Z) :=
  match q with
  | Manage op => rc ← api_sem exec (op_call op); mret (rc, [])
  | Ask reg arg =>
      rc ← api_sem exec (Call_call (Some rp) (Some reg) arg);
      a ← adapter_at reg;
      out ← mem_read rp (a_ret_size a);
      mret (rc, out)
  end.

Fixpoint serve (exec : executor) (rp : loc) (qs : list request) : XM (list (Z * list Z)) :=
  match qs with
  | [] => mret []
  | q :: qs => r ← perform_request exec rp q; rs ← serve exec rp qs; mret (r :: rs)
  end.

(** *** Requests that the specification covers *)

(** The functions of one file are not in the image of another. *)
Definition images_apart : Prop :=
  forall p q h b g b' n fn base, plat_dlopen [] p = Some (h, b) -> plat_dlopen [] q = Some (g, b') -> p <> q ->
    plat_dlsym (Some g) n = Some fn -> module_handle_base (Some h) = Some base -> plat_dladdr fn <> Some base.

(** Files as Registry.v has them, and hooks that the host has registered, whose
    results fit. *)
Definition servable (exec : executor) (adps : gmap loc adapter) (q : request) : Prop :=
  match q with
  | Manage op => usable exec op
  | Ask reg _ => exists a tr, adps !! reg = Some a /\ a_call a = Some tr /\
      tr_ret_size tr = a_ret_size a /\ 0 <= a_ret_size a <= XY_MAX_RET_SIZE
  end.

(** *** The invariant *)

(** The module [x] is an instance of the file. *)
Definition instance_of s (x : loc) (p : string) : Prop :=
  exists m h b, st_mod s !! x = Some m /\ plat_dlopen [] p = Some (h, b) /\ m_handle m = Some h /\
    is_Some (m_ctx m) /\ m_region_state m = None.

(** A module is an instance of the file that its key names. *)
Definition instances_ok s (id : Z) : Prop :=
  forall x m p, st_mod s !! x = Some m -> m_mod_key m = registry_key p id -> instance_of s x p.

Definition cache_in r (i : nat) : hook_dispatch_cache := default cache_zero (r_hook_dispatch r !! i).

(** The dispatch caches of a region that holds [ms]: each is valid or older than
    the region's generation, and they share no memory. *)
Record slots_ok s (ids : qmap string Z) r (ms : list loc) : Prop := {
  sk_gen : forall i, hc_region_gen (cache_in r i) <= r_dispatch_gen r;
  sk_valid : forall n h, qget ids n = Some h ->
    cache_valid s r h (listeners (st_reg s) (st_mod s) [] n ms);
  sk_fresh : forall i l, hc_slots (cache_in r i) = Some l -> (l < st_next s)%positive;
  sk_apart : forall i j l, i <> j -> hc_slots (cache_in r i) = Some l -> hc_slots (cache_in r j) <> Some l
}.

(** What is cached in the modules is what the loader answers. *)
Definition entries_ok s (ids : qmap string Z) : Prop :=
  forall x m n h, st_mod s !! x = Some m -> qget ids n = Some h -> entry_ok m h n.

(** The host in the region [l], [id], with the hooks [adps] and a buffer [rp]; [k]
    more requests do not exhaust the generations. *)
Record serving (adps : gmap loc adapter) (rp l : loc) (id : Z) (ids : qmap string Z) s c (k : nat) : Prop := {
  sv_hosting : hosting s l id (keyed id c);
  sv_entry : t_region_entry (st_tls s) = Some l;
  sv_registry : registry_ok s;
  sv_ids : rt_hook_id_hd (st_rt s) = Some ids;
  sv_adps : forall reg a, adps !! reg = Some a ->
    st_adp s !! reg = Some a /\ qget ids (a_name a) = Some (a_hook_id a);
  sv_entries : entries_ok s ids;
  sv_instances : instances_ok s id;
  sv_region : exists r ms, st_reg s !! l = Some r /\ mod_list s l ms /\ flagged r = false /\
    r_dispatch_gen r + Z.of_nat k < two64 /\ slots_ok s ids r ms;
  sv_buffer : exists buf, st_mem s !! rp = Some buf /\ (Z.to_nat XY_MAX_RET_SIZE <= length buf)%nat;
  sv_last : lastbuf_ok s
}.

(** *** What a step leaves of the caches *)

Lemma next_gen_small g : 1 <= g -> g + 1 < two64 -> next_gen g = g + 1.
Proof.
  intros H1 H2. unfold next_gen, wrap64. rewrite Z.mod_small by (unfold two64 in *; lia).
  by destruct (Z.eqb_spec (g + 1) 0); [lia|].
Qed.

(** With a new generation every cache is out of date. *)
Lemma slots_renewed s s' ids r r' ms ms' :
  slots_ok s ids r ms -> dispatch_view r' = dispatch_view r -> r_dispatch_gen r < r_dispatch_gen r' ->
  st_slots s' = st_slots s -> (st_next s <= st_next s')%positive -> slots_ok s' ids r' ms'.
Proof.
  intros [Hgen Hvalid Hfresh Hapart] Hv Hg Esl Hn. injection Hv as Ed _.
  assert (forall i, cache_in r' i = cache_in r i) as Ec by (intros i; unfold cache_in; by rewrite Ed).
  split.
  - intros i. rewrite Ec. specialize (Hgen i). lia.
  - intros n h Hh. destruct (Hvalid n h Hh) as (sls & Hheld & _). exists sls.
    change (default cache_zero (r_hook_dispatch r' !! Z.to_nat h)) with (cache_in r' (Z.to_nat h)).
    rewrite Ec, Esl. split; [done|]. specialize (Hgen (Z.to_nat h)). lia.
  - intros i l. rewrite Ec. intros Hl%Hfresh. lia.
  - intros i j l Hne. rewrite !Ec. by apply Hapart.
Qed.

(** With the old one they stay valid, when the listeners are the same. *)
Lemma slots_same s s' ids r ms :
  slots_ok s ids r ms -> st_slots s' = st_slots s -> (st_next s <= st_next s')%positive ->
  (forall n, listeners (st_reg s') (st_mod s') [] n ms = listeners (st_reg s) (st_mod s) [] n ms) ->
  slots_ok s' ids r ms.
Proof.
  intros [Hgen Hvalid Hfresh Hapart] Esl Hn El. split; [done| | |done].
  - intros n h Hh. unfold cache_valid. rewrite Esl, El. by apply Hvalid.
  - intros i l Hl%Hfresh. lia.
Qed.

(** *** What a step leaves of the modules *)

Definition instance_view m := (m_handle m, m_ctx m, m_region_state m).

Lemma instance_same s s' x p :
  instance_view <$> st_mod s' !! x = instance_view <$> st_mod s !! x -> instance_of s x p -> instance_of s' x p.
Proof.
  intros E (m & h & b & Hm & Hp & Hh & Hc & Hs). rewrite Hm in E. destruct (st_mod s' !! x) as [m'|] eqn:Hm'; [|done].
  injection E as E1 E2 E3. exists m', h, b. by rewrite E1, E2, E3.
Qed.

Definition entry_view m := (m_fn_cache m, m_hook_impl_bits m, m_handle m).

Lemma entry_same m m' h n : entry_view m' = entry_view m -> entry_ok m h n -> entry_ok m' h n.
Proof.
  intros E. injection E as E1 E2 E3. unfold entry_ok, module_has_hook_implemented. by rewrite E1, E2, E3.
Qed.

(** Forgetting the functions of another image. *)
Lemma entry_forgets hdl m m' h n :
  forgets hdl m m' -> m_handle m' = m_handle m ->
  (forall fn base, plat_dlsym (m_handle m) n = Some fn -> module_handle_base hdl = Some base ->
     plat_dladdr fn <> Some base) ->
  entry_ok m h n -> entry_ok m' h n.
Proof.
  intros [Eb Hfc] Eh Hap. unfold entry_ok, module_has_hook_implemented. rewrite Eb, Eh.
  destruct (m_fn_cache m !! Z.to_nat h) as [fp|] eqn:Hf.
  - destruct (Forall2_lookup_l _ _ _ _ _ Hfc Hf) as (fp' & -> & [->|(base & Hb & ->)]); [done|].
    destruct fp as [| |fn]; [done..|]. cbn. intros [Hs Hi]. by rewrite decide_False by by eapply Hap.
  - apply lookup_ge_None in Hf. rewrite (Forall2_length _ _ _ Hfc) in Hf. by rewrite (proj2 (lookup_ge_None _ _) Hf).
Qed.

(** *** Steps that change reference counts at most *)

Definition counted m : mod_entry := set_m_refcount 0 m.

Lemma serving_counts adps rp l id ids s s' c c' k :
  serving adps rp l id ids s c (S k) -> hosting s' l id (keyed id c') -> st_reg s' = st_reg s ->
  (forall x, counted <$> st_mod s' !! x = counted <$> st_mod s !! x) -> st_rt s' = st_rt s ->
  st_tls s' = st_tls s -> kept_heaps s s' ->
  (forall p (x : xy_t), st_ctx s !! p = Some x -> st_ctx s' !! p = Some x) ->
  serving adps rp l id ids s' c' k.
Proof.
  intros [Hh He Hreg Hids Hadp Hen Hi (r & ms & Hr & Hl & Hf & Hk & Hsl) Hb Hlast] Hh' Er Em Et El
    [Esl Emem Hadp' Hnx] Hctx.
  assert (forall x m', st_mod s' !! x = Some m' -> exists m, st_mod s !! x = Some m /\ counted m' = counted m) as Hback.
  { intros x m' Hm'. specialize (Em x). rewrite Hm' in Em. destruct (st_mod s !! x) as [m|]; [|done].
    apply (inj Some) in Em. by exists m. }
  assert (forall T (f : mod_entry -> T) x, (forall m, f (counted m) = f m) -> f <$> st_mod s' !! x = f <$> st_mod s !! x) as Hv.
  { intros T f x Hc. by apply (fmap_through counted). }
  split; [done|by rewrite El| |by rewrite Et| | | | |by rewrite Emem|].
  - destruct Hreg as [(hd & Hhd & Hlive) Hix Hrc]. split; [|by rewrite Et|].
    + exists hd. rewrite Et. split; [done|]. intros key x [m Hm]%Hlive. specialize (Em x). rewrite Hm in Em.
      by destruct (st_mod s' !! x).
    + intros x m' p Hm' Hc. destruct (Hback x m' Hm') as (m & Hm & E).
      assert (m_ctx m = Some p) as Hc' by (change (m_ctx (counted m) = Some p); by rewrite <- E).
      destruct (Hrc x m p Hm Hc') as [t Ht]. exists t. by apply Hctx.
  - intros reg a Ha. destruct (Hadp reg a Ha) as [H1 H2]. split; [by apply Hadp'|done].
  - intros x m' n h Hm' Hn. destruct (Hback x m' Hm') as (m & Hm & E).
    apply (entry_same m); [|by eapply Hen]. change (entry_view (counted m') = entry_view (counted m)). by rewrite E.
  - intros x m' p Hm' Hp. destruct (Hback x m' Hm') as (m & Hm & E). apply (instance_same s); [by apply Hv|].
    apply (Hi x m); [done|]. rewrite <- Hp. change (m_mod_key (counted m) = m_mod_key (counted m')). by rewrite E.
  - exists r, ms. rewrite Er. split; [done|]. split; [|split; [done|split; [lia|]]].
    + apply (mod_list_frame s); [done|by rewrite Er|]. intros x _. by apply Hv.
    + apply (slots_same s); [done..|]. intros n. unfold listeners. apply list_bind_ext; [|done]. intros x.
      unfold listener. specialize (Hv _ (fun m => (m_ctx m, m_handle m, m_load_path m)) x ltac:(done)).
      destruct (st_mod s' !! x), (st_mod s !! x); try done. injection Hv as E1 E2 E3. by rewrite E1, E2, E3.
  - unfold lastbuf_ok. by rewrite Emem.
Qed.

Lemma kept_heaps_refl s : kept_heaps s s.
Proof. by split. Qed.

Lemma counted_insert (mods : gmap loc mod_entry) e m n x :
  mods !! e = Some m -> counted <$> <[e := set_m_refcount n m]> mods !! x = counted <$> mods !! x.
Proof. intros Hm. rewrite lookup_insert. case_decide; [|done]. subst. by rewrite Hm. Qed.

Section Manage.
Context (exec : executor) (adps : gmap loc adapter) (rp l : loc) (id : Z) (ids : qmap string Z).

Lemma serve_load_missing f s s' c c' k rc :
  serving adps rp l id ids s c (S k) -> hosting s' l id (keyed id c') ->
  (forall tr, plat_dlopen tr (resolved f) = None) ->
  xy_load exec f s = Ok (rc, s') -> serving adps rp l id ids s' c' k.
Proof using QL.
  intros Hs Hh' Hno Hrun. pose proof (sv_hosting _ _ _ _ _ _ _ _ Hs) as [Ho _ _ _ _ Hrel _ _].
  destruct (od_exact _ Ho) as (hd & Hhd & _).
  rewrite (xy_load_missing exec s f hd (od_running _ Ho) (od_alloc _ Ho) Hhd Hrel (Hno _)) in Hrun.
  injection Hrun as _ <-. by eapply serving_counts.
Qed.

Lemma serve_load_again f h s s' c c' k rc :
  serving adps rp l id ids s c (S k) -> hosting s' l id (keyed id c') ->
  (forall tr, plat_dlopen tr (resolved f) = Some (h, false)) -> resolved f ∈ c.*1 ->
  xy_load exec f s = Ok (rc, s') -> serving adps rp l id ids s' c' k.
Proof using QL.
  intros Hs Hh' Hopen Hin Hrun. pose proof (sv_hosting _ _ _ _ _ _ _ _ Hs) as [Ho _ _ Hcur _ Hrel _ Hms].
  destruct (od_exact _ Ho) as (hd & Hhd & Hexact). apply (keyed_in id) in Hin.
  apply (registry_is_key s l _ hd _ (od_exact _ Ho) Hhd Hms) in Hin as [e He].
  pose proof He as (m & Hm & Hk)%Hexact. rewrite <- Hcur in He.
  destruct (xy_load_reuses exec s f hd h e m (od_running _ Ho) (od_alloc _ Ho) Hhd Hrel (Hopen _) He Hm)
    as (s2 & Hrun2 & _ & Em & Er & Et & El & _ & _ & _ & _ & _ & Hctx & Hheaps).
  rewrite Hrun2 in Hrun. injection Hrun as _ <-. eapply serving_counts; try done.
  intros x. rewrite Em. by apply counted_insert.
Qed.

Lemma serve_unload_missing f s s' c c' k rc :
  serving adps rp l id ids s c (S k) -> hosting s' l id (keyed id c') -> resolved f ∉ c.*1 ->
  xy_unload exec f s = Ok (rc, s') -> serving adps rp l id ids s' c' k.
Proof using QL.
  intros Hs Hh' Hno Hrun. pose proof (sv_hosting _ _ _ _ _ _ _ _ Hs) as [Ho _ _ Hcur _ Hrel _ Hms].
  destruct (od_exact _ Ho) as (hd & Hhd & _).
  assert (qget hd (registry_key (resolved f) (t_region_id (st_tls s))) = None) as Hg.
  { rewrite Hcur. apply eq_None_not_Some. by rewrite <- (registry_is_key s l _ hd _ (od_exact _ Ho) Hhd Hms), keyed_in. }
  rewrite (proj1 (xy_unload_shared exec f s hd (od_running _ Ho) (od_alloc _ Ho) Hhd) Hg) in Hrun.
  injection Hrun as _ <-. by eapply serving_counts.
Qed.

Lemma serve_unload_shared f s s' c c' k rc hd e m :
  serving adps rp l id ids s c (S k) -> hosting s' l id (keyed id c') -> rt_mod_hd (st_rt s) = Some hd ->
  qget hd (registry_key (resolved f) id) = Some e -> st_mod s !! e = Some m -> 1 < m_refcount m ->
  xy_unload exec f s = Ok (rc, s') -> serving adps rp l id ids s' c' k.
Proof using QL.
  intros Hs Hh' Hhd He Hm Href Hrun. pose proof (sv_hosting _ _ _ _ _ _ _ _ Hs) as [Ho _ _ Hcur _ _ _ _].
  rewrite <- Hcur in He.
  rewrite (proj1 (proj2 (xy_unload_shared exec f s hd (od_running _ Ho) (od_alloc _ Ho) Hhd) e m He Hm Href)) in Hrun.
  injection Hrun as _ <-. eapply serving_counts; try done. intros x. by apply counted_insert.
Qed.

(** *** Steps that change the list *)

Lemma serving_renewed s s' c c' k :
  serving adps rp l id ids s c (S k) -> hosting s' l id (keyed id c') ->
  t_region_entry (st_tls s') = t_region_entry (st_tls s) ->
  rt_hook_id_hd (st_rt s') = rt_hook_id_hd (st_rt s) -> kept_heaps s s' -> registry_ok s' ->
  entries_ok s' ids -> instances_ok s' id -> agree dispatch_view (st_reg s) (st_reg s') ->
  renewed l (st_reg s) (st_reg s') -> serving adps rp l id ids s' c' k.
Proof.
  intros [Hh He Hreg Hids Hadp Hen Hi (r & ms & Hr & Hl & Hf & Hk & Hsl) Hb Hlast] Hh' El Et
    [Esl Emem Hadp' Hnx] Hreg' Hen' Hi' Hv Hren.
  specialize (Hv l). rewrite Hr in Hv. destruct (st_reg s' !! l) as [r'|] eqn:Hr'; [|done].
  apply (inj Some) in Hv. specialize (Hren r r' Hr Hr').
  pose proof (tree_ok_gens _ (run_tree _ (od_running _ (ho_orderly _ _ _ _ Hh))) _ _ Hr) as Hg.
  rewrite next_gen_small in Hren by lia.
  destruct (ho_modules _ _ _ _ Hh') as (ms' & Hl' & _).
  split; [done|by rewrite El|done|by rewrite Et| |done|done| |by rewrite Emem|by unfold lastbuf_ok; rewrite Emem].
  - intros reg a Ha. destruct (Hadp reg a Ha) as [H1 H2]. split; [by apply Hadp'|done].
  - exists r', ms'. split; [done|]. split; [done|]. split; [|split; [lia|]].
    + unfold flagged in *. pose proof (f_equal snd Hv) as Ef. cbn in Ef. by rewrite <- Ef.
    + apply (slots_renewed s s' ids r r' ms ms'); [done|done|lia|done|done].
Qed.

(** The file of a module, from its key. *)
Lemma hosting_path s c x m :
  hosting s l id (keyed id c) -> st_mod s !! x = Some m ->
  exists p n, (p, n) ∈ c /\ m_mod_key m = registry_key p id /\ m_refcount m = n /\ 1 <= n.
Proof.
  intros Hh Hm. destruct (ho_modules _ _ _ _ Hh) as (ms & _ & Hms & Hall).
  destruct (list_elem_of_lookup_1 _ _ (Hall x ltac:(by eexists))) as [i Hi].
  destruct (Forall2_lookup_l _ _ _ _ _ Hms Hi) as ([key n] & Hkn & m' & Hm' & Hkey & Href & _ & Hn).
  rewrite Hm in Hm'. injection Hm' as <-. apply list_lookup_fmap_Some in Hkn as ([p n'] & E & Hc). injection E as -> ->. cbn in *.
  exists p, n'. split; [by eapply list_elem_of_lookup_2|done].
Qed.

Lemma serving_leaf s c k hd e m :
  serving adps rp l id ids s c k -> rt_mod_hd (st_rt s) = Some hd -> qget hd (m_mod_key m) = Some e ->
  st_mod s !! e = Some m -> m_refcount m <= 1 ->
  exists ms1 ms2, leaf_module s hd (m_mod_key m) e m l ms1 ms2.
Proof.
  intros Hs Hhd He Hm Href. pose proof (sv_hosting _ _ _ _ _ _ _ _ Hs) as Hh.
  pose proof Hh as [Ho _ _ _ _ _ _ Hms]. pose proof Hms as (ms & Hl & _ & Hall).
  destruct (list_elem_of_split _ _ (Hall e ltac:(by eexists))) as (ms1 & ms2 & ->).
  destruct (hosting_path s c e m Hh Hm) as (p & n & _ & _ & Hn & Hpos).
  exists ms1, ms2. split; try apply Ho; try done.
  - lia.
  - by apply (ti_path _ _ _ (od_tidy _ Ho e m Hm)).
  - intros x mx Hx Hp. destruct (registry_is_orphan s l _ x e Hms). unfold parent_in. by rewrite Hx.
Qed.

Lemma registry_ok_orderly s :
  orderly s -> (forall x m p, st_mod s !! x = Some m -> m_ctx m = Some p -> is_Some (st_ctx s !! p)) -> registry_ok s.
Proof.
  intros Ho Hctx. split; [|apply Ho|done]. destruct (od_exact _ Ho) as (hd & Hhd & Hexact).
  exists hd. split; [done|]. intros key x (m & Hm & _)%Hexact. by exists m.
Qed.

(** A module that was there before, with all but its caches and links. *)
Lemma bare_back s s' x m' :
  bare <$> st_mod s' !! x = bare <$> st_mod s !! x -> st_mod s' !! x = Some m' ->
  exists m, st_mod s !! x = Some m /\ bare m' = bare m.
Proof.
  intros E Hm'. rewrite Hm' in E. destruct (st_mod s !! x) as [m|]; [|done]. apply (inj Some) in E. by exists m.
Qed.

Lemma instance_bare s s' x p : bare <$> st_mod s' !! x = bare <$> st_mod s !! x -> instance_of s x p -> instance_of s' x p.
Proof. intros E. apply instance_same. by apply (fmap_through bare). Qed.

Lemma serve_unload_last f s s' c c' k rc hd e m :
  images_apart -> quiet_cleanup exec -> serving adps rp l id ids s c (S k) -> hosting s' l id (keyed id c') ->
  rt_mod_hd (st_rt s) = Some hd -> qget hd (registry_key (resolved f) id) = Some e -> st_mod s !! e = Some m ->
  m_refcount m <= 1 -> xy_unload exec f s = Ok (rc, s') -> serving adps rp l id ids s' c' k.
Proof using QL.
  intros Hap Hq Hs Hh' Hhd He Hm Href Hrun. pose proof (sv_hosting _ _ _ _ _ _ _ _ Hs) as Hh.
  pose proof Hh as [Ho _ _ Hcur _ _ _ _]. pose proof (sv_instances _ _ _ _ _ _ _ _ Hs) as Hi.
  assert (m_mod_key m = registry_key (resolved f) id) as Hkey.
  { destruct (od_exact _ Ho) as (hd' & E & Hexact). rewrite Hhd in E. injection E as <-.
    apply Hexact in He as (m' & Hm' & Hk). congruence. }
  destruct (serving_leaf s c (S k) hd e m Hs Hhd ltac:(by rewrite Hkey) Hm Href) as (ms1 & ms2 & Hleaf).
  destruct (mod_unload_last exec f id s hd _ e m l ms1 ms2 Hleaf (od_alloc _ Ho) Hq Hkey) as (s2 & Hun & Hul).
  assert (xy_unload exec f s = Ok (XY_OK, set_st_err XY_OK s2)) as Hrun2.
  { unfold xy_unload. rewrite with_runtime_inited by apply Ho.
    rewrite (bind_Ok (gets _) _ s s id) by (unfold gets; by rewrite Hcur). by rewrite (bind_Ok _ _ _ _ _ Hun). }
  rewrite Hrun2 in Hrun. injection Hrun as _ <-.
  pose proof Hul as [_ _ _ _ Hgone Hmods (ix & _ & Ert) _ _ _ Hdv Hren Hcs Hmem Hrest].
  destruct (Hi e m _ Hm Hkey) as (m0 & h & b & Hm0 & Hopen & Hh0 & _ & Hst0). rewrite Hm in Hm0. injection Hm0 as <-.
  assert (forall x m', st_mod s2 !! x = Some m' -> x <> e /\ exists mx, st_mod s !! x = Some mx /\ bare m' = bare mx) as Hback.
  { intros x m' Hx. assert (x <> e) as Hne by congruence. split; [done|]. by apply (bare_back s s2), Hx; apply Hmods. }
  apply (serving_renewed s _ c); try done.
  - cbn. by rewrite Hrest.
  - cbn. by rewrite Ert.
  - split; cbn; [by rewrite Hrest| |by rewrite Hrest|by rewrite Hrest]. rewrite Hmem. unfold without_state. by rewrite Hst0.
  - apply registry_ok_orderly; [apply Hh'|]. intros x m' p Hx Hp. cbn in *. destruct (Hback x m' Hx) as (_ & mx & Hmx & E).
    rewrite Hrest. apply (rg_ctx _ (sv_registry _ _ _ _ _ _ _ _ Hs) x mx); [done|].
    change (m_ctx (bare mx) = Some p). by rewrite <- E.
  - intros x m' n h' Hx Hn. cbn in Hx. destruct (Hback x m' Hx) as (Hne & mx & Hmx & E).
    specialize (Hcs x Hne). rewrite Hx, Hmx in Hcs. assert (forgets (m_handle m) mx m') as Hfg by by inversion Hcs.
    apply (entry_forgets (m_handle m) mx); [done|exact (f_equal m_handle E)| |by eapply (sv_entries _ _ _ _ _ _ _ _ Hs)].
    intros fn base Hfn Hbase. destruct (hosting_path s c x mx Hh Hmx) as (p & cnt & _ & Hkx & _).
    destruct (Hi x mx p Hmx Hkx) as (m1 & g & b' & Hm1 & Hopen' & Hg & _). rewrite Hmx in Hm1. injection Hm1 as <-.
    rewrite Hh0 in Hbase. rewrite Hg in Hfn. apply (Hap (resolved f) p h b g b' n fn base); try done.
    intros <-. apply Hne. eapply (hosting_key s l id); [done..|]. congruence.
  - intros x m' p Hx Hp. cbn in Hx. destruct (Hback x m' Hx) as (Hne & mx & Hmx & E).
    apply (instance_bare s); [by apply Hmods|]. apply (Hi x mx); [done|]. rewrite <- Hp.
    change (m_mod_key (bare mx) = m_mod_key (bare m')). by rewrite E.
Qed.

Lemma serve_load_first f h g ctx cb s s' c c' k rc :
  serving adps rp l id ids s c (S k) -> hosting s' l id (keyed id c') ->
  (forall tr, plat_dlopen tr (resolved f) = Some (h, false)) ->
  plat_dlsym (Some h) "get_xy_ptr" = Some g -> plat_get_xy g = Some ctx ->
  is_Some ((list_to_map (plat_image_ctx h) : gmap loc xy_t) !! ctx) ->
  plat_dlsym (Some h) "xy_region_state_size" = None -> plat_dlsym (Some h) "xy_install" = Some cb ->
  quiet_install exec cb -> resolved f ∉ c.*1 ->
  xy_load exec f s = Ok (rc, s') -> serving adps rp l id ids s' c' k.
Proof using QL.
  intros Hs Hh' Hopen Hg Hctx Himg Hsz Hcb Hqi Hno Hrun. pose proof (sv_hosting _ _ _ _ _ _ _ _ Hs) as Hh.
  destruct (hosting_loadable f h g ctx s l id _ Hh (Hopen _) Hg Hctx Himg Hsz ltac:(by rewrite keyed_in))
    as (r & ms & hd & ids' & Hload & Hid & _ & _).
  destruct (load_quiet_eq exec s f l r ms hd ids' None [] h ctx cb Hload Hcb Hqi) as (me & s1 & Hin & Hrun2).
  rewrite Hrun2 in Hrun. injection Hrun as _ <-.
  pose proof (ld_ids _ _ _ _ _ _ _ _ _ _ (ld_fetchable _ _ _ _ _ _ _ _ _ _ _ Hload)) as Hids.
  rewrite (sv_ids _ _ _ _ _ _ _ _ Hs) in Hids. injection Hids as <-.
  pose proof Hin as [_ _ _ _ _ (m & Hm & Hmh & _ & Hmc & _ & _ & _ & Hms & Hmk & Hwarm) [_ Hmods] _ _ _
    _ _ _ [Hnamed Htabs] Ehooks Hregs Hren Hkept Hheaps].
  assert (forall x m', x <> me -> st_mod s1 !! x = Some m' -> exists mx, st_mod s !! x = Some mx /\ bare m' = bare mx)
    as Hback by (intros x m' Hne; by apply bare_back, Hmods).
  apply (serving_renewed s _ c); try done.
  - cbn. by rewrite Ehooks, (sv_ids _ _ _ _ _ _ _ _ Hs).
  - destruct Hheaps. by split.
  - apply registry_ok_orderly; [apply Hh'|]. intros x m' p Hx Hp. cbn in *.
    destruct Hnamed as (t & Ht & _). destruct (decide (p = ctx)) as [->|Hne]; [by eexists|].
    assert (x <> me) as Hxm by congruence. destruct (Hback x m' Hxm Hx) as (mx & Hmx & E).
    destruct (rg_ctx _ (sv_registry _ _ _ _ _ _ _ _ Hs) x mx p Hmx) as [t' Ht'].
    { change (m_ctx (bare mx) = Some p). by rewrite <- E. }
    exists t'. by apply Htabs.
  - intros x m' n h' Hx Hn. cbn in Hx. destruct (decide (x = me)) as [->|Hne].
    { rewrite Hm in Hx. injection Hx as <-. by apply known_entry_ok, Hwarm. }
    specialize (Hkept x Hne). rewrite Hx in Hkept. destruct (st_mod s !! x) as [mx|] eqn:Hmx; [|done].
    apply (inj Some) in Hkept. apply (entry_same mx); [|by eapply (sv_entries _ _ _ _ _ _ _ _ Hs)].
    change (entry_view (mod_core m') = entry_view (mod_core mx)). by rewrite Hkept.
  - intros x m' p Hx Hp. cbn in Hx. destruct (decide (x = me)) as [->|Hne].
    { rewrite Hm in Hx. injection Hx as <-. rewrite Hmk, Hid in Hp.
      apply (inj (fun q => registry_key q id)) in Hp as <-. exists m, h, false. by split_and!. }
    destruct (Hback x m' Hne Hx) as (mx & Hmx & E). apply (instance_bare s); [by apply Hmods|].
    apply (sv_instances _ _ _ _ _ _ _ _ Hs x mx); [done|]. rewrite <- Hp.
    change (m_mod_key (bare mx) = m_mod_key (bare m')). by rewrite E.
  - by apply (agree_core dispatch_view).
Qed.

(** Every way in which the host manages its modules. *)
Lemma serve_manage op s c k :
  well_behaved exec -> quiet_cleanup exec -> images_apart -> usable exec op ->
  serving adps rp l id ids s c (S k) ->
  exists s', api_sem exec (op_call op) s = Ok ((manage op c).1, s') /\
    serving adps rp l id ids s' (manage op c).2 k.
Proof using QL.
  intros Hwb Hq Hap Hu Hs. pose proof (sv_hosting _ _ _ _ _ _ _ _ Hs) as Hh.
  destruct (op_step exec op s l id _ Hwb Hq Hu Hh) as (s' & Hrun & Hh'). rewrite manage_keyed in Hrun, Hh'.
  exists s'. split; [done|]. cbn [fst snd] in Hh', Hrun. revert Hh' Hrun.
  generalize (manage op c).1 as rc, (manage op c).2 as c'. intros rc c' Hh' Hrun.
  destruct op as [f|f]; cbn in Hrun.
  - destruct Hu as [Hno|(h & g & ctx & cb & Hopen & Hg & Hctx & Himg & Hsz & Hcb & Hqi)].
    + by eapply serve_load_missing.
    + destruct (decide (resolved f ∈ c.*1)); [by eapply serve_load_again|by eapply serve_load_first].
  - destruct (decide (resolved f ∈ c.*1)) as [Hin|Hno]; [|by eapply serve_unload_missing].
    pose proof Hh as [Ho _ _ _ _ _ _ Hms]. destruct (od_exact _ Ho) as (hd & Hhd & Hexact).
    apply (keyed_in id) in Hin. apply (registry_is_key s l _ hd _ (od_exact _ Ho) Hhd Hms) in Hin as [e He].
    pose proof He as (m & Hm & _)%Hexact.
    destruct (Z.lt_ge_cases 1 (m_refcount m)); [by eapply serve_unload_shared|by eapply serve_unload_last].
Qed.

End Manage.

(** *** Calls *)

(** The subtree of the host's region holds the modules of the region. *)
Lemma hosting_preorder s l id c r ms :
  hosting s l id c -> st_reg s !! l = Some r -> mod_list s l ms ->
  exists d, (d <= 65)%nat /\ preorder (st_reg s) (st_mod s) d l ms.
Proof.
  intros Hh Hr Hl. pose proof (od_running _ (ho_orderly _ _ _ _ Hh)) as Hrun.
  pose proof (run_tree _ Hrun) as Hok. pose proof (run_mods _ Hrun) as Hmods.
  destruct (preorder_exists _ _ _ Hok Hmods Hr) as [mall Hpre].
  exists (65 - Z.to_nat (r_depth r))%nat. split; [lia|].
  destruct (proj1 (preorder_members s Hok Hmods) _ _ _ Hpre) as [Hnd Hin].
  inversion Hpre as [d l0 r0 ms0 ks mss Hr0 Hms0 Hks Hmss Ed El Emall].
  rewrite Hr in Hr0. injection Hr0 as <-.
  assert (ms0 = ms) as E0.
  { destruct Hl as (r1 & Hr1 & [Hd _]). rewrite Hr in Hr1. injection Hr1 as <-.
    eapply linked_det; [done|by eapply dseg_linked]. }
  destruct mss as [|x mss]; [by rewrite <- E0, <- (app_nil_r ms0), Emall, Ed|exfalso].
  assert (x ∈ mall) as Hx by (rewrite <- Emall; apply elem_of_app; right; left).
  apply Hin in Hx as (b & _ & Hon). pose proof (on_list_entry s b x Hmods Hon) as He.
  destruct (ho_modules _ _ _ _ Hh) as (ms' & Hl' & _ & Hall). rewrite (mod_list_det s l ms' ms Hl' Hl) in Hall.
  rewrite <- Emall in Hnd. apply NoDup_app in Hnd as (_ & Hnd & _). apply (Hnd x); [|left].
  rewrite E0. apply Hall. destruct (st_mod s !! x); [by eexists|done].
Qed.

Lemma serving_instances adps rp l id ids s c k ms :
  serving adps rp l id ids s c k -> mod_list s l ms ->
  Forall2 (fun x kn => instance_of s x kn.1) ms c.
Proof.
  intros Hs Hl. destruct (ho_modules _ _ _ _ (sv_hosting _ _ _ _ _ _ _ _ Hs)) as (ms' & Hl' & Hms & _).
  rewrite (mod_list_det s l ms' ms Hl' Hl) in Hms. apply (Forall2_fmap_r _ _ ms c) in Hms.
  eapply Forall2_impl; [exact Hms|]. intros x [p n] (m & Hm & Hk & _).
  by apply (sv_instances _ _ _ _ _ _ _ _ Hs x m p Hm).
Qed.

(** The slots of the listeners are the functions that the files export. *)
Lemma listeners_exported s n ms c :
  Forall2 (fun x kn => instance_of s x kn.1) ms c ->
  let sls := listeners (st_reg s) (st_mod s) [] n ms in
  omap slot_fn sls = omap (fun kn => exported n kn.1) c /\ length (omap slot_fn sls) = length sls.
Proof.
  intros Hms. cbv zeta. unfold listeners.
  induction Hms as [|x [p cnt] ms c (m & h & b & Hm & Hp & Hh & [ctx Hc] & _) _ [IH1 IH2]]; [done|].
  cbn [mbind list_bind]. rewrite omap_app, !length_app, IH2. unfold listener at 1 3 5. rewrite Hm, Hc, Hh.
  cbn [omap list_omap fst] in *. unfold exported at 1. cbn in Hp. rewrite Hp.
  assert (chain_denies (st_reg s) [] (m_load_path m) = false) as -> by by destruct (m_load_path m).
  destruct (plat_dlsym (Some h) n) as [f|]; cbn; by rewrite <- IH1.
Qed.

Lemma listeners_ask val a arg s ms c :
  Forall2 (fun x kn => instance_of s x kn.1) ms c ->
  let sls := listeners (st_reg s) (st_mod s) [] (a_name a) ms in
  (match sls with [] => XY_ERR_NOTFOUND | _ => XY_OK end, answer_of val arg (a_ret_size a) sls) = ask val a arg c.
Proof.
  intros Hms. destruct (listeners_exported s (a_name a) ms c Hms) as [E1 E2]. cbv zeta in *.
  unfold answer_of, ask. rewrite <- E1. revert E2. clear E1.
  generalize (listeners (st_reg s) (st_mod s) [] (a_name a) ms) as sls. intros sls E2.
  destruct sls as [|sl sls]; [done|].
  destruct (last (omap slot_fn (sl :: sls))) as [f|] eqn:E; [done|].
  apply last_None in E. by rewrite E in E2.
Qed.

(** The host can call its hooks. *)
Lemma serving_call_ok adps rp l id ids s c k reg a tr r ms :
  serving adps rp l id ids s c k -> adps !! reg = Some a -> a_call a = Some tr ->
  0 <= a_ret_size a <= XY_MAX_RET_SIZE -> st_reg s !! l = Some r -> mod_list s l ms ->
  flagged r = false -> slots_ok s ids r ms ->
  exists ls, call_ok s l r reg a tr ls ms /\ chain_at r ls = [].
Proof.
  intros Hs Ha Htr Hsz Hr Hl Hf Hsl. pose proof Hs as [Hh He _ Hids Hadp Hen _ _ _ _].
  destruct (Hadp reg a Ha) as [Ha' Hid]. pose proof (ho_orderly _ _ _ _ Hh) as Ho.
  destruct (up_chain _ _ _ (run_tree _ (od_running _ Ho)) Hr) as (ls & Hls & _).
  assert (chain_at r ls = []) as Ec by (unfold chain_at; by rewrite Hf).
  destruct (so_hooks _ (ho_sound _ _ _ _ Hh)) as [_ Hhooks]. destruct (Hhooks ids Hids) as [Hrange _].
  destruct (hosting_preorder s l id _ r ms Hh Hr Hl) as (d & Hd & Hpre).
  exists ls. split; [|done]. split; try done; [apply Ho| |by rewrite Ec]. unfold call_listeners. rewrite Ec. split.
  - by apply (Hrange (a_name a)).
  - apply Ho.
  - done.
  - by exists d.
  - by apply (so_vectors _ (ho_sound _ _ _ _ Hh) l r d).
  - by apply cache_valid_expected, (sk_valid _ _ _ _ Hsl).
  - by intros b ?%not_elem_of_nil.
  - intros _ x Hx. destruct (mod_list_live _ _ _ _ Hl Hx) as [m Hm]. exists m. split; [done|]. by eapply Hen.
Qed.

(** The caches once the hook [h] is ready to be dispatched. *)
Lemma slots_ready s ids l r r' h n ms mods cc arrs nx s' :
  slots_ok s ids r ms -> hook_table_ok s -> rt_hook_id_hd (st_rt s) = Some ids -> qget ids n = Some h ->
  st_reg s !! l = Some r -> mods_step h n (st_mod s) mods -> same_but h ms r r' ->
  r_hook_dispatch r' !! Z.to_nat h = Some cc -> hc_region_gen cc = r_dispatch_gen r ->
  held arrs cc (listeners (st_reg s) (st_mod s) [] n ms) ->
  grown (cache_in r (Z.to_nat h)) cc s arrs nx ->
  st_reg s' = <[l := r']> (st_reg s) -> st_mod s' = mods -> st_slots s' = arrs -> st_next s' = nx ->
  slots_ok s' ids r' ms.
Proof.
  intros [Hgen Hvalid Hfresh Hapart] [_ Hhooks] Hids Hn Hr Hmods Hsb Hcc Hg Hheld (Hnx & Hgrow & Harrs)
    Er <- <- <-.
  destruct (Hhooks ids Hids) as [Hrange Huniq]. pose proof (same_but_gen _ _ _ _ Hsb) as Egen.
  assert (cache_in r' (Z.to_nat h) = cc) as Ecc by (unfold cache_in; by rewrite Hcc).
  assert (forall i, i <> Z.to_nat h -> cache_in r' i = cache_in r i) as Eoth by apply (sb_other _ _ _ _ Hsb).
  assert (forall i l0, i <> Z.to_nat h -> hc_slots (cache_in r i) = Some l0 -> hc_slots cc <> Some l0) as Hnew.
  { intros i l0 Hi Hl0 Hc. destruct Hgrow as [E|(l1 & E & Hl1)]; rewrite E in Hc.
    - by apply (Hapart i (Z.to_nat h) l0).
    - injection Hc as ->. apply Hfresh in Hl0. lia. }
  assert (forall n', listeners (st_reg s') (st_mod s') [] n' ms = listeners (st_reg s) (st_mod s) [] n' ms) as El.
  { intros n'. rewrite (listeners_step _ _ _ _ _ _ _ _ Hmods), Er. apply (listeners_insert _ _ _ _ _ _ r); [done|].
    intros p. by eapply same_but_denies. }
  split.
  - intros i. destruct (decide (i = Z.to_nat h)) as [->|Hi]; [rewrite Ecc; lia|]. rewrite Eoth, Egen by done. apply Hgen.
  - intros n' h' Hn'. unfold cache_valid. rewrite El. fold (cache_in r' (Z.to_nat h')).
    destruct (decide (h' = h)) as [->|Hne].
    + rewrite (Huniq n' n h Hn' Hn), Ecc. by eexists.
    + pose proof (Hrange _ _ Hn). pose proof (Hrange _ _ Hn'). rewrite Eoth, Egen by lia.
      destruct (Hvalid n' h' Hn') as (sls & Hh & Hv). exists sls. split; [|exact Hv].
      destruct Hh as (H1 & H2 & H3). split; [done|split; [done|]]. fold (cache_in r (Z.to_nat h')) in H3.
      destruct (hc_slots (cache_in r (Z.to_nat h'))) as [l0|] eqn:Hl0; [|done].
      rewrite Harrs; [done|by apply (Hfresh (Z.to_nat h'))|]. apply (Hapart (Z.to_nat h') (Z.to_nat h) l0); [lia|done].
  - intros i l0. destruct (decide (i = Z.to_nat h)) as [->|Hi].
    + rewrite Ecc. intros Hl0. destruct Hgrow as [E|(l1 & E & Hl1)]; rewrite E in Hl0.
      * apply Hfresh in Hl0. lia.
      * injection Hl0 as <-. lia.
    + rewrite Eoth by done. intros Hl0%Hfresh. lia.
  - intros i j l0 Hij. destruct (decide (i = Z.to_nat h)) as [->|Hi], (decide (j = Z.to_nat h)) as [->|Hj]; [done|..].
    + rewrite Ecc, Eoth by done. intros H1 H2. by apply (Hnew j l0).
    + rewrite Ecc, Eoth by done. by apply Hnew.
    + rewrite !Eoth by done. by apply Hapart.
Qed.

(** What a call keeps of a module. *)
Definition sans_cache m : mod_entry := set_m_fn_cache [] (set_m_hook_impl_bits [] m).

Lemma mods_step_sans h n mods mods' x :
  mods_step h n mods mods' -> sans_cache <$> mods' !! x = sans_cache <$> mods !! x.
Proof.
  intros H. specialize (H x). destruct H as [m m' [Hs _]|]; [|done]. cbn. by rewrite (cs_rest _ _ _ Hs).
Qed.

(** A step that changes caches and nothing else that the list of the loaded files
    depends on. *)
Lemma hosting_recached s s' l id c :
  hosting s l id c -> sound s' -> running s' -> agree skel (st_reg s) (st_reg s') ->
  agree claim_view (st_reg s) (st_reg s') ->
  (forall x, sans_cache <$> st_mod s' !! x = sans_cache <$> st_mod s !! x) -> st_rt s' = st_rt s ->
  t_region_id (st_tls s') = t_region_id (st_tls s) -> t_loading_mod (st_tls s') = t_loading_mod (st_tls s) ->
  st_reloading s' = st_reloading s -> st_alloc s' = st_alloc s -> hosting s' l id c.
Proof.
  intros Hh Hs' Hrun' Hsk Hcv Hm Et E1 E2 E3 E4. pose proof Hh as [Ho _ Hr Hcur Hload Hrel Hids Hms].
  assert (forall T (f : mod_entry -> T) x, (forall m, f (sans_cache m) = f m) -> f <$> st_mod s' !! x = f <$> st_mod s !! x) as Hv.
  { intros T f x Hc. by apply (fmap_through sans_cache). }
  assert (forall b ms, mod_list s b ms -> mod_list s' b ms) as Hkeep.
  { intros b ms H. apply (mod_list_frame s); [done|done|]. intros x _. by apply Hv. }
  assert (forall x y, parent_in (st_mod s') x <> Some y) as Horph.
  { intros x y Hp. destruct (registry_is_orphan s l c x y Hms). unfold parent_in in *.
    specialize (Hv _ m_parent_entry x ltac:(done)). destruct (st_mod s' !! x), (st_mod s !! x); try done.
    cbn in *. congruence. }
  assert (registry_is s' l c) as Hms'.
  { destruct Hms as (ms & Hl & Hc & Hall). exists ms. split; [by apply Hkeep|]. split.
    - apply (entries_bare (st_mod s)); [|done]. intros x _. by apply Hv.
    - intros x Hx. apply Hall. specialize (Hm x). destruct Hx as [mx Hx]. rewrite Hx in Hm. by destruct (st_mod s !! x). }
  split; [|done|by rewrite <- (Hcv l)|by rewrite E1|by rewrite E2|by rewrite E3|by rewrite Et|done].
  split; [done| |by rewrite Et; apply Ho|by rewrite E4; apply Ho| |].
  - apply (registry_exact_keys s); [apply Ho|by rewrite Et|]. intros x. by apply Hv.
  - intros x y Hp. by destruct (Horph x y).
  - intros x m' Hx. specialize (Hm x). rewrite Hx in Hm. destruct (st_mod s !! x) as [m|] eqn:Hmx; [|done].
    apply (inj Some) in Hm. destruct (od_tidy _ Ho x m Hmx) as [(a & ms & Hl & Hin) Hpath _]. split.
    + exists a, ms. split; [by apply Hkeep|done].
    + change (is_Some (m_load_path (sans_cache m'))). by rewrite Hm.
    + intros y Hy. destruct (Horph x y). unfold parent_in. by rewrite Hx.
Qed.

(** What is cached in the modules stays right. *)
Lemma entries_step s s' ids h name :
  entries_ok s ids -> hook_table_ok s -> rt_hook_id_hd (st_rt s) = Some ids -> qget ids name = Some h ->
  mods_step h name (st_mod s) (st_mod s') -> entries_ok s' ids.
Proof.
  intros Hen [_ Hhooks] Hids Hid Hmods x m' n h' Hx Hn. destruct (Hhooks ids Hids) as [Hrange Huniq].
  specialize (Hmods x). rewrite Hx in Hmods. destruct (st_mod s !! x) as [m|] eqn:Hm; [|by inversion Hmods].
  assert (cache_step h m m' /\ (entry_ok m h name -> entry_ok m' h name)) as [Hstep Hsame] by by inversion Hmods.
  destruct (decide (h' = h)) as [->|Hne].
  - rewrite (Huniq n name h Hn Hid). by apply Hsame, (Hen x).
  - eapply cache_step_entry_ok; [done|by apply (Hrange n)|done|by apply (Hen x)].
Qed.

(** After a call. *)
Lemma serving_called adps rp l id ids s s1 s' c k reg a r ms buf :
  serving adps rp l id ids s c (S k) -> adps !! reg = Some a -> st_reg s !! l = Some r -> mod_list s l ms ->
  flagged r = false -> r_dispatch_gen r + Z.of_nat (S k) < two64 -> slots_ok s ids r ms ->
  ready (call_started s (Some rp) reg) l r (a_hook_id a) (a_name a) ms
    (listeners (st_reg s) (st_mod s) [] (a_name a) ms) s1 -> call_leaves s1 s' ->
  sound s' -> running s' -> st_mem s' !! rp = Some buf -> (Z.to_nat XY_MAX_RET_SIZE <= length buf)%nat ->
  serving adps rp l id ids s' c k.
Proof using QL.
  intros Hs Ha Hr Hl Hf Hk Hsl (mods & r' & cc & arrs & nx & -> & Hmods & Hsb & Hcc & Hg & Hheld & Hgrown)
    [Est Hctx Hlast] Hsound Hrun Hbuf Hlen.
  pose proof Hs as [Hh He Hreg Hids Hadp Hen Hi _ _ _]. destruct (Hadp reg a Ha) as [_ Hid].
  assert (st_reg s' = <[l := r']> (st_reg s) /\ st_mod s' = mods /\ st_rt s' = st_rt s /\ st_slots s' = arrs /\
    st_next s' = nx /\ st_adp s' = st_adp s /\ t_region_id (st_tls s') = t_region_id (st_tls s) /\
    t_region_entry (st_tls s') = t_region_entry (st_tls s) /\ t_loading_mod (st_tls s') = t_loading_mod (st_tls s) /\
    st_reloading s' = st_reloading s /\ st_alloc s' = st_alloc s)
    as (Er & Em & Et & Esl & Enx & Ead & E1 & E2 & E3 & E4 & E5) by (rewrite Est; done).
  assert (forall T (f : mod_entry -> T) x, (forall m, f (sans_cache m) = f m) -> f <$> st_mod s' !! x = f <$> st_mod s !! x) as Hv.
  { intros T f x Hc. apply (fmap_through sans_cache); [done|]. rewrite Em. by eapply mods_step_sans. }
  assert (forall T (f : region_entry -> T), f r = f r' -> agree f (st_reg s) (st_reg s')) as Hag.
  { intros T f Hfr. rewrite Er. by apply (agree_insert f _ _ r). }
  assert (hosting s' l id (keyed id c)) as Hh'.
  { apply (hosting_recached s); try done.
    - apply Hag. by rewrite (sb_rest _ _ _ _ Hsb).
    - apply Hag. by rewrite (sb_rest _ _ _ _ Hsb).
    - intros x. by apply Hv. }
  split; try done; [by rewrite E2| |by rewrite Et|by intros; rewrite Ead; apply Hadp| | | |by exists buf].
  - apply registry_ok_orderly; [apply Hh'|]. intros x m' p Hx Hp.
    destruct (proj1 (fmap_Some _ _ _) (eq_trans (eq_sym (Hv _ m_ctx x ltac:(done))) (f_equal (fmap m_ctx) Hx))) as (m & Hm & Ec).
    destruct (rg_ctx _ Hreg x m p Hm ltac:(congruence)) as [t Ht].
    specialize (Hctx p). cbn in Hctx. rewrite Ht in Hctx. by destruct (st_ctx s' !! p).
  - rewrite <- Em in Hmods. by apply (entries_step s s' ids (a_hook_id a) (a_name a)); try done; apply Hh.
  - intros x m' p Hx Hp. pose proof (Hv _ m_mod_key x ltac:(done)) as Ek. rewrite Hx in Ek.
    destruct (st_mod s !! x) as [m|] eqn:Hm; [|done]. injection Ek as Ek.
    apply (instance_same s); [by apply Hv|]. apply (Hi x m p Hm). congruence.
  - exists r', ms. rewrite Er, lookup_insert_eq. split; [done|]. split.
    { apply (mod_list_frame s); [done|apply Hag; by rewrite (sb_rest _ _ _ _ Hsb)|]. intros x _. by apply Hv. }
    rewrite (same_but_gen _ _ _ _ Hsb). split; [|split; [lia|]].
    + unfold flagged in *. by rewrite (sb_rest _ _ _ _ Hsb).
    + by apply (slots_ready s ids l r r' (a_hook_id a) (a_name a) ms mods cc arrs nx s'); try done; apply Hh.
Qed.

Lemma serve_ask exec val adps rp l id ids s c k reg arg a tr :
  well_behaved exec -> computes exec val -> rp <> xy_last_retbuf ->
  serving adps rp l id ids s c (S k) -> adps !! reg = Some a -> a_call a = Some tr ->
  tr_ret_size tr = a_ret_size a -> 0 <= a_ret_size a <= XY_MAX_RET_SIZE ->
  exists s', perform_request exec rp (Ask reg arg) s = Ok (ask val a arg c, s') /\
    serving adps rp l id ids s' c k.
Proof using QL.
  intros Hwb Hv Hrp Hs Ha Htr Htsz Hsz.
  pose proof Hs as [Hh He Hreg Hids Hadp Hen Hi (r & ms & Hr & Hl & Hf & Hk & Hsl) (buf & Hbuf & Hlen) Hlast].
  destruct (Hadp reg a Ha) as [Ha' Hid].
  destruct (serving_call_ok adps rp l id ids s c (S k) reg a tr r ms Hs Ha Htr Hsz Hr Hl Hf Hsl) as (ls & Hok & Ec).
  assert (Z.to_nat (a_ret_size a) <= length buf)%nat as Hroom by lia.
  destruct (xy_call_result_eq exec val rp reg a tr arg s l r ls ms buf Hok Hv Hreg Htsz Hbuf Hroom Hlast Hrp)
    as (s' & Hrun & Hrun' & _ & Hbuf' & Eid & Eentry & _ & s1 & Hready & Hleaves).
  unfold call_listeners in *. rewrite Ec in *.
  pose proof (listeners_ask val a arg s ms c (serving_instances _ _ _ _ _ _ _ _ _ Hs Hl)) as Eask. cbv zeta in Eask.
  set (sls := listeners (st_reg s) (st_mod s) [] (a_name a) ms) in *.
  set (bs := answer_of val arg (a_ret_size a) sls) in *.
  assert (length bs = Z.to_nat (a_ret_size a)) as Hbs by (apply length_answer; lia).
  exists s'. split.
  - unfold perform_request. cbn [api_sem]. rewrite (bind_Ok _ _ _ _ _ Hrun).
    rewrite (bind_Ok (adapter_at reg) _ s' s' a).
    2: { apply wp_eq. eapply wp_adapter_at; [|done]. rewrite (cv_state _ _ Hleaves).
         by destruct Hready as (? & ? & ? & ? & ? & -> & _). }
    rewrite (bind_Ok (mem_read rp (a_ret_size a)) _ s' s' bs).
    + by rewrite <- Eask.
    + apply wp_eq. eapply wp_mem_read; [done|rewrite length_app; lia|]. by rewrite <- Hbs, take_app_length.
  - eapply serving_called; try done.
    + apply (api_sem_keeps exec (Call_call (Some rp) (Some reg) arg) Hwb s _ s' Hrun ltac:(done)), Hh.
    + rewrite length_app, length_drop. lia.
Qed.

Lemma serve_request exec val adps rp l id ids s c k q :
  well_behaved exec -> quiet_cleanup exec -> computes exec val -> images_apart -> rp <> xy_last_retbuf ->
  servable exec adps q -> serving adps rp l id ids s c (S k) ->
  exists s', perform_request exec rp q s = Ok ((reply val adps q c).1, s') /\
    serving adps rp l id ids s' (reply val adps q c).2 k.
Proof using QL.
  intros Hwb Hq Hv Hap Hrp Hu Hs. destruct q as [op|reg arg].
  - destruct (serve_manage exec adps rp l id ids op s c k) as (s' & Hrun & Hs'); [done..|].
    exists s'. cbn [perform_request reply]. rewrite (bind_Ok _ _ _ _ _ Hrun). by destruct (manage op c).
  - destruct Hu as (a & tr & Ha & Htr & Htsz & Hsz). cbn [reply]. rewrite Ha. by eapply serve_ask.
Qed.

(** C2: a host that loads and unloads modules whose xy_install does nothing, and
    calls hooks that only compute in between, in any order and any number of
    times up to the 2^64 generations of its region, sees a list of files with
    reference counts: each load and unload answers the code that the list gives,
    and each call answers what the last file of the list that exports the hook
    computes, or zeros and NOTFOUND when there is none, whatever the library has
    cached by then. *)
Theorem service_refines exec val adps rp l id ids qs s c :
  well_behaved exec -> quiet_cleanup exec -> computes exec val -> images_apart -> rp <> xy_last_retbuf ->
  Forall (servable exec adps) qs -> serving adps rp l id ids s c (length qs) ->
  exists s', serve exec rp qs s = Ok ((replies val adps qs c).1, s') /\
    serving adps rp l id ids s' (replies val adps qs c).2 0.
Proof using QL.
  intros Hwb Hq Hv Hap Hrp Hu. revert s c. induction Hu as [|q qs Hu _ IH]; intros s c Hs; [by exists s|].
  destruct (serve_request exec val adps rp l id ids s c (length qs) q) as (s1 & Hrun1 & Hs1); [done..|].
  cbn [replies serve]. destruct (reply val adps q c) as [r c1]. cbn in Hrun1, Hs1.
  destruct (IH s1 c1 Hs1) as (s2 & Hrun2 & Hs2). destruct (replies val adps qs c1) as [rs c2]. cbn in *.
  exists s2. split; [|done]. by rewrite (bind_Ok _ _ _ _ _ Hrun1), (bind_Ok _ _ _ _ _ Hrun2).
Qed.

End Service.
