(* ===== verification/ModApi.v ===== *)
(** * The library as a module sees it

    src/include/ttypt/xy-mod.h: a module does not call the library by name but
    through the table that the loader fills in for it, and finds there the
    region it was assigned and its state.  The table is an [xy_t] for the library
    (papi.h) and a [struct xy_ctx] for the module (xy.h): what the module reads
    is the word at the offset that its own declaration gives. *)

From S2P Require Import Prelude QMap Status State Machine ModKey Linked Region RegionTree ModList.
From S2P Require Import Runtime Vectors Paths Identity FnCache RegionApi Deny Claim Dispatch Load Unload.
From S2P Require Import Lifecycle Evolve Frames System ApiSound FreeSound LoadSound UnloadSound.
From S2P Require Import SystemSound.
From stdpp Require Import options.
Local Open Scope Z_scope.

(** ** The table *)

(** A word of the table. *)
Inductive word :=
| WordFn (f : option api)
| WordPtr (l : option loc)
| WordStr (p : option string)
| WordU64 (n : Z).

(** [struct xy_t_s]: the words in the order of papi.h. *)
Definition xy_t_words (x : xy_t) : list word :=
  [WordFn (x_call x); WordFn (x_areg x); WordFn (x_load x); WordFn (x_err x);
   WordFn (x_strerror x); WordPtr (x_adapter x); WordFn (x_last x); WordFn (x_shutdown x);
   WordStr (x_module_path x); WordU64 (x_region_id x);
   WordFn (x_deny x); WordFn (x_require_claim x); WordFn (x_region_each x);
   WordFn (x_with_region x); WordFn (x_current_region x);
   WordFn (x_unload x); WordFn (x_reload x); WordPtr (x_region_state x)].

(** [struct xy_ctx]: the members in the order of xy.h; each has eight bytes. *)
Definition xy_ctx_members : list string :=
  ["call"; "areg"; "load"; "err"; "strerror"; "adapter"; "last"; "shutdown"; "module_path";
   "region_id"; "deny"; "require_claim"; "region_each"; "with_region"; "current_region";
   "unload"; "reload"; "region_state"].

(** Which word of [struct xy_ctx] a member is. *)
Definition member_index (name : string) : option nat :=
  fst <$> list_find (fun n => n = name) xy_ctx_members.

Section ModApi.
Context {Q : QMapOps} {P : Platform}.

Definition member (n : loc) (name : string) : XM word :=
  x ← ctx_at n;
  i ← must (member_index name);
  must (xy_t_words x !! i).

(** The function of the library behind a call. *)
Definition api_of (c : api_call) : option api :=
  match c with
  | Call_load _ => Some Api_load
  | Call_unload _ => Some Api_unload
  | Call_reload _ => Some Api_reload
  | Call_call _ _ _ => Some Api_call
  | Call_areg _ _ => Some Api_areg
  | Call_last _ => Some Api_last
  | Call_errno => Some Api_errno
  | Call_deny _ _ => Some Api_deny
  | Call_require_claim _ _ => Some Api_require_claim
  | Call_region_each _ _ => Some Api_region_each
  | Call_with_region _ _ _ => Some Api_with_region
  | Call_current_region => Some Api_current_region
  | Call_shutdown => Some Api_shutdown
  | Call_init | Call_self_init_ctx _ => None
  end.

#[export] Instance api_eq_dec : EqDecision api.
Proof. solve_decision. Defined.

(** [n->name(args)]: a null pointer, or one to a function of another type, is
    undefined behaviour. *)
Definition call_member (exec : executor) (n : loc) (name : string) (c : api_call) : XM Z :=
  w ← member n name;
  match w with
  | WordFn (Some f) => if decide (api_of c = Some f) then api_sem exec c else undef
  | _ => undef
  end.

(** *** The wrappers of xy-mod.h *)

Definition xy_mod_load_ exec (n : loc) (f : string) : XM Z :=
  call_member exec n "load" (Call_load f).
Definition xy_mod_deny_ exec (n : loc) (w : string) (t : xy_deny_type) : XM Z :=
  call_member exec n "deny" (Call_deny w t).
Definition xy_mod_require_claim_ exec (n : loc) (fn : option loc) (ud : Z) : XM Z :=
  call_member exec n "require_claim" (Call_require_claim fn ud).
Definition xy_mod_region_each_ exec (n : loc) (fn : loc) (ud : Z) : XM Z :=
  call_member exec n "region_each" (Call_region_each fn ud).
Definition xy_mod_with_region_ exec (n : loc) (region_id : Z) (fn : option loc) (ud : Z) : XM Z :=
  call_member exec n "with_region" (Call_with_region region_id fn ud).
Definition xy_mod_unload_ exec (n : loc) (f : string) : XM Z :=
  call_member exec n "unload" (Call_unload f).
Definition xy_mod_reload_ exec (n : loc) (f : string) : XM Z :=
  call_member exec n "reload" (Call_reload f).

(** [xy_current_region()] and the last line of XY_CALL, with the static [xy] at
    [n]. *)
Definition mod_current_region exec (n : loc) : XM Z :=
  call_member exec n "current_region" Call_current_region.
Definition mod_call exec (n : loc) (retp reg : option loc) (args : list Z) : XM Z :=
  call_member exec n "call" (Call_call retp reg args).

(** [xy_my_region()] and XY_RS *)
Definition xy_my_region (n : loc) : XM Z :=
  w ← member n "region_id"; match w with WordU64 id => mret id | _ => undef end.
Definition XY_RS (n : loc) : XM (option loc) :=
  w ← member n "region_state"; match w with WordPtr l => mret l | _ => undef end.

(** A call as a module makes it.  xy-mod.h has no wrapper for the last six:
    they are calls of the library's own functions. *)
Definition mod_sem (exec : executor) (n : loc) (c : api_call) : XM Z :=
  match c with
  | Call_load f => xy_mod_load_ exec n f
  | Call_unload f => xy_mod_unload_ exec n f
  | Call_reload f => xy_mod_reload_ exec n f
  | Call_call retp reg args => mod_call exec n retp reg args
  | Call_deny w t => xy_mod_deny_ exec n w t
  | Call_require_claim fn ud => xy_mod_require_claim_ exec n fn ud
  | Call_region_each fn ud => xy_mod_region_each_ exec n fn ud
  | Call_with_region id fn ud => xy_mod_with_region_ exec n id fn ud
  | Call_current_region => mod_current_region exec n
  | Call_areg _ _ | Call_last _ | Call_errno | Call_shutdown | Call_init | Call_self_init_ctx _ =>
      api_sem exec c
  end.

(** A program compiled as part of a module. *)
Fixpoint run_module (exec : executor) (n : loc) (p : prog) : XM (list Z) :=
  match p with
  | Return out => mret out
  | Invoke c k => r ← mod_sem exec n c; run_module exec n (k r)
  | ReadByte l i k => b ← read_byte l i; run_module exec n (k b)
  | WriteByte l i b k => write_byte l i b;; run_module exec n k
  | ReadXy ctx k => x ← ctx_at ctx; run_module exec n (k x)
  end.

End ModApi.

(** ** Theorems *)

Section ModApiFacts.
Context {Q : QMapOps} {QL : QMapLaws Q} {P : Platform}.
Implicit Types (s : state) (n : loc).

Lemma member_eq s n x name i w :
  st_ctx s !! n = Some x -> member_index name = Some i -> xy_t_words x !! i = Some w ->
  member n name s = Ok (w, s).
Proof.
  intros Hx Hi Hw. unfold member. rewrite (bind_Ok (ctx_at n) _ s s x).
  - by rewrite (bind_Ok _ _ s s i) by (by rewrite Hi); rewrite Hw.
  - apply wp_eq. by eapply wp_ctx_at.
Qed.

(** The two declarations agree on where each member is. *)
Lemma call_member_eq exec s n x name i f c :
  st_ctx s !! n = Some x -> member_index name = Some i -> xy_t_words x !! i = Some (WordFn (Some f)) ->
  api_of c = Some f -> call_member exec n name c s = api_sem exec c s.
Proof.
  intros Hx Hi Hw Hf. unfold call_member. rewrite (bind_Ok _ _ _ _ _ (member_eq s n x name i _ Hx Hi Hw)).
  by rewrite decide_True.
Qed.

Lemma mod_sem_eq exec s n c : bound s n -> mod_sem exec n c s = api_sem exec c s.
Proof.
  intros (x & Hx & []). destruct c; try done;
    (eapply call_member_eq; [exact Hx|vm_compute; reflexivity|cbn; by do 2 f_equal|done]).
Qed.

(** [_xy_init] fills the table. *)
Lemma _xy_init_bound n fname id s a s' : _xy_init n fname id s = Ok (a, s') -> bound s' n.
Proof.
  unfold _xy_init, upd_ctx, ctx_at. intros H. binv H x s1 E. binv E o s2 E2. injection E2 as <- <-.
  destruct (st_ctx s !! n) as [x0|] eqn:Hx; [|done]. injection E as <- <-. injection H as _ <-.
  exists (fill_module_table fname id x0). cbn. rewrite lookup_insert_eq. by split.
Qed.

(** C38: code that is compiled as part of a module, and so calls the library
    through its table, does what the same code does with direct calls, once the
    table has been filled in: no call, and nothing that it leads to, takes an
    entry out of the table again. *)
Theorem run_module_eq exec n p s :
  well_behaved exec -> sound s -> bound s n -> run_module exec n p s = run exec p s.
Proof using QL.
  intros Hwb Hs Hb. assert (forall A (m : XM A) (f g : A -> XM (list Z)), preserves keeps m ->
    (forall a s', sound s' -> bound s' n -> f a s' = g a s') ->
    forall s, sound s -> bound s n -> (a ← m; f a) s = (a ← m; g a) s) as Hstep.
  { intros A m f g Hm Hfg t Ht Hbt. apply bind_ext. intros a t' E.
    destruct (Hm t a t' E ltac:(done) Ht) as [Ht' He]. apply Hfg; [done|by apply (ev_bound _ _ _ He)]. }
  revert s Hs Hb. induction p as [out|c k IH|l i k IH|l i b k IH|l k IH]; intros s Hs Hb; cbn; [done|..].
  - transitivity ((r ← api_sem exec c; run_module exec n (k r)) s).
    + unfold mbind, M_bind. by rewrite mod_sem_eq.
    + apply Hstep; [by apply api_sem_keeps|intros; by apply IH|done..].
  - apply Hstep; [apply preserves_frame_keeps, read_prog_frame|intros; by apply IH|done..].
  - apply Hstep; [apply preserves_frame_keeps, write_prog_frame|intros _ s' ? ?; by apply IH|done..].
  - apply Hstep; [apply preserves_frame_keeps, ctx_at_frame|intros; by apply IH|done..].
Qed.

(** *** The context of a hook *)

Lemma upd_ctx_eq s n x f :
  st_ctx s !! n = Some x -> upd_ctx n f s = Ok (tt, set_st_ctx (<[n := f x]> (st_ctx s)) s).
Proof. intros Hx. apply wp_eq. by eapply wp_upd_ctx. Qed.

Lemma xy_my_region_eq s n x :
  st_ctx s !! n = Some x -> xy_my_region n s = Ok (x_region_id x, s).
Proof.
  intros Hx. unfold xy_my_region.
  by rewrite (bind_Ok _ _ _ _ _ (member_eq s n x "region_id" 9 _ Hx eq_refl eq_refl)).
Qed.

Lemma XY_RS_eq s n x : st_ctx s !! n = Some x -> XY_RS n s = Ok (x_region_state x, s).
Proof.
  intros Hx. unfold XY_RS.
  by rewrite (bind_Ok _ _ _ _ _ (member_eq s n x "region_state" 17 _ Hx eq_refl eq_refl)).
Qed.

(** What a function of the module [me] finds when it is called: XY_RS is the
    module's own state, the current region is the module's. *)
Record hook_context (s s1 : state) (ctx : loc) (m : mod_entry) (x : xy_t) : Prop := {
  hx_state : XY_RS ctx s1 = Ok (m_region_state m, s1);
  hx_region : xy_my_region ctx s1 = Ok (x_region_id x, s1);
  hx_current : t_region_id (st_tls s1) = x_region_id x;
  hx_entry : t_region_entry (st_tls s1) =
    if decide (x_region_id x = t_region_id (st_tls s)) then t_region_entry (st_tls s) else m_region_entry m;
  hx_heap : st_mod s1 = st_mod s /\ st_reg s1 = st_reg s /\ st_rt s1 = st_rt s /\ st_mem s1 = st_mem s
}.

(** C39: a slot of a dispatch is called in its module's context, through a table
    that is filled in if it was, and when the function returns the result is
    stored and the caller's region put back. *)
Theorem dispatch_slot_context exec retp reg tr arg me m ctx x f s :
  st_mod s !! me = Some m -> m_ctx m = Some ctx -> st_ctx s !! ctx = Some x ->
  exists s1, hook_context s s1 ctx m x /\ (bound s ctx -> bound s1 ctx) /\
    dispatch_slot_call exec retp reg tr arg (t_region_id (st_tls s)) (Slot (Some me) (Fn f)) s =
      (out ← exec (CbHook f arg);
       (match retp with Some rp => mem_write rp (ret_bytes (tr_ret_size tr) out) | None => mret tt end);;
       (if decide (x_region_id x = t_region_id (st_tls s)) then mret tt
        else set_current_region (t_region_id (st_tls s)) (t_region_entry (st_tls s)));;
       mret true) s1.
Proof using QL.
  intros Hm Hc Hx. set (x1 := set_x_region_state (m_region_state m) (set_x_adapter (Some reg) x)).
  set (s0 := set_st_ctx (<[ctx := x1]> (st_ctx s)) s).
  assert (st_ctx s0 !! ctx = Some x1) as Hx1 by apply lookup_insert_eq.
  set (s1 := if decide (x_region_id x = t_region_id (st_tls s)) then s0 else
    set_st_tls (set_t_region_entry (m_region_entry m) (set_t_region_id (x_region_id x) (st_tls s))) s0).
  assert (st_ctx s1 = st_ctx s0) as Ec by (unfold s1; by case_decide). exists s1. split_and!.
  - split.
    + by rewrite (XY_RS_eq s1 ctx x1) by by rewrite Ec.
    + by rewrite (xy_my_region_eq s1 ctx x1) by by rewrite Ec.
    + unfold s1. by case_decide.
    + unfold s1. by case_decide.
    + unfold s1. by case_decide.
  - intros (y & Hy & Ht). exists x1. rewrite Ec, Hx1. split; [done|].
    assert (y = x) as -> by congruence. destruct Ht. by split.
  - unfold dispatch_slot_call. cbn [sl_me sl_cb].
    rewrite (bind_Ok (module_at me) _ s s m) by (apply wp_eq; by eapply wp_module_at). rewrite Hc.
    rewrite (bind_Ok _ _ _ _ _ (upd_ctx_eq s ctx x _ Hx)). set (s2 := set_st_ctx _ s).
    assert (upd_ctx ctx (set_x_region_state (m_region_state m)) s2 = Ok (tt, s0)) as E2.
    { rewrite (upd_ctx_eq s2 ctx (set_x_adapter (Some reg) x)) by apply lookup_insert_eq.
      unfold s2, s0. cbn. by rewrite insert_insert_eq. }
    rewrite (bind_Ok _ _ _ _ _ E2).
    rewrite (bind_Ok (ctx_at ctx) _ s0 s0 x1) by (apply wp_eq; by eapply wp_ctx_at).
    rewrite (bind_Ok (gets _) _ s0 s0 (t_region_entry (st_tls s)) eq_refl).
    unfold s1. cbn [x_region_id x1 set_x_region_state set_x_adapter eta_xy_t].
    destruct (Z.eqb_spec (x_region_id x) (t_region_id (st_tls s))) as [E|E]; cbn [negb].
    + rewrite !decide_True by done. unfold adapter_call, mbind, M_bind. cbn.
      destruct (exec (CbHook f arg) s0) as [[out s3]| |]; [|done..].
      destruct retp as [rp|]; [|done]. by destruct (mem_write rp _ s3) as [[[] s4]| |].
    + rewrite !decide_False by done. unfold adapter_call, mbind, M_bind. cbn.
      destruct (exec (CbHook f arg) _) as [[out s3]| |]; [|done..].
      destruct retp as [rp|]; [|done]. by destruct (mem_write rp _ s3) as [[[] s4]| |].
Qed.

End ModApiFacts.
