(* ===== verification/Watch.v ===== *)
(** * The watcher: its table and its critical sections

    src/libxylem-watch.c keeps a table of module paths, watches their files with
    inotify and reloads a module when its file changes.  Everything that runs
    with [g_mu] held is defined here; WatchThreads.v puts the critical sections
    together to threads that interleave. *)

From S2P Require Import Prelude State.
From stdpp Require Import options.
Local Open Scope Z_scope.

Definition XY_WATCH_MAX : nat := 256.

(** The bits of <sys/inotify.h>. *)
Definition IN_CLOSE_WRITE : Z := 8.
Definition IN_MOVED_TO : Z := 128.
Definition XY_WATCH_MASK : Z := Z.lor IN_CLOSE_WRITE IN_MOVED_TO.

(** ENOMEM of <errno.h> *)
Definition ENOMEM : Z := 12.

(** [struct inotify_event], less the members that the code does not read *)
Record inotify_event := InotifyEvent { ev_wd : Z; ev_mask : Z }.

(** [xy_watch_entry_t] *)
Record watch_entry := WatchEntry { we_fname : option loc; we_wd : Z }.

(** The system calls with an effect outside the process. *)
Inductive kernel_event :=
| KInotify_init | KPipe | KThread_create | KStrdup
| KAdd_watch (fd : Z) (path : string)
| KRm_watch (fd wd : Z).

(** What the system answers, given the calls made before and, for calls that
    open a descriptor, those that are open: a negative number or [None] is a
    failure, and [wk_thread_create] answers 0 when the thread has started. *)
Class WatchKernel := {
  wk_inotify_init1 : list kernel_event -> gset Z -> Z;
  wk_pipe : list kernel_event -> gset Z -> option (Z * Z);
  wk_add_watch : list kernel_event -> Z -> string -> Z;
  wk_thread_create : list kernel_event -> Z;
  wk_strdup : list kernel_event -> bool
}.

(** A new descriptor is not negative and is not open already. *)
Class WatchKernelLaws (K : WatchKernel) := {
  wk_inotify_fresh : forall tr fds, (wk_inotify_init1 tr fds) ∉ fds;
  wk_pipe_fresh : forall tr fds r w, wk_pipe tr fds = Some (r, w) ->
    (0 <= r) /\ (0 <= w) /\ (r <> w) /\ (r ∉ fds) /\ (w ∉ fds)
}.

(** Where the thread that runs [watcher_thread] is. *)
Inductive watcher_pc :=
| PcSelect                                           (* at the top of the loop *)
| PcRead                                             (* the inotify descriptor is readable *)
| PcEvents (evs : list inotify_event)                (* the loop over the buffer *)
| PcLockFind (ev : inotify_event) (evs : list inotify_event)
| PcFind (ev : inotify_event) (evs : list inotify_event)       (* g_mu held *)
| PcLockReload (fname_copy : loc) (evs : list inotify_event)
| PcReload (fname_copy : loc) (evs : list inotify_event)       (* g_mu held *)
| PcExited.

(** The static variables, the strings they own, the descriptors that are open
    (with the pipes that hold an unread byte, named by their read ends), and the
    watcher threads that have not been joined.  [w_errno] is the last errno that
    the code sets itself. *)
Record wstate := WState {
  w_thread : option loc;
  w_ifd : Z;
  w_running : bool;
  w_entries : list watch_entry;
  w_entry_count : nat;
  w_pipe_r : Z;
  w_pipe_w : Z;
  w_errno : Z;
  w_str : gmap loc string;
  w_fds : gset Z;
  w_peer : gmap Z Z;
  w_unread : gset Z;
  w_watchers : gmap loc watcher_pc;
  w_next : loc;
  w_trace : list kernel_event
}.

Definition eta_wstate (w : wstate) : wstate :=
  WState (w_thread w) (w_ifd w) (w_running w) (w_entries w) (w_entry_count w) (w_pipe_r w)
    (w_pipe_w w) (w_errno w) (w_str w) (w_fds w) (w_peer w) (w_unread w) (w_watchers w)
    (w_next w) (w_trace w).

Definition set_w_thread := ltac:(setter eta_wstate w_thread).
Definition set_w_ifd := ltac:(setter eta_wstate w_ifd).
Definition set_w_running := ltac:(setter eta_wstate w_running).
Definition set_w_entries := ltac:(setter eta_wstate w_entries).
Definition set_w_entry_count := ltac:(setter eta_wstate w_entry_count).
Definition set_w_pipe_r := ltac:(setter eta_wstate w_pipe_r).
Definition set_w_pipe_w := ltac:(setter eta_wstate w_pipe_w).
Definition set_w_errno := ltac:(setter eta_wstate w_errno).
Definition set_w_str := ltac:(setter eta_wstate w_str).
Definition set_w_fds := ltac:(setter eta_wstate w_fds).
Definition set_w_peer := ltac:(setter eta_wstate w_peer).
Definition set_w_unread := ltac:(setter eta_wstate w_unread).
Definition set_w_watchers := ltac:(setter eta_wstate w_watchers).
Definition set_w_next := ltac:(setter eta_wstate w_next).
Definition set_w_trace := ltac:(setter eta_wstate w_trace).

(** The initial values of the static variables. *)
Definition watch_start_state : wstate :=
  WState None (-1) false (replicate XY_WATCH_MAX (WatchEntry None 0)) 0 (-1) (-1) 0
    ∅ ∅ ∅ ∅ ∅ 1 [].

Abbreviation WM := (M wstate).

Section Watch.
Context {K : WatchKernel}.

(** ** System calls *)

Definition kemit (ev : kernel_event) : WM unit :=
  modify (fun w => set_w_trace (w_trace w ++ [ev]) w).

Definition inotify_init1 : WM Z :=
  fd ← gets (fun w => wk_inotify_init1 (w_trace w) (w_fds w));
  kemit KInotify_init;;
  (if fd <? 0 then mret tt else modify (fun w => set_w_fds ({[fd]} ∪ w_fds w) w));;
  mret fd.

Definition pipe : WM (option (Z * Z)) :=
  p ← gets (fun w => wk_pipe (w_trace w) (w_fds w));
  kemit KPipe;;
  match p with
  | None => mret None
  | Some (rd, wr) =>
      modify (fun w => set_w_fds ({[rd; wr]} ∪ w_fds w) w);;
      modify (fun w => set_w_peer (<[wr := rd]> (w_peer w)) w);;
      mret (Some (rd, wr))
  end.

(** A byte written to a pipe makes its read end readable; the write fails when
    the read end is closed. *)
Definition write_byte (fd : Z) : WM unit :=
  modify (fun w => match w_peer w !! fd with
                   | Some rd => if decide (rd ∈ w_fds w) then set_w_unread ({[rd]} ∪ w_unread w) w
                                else w
                   | None => w
                   end).

(** Closing a descriptor that is not open has no effect. *)
Definition close (fd : Z) : WM unit :=
  modify (fun w => set_w_fds (w_fds w ∖ {[fd]}) w);;
  modify (fun w => set_w_peer (delete fd (w_peer w)) w);;
  modify (fun w => set_w_unread (w_unread w ∖ {[fd]}) w).

Definition inotify_add_watch (fd : Z) (path : string) : WM Z :=
  wd ← gets (fun w => wk_add_watch (w_trace w) fd path);
  kemit (KAdd_watch fd path);;
  mret wd.

Definition inotify_rm_watch (fd wd : Z) : WM unit := kemit (KRm_watch fd wd).

(** [pthread_create(&g_thread, NULL, watcher_thread, NULL)] *)
Definition create_watcher : WM Z :=
  ret ← gets (fun w => wk_thread_create (w_trace w));
  kemit KThread_create;;
  (if ret =? 0 then
     t ← gets w_next;
     modify (set_w_next (Pos.succ t));;
     modify (fun w => set_w_watchers (<[t := PcSelect]> (w_watchers w)) w);;
     modify (set_w_thread (Some t))
   else mret tt);;
  mret ret.

(** ** Strings *)

Definition string_at (p : option loc) : WM string :=
  l ← must p; gets (fun w => w_str w !! l) ≫= must.

Definition strdup (str : string) : WM (option loc) :=
  ok ← gets (fun w => wk_strdup (w_trace w));
  kemit KStrdup;;
  if ok : bool then
    l ← gets w_next;
    modify (set_w_next (Pos.succ l));;
    modify (fun w => set_w_str (<[l := str]> (w_str w)) w);;
    mret (Some l)
  else mret None.

(** Freeing what is not allocated is undefined, except for NULL. *)
Definition free_str (p : option loc) : WM unit :=
  match p with
  | None => mret tt
  | Some l =>
      (gets (fun w => w_str w !! l) ≫= must);;
      modify (fun w => set_w_str (delete l (w_str w)) w)
  end.

(** ** The table *)

Definition entry_at (i : nat) : WM watch_entry := gets (fun w => w_entries w !! i) ≫= must.
Definition put_entry (i : nat) (e : watch_entry) : WM unit :=
  entry_at i;; modify (fun w => set_w_entries (<[i := e]> (w_entries w)) w).

(** The size of the buffer bounds what is written, the NUL included. *)
Definition make_so_path (fname : string) (buf_len : nat) : option string :=
  if decide (String.length fname + 3 < buf_len)%nat then Some (fname +:+ ".so") else None.

(** [for (i = ...; i < ...; i++) if (...) return i; return -1;], with [n] turns *)
Fixpoint find_loop (test : watch_entry -> WM bool) (n i : nat) : WM (option nat) :=
  match n with
  | O => mret None
  | S n' =>
      e ← entry_at i;
      b ← test e;
      if b : bool then mret (Some i) else find_loop test n' (S i)
  end.

Definition entry_find (fname : string) : WM (option nat) :=
  n ← gets w_entry_count;
  find_loop (fun e => str ← string_at (we_fname e); mret (bool_decide (str = fname))) n 0.

Definition entry_find_by_wd (wd : Z) : WM (option nat) :=
  n ← gets w_entry_count;
  find_loop (fun e => mret (bool_decide (we_wd e = wd))) n 0.

Definition entry_rewatch (i : nat) : WM unit :=
  ifd ← gets w_ifd;
  if ifd <? 0 then mret tt
  else
    e ← entry_at i;
    fname ← string_at (we_fname e);
    match make_so_path fname 4096 with
    | None => mret tt
    | Some path =>
        wd ← inotify_add_watch ifd path;
        put_entry i (WatchEntry (we_fname e) wd)
    end.

(** [for (; i < i + n; i++) body(i);] *)
Fixpoint for_loop (body : nat -> WM unit) (n i : nat) : WM unit :=
  match n with O => mret tt | S n' => body i;; for_loop body n' (S i) end.

(** ** The interface, between [pthread_mutex_lock] and [pthread_mutex_unlock] *)

Definition close_all : WM unit :=
  ifd ← gets w_ifd; close ifd;; modify (set_w_ifd (-1));;
  rd ← gets w_pipe_r; close rd;; modify (set_w_pipe_r (-1));;
  wr ← gets w_pipe_w; close wr;; modify (set_w_pipe_w (-1)).

Definition xy_watch_start : WM Z :=
  running ← gets w_running;
  if running : bool then mret 0
  else
    ifd ← inotify_init1;
    modify (set_w_ifd ifd);;
    if ifd <? 0 then mret (-1)
    else
      p ← pipe;
      match p with
      | None => close ifd;; modify (set_w_ifd (-1));; mret (-1)
      | Some (rd, wr) =>
          modify (set_w_pipe_r rd);;
          modify (set_w_pipe_w wr);;
          n ← gets w_entry_count;
          for_loop entry_rewatch n 0;;
          ret ← create_watcher;
          if negb (ret =? 0) then
            close_all;; modify (set_w_errno ret);; mret (-1)
          else modify (set_w_running true);; mret 0
      end.

(** The first half of [xy_watch_stop]: whether there is a thread to join. *)
Definition xy_watch_stop_signal : WM bool :=
  running ← gets w_running;
  if negb running then mret false
  else
    wr ← gets w_pipe_w;
    write_byte wr;;
    modify (set_w_running false);;
    mret true.

(** The second half, after [pthread_join]. *)
Definition xy_watch_stop_release : WM unit :=
  close_all;;
  n ← gets w_entry_count;
  for_loop (fun i => e ← entry_at i; put_entry i (WatchEntry (we_fname e) (-1))) n 0.

Definition xy_watch_add (fname : string) : WM Z :=
  idx ← entry_find fname;
  match idx with
  | Some _ => mret 0
  | None =>
      count ← gets w_entry_count;
      if decide (XY_WATCH_MAX <= count)%nat then modify (set_w_errno ENOMEM);; mret (-1)
      else
        copy ← strdup fname;
        match copy with
        | None => mret (-1)
        | Some copy =>
            modify (set_w_entry_count (S count));;
            put_entry count (WatchEntry (Some copy) (-1));;
            ifd ← gets w_ifd;
            (if 0 <=? ifd then entry_rewatch count else mret tt);;
            mret 0
        end
  end.

(** [g_entries[i] = g_entries[i + 1];] *)
Definition shift_entry (i : nat) : WM unit := e ← entry_at (S i); put_entry i e.

Definition xy_watch_remove (fname : string) : WM unit :=
  idx ← entry_find fname;
  match idx with
  | None => mret tt
  | Some idx =>
      e ← entry_at idx;
      ifd ← gets w_ifd;
      (if (0 <=? ifd) && (0 <=? we_wd e) then inotify_rm_watch ifd (we_wd e) else mret tt);;
      free_str (we_fname e);;
      count ← gets w_entry_count;
      for_loop shift_entry (count - 1 - idx) idx;;
      modify (set_w_entry_count (count - 1))
  end.

(** The first critical section of [watcher_thread]: the copy of the path of the
    module to reload, if there is one. *)
Definition watcher_find (ev : inotify_event) : WM (option loc) :=
  idx ← entry_find_by_wd (ev_wd ev);
  match idx with
  | None => mret None
  | Some idx =>
      e ← entry_at idx;
      fname ← string_at (we_fname e);
      fname_copy ← strdup fname;
      (if negb (Z.land (ev_mask ev) IN_MOVED_TO =? 0) then entry_rewatch idx else mret tt);;
      mret fname_copy
  end.

End Watch.
