(* ===== verification/WatchSpec.v ===== *)
(** * The watcher: theorems about its critical sections

    The table of watched modules refines a list of paths with their watch
    descriptors; each critical section of src/libxylem-watch.c is an operation
    on that list. *)

From S2P Require Import Prelude State Watch.
From stdpp Require Import options.
Local Open Scope Z_scope.

(** ** Definitions *)

(** The entries for the paths and descriptors in [tab], whose strings are at
    [locs]. *)
Definition slots (locs : list loc) (tab : list (string * Z)) : list watch_entry :=
  zip_with (fun l p => WatchEntry (Some l) p.2) locs tab.

(** The array holds [tab] in its first [g_entry_count] entries; each entry owns
    its string, and no path occurs twice. *)
Record table (w : wstate) (locs : list loc) (tab : list (string * Z)) : Prop := {
  tb_entries : exists stale, w_entries w = slots locs tab ++ stale;
  tb_size : length (w_entries w) = XY_WATCH_MAX;
  tb_count : w_entry_count w = length tab;
  tb_str : Forall2 (fun l p => w_str w !! l = Some p.1) locs tab;
  tb_locs : NoDup locs;
  tb_names : NoDup tab.*1
}.

(** The first entry with a path, and the first with a descriptor. *)
Definition path_index (fname : string) (tab : list (string * Z)) : option nat :=
  fst <$> list_find (fun p => p.1 = fname) tab.
Definition wd_index (wd : Z) (tab : list (string * Z)) : option nat :=
  fst <$> list_find (fun p => p.2 = wd) tab.

Definition set_wd (i : nat) (l : loc) (x : Z * list kernel_event) (w : wstate) : wstate :=
  set_w_entries (<[i := WatchEntry (Some l) x.1]> (w_entries w)) (set_w_trace x.2 w).

(** An operation on the descriptors of all entries in turn. *)
Fixpoint sweep (h : list kernel_event -> string * Z -> Z * list kernel_event)
    (tr : list kernel_event) (tab : list (string * Z)) : list (string * Z) * list kernel_event :=
  match tab with
  | [] => ([], tr)
  | p :: rest =>
      let x := h tr p in
      let y := sweep h x.2 rest in ((p.1, x.1) :: y.1, y.2)
  end.

(** What the critical sections of the table leave alone. *)
Definition control (w : wstate) :=
  (w_thread w, w_ifd w, w_running w, (w_pipe_r w, w_pipe_w w), (w_fds w, w_peer w, w_unread w),
   w_watchers w).

Lemma second_of_three (a b c : Z) : b ∈ ({[a; b; c]} : gset Z).
Proof. set_solver. Qed.

Lemma three_minus (a b c : Z) : ({[a; b; c]} : gset Z) ∖ {[a]} ∖ {[b]} ∖ {[c]} = ∅.
Proof. apply set_eq. intros x. set_solver. Qed.

Section WatchSpec.
Context {K : WatchKernel}.
Implicit Types (w : wstate) (locs : list loc) (tab : list (string * Z)) (p : string * Z).

(** The descriptor an entry has after a request for it, and the calls made. *)
Definition asked (ifd : Z) (tr : list kernel_event) p : Z * list kernel_event :=
  if ifd <? 0 then (p.2, tr)
  else match make_so_path p.1 4096 with
       | None => (p.2, tr)
       | Some path => (wk_add_watch tr ifd path, tr ++ [KAdd_watch ifd path])
       end.

(** ** The table *)

Lemma slots_lookup locs tab i l p :
  locs !! i = Some l -> tab !! i = Some p -> slots locs tab !! i = Some (WatchEntry (Some l) p.2).
Proof. intros Hl Hp. unfold slots. rewrite lookup_zip_with, Hl. cbn. by rewrite Hp. Qed.

Lemma slots_length locs tab : length locs = length tab -> length (slots locs tab) = length tab.
Proof. intros H. unfold slots. rewrite length_zip_with, H. lia. Qed.

Lemma table_length w locs tab : table w locs tab -> length locs = length tab.
Proof. intros H. by eapply Forall2_length, tb_str. Qed.

Lemma table_bound w locs tab : table w locs tab -> (length tab <= XY_WATCH_MAX)%nat.
Proof.
  intros H. pose proof (table_length _ _ _ H) as Hl. destruct (tb_entries _ _ _ H) as [stale E].
  rewrite <- (tb_size _ _ _ H), E, length_app, slots_length by done. lia.
Qed.

Lemma table_at w locs tab i p :
  table w locs tab -> tab !! i = Some p ->
  exists l, locs !! i = Some l /\ w_entries w !! i = Some (WatchEntry (Some l) p.2) /\
    w_str w !! l = Some p.1.
Proof.
  intros H Hp. destruct (tb_entries _ _ _ H) as [stale E].
  destruct (Forall2_lookup_r _ _ _ _ _ (tb_str _ _ _ H) Hp) as (l & Hl & Hs).
  exists l. split_and!; [done| |done]. rewrite E. apply lookup_app_l_Some. by apply slots_lookup.
Qed.

Lemma table_frame w w' locs tab :
  table w locs tab -> w_entries w' = w_entries w -> w_entry_count w' = w_entry_count w ->
  (forall l, l ∈ locs -> w_str w' !! l = w_str w !! l) -> table w' locs tab.
Proof.
  intros H Ee Ec Es. destruct H as [[stale He] Hz Hc Hs Hl Hn].
  split; [exists stale; by rewrite Ee|by rewrite Ee|by rewrite Ec| |done|done].
  apply Forall2_same_length_lookup. apply Forall2_same_length_lookup in Hs as [Hlen Hs].
  split; [done|]. intros i l p Hli Hpi. rewrite Es; [by eapply Hs|by eapply list_elem_of_lookup_2].
Qed.

(** What starting, stopping and signalling leave of the table. *)
Definition same_table w w' : Prop :=
  w_entries w' = w_entries w /\ w_entry_count w' = w_entry_count w /\ w_str w' = w_str w.

Lemma table_same w w' locs tab : table w locs tab -> same_table w w' -> table w' locs tab.
Proof. intros H (E1 & E2 & E3). eapply table_frame; [done..|]. by rewrite E3. Qed.

Lemma table_set_wd w locs tab i l p x :
  table w locs tab -> locs !! i = Some l -> tab !! i = Some p ->
  table (set_wd i l x w) locs (<[i := (p.1, x.1)]> tab).
Proof.
  intros H Hl Hp. pose proof (lookup_lt_Some _ _ _ Hp) as Hlt.
  pose proof (table_length _ _ _ H) as Hlen. destruct H as [[stale He] Hz Hc Hs Hnd Hn].
  split; cbn.
  - exists stale. rewrite He, insert_app_l by by rewrite slots_length. f_equal.
    apply list_eq. intros j. unfold slots. rewrite lookup_zip_with.
    destruct (decide (i = j)) as [<-|Hj].
    + rewrite Hl. cbn. rewrite !list_lookup_insert_eq; [done|done|by rewrite slots_length].
    + by rewrite !list_lookup_insert_ne, lookup_zip_with.
  - by rewrite length_insert.
  - by rewrite length_insert.
  - rewrite <- (list_insert_id locs i l Hl). apply Forall2_insert; [done|].
    eapply Forall2_lookup_lr in Hs; [|done..]. done.
  - done.
  - rewrite list_fmap_insert. cbn. rewrite list_insert_id; [done|]. by rewrite list_lookup_fmap, Hp.
Qed.

Lemma set_wd_id w locs tab i l p :
  table w locs tab -> locs !! i = Some l -> tab !! i = Some p -> set_wd i l (p.2, w_trace w) w = w.
Proof.
  intros H Hl Hp. destruct (table_at _ _ _ _ _ H Hp) as (l' & Hl' & He & _).
  rewrite Hl in Hl'. injection Hl' as <-. unfold set_wd. cbn. rewrite list_insert_id by done.
  by destruct w.
Qed.

(** ** The loops *)

Lemma wp_entry_at i e w (P : watch_entry -> wstate -> Prop) :
  w_entries w !! i = Some e -> P e w -> wp (entry_at i) w P.
Proof. intros H HP. unfold entry_at. rewrite wp_bind, wp_gets. by eapply wp_must. Qed.

Lemma entry_at_eq i e w : w_entries w !! i = Some e -> entry_at i w = Ok (e, w).
Proof. intros H. apply wp_eq. by eapply wp_entry_at. Qed.

Lemma put_entry_eq i e e' w :
  w_entries w !! i = Some e ->
  put_entry i e' w = Ok (tt, set_w_entries (<[i := e']> (w_entries w)) w).
Proof. intros H. unfold put_entry. by rewrite (bind_Ok _ _ _ _ _ (entry_at_eq _ _ _ H)). Qed.

Lemma string_at_eq l str w : w_str w !! l = Some str -> string_at (Some l) w = Ok (str, w).
Proof.
  intros H. unfold string_at. rewrite (bind_Ok (must (Some l)) _ w w l) by done.
  rewrite (bind_Ok (gets _) _ w w (w_str w !! l)) by done. by rewrite H.
Qed.

Lemma find_loop_eq (test : watch_entry -> WM bool) (Pr : string * Z -> Prop)
    {Hdec : forall p, Decision (Pr p)} w locs tab n i :
  table w locs tab ->
  (forall j e p, w_entries w !! j = Some e -> tab !! j = Some p -> (exists l,
     e = WatchEntry (Some l) p.2 /\ w_str w !! l = Some p.1) ->
     test e w = Ok (bool_decide (Pr p), w)) ->
  (i + n = length tab)%nat ->
  find_loop test n i w = Ok ((fun x => (i + x.1)%nat) <$> list_find Pr (drop i tab), w).
Proof.
  intros H Ht. revert i. induction n as [|n IH]; intros i Hn.
  { by rewrite drop_ge by lia. }
  destruct (lookup_lt_is_Some_2 tab i) as [p Hp]; [lia|].
  destruct (table_at _ _ _ _ _ H Hp) as (l & Hl & He & Hs).
  cbn [find_loop]. rewrite (bind_Ok _ _ _ _ _ (entry_at_eq _ _ _ He)).
  rewrite (bind_Ok _ _ _ _ _ (Ht i _ p He Hp (ex_intro _ l (conj eq_refl Hs)))).
  rewrite (drop_S _ _ _ Hp). cbn [list_find]. case_bool_decide as HPr.
  - rewrite decide_True by done. cbn. by rewrite Nat.add_0_r.
  - rewrite decide_False by done. rewrite IH by lia. do 2 f_equal.
    rewrite <- option_fmap_compose. apply option_fmap_ext. intros [j q]. cbn. lia.
Qed.

Lemma entry_find_eq fname w locs tab :
  table w locs tab -> entry_find fname w = Ok (path_index fname tab, w).
Proof.
  intros H. unfold entry_find.
  rewrite (bind_Ok (gets _) _ w w (w_entry_count w)) by done. rewrite (tb_count _ _ _ H).
  rewrite (find_loop_eq _ (fun p => p.1 = fname) w locs tab _ 0); [done|done| |done].
  intros j e p He Hp (l & -> & Hs). cbn [we_fname].
  by rewrite (bind_Ok _ _ _ _ _ (string_at_eq _ _ _ Hs)).
Qed.

Lemma entry_find_by_wd_eq wd w locs tab :
  table w locs tab -> entry_find_by_wd wd w = Ok (wd_index wd tab, w).
Proof.
  intros H. unfold entry_find_by_wd.
  rewrite (bind_Ok (gets _) _ w w (w_entry_count w)) by done. rewrite (tb_count _ _ _ H).
  rewrite (find_loop_eq _ (fun p => p.2 = wd) w locs tab _ 0); [done|done| |done].
  intros j e p He Hp (l & -> & Hs). done.
Qed.

Lemma entry_rewatch_eq w locs tab i l p :
  table w locs tab -> locs !! i = Some l -> tab !! i = Some p ->
  entry_rewatch i w = Ok (tt, set_wd i l (asked (w_ifd w) (w_trace w) p) w).
Proof.
  intros H Hl Hp. destruct (table_at _ _ _ _ _ H Hp) as (l' & Hl' & He & Hs).
  rewrite Hl in Hl'. injection Hl' as <-. pose proof (set_wd_id _ _ _ _ _ _ H Hl Hp) as Hid.
  unfold entry_rewatch, asked. rewrite (bind_Ok (gets _) _ w w (w_ifd w)) by done.
  destruct (w_ifd w <? 0); [by rewrite Hid|].
  rewrite (bind_Ok _ _ _ _ _ (entry_at_eq _ _ _ He)). cbn [we_fname].
  rewrite (bind_Ok _ _ _ _ _ (string_at_eq _ _ _ Hs)).
  destruct (make_so_path p.1 4096) as [path|]; [|by rewrite Hid].
  rewrite (bind_Ok (inotify_add_watch _ _) _ w
    (set_w_trace (w_trace w ++ [KAdd_watch (w_ifd w) path]) w)
    (wk_add_watch (w_trace w) (w_ifd w) path)) by done.
  by rewrite (put_entry_eq i (WatchEntry (Some l) p.2)).
Qed.

(** A loop whose turns change one descriptor each is a sweep over the table. *)
Lemma for_loop_sweep body h (R : wstate -> Prop) w locs pre rest :
  (forall w tab i l p, R w -> table w locs tab -> locs !! i = Some l -> tab !! i = Some p ->
     body i w = Ok (tt, set_wd i l (h (w_trace w) p) w)) ->
  (forall w es tr, R w -> R (set_w_entries es (set_w_trace tr w))) ->
  R w -> table w locs (pre ++ rest) ->
  exists es, let y := sweep h (w_trace w) rest in
    let w' := set_w_entries es (set_w_trace y.2 w) in
    for_loop body (length rest) (length pre) w = Ok (tt, w') /\ table w' locs (pre ++ y.1).
Proof.
  intros Hb HR. revert w pre. induction rest as [|p rest IH]; intros w pre Hw H.
  { exists (w_entries w). cbn. by destruct w. }
  assert ((pre ++ p :: rest) !! length pre = Some p) as Hp by by apply list_lookup_middle.
  destruct (table_at _ _ _ _ _ H Hp) as (l & Hl & _).
  set (x := h (w_trace w) p). set (w1 := set_wd (length pre) l x w).
  assert (table w1 locs ((pre ++ [(p.1, x.1)]) ++ rest)) as H1.
  { replace ((pre ++ [(p.1, x.1)]) ++ rest) with (<[length pre := (p.1, x.1)]> (pre ++ p :: rest)).
    - by apply table_set_wd.
    - rewrite insert_app_r_alt, Nat.sub_diag by lia. by rewrite <- app_assoc. }
  destruct (IH w1 (pre ++ [(p.1, x.1)])) as (es & E & Ht); [by apply HR|done|].
  exists es. cbn [length for_loop sweep]. fold x. cbv zeta. split.
  - rewrite (bind_Ok (body (length pre)) _ w w1 tt) by by eapply Hb.
    rewrite length_app in E. cbn [length] in E. rewrite Nat.add_1_r in E. by rewrite E.
  - cbn [fst snd]. rewrite <- app_assoc in Ht. apply Ht.
Qed.

Lemma rewatch_all_eq w locs tab :
  table w locs tab ->
  exists es, let y := sweep (asked (w_ifd w)) (w_trace w) tab in
    let w' := set_w_entries es (set_w_trace y.2 w) in
    for_loop entry_rewatch (length tab) 0 w = Ok (tt, w') /\ table w' locs y.1.
Proof.
  intros H. apply (for_loop_sweep _ (asked (w_ifd w)) (fun v => w_ifd v = w_ifd w) _ _ []);
    [|done..]. intros v tab' i l p <-. apply entry_rewatch_eq.
Qed.

Lemma forget_all_eq w locs tab :
  table w locs tab ->
  exists es,
    for_loop (fun i => e ← entry_at i; put_entry i (WatchEntry (we_fname e) (-1))) (length tab) 0 w =
      Ok (tt, set_w_entries es w) /\
    table (set_w_entries es w) locs ((fun p => (p.1, -1)) <$> tab).
Proof.
  intros H. pose (h (tr : list kernel_event) (p : string * Z) := (-1, tr)).
  assert (forall tr t, sweep h tr t = ((fun p => (p.1, -1)) <$> t, tr)) as Hs.
  { intros tr t. induction t as [|p t IH]; [done|]. cbn. by rewrite IH. }
  destruct (for_loop_sweep (fun i => e ← entry_at i; put_entry i (WatchEntry (we_fname e) (-1)))
    h (fun _ => True) w locs [] tab) as (es & E & Ht); [|done..|].
  - intros v t i l p _ Ht Hl Hp. destruct (table_at _ _ _ _ _ Ht Hp) as (l' & Hl' & He & _).
    rewrite Hl in Hl'. injection Hl' as <-. rewrite (bind_Ok _ _ _ _ _ (entry_at_eq _ _ _ He)).
    rewrite (put_entry_eq _ _ _ _ He). by destruct v.
  - rewrite Hs in E, Ht. exists es. destruct w. by split.
Qed.

Lemma list_insert_last {A} (l : list A) x y : <[length l := y]> (l ++ [x]) = l ++ [y].
Proof. by rewrite insert_app_r_alt, Nat.sub_diag by lia. Qed.

(** ** Adding *)

Lemma path_index_None fname tab : path_index fname tab = None <-> fname ∉ tab.*1.
Proof.
  unfold path_index. rewrite fmap_None, list_find_None, Forall_forall. split.
  - intros H (p & -> & Hp)%list_elem_of_fmap. by eapply H.
  - intros H p Hp <-. apply H. by apply list_elem_of_fmap_2.
Qed.

Lemma path_index_Some fname tab i :
  path_index fname tab = Some i -> exists wd, tab !! i = Some (fname, wd).
Proof.
  unfold path_index. intros ([j [f wd]] & (Hj & Hf & _)%list_find_Some & ->)%fmap_Some.
  cbn in *. subst f. by exists wd.
Qed.

(** A new string, and the entry for it at the end. *)
Definition added w (l : loc) (fname : string) : wstate :=
  set_w_entries (<[w_entry_count w := WatchEntry (Some l) (-1)]> (w_entries w))
    (set_w_entry_count (S (w_entry_count w))
      (set_w_str (<[l := fname]> (w_str w))
        (set_w_next (Pos.succ l) (set_w_trace (w_trace w ++ [KStrdup]) w)))).

Lemma table_added w locs tab l fname :
  table w locs tab -> (length tab < XY_WATCH_MAX)%nat -> fname ∉ tab.*1 ->
  w_str w !! l = None -> table (added w l fname) (locs ++ [l]) (tab ++ [(fname, -1)]).
Proof.
  intros H Hlt Hf Hl. pose proof (table_length _ _ _ H) as Hlen.
  destruct H as [[stale He] Hz Hc Hs Hnd Hn].
  assert (forall i, locs !! i = Some l -> False) as Hnew.
  { intros i Hi. destruct (Forall2_lookup_l _ _ _ _ _ Hs Hi) as (p & _ & E). congruence. }
  split; cbn.
  - destruct stale as [|e stale].
    { rewrite He, app_nil_r, slots_length in Hz by done. lia. }
    exists stale. rewrite He, Hc, insert_app_r_alt by (rewrite slots_length; done).
    rewrite slots_length, Nat.sub_diag by done. cbn. unfold slots. rewrite zip_with_app by done. by rewrite <- app_assoc.
  - by rewrite length_insert.
  - rewrite Hc, length_app. cbn. lia.
  - apply Forall2_app; [|repeat constructor; cbn; apply lookup_insert_eq].
    apply Forall2_same_length_lookup. apply Forall2_same_length_lookup in Hs as [Hsl Hs].
    split; [done|]. intros i x p Hx Hp. rewrite lookup_insert_ne; [by eapply Hs|].
    intros ->. by eapply Hnew.
  - apply NoDup_app. split_and!; [done| |apply NoDup_singleton].
    intros x Hx ->%list_elem_of_singleton. apply list_elem_of_lookup in Hx as [i Hi]. by eapply Hnew.
  - rewrite fmap_app. apply NoDup_app. split_and!; [done| |apply NoDup_singleton].
    by intros x Hx ->%list_elem_of_singleton.
Qed.

(** The request for a watch on the new entry. *)
Lemma request_added_eq w locs tab l fname :
  table (added w l fname) (locs ++ [l]) (tab ++ [(fname, -1)]) -> length locs = length tab ->
  (if 0 <=? w_ifd w then entry_rewatch (length tab) else mret tt) (added w l fname) =
  Ok (tt, set_wd (length tab) l (asked (w_ifd w) (w_trace w ++ [KStrdup]) (fname, -1))
            (added w l fname)).
Proof.
  intros Ha Hlen.
  assert ((tab ++ [(fname, -1)]) !! length tab = Some (fname, -1)) as Hp by by apply list_lookup_middle.
  assert ((locs ++ [l]) !! length tab = Some l) as Hl by (rewrite <- Hlen; by apply list_lookup_middle).
  destruct (Z.leb_spec 0 (w_ifd w)) as [Hi|Hi].
  { by rewrite (entry_rewatch_eq _ _ _ _ _ _ Ha Hl Hp). }
  assert (asked (w_ifd w) (w_trace w ++ [KStrdup]) (fname, -1) = (-1, w_trace (added w l fname))) as ->.
  { unfold asked. by destruct (Z.ltb_spec (w_ifd w) 0); [|lia]. }
  pose proof (set_wd_id _ _ _ _ _ _ Ha Hl Hp) as Hid. cbn [fst snd] in Hid. by rewrite Hid.
Qed.

(** The copy of the path, and the new entry before the request. *)
Lemma strdup_eq str w :
  strdup str w =
  let w' := set_w_trace (w_trace w ++ [KStrdup]) w in
  if wk_strdup (w_trace w)
  then Ok (Some (w_next w),
           set_w_str (<[w_next w := str]> (w_str w)) (set_w_next (Pos.succ (w_next w)) w'))
  else Ok (None, w').
Proof. unfold strdup, mbind, M_bind, gets. by destruct (wk_strdup (w_trace w)). Qed.

(** Adding a path that is in the table answers 0 and changes nothing; a full
    table refuses with ENOMEM and a failing strdup refuses, and neither changes
    the table; otherwise the path is put last, with the descriptor the kernel
    answers for its file while a watcher runs and with -1 otherwise, and the
    other entries, the threads and the descriptors stay. *)
Lemma xy_watch_add_correct w locs tab (fname : string) :
  table w locs tab -> w_str w !! w_next w = None ->
  (fname ∈ tab.*1 -> xy_watch_add fname w = Ok (0, w)) /\
  (fname ∉ tab.*1 -> length tab = XY_WATCH_MAX ->
     xy_watch_add fname w = Ok (-1, set_w_errno ENOMEM w)) /\
  (fname ∉ tab.*1 -> (length tab < XY_WATCH_MAX)%nat -> wk_strdup (w_trace w) = false ->
     xy_watch_add fname w = Ok (-1, set_w_trace (w_trace w ++ [KStrdup]) w)) /\
  (fname ∉ tab.*1 -> (length tab < XY_WATCH_MAX)%nat -> wk_strdup (w_trace w) = true ->
     exists w', xy_watch_add fname w = Ok (0, w') /\
       let x := asked (w_ifd w) (w_trace w ++ [KStrdup]) (fname, -1) in
       table w' (locs ++ [w_next w]) (tab ++ [(fname, x.1)]) /\ w_trace w' = x.2 /\
       control w' = control w /\ w_str w' = <[w_next w := fname]> (w_str w) /\
       w_next w' = Pos.succ (w_next w)).
Proof.
  intros H Hl. unfold xy_watch_add. rewrite (bind_Ok _ _ _ _ _ (entry_find_eq _ _ _ _ H)).
  destruct (path_index fname tab) as [i|] eqn:E.
  { apply path_index_Some in E as (wd & Hi).
    assert (fname ∈ tab.*1) by (apply list_elem_of_lookup; exists i; by rewrite list_lookup_fmap, Hi).
    by split_and!. }
  apply path_index_None in E. rewrite (bind_Ok (gets _) _ w w (w_entry_count w)) by done.
  rewrite (tb_count _ _ _ H). split_and!; [done|intros _ Hn|intros _ Hn Hd..].
  { by rewrite decide_True by lia. }
  all: rewrite decide_False by lia; pose proof (strdup_eq fname w) as Es; rewrite Hd in Es.
  { by rewrite (bind_Ok _ _ _ _ _ Es). }
  rewrite (bind_Ok _ _ _ _ _ Es).
  pose proof (table_added w locs tab (w_next w) fname H Hn E Hl) as Ha.
  set (w1 := set_w_str _ _). set (w2 := added w (w_next w) fname) in *.
  rewrite (bind_Ok (modify _) _ w1 (set_w_entry_count (S (length tab)) w1) tt) by done.
  assert (length tab < length (w_entries w))%nat as He by by rewrite (tb_size _ _ _ H).
  apply lookup_lt_is_Some_2 in He as [e He].
  rewrite (bind_Ok (put_entry _ _) _ _ w2 tt).
  2: { rewrite (put_entry_eq _ e) by done. unfold w2, added. by rewrite (tb_count _ _ _ H). }
  rewrite (bind_Ok (gets _) _ w2 w2 (w_ifd w)) by done.
  rewrite (bind_Ok _ _ _ _ _ (request_added_eq _ _ _ _ _ Ha (table_length _ _ _ H))).
  eexists. split; [done|]. cbv zeta. split_and!; [|done..].
  rewrite <- (list_insert_last tab (fname, -1)).
  eapply (table_set_wd _ _ _ _ _ (fname, -1)); [done| |by apply list_lookup_middle].
  rewrite <- (table_length _ _ _ H). by apply list_lookup_middle.
Qed.

(** ** Removing *)

Lemma shift_loop_eq n i w :
  (i + n < length (w_entries w))%nat ->
  exists es, for_loop shift_entry n i w = Ok (tt, set_w_entries es w) /\
    length es = length (w_entries w) /\
    forall j, es !! j = if decide (i <= j < i + n)%nat then w_entries w !! S j else w_entries w !! j.
Proof.
  revert i w. induction n as [|n IH]; intros i w Hn.
  { exists (w_entries w). destruct w. split_and!; [done..|]. intros j. by rewrite decide_False by lia. }
  destruct (lookup_lt_is_Some_2 (w_entries w) (S i)) as [e He]; [lia|].
  destruct (lookup_lt_is_Some_2 (w_entries w) i) as [e0 He0]; [lia|].
  destruct (IH (S i) (set_w_entries (<[i := e]> (w_entries w)) w)) as (es & E & Hlen & Hes).
  { cbn. rewrite length_insert. lia. }
  exists es. cbn in *. rewrite length_insert in Hlen. split_and!; [|done|].
  - rewrite (bind_Ok (shift_entry i) _ w (set_w_entries (<[i := e]> (w_entries w)) w) tt); [done|].
    unfold shift_entry. rewrite (bind_Ok _ _ _ _ _ (entry_at_eq _ _ _ He)).
    by rewrite (put_entry_eq _ _ _ _ He0).
  - intros j. rewrite Hes. destruct (decide (i = j)) as [<-|Hj].
    + case_decide; [lia|]. case_decide; [|lia].
      rewrite list_lookup_insert_eq; [done|]. by eapply lookup_lt_Some.
    + rewrite (list_lookup_insert_ne _ i j) by done. case_decide; case_decide; try lia; [|done].
      by rewrite list_lookup_insert_ne by lia.
Qed.

Lemma slots_delete i locs tab :
  length locs = length tab -> slots (delete i locs) (delete i tab) = delete i (slots locs tab).
Proof.
  intros H. unfold slots. rewrite !delete_take_drop, zip_with_app, zip_with_take, zip_with_drop; [done|].
  rewrite !length_take. lia.
Qed.

Lemma delete_name i fname wd tab :
  tab !! i = Some (fname, wd) -> NoDup tab.*1 -> delete i tab = filter (fun p => p.1 <> fname) tab.
Proof.
  intros Hi Hnd. rewrite delete_take_drop.
  assert (forall t, fname ∉ t.*1 -> filter (fun p : string * Z => p.1 <> fname) t = t) as Hf.
  { induction t as [|p t IH]; [done|]. rewrite fmap_cons. intros [Hp Ht]%not_elem_of_cons.
    rewrite filter_cons_True, IH by (try done; congruence). done. }
  pose proof (take_drop_middle _ _ _ Hi) as E.
  set (a := take i tab) in *. set (b := drop (S i) tab) in *. clearbody a b. subst tab.
  rewrite fmap_app, fmap_cons, NoDup_app in Hnd. destruct Hnd as (_ & Hd & [Hn _]%NoDup_cons).
  rewrite filter_app, filter_cons_False by auto. f_equal; symmetry; apply Hf; [|done].
  intros Ht. apply (Hd _ Ht). by left.
Qed.

Lemma table_shifted w w' locs tab i l es :
  table w locs tab -> locs !! i = Some l ->
  length es = length (w_entries w) ->
  (forall j, es !! j = if decide (i <= j < i + (length tab - 1 - i))%nat
                       then w_entries w !! S j else w_entries w !! j) ->
  w_entries w' = es -> w_entry_count w' = (length tab - 1)%nat ->
  w_str w' = delete l (w_str w) ->
  table w' (delete i locs) (delete i tab).
Proof.
  intros H Hl Hz' Hes Ee Ec Estr. pose proof (table_length _ _ _ H) as Hlen.
  pose proof (lookup_lt_Some _ _ _ Hl) as Hlt.
  destruct H as [[stale He] Hz Hc Hs Hnd Hn].
  assert (is_Some (tab !! i)) as [q Hq] by (apply lookup_lt_is_Some; lia).
  assert (length (delete i tab) = (length tab - 1)%nat) as Hld by (rewrite length_delete; eauto).
  split.
  - exists (drop (length tab - 1) es). rewrite Ee, <- (take_drop (length tab - 1) es) at 1.
    f_equal. rewrite slots_delete by done. apply list_eq. intros j.
    destruct (decide (j < length tab - 1)%nat) as [Hj|Hj].
    + rewrite lookup_take_lt by done. rewrite Hes, He.
      destruct (decide (j < i)%nat) as [Hji|Hji].
      * rewrite list_lookup_delete_lt, decide_False by lia.
        by rewrite lookup_app_l by (rewrite slots_length; lia).
      * rewrite list_lookup_delete_ge, decide_True by lia.
        by rewrite lookup_app_l by (rewrite slots_length; lia).
    + rewrite lookup_take_ge by lia. symmetry. apply lookup_ge_None.
      rewrite <- slots_delete, slots_length by (rewrite ?length_delete; eauto; congruence). lia.
  - by rewrite Ee, Hz'.
  - by rewrite Ec, Hld.
  - rewrite Estr. apply Forall2_same_length_lookup. apply Forall2_same_length_lookup in Hs as [_ Hs].
    split; [rewrite !length_delete; eauto; congruence|]. intros j x p Hx Hp.
    assert (exists k, k <> i /\ locs !! k = Some x /\ tab !! k = Some p) as (k & Hk & Hx' & Hp').
    { destruct (decide (j < i)%nat).
      - rewrite list_lookup_delete_lt in Hx by done. rewrite list_lookup_delete_lt in Hp by done. exists j. split_and!; [lia|done..].
      - rewrite list_lookup_delete_ge in Hx by lia. rewrite list_lookup_delete_ge in Hp by lia. exists (S j). split_and!; [lia|done..]. }
    rewrite lookup_delete_ne; [by eapply Hs|]. intros ->. apply Hk. by apply (NoDup_lookup locs _ _ x).
  - eapply sublist_NoDup; [done|]. apply sublist_delete.
  - eapply sublist_NoDup; [done|]. by apply (fmap_sublist fst), sublist_delete.
Qed.

(** Removing a path that is not in the table changes nothing; otherwise its
    entry goes, the others keep their order and their descriptors, its string is
    freed, and the kernel is asked to drop the watch if there is one. *)
Lemma xy_watch_remove_correct w locs tab (fname : string) :
  table w locs tab ->
  (fname ∉ tab.*1 -> xy_watch_remove fname w = Ok (tt, w)) /\
  (forall i l wd, tab !! i = Some (fname, wd) -> locs !! i = Some l ->
     exists w', xy_watch_remove fname w = Ok (tt, w') /\
       table w' (delete i locs) (filter (fun p => p.1 <> fname) tab) /\
       w_str w' = delete l (w_str w) /\ control w' = control w /\ w_next w' = w_next w /\
       w_trace w' = w_trace w ++
         (if (0 <=? w_ifd w) && (0 <=? wd) then [KRm_watch (w_ifd w) wd] else [])).
Proof.
  intros H. unfold xy_watch_remove. rewrite (bind_Ok _ _ _ _ _ (entry_find_eq _ _ _ _ H)).
  split; [by intros ->%path_index_None|]. intros i l wd Hi Hl.
  assert (path_index fname tab = Some i) as ->.
  { destruct (path_index fname tab) as [j|] eqn:E.
    - apply path_index_Some in E as (wd' & Hj). f_equal.
      eapply NoDup_lookup; [apply (tb_names _ _ _ H)|rewrite list_lookup_fmap, Hj; done|].
      by rewrite list_lookup_fmap, Hi.
    - apply path_index_None in E. destruct E. apply list_elem_of_lookup. exists i.
      by rewrite list_lookup_fmap, Hi. }
  destruct (table_at _ _ _ _ _ H Hi) as (l' & Hl' & He & Hs). rewrite Hl in Hl'. injection Hl' as <-.
  rewrite (bind_Ok _ _ _ _ _ (entry_at_eq _ _ _ He)).
  rewrite (bind_Ok (gets _) _ w w (w_ifd w)) by done. cbn [we_fname we_wd snd].
  set (rm := if (0 <=? w_ifd w) && (0 <=? wd) then [KRm_watch (w_ifd w) wd] else []).
  set (w1 := set_w_trace (w_trace w ++ rm) w).
  rewrite (bind_Ok _ _ w w1 tt).
  2: { unfold w1, rm. destruct ((0 <=? w_ifd w) && (0 <=? wd)); [done|]. rewrite app_nil_r. by destruct w. }
  set (w2 := set_w_str (delete l (w_str w)) w1).
  rewrite (bind_Ok (free_str _) _ w1 w2 tt).
  2: { unfold free_str. rewrite (bind_Ok _ _ w1 w1 fname); [done|].
       by rewrite (bind_Ok (gets _) _ w1 w1 (Some fname)) by (unfold gets; cbn; by rewrite Hs). }
  rewrite (bind_Ok (gets _) _ w2 w2 (length tab)) by (unfold gets; cbn; by rewrite (tb_count _ _ _ H)).
  pose proof (lookup_lt_Some _ _ _ Hi) as Hlt. pose proof (table_bound _ _ _ H) as Hb.
  destruct (shift_loop_eq (length tab - 1 - i) i w2) as (es & E & Hlen & Hes).
  { cbn. rewrite (tb_size _ _ _ H). lia. }
  rewrite (bind_Ok _ _ _ _ _ E).
  exists (set_w_entry_count (length tab - 1) (set_w_entries es w2)). split_and!; [done| |done..].
  rewrite <- (delete_name i fname wd) by (done || apply H). by eapply (table_shifted w).
Qed.

(** Adding a path that is not in the table and removing it again gives back
    the table and the strings there were. *)
Theorem watch_add_remove w locs tab (fname : string) w1 :
  table w locs tab -> w_str w !! w_next w = None -> fname ∉ tab.*1 ->
  xy_watch_add fname w = Ok (0, w1) ->
  exists w2, xy_watch_remove fname w1 = Ok (tt, w2) /\ table w2 locs tab /\ w_str w2 = w_str w /\
    control w2 = control w.
Proof.
  intros H Hl Hf E. destruct (xy_watch_add_correct w locs tab fname H Hl) as (_ & A2 & A3 & A4).
  pose proof (table_bound _ _ _ H) as Hb.
  destruct (decide (length tab = XY_WATCH_MAX)) as [Hm|Hm]; [by rewrite (A2 Hf Hm) in E|].
  destruct (wk_strdup (w_trace w)) eqn:Hd; [|by rewrite (A3 Hf ltac:(lia) eq_refl) in E].
  destruct (A4 Hf ltac:(lia) eq_refl) as (w' & E' & Ht & _ & Hc & Hs & _).
  rewrite E' in E. injection E as ->. clear A2 A3 A4. set (x := asked _ _ _) in *.
  destruct (proj2 (xy_watch_remove_correct w1 _ _ fname Ht) (length tab) (w_next w) x.1)
    as (w2 & E2 & Ht2 & Hs2 & Hc2 & _).
  { by apply list_lookup_middle. }
  { rewrite <- (table_length _ _ _ H). by apply list_lookup_middle. }
  exists w2. split_and!; [done| | |congruence].
  - rewrite <- (table_length _ _ _ H) in Ht2 at 1. rewrite delete_middle, app_nil_r in Ht2.
    rewrite <- (delete_name (length tab) fname x.1), delete_middle, app_nil_r in Ht2; [done| |apply Ht].
    by apply list_lookup_middle.
  - rewrite Hs2, Hs. by rewrite delete_insert_id.
Qed.

(** *** Sequences of operations *)

(** What a table is for the rest of the program: a list of paths without
    repetition, and the two operations on it. *)
Inductive table_op := OpAdd (fname : string) | OpRemove (fname : string).

Definition spec_op (op : table_op) (names : list string) : list string :=
  match op with
  | OpAdd fname =>
      if decide (fname ∈ names) then names
      else if decide (XY_WATCH_MAX <= length names)%nat then names else names ++ [fname]
  | OpRemove fname => filter (fun n => n <> fname) names
  end.

Definition run_op (op : table_op) : WM Z :=
  match op with
  | OpAdd fname => xy_watch_add fname
  | OpRemove fname => xy_watch_remove fname;; mret 0
  end.

(** 0 when the path is in the table afterwards. *)
Definition spec_result (op : table_op) (names : list string) : Z :=
  match op with
  | OpAdd fname => if decide (fname ∈ spec_op op names) then 0 else -1
  | OpRemove _ => 0
  end.

Fixpoint run_ops (ops : list table_op) : WM (list Z) :=
  match ops with
  | [] => mret []
  | op :: rest => r ← run_op op; rs ← run_ops rest; mret (r :: rs)
  end.

Fixpoint spec_ops (ops : list table_op) (names : list string) : list Z * list string :=
  match ops with
  | [] => ([], names)
  | op :: rest =>
      let x := spec_ops rest (spec_op op names) in (spec_result op names :: x.1, x.2)
  end.

Definition strings_below w : Prop := forall l, is_Some (w_str w !! l) -> (l < w_next w)%positive.

Lemma strings_below_next w : strings_below w -> w_str w !! w_next w = None.
Proof.
  intros H. destruct (w_str w !! w_next w) eqn:E; [|done].
  specialize (H (w_next w)). rewrite E in H. by apply Pos.lt_irrefl in H.
Qed.

Lemma filter_names fname tab :
  (filter (fun p : string * Z => p.1 <> fname) tab).*1 = filter (fun n => n <> fname) tab.*1.
Proof.
  induction tab as [|p tab IH]; [done|]. rewrite fmap_cons, !filter_cons. cbn.
  destruct (decide (p.1 <> fname)); [by rewrite fmap_cons, IH|done].
Qed.

Lemma filter_absent (fname : string) (names : list string) : fname ∉ names -> filter (fun n => n <> fname) names = names.
Proof.
  induction names as [|n names IH]; [done|]. intros [Hn H]%not_elem_of_cons.
  by rewrite filter_cons_True, IH by auto.
Qed.

Lemma run_op_refines op w locs tab :
  (forall tr, wk_strdup tr = true) -> table w locs tab -> strings_below w ->
  exists w' locs' tab', run_op op w = Ok (spec_result op tab.*1, w') /\ table w' locs' tab' /\
    tab'.*1 = spec_op op tab.*1 /\ strings_below w' /\ control w' = control w.
Proof.
  intros Hd H Hb. pose proof (strings_below_next w Hb) as Hl.
  destruct op as [fname|fname]; cbn [run_op spec_op spec_result].
  - destruct (xy_watch_add_correct w locs tab fname H Hl) as (A1 & A2 & _ & A4).
    destruct (decide (fname ∈ tab.*1)) as [Hin|Hin].
    { rewrite decide_True by done. exists w, locs, tab. split; [by apply A1|done]. }
    rewrite length_fmap. destruct (decide (XY_WATCH_MAX <= length tab)%nat) as [Hm|Hm].
    { pose proof (table_bound _ _ _ H). rewrite decide_False by done.
      do 3 eexists. split; [apply A2; [done|lia]|]. split_and!; [by eapply table_same|done..]. }
    rewrite decide_True by set_solver.
    destruct (A4 Hin ltac:(lia) (Hd _)) as (w' & E & Ht & _ & Hc & Es & En).
    do 3 eexists. split; [exact E|]. split_and!; [exact Ht|by rewrite fmap_app| |done].
    intros l. rewrite Es, En. intros [<-|[_ Hx]]%lookup_insert_is_Some; [lia|]. specialize (Hb l Hx). lia.
  - destruct (xy_watch_remove_correct w locs tab fname H) as [A1 A2].
    destruct (path_index fname tab) as [i|] eqn:E.
    + apply path_index_Some in E as (wd & Hi).
      destruct (table_at _ _ _ _ _ H Hi) as (l & Hli & _).
      destruct (A2 i l wd Hi Hli) as (w' & Er & Ht & Es & Hc & En & _).
      do 3 eexists. split; [by rewrite (bind_Ok _ _ _ _ _ Er)|]. split_and!; [exact Ht| | |done].
      * apply filter_names.
      * intros x. rewrite Es, En. intros [_ Hx]%lookup_delete_is_Some. by apply Hb.
    + apply path_index_None in E. exists w, locs, tab. rewrite (bind_Ok _ _ _ _ _ (A1 E)).
      split_and!; [done|done|by rewrite filter_absent|done|done].
Qed.

(** C14: any sequence of additions and removals answers what the list of paths
    answers, and leaves the table of that list: the array with its shifted
    entries and owned strings refines a bounded list without repetition. *)
Theorem watch_ops_refine (ops : list table_op) w locs tab :
  (forall tr, wk_strdup tr = true) -> table w locs tab -> strings_below w ->
  let x := spec_ops ops tab.*1 in
  exists w' locs' tab', run_ops ops w = Ok (x.1, w') /\ table w' locs' tab' /\ tab'.*1 = x.2 /\
    control w' = control w.
Proof.
  intros Hd. revert w locs tab. induction ops as [|op ops IH]; intros w locs tab H Hb.
  { by exists w, locs, tab. }
  destruct (run_op_refines op w locs tab Hd H Hb) as (w1 & locs1 & tab1 & E1 & H1 & En & Hb1 & Ec).
  destruct (IH w1 locs1 tab1 H1 Hb1) as (w2 & locs2 & tab2 & E2 & H2 & En2 & Ec2).
  rewrite En in E2, En2. exists w2, locs2, tab2. cbn [run_ops spec_ops].
  rewrite (bind_Ok _ _ _ _ _ E1), (bind_Ok _ _ _ _ _ E2). split_and!; [done|done|done|congruence].
Qed.

(** ** Events *)

Lemma wd_index_Some wd tab i :
  wd_index wd tab = Some i -> exists fname, tab !! i = Some (fname, wd).
Proof.
  unfold wd_index. intros ([j [f v]] & (Hj & Hf & _)%list_find_Some & ->)%fmap_Some.
  cbn in *. subst v. by exists f.
Qed.

(** The look-up of an event for an unknown descriptor finds nothing and
    changes nothing; for a known one it copies the path of the first entry with
    that descriptor, asks for a new watch if the file was moved into place, and
    leaves the other entries, the threads and the descriptors. *)
Lemma watcher_find_correct w locs tab (ev : inotify_event) :
  table w locs tab -> w_str w !! w_next w = None ->
  (wd_index (ev_wd ev) tab = None -> watcher_find ev w = Ok (None, w)) /\
  (forall i fname, wd_index (ev_wd ev) tab = Some i -> tab !! i = Some (fname, ev_wd ev) ->
     let copied := wk_strdup (w_trace w) in
     let x := if Z.land (ev_mask ev) IN_MOVED_TO =? 0 then (ev_wd ev, w_trace w ++ [KStrdup])
              else asked (w_ifd w) (w_trace w ++ [KStrdup]) (fname, ev_wd ev) in
     exists w', watcher_find ev w = Ok (if copied then Some (w_next w) else None, w') /\
       table w' locs (<[i := (fname, x.1)]> tab) /\ w_trace w' = x.2 /\ control w' = control w /\
       w_str w' = (if copied then <[w_next w := fname]> (w_str w) else w_str w) /\
       w_next w' = (if copied then Pos.succ (w_next w) else w_next w)).
Proof.
  intros H Hl. pose proof (entry_find_by_wd_eq (ev_wd ev) _ _ _ H) as Ef. split.
  { intros Ew. unfold watcher_find. rewrite (bind_Ok _ _ _ _ _ Ef). by rewrite Ew. }
  intros i fname Ew Hi copied x. unfold watcher_find. rewrite (bind_Ok _ _ _ _ _ Ef), Ew.
  destruct (table_at _ _ _ _ _ H Hi) as (l & Hl' & He & Hs).
  rewrite (bind_Ok _ _ _ _ _ (entry_at_eq _ _ _ He)). cbn [we_fname].
  rewrite (bind_Ok _ _ _ _ _ (string_at_eq _ _ _ Hs)).
  set (w0 := set_w_trace (w_trace w ++ [KStrdup]) w).
  set (w1 := if copied then set_w_str (<[w_next w := fname]> (w_str w))
               (set_w_next (Pos.succ (w_next w)) w0) else w0).
  rewrite (bind_Ok (strdup _) _ w w1 (if copied then Some (w_next w) else None)).
  2: { rewrite strdup_eq. unfold w1. unfold copied; by destruct (wk_strdup (w_trace w)). }
  assert (table w1 locs tab) as H1.
  { apply (table_frame w); [done|unfold w1; unfold copied; by destruct (wk_strdup (w_trace w))..|]. intros l0 Hl0.
    unfold w1, copied. destruct (wk_strdup (w_trace w)); [|done]. cbn. rewrite lookup_insert_ne; [done|]. intros <-.
    apply list_elem_of_lookup in Hl0 as [j Hj].
    destruct (Forall2_lookup_l _ _ _ _ _ (tb_str _ _ _ H) Hj) as (q & _ & E). congruence. }
  assert (w_trace w1 = w_trace w ++ [KStrdup]) as Etr by (unfold w1; unfold copied; by destruct (wk_strdup (w_trace w))).
  assert (w_ifd w1 = w_ifd w) as Eifd by (unfold w1; unfold copied; by destruct (wk_strdup (w_trace w))).
  rewrite (bind_Ok _ _ w1 (set_wd i l x w1) tt).
  2: { unfold x. destruct (Z.land (ev_mask ev) IN_MOVED_TO =? 0); cbn [negb].
       - rewrite <- Etr. pose proof (set_wd_id _ _ _ _ _ _ H1 Hl' Hi) as Hid.
         cbn [fst snd] in Hid. by rewrite Hid.
       - by rewrite (entry_rewatch_eq _ _ _ _ _ _ H1 Hl' Hi), Etr, Eifd. }
  exists (set_wd i l x w1). split_and!; [done|by apply table_set_wd with (p := (fname, ev_wd ev))|done|..].
  all: unfold w1; unfold copied; by destruct (wk_strdup (w_trace w)).
Qed.

(** ** Starting and stopping *)

Definition closed (fd : Z) w : wstate :=
  set_w_unread (w_unread w ∖ {[fd]}) (set_w_peer (delete fd (w_peer w))
    (set_w_fds (w_fds w ∖ {[fd]}) w)).

Definition all_closed w : wstate :=
  WState (w_thread w) (-1) (w_running w) (w_entries w) (w_entry_count w) (-1) (-1) (w_errno w)
    (w_str w) (w_fds w ∖ {[w_ifd w]} ∖ {[w_pipe_r w]} ∖ {[w_pipe_w w]})
    (delete (w_pipe_w w) (delete (w_pipe_r w) (delete (w_ifd w) (w_peer w))))
    (w_unread w ∖ {[w_ifd w]} ∖ {[w_pipe_r w]} ∖ {[w_pipe_w w]})
    (w_watchers w) (w_next w) (w_trace w).

Lemma close_eq fd w : close fd w = Ok (tt, closed fd w).
Proof. by destruct w. Qed.

Lemma close_all_eq w : close_all w = Ok (tt, all_closed w).
Proof.
  unfold close_all. rewrite (bind_Ok (gets _) _ w w (w_ifd w)) by done.
  rewrite (bind_Ok _ _ _ _ _ (close_eq _ _)). destruct w as [th ifd run es n rd wr e str fds peer un ws nx tr].
  unfold closed. cbn [w_thread w_ifd w_running w_entries w_entry_count w_pipe_r w_pipe_w w_errno w_str
    w_fds w_peer w_unread w_watchers w_next w_trace set_w_ifd set_w_fds set_w_peer set_w_unread].
  done.
Qed.

Lemma all_closed_frame w :
  same_table w (all_closed w) /\
  (w_ifd (all_closed w), w_pipe_r (all_closed w), w_pipe_w (all_closed w)) = (-1, -1, -1) /\
  w_next (all_closed w) = w_next w /\
  (w_running (all_closed w), w_thread (all_closed w), w_watchers (all_closed w)) =
    (w_running w, w_thread w, w_watchers w).
Proof. repeat split. Qed.

(** Only open descriptors have pipes behind them. *)
Definition fds_ok w : Prop := dom (w_peer w) ⊆ w_fds w /\ w_unread w ⊆ w_fds w.

(** The descriptors a start gets, if every call on the way succeeds. *)
Definition start_answers w tab : option (Z * Z * Z) :=
  let tr := w_trace w ++ [KInotify_init] in
  let ifd := wk_inotify_init1 (w_trace w) (w_fds w) in
  if ifd <? 0 then None
  else match wk_pipe tr ({[ifd]} ∪ w_fds w) with
       | None => None
       | Some (rd, wr) =>
           if wk_thread_create (sweep (asked ifd) (tr ++ [KPipe]) tab).2 =? 0
           then Some (ifd, rd, wr) else None
       end.

Lemma inotify_init1_eq w :
  let ifd := wk_inotify_init1 (w_trace w) (w_fds w) in
  inotify_init1 w = Ok (ifd,
    (if ifd <? 0 then id else set_w_fds ({[ifd]} ∪ w_fds w))
      (set_w_trace (w_trace w ++ [KInotify_init]) w)).
Proof.
  cbv zeta. unfold inotify_init1, mbind, M_bind, gets, kemit, modify, mret, M_ret.
  by destruct (wk_inotify_init1 (w_trace w) (w_fds w) <? 0).
Qed.

Lemma pipe_eq w :
  pipe w = match wk_pipe (w_trace w) (w_fds w) with
           | None => Ok (None, set_w_trace (w_trace w ++ [KPipe]) w)
           | Some (rd, wr) =>
               Ok (Some (rd, wr), set_w_peer (<[wr := rd]> (w_peer w))
                 (set_w_fds ({[rd; wr]} ∪ w_fds w) (set_w_trace (w_trace w ++ [KPipe]) w)))
           end.
Proof.
  unfold pipe, mbind, M_bind, gets, kemit, modify, mret, M_ret.
  by destruct (wk_pipe (w_trace w) (w_fds w)) as [[rd wr]|].
Qed.

Lemma create_watcher_eq w :
  let ret := wk_thread_create (w_trace w) in
  create_watcher w = Ok (ret,
    (if ret =? 0 then fun v => set_w_thread (Some (w_next w))
       (set_w_watchers (<[w_next w := PcSelect]> (w_watchers w))
         (set_w_next (Pos.succ (w_next w)) v)) else id)
    (set_w_trace (w_trace w ++ [KThread_create]) w)).
Proof.
  cbv zeta. unfold create_watcher, mbind, M_bind, gets, kemit, modify, mret, M_ret.
  by destruct (wk_thread_create (w_trace w) =? 0).
Qed.

(** The new thread. *)
Definition spawned w (v : wstate) : wstate :=
  set_w_running true (set_w_thread (Some (w_next w))
    (set_w_watchers (<[w_next w := PcSelect]> (w_watchers w)) (set_w_next (Pos.succ (w_next w)) v))).

Lemma spawned_frame w v :
  same_table v (spawned w v) /\
  (w_fds (spawned w v), w_peer (spawned w v), w_unread (spawned w v)) = (w_fds v, w_peer v, w_unread v) /\
  (w_ifd (spawned w v), w_pipe_r (spawned w v), w_pipe_w (spawned w v)) =
    (w_ifd v, w_pipe_r v, w_pipe_w v).
Proof. repeat split. Qed.

(** The state in which the thread is created. *)
Definition opened w (ifd rd wr : Z) (es : list watch_entry) (tr : list kernel_event) : wstate :=
  set_w_entries es (set_w_trace tr (set_w_pipe_w wr (set_w_pipe_r rd (set_w_ifd ifd
    (set_w_peer (<[wr := rd]> (w_peer w)) (set_w_fds ({[rd; wr]} ∪ ({[ifd]} ∪ w_fds w)) w)))))).

Lemma start_opens w locs tab rd wr :
  let tr := w_trace w ++ [KInotify_init] in
  let ifd := wk_inotify_init1 (w_trace w) (w_fds w) in
  table w locs tab -> w_running w = false -> 0 <= ifd ->
  wk_pipe tr ({[ifd]} ∪ w_fds w) = Some (rd, wr) ->
  exists es, let y := sweep (asked ifd) (tr ++ [KPipe]) tab in let w4 := opened w ifd rd wr es y.2 in
    table w4 locs y.1 /\
    xy_watch_start w = (ret ← create_watcher;
      if negb (ret =? 0) then close_all;; modify (set_w_errno ret);; mret (-1)
      else modify (set_w_running true);; mret 0) w4.
Proof.
  intros tr ifd H Hr Hi Hp. unfold xy_watch_start.
  rewrite (bind_Ok (gets _) _ w w false) by (unfold gets; by rewrite Hr).
  set (w1 := set_w_fds ({[ifd]} ∪ w_fds w) (set_w_trace tr w)).
  rewrite (bind_Ok inotify_init1 _ w w1 ifd).
  2: { rewrite inotify_init1_eq. fold ifd. by destruct (Z.ltb_spec ifd 0); [lia|]. }
  rewrite (bind_Ok (modify _) _ w1 (set_w_ifd ifd w1) tt) by done.
  destruct (Z.ltb_spec ifd 0) as [|_]; [lia|].
  set (w2 := set_w_peer (<[wr := rd]> (w_peer w)) (set_w_fds ({[rd; wr]} ∪ ({[ifd]} ∪ w_fds w))
    (set_w_trace (tr ++ [KPipe]) (set_w_ifd ifd w1)))).
  rewrite (bind_Ok pipe _ _ w2 (Some (rd, wr))).
  2: { rewrite pipe_eq. cbn [w_trace w_fds set_w_ifd w1 set_w_fds set_w_trace]. by rewrite Hp. }
  set (w3 := set_w_pipe_w wr (set_w_pipe_r rd w2)).
  rewrite (bind_Ok (modify _) _ w2 (set_w_pipe_r rd w2) tt) by done.
  rewrite (bind_Ok (modify _) _ _ w3 tt) by done.
  assert (table w3 locs tab) as H3 by by apply (table_same w).
  rewrite (bind_Ok (gets _) _ w3 w3 (length tab)) by (unfold gets; by rewrite (tb_count _ _ _ H3)).
  destruct (rewatch_all_eq _ _ _ H3) as (es & E & Ht). exists es. cbv zeta in E, Ht |- *.
  split; [exact Ht|]. by rewrite (bind_Ok _ _ _ _ _ E).
Qed.

Lemma sweep_names h tr tab : (sweep h tr tab).1.*1 = tab.*1.
Proof. revert tr. induction tab as [|p tab IH]; intros tr; [done|]. cbn. by rewrite IH. Qed.

Lemma delete_fresh w fd : fds_ok w -> fd ∉ w_fds w -> delete fd (w_peer w) = w_peer w.
Proof. intros [Hp _] H. apply delete_id, not_elem_of_dom. set_solver. Qed.

(** What a failed start leaves of the state in which the thread was to be
    created. *)
Definition rolled_back (e : Z) (tr : list kernel_event) (v : wstate) : wstate :=
  set_w_errno e (all_closed (set_w_trace tr v)).

Lemma rolled_back_frame e tr v :
  let v' := rolled_back e tr v in
  same_table v v' /\ w_ifd v' = -1 /\ w_next v' = w_next v /\
  (w_running v', w_thread v', w_watchers v') = (w_running v, w_thread v, w_watchers v) /\
  w_fds v' = w_fds v ∖ {[w_ifd v]} ∖ {[w_pipe_r v]} ∖ {[w_pipe_w v]} /\
  w_peer v' = delete (w_pipe_w v) (delete (w_pipe_r v) (delete (w_ifd v) (w_peer v))) /\
  w_unread v' = w_unread v ∖ {[w_ifd v]} ∖ {[w_pipe_r v]} ∖ {[w_pipe_w v]}.
Proof. repeat split. Qed.

(** Closing the three new descriptors gives the old ones back. *)
Lemma rolled_back_opened w ifd rd wr es tr e tr' :
  let v := rolled_back e tr' (opened w ifd rd wr es tr) in
  fds_ok w -> ifd ∉ w_fds w -> rd ∉ w_fds w -> wr ∉ w_fds w ->
  (w_fds v, w_peer v, w_unread v) = (w_fds w, w_peer w, w_unread w).
Proof.
  intros v Hok Hi Hr Hw.
  destruct (rolled_back_frame e tr' (opened w ifd rd wr es tr)) as (_ & _ & _ & _ & Ef & Ep & Eu).
  fold v in Ef, Ep, Eu. rewrite Ef, Ep, Eu. cbn. f_equal; [f_equal|].
  - apply set_eq. intros x. set_solver.
  - rewrite (delete_delete _ wr rd), (delete_delete _ wr ifd), delete_insert_eq.
    by rewrite !(delete_fresh w).
  - apply set_eq. intros x. destruct Hok as [_ Hok]. set_solver.
Qed.

Lemma fds_ok_eq w w' :
  fds_ok w -> (w_fds w', w_peer w', w_unread w') = (w_fds w, w_peer w, w_unread w) -> fds_ok w'.
Proof. intros H [= E1 E2 E3]. unfold fds_ok. by rewrite E1, E2, E3. Qed.

Lemma fds_ok_all_closed w : fds_ok w -> fds_ok (all_closed w).
Proof. intros [H1 H2]. split; cbn; [rewrite !dom_delete|]; set_solver. Qed.

Lemma fds_ok_unread w rd :
  fds_ok w -> rd ∈ w_fds w -> fds_ok (set_w_unread ({[rd]} ∪ w_unread w) w).
Proof. intros [H1 H2] Hr. split; cbn; [done|set_solver]. Qed.

(** A byte written to a pipe changes nothing but what is unread. *)
Lemma write_byte_frame fd w :
  fds_ok w -> exists w', write_byte fd w = Ok (tt, w') /\ same_table w w' /\
    w_watchers w' = w_watchers w /\ w_next w' = w_next w /\ fds_ok w' /\
    (w_thread w', w_ifd w', w_running w', w_pipe_r w', w_pipe_w w', w_fds w', w_peer w') =
      (w_thread w, w_ifd w, w_running w, w_pipe_r w, w_pipe_w w, w_fds w, w_peer w) /\
    (forall rd, w_peer w !! fd = Some rd -> rd ∈ w_fds w -> rd ∈ w_unread w').
Proof.
  intros Hf. eexists. split; [done|]. destruct (w_peer w !! fd) as [rd|]; [case_decide as Hrd|].
  - split_and!; try done; [by apply fds_ok_unread|]. intros rd' [= <-] _. cbn. set_solver.
  - split_and!; try done. by intros rd' [= <-].
  - by split_and!.
Qed.

Lemma fds_ok_opened w ifd rd wr es tr : fds_ok w -> fds_ok (opened w ifd rd wr es tr).
Proof. intros [H1 H2]. split; cbn; [rewrite dom_insert|]; set_solver. Qed.

Lemma start_fails_early w locs tab :
  table w locs tab -> w_running w = false -> wk_inotify_init1 (w_trace w) (w_fds w) < 0 ->
  xy_watch_start w = Ok (-1, set_w_ifd (wk_inotify_init1 (w_trace w) (w_fds w))
    (set_w_trace (w_trace w ++ [KInotify_init]) w)).
Proof.
  intros H Hr Hi. unfold xy_watch_start.
  rewrite (bind_Ok (gets _) _ w w false) by (unfold gets; by rewrite Hr).
  rewrite (bind_Ok _ _ _ _ _ (inotify_init1_eq w)).
  by destruct (Z.ltb_spec (wk_inotify_init1 (w_trace w) (w_fds w)) 0); [|lia].
Qed.

Lemma start_fails_pipe w locs tab :
  let ifd := wk_inotify_init1 (w_trace w) (w_fds w) in
  table w locs tab -> w_running w = false -> 0 <= ifd ->
  wk_pipe (w_trace w ++ [KInotify_init]) ({[ifd]} ∪ w_fds w) = None ->
  xy_watch_start w = Ok (-1, set_w_ifd (-1) (closed ifd (set_w_ifd ifd (set_w_fds ({[ifd]} ∪ w_fds w)
    (set_w_trace (w_trace w ++ [KInotify_init] ++ [KPipe]) w))))).
Proof.
  intros ifd H Hr Hi Hp. unfold xy_watch_start.
  rewrite (bind_Ok (gets _) _ w w false) by (unfold gets; by rewrite Hr).
  rewrite (bind_Ok _ _ _ _ _ (inotify_init1_eq w)). fold ifd.
  destruct (Z.ltb_spec ifd 0) as [|_]; [lia|].
  set (w1 := set_w_fds ({[ifd]} ∪ w_fds w) (set_w_trace (w_trace w ++ [KInotify_init]) w)).
  rewrite (bind_Ok (modify _) _ w1 (set_w_ifd ifd w1) tt) by done.
  rewrite (bind_Ok pipe _ _ (set_w_trace (w_trace w1 ++ [KPipe]) (set_w_ifd ifd w1)) None).
  2: { rewrite pipe_eq. cbn [w_trace w_fds set_w_ifd w1 set_w_fds set_w_trace]. by rewrite Hp. }
  rewrite (bind_Ok _ _ _ _ _ (close_eq _ _)). cbn [w1 w_trace set_w_fds set_w_trace].
  by rewrite <- app_assoc.
Qed.

(** A start that the kernel refuses something. *)
Lemma xy_watch_start_refused {L : WatchKernelLaws K} w locs tab :
  table w locs tab -> fds_ok w -> w_running w = false -> start_answers w tab = None ->
  exists w' tab', xy_watch_start w = Ok (-1, w') /\ table w' locs tab' /\ tab'.*1 = tab.*1 /\
    w_ifd w' < 0 /\ w_str w' = w_str w /\ w_next w' = w_next w /\
    (w_running w', w_thread w', w_watchers w') = (false, w_thread w, w_watchers w) /\
    (w_fds w', w_peer w', w_unread w') = (w_fds w, w_peer w, w_unread w).
Proof.
  intros H Hok Hr. pose proof (wk_inotify_fresh (w_trace w) (w_fds w)) as Hfi. revert Hr.
  unfold start_answers. set (ifd := wk_inotify_init1 _ _) in *. intros Hr.
  destruct (Z.ltb_spec ifd 0) as [Hi|Hi].
  { intros _. do 2 eexists. split; [by eapply start_fails_early|].
    split_and!; [by eapply table_same|done|done|done|done| |done]. by rewrite <- Hr. }
  destruct (wk_pipe _ _) as [[rd wr]|] eqn:Hp.
  + destruct (wk_pipe_fresh _ _ _ _ Hp) as (_ & _ & _ & Hfr & Hfw).
    destruct (start_opens _ _ _ _ _ H Hr Hi Hp) as (es & Ht & E). cbv zeta in Ht, E.
    fold ifd in Ht, E.
    destruct (Z.eqb_spec (wk_thread_create (sweep (asked ifd) ((w_trace w ++ [KInotify_init]) ++ [KPipe]) tab).2) 0)
      as [|Hc]; [done|]. intros _.
    set (y := sweep _ _ _) in *. set (w4 := opened _ _ _ _ _ _) in *.
    set (ret := wk_thread_create y.2) in *. set (tr := y.2 ++ [KThread_create]).
    pose proof (rolled_back_frame ret tr w4) as (Hsame & Hi4 & Hn4 & Hc4 & _).
    pose proof (rolled_back_opened w ifd rd wr es y.2 ret tr Hok Hfi
      ltac:(set_solver) ltac:(set_solver)) as Hf4.
    assert (xy_watch_start w = Ok (-1, rolled_back ret tr w4)) as E'.
    { rewrite E, (bind_Ok _ _ _ _ _ (create_watcher_eq _)). change (w_trace w4) with y.2. fold ret.
      rewrite (proj2 (Z.eqb_neq ret 0) Hc). cbn [negb].
      by rewrite (bind_Ok _ _ _ _ _ (close_all_eq _)). }
    fold w4 in Hf4. set (w5 := rolled_back ret tr w4) in *. clearbody w5. exists w5, y.1.
    split_and!; [done|by eapply table_same|apply sweep_names|lia|apply Hsame|by rewrite Hn4| |exact Hf4].
    rewrite Hc4. by rewrite <- Hr.
  + intros _. do 2 eexists. split; [by eapply start_fails_pipe|].
    split_and!; [by eapply table_same|done|done|done|done| |]; cbn; [by rewrite Hr|].
    destruct Hok as [Hpe Hun]. rewrite (delete_fresh w) by done.
    f_equal; [f_equal|]; [|]; apply set_eq; intros x; set_solver.
Qed.

(** A start that the kernel grants everything. *)
Lemma xy_watch_start_granted {L : WatchKernelLaws K} w locs tab ifd rd wr :
  table w locs tab -> w_running w = false -> start_answers w tab = Some (ifd, rd, wr) ->
  let y := sweep (asked ifd) (w_trace w ++ [KInotify_init; KPipe]) tab in
  exists es, let w' := spawned w (opened w ifd rd wr es (y.2 ++ [KThread_create])) in
    xy_watch_start w = Ok (0, w') /\ table w' locs y.1.
Proof.
  intros H Hr Ha. unfold start_answers in Ha. set (fd := wk_inotify_init1 _ _) in *.
  destruct (Z.ltb_spec fd 0) as [|Hi]; [done|].
  destruct (wk_pipe _ _) as [[rd' wr']|] eqn:Hp; [|done].
  destruct (start_opens _ _ _ _ _ H Hr Hi Hp) as (es & Ht & E). cbv zeta in Ht, E. fold fd in Ht, E.
  destruct (Z.eqb_spec (wk_thread_create (sweep (asked fd) ((w_trace w ++ [KInotify_init]) ++ [KPipe]) tab).2) 0)
    as [Hc|]; [|done]. injection Ha as <- <- <-. rewrite <- app_assoc in Hc, Ht, E.
  exists es. set (y := sweep _ _ _) in *. cbv zeta.
  split; [|by eapply table_same].
  rewrite E, (bind_Ok _ _ _ _ _ (create_watcher_eq _)).
  change (w_trace (opened w fd rd' wr' es y.2)) with y.2. rewrite Hc. done.
Qed.

(** Starting a running watcher changes nothing.  Otherwise the start
    succeeds exactly when the kernel grants every call on the way; it then
    leaves one more thread, three more descriptors and a request for each path
    of the table.  A failed start answers -1, leaves no thread and no
    descriptor behind, and keeps the paths of the table. *)
Lemma xy_watch_start_correct {L : WatchKernelLaws K} w locs tab :
  table w locs tab -> fds_ok w ->
  (w_running w = true -> xy_watch_start w = Ok (0, w)) /\
  (w_running w = false -> start_answers w tab = None ->
     exists w' tab', xy_watch_start w = Ok (-1, w') /\ table w' locs tab' /\ tab'.*1 = tab.*1 /\
       w_ifd w' < 0 /\ w_str w' = w_str w /\ w_next w' = w_next w /\
       (w_running w', w_thread w', w_watchers w') = (false, w_thread w, w_watchers w) /\
       (w_fds w', w_peer w', w_unread w') = (w_fds w, w_peer w, w_unread w)) /\
  (forall ifd rd wr, w_running w = false -> start_answers w tab = Some (ifd, rd, wr) ->
     let y := sweep (asked ifd) (w_trace w ++ [KInotify_init; KPipe]) tab in
     exists es, let w' := spawned w (opened w ifd rd wr es (y.2 ++ [KThread_create])) in
       xy_watch_start w = Ok (0, w') /\ table w' locs y.1).
Proof.
  intros H Hok. split_and!.
  - intros Hr. unfold xy_watch_start.
    by rewrite (bind_Ok (gets _) _ w w true) by (unfold gets; by rewrite Hr).
  - intros Hr. by apply xy_watch_start_refused.
  - intros ifd rd wr Hr. by apply xy_watch_start_granted.
Qed.

(** The second half of a stop. *)
Lemma xy_watch_stop_release_eq w locs tab :
  table w locs tab ->
  exists es, xy_watch_stop_release w = Ok (tt, set_w_entries es (all_closed w)) /\
    table (set_w_entries es (all_closed w)) locs ((fun p => (p.1, -1)) <$> tab).
Proof.
  intros H. unfold xy_watch_stop_release. rewrite (bind_Ok _ _ _ _ _ (close_all_eq _)).
  assert (table (all_closed w) locs tab) as H1 by by eapply table_same.
  rewrite (bind_Ok (gets _) _ (all_closed w) (all_closed w) (length tab)).
  2: { rewrite <- (tb_count _ _ _ H1). done. }
  by apply forget_all_eq.
Qed.

End WatchSpec.
