(* ===== verification/WatchThreads.v ===== *)
(** * The watcher: threads

    The functions of src/libxylem-watch.c as threads that take turns: host
    threads that call the interface of include/ttypt/xy-watch.h, and the threads
    that run [watcher_thread].  A critical section is one step between the steps
    that lock and unlock [g_mu]; the unlocked reads of the static variables are
    steps of their own.  A turn of a loop that ends in [continue] without an
    effect is not a step. *)

From S2P Require Import Prelude QMap Status State Machine ModKey Linked Region RegionTree ModList.
From S2P Require Import Runtime Paths Identity FnCache RegionApi Deny Claim Dispatch Load Unload.
From S2P Require Import Lifecycle System Watch WatchSpec.
From stdpp Require Import options.
Local Open Scope Z_scope.

(** ** Definitions *)

(** A call of the interface. *)
Inductive watch_call :=
| CStart
| CStop
| CAdd (fname : option string)
| CRemove (fname : option string).

(** Where a host thread is in a call. *)
Inductive host_pc :=
| HLock (c : watch_call)
| HIn (c : watch_call)        (* g_mu held *)
| HJoin                       (* before pthread_join, g_mu released *)
| HJoining (th : loc)
| HLockRelease
| HRelease                    (* g_mu held *)
| HDone (ret : Z).

Inductive who := Host (t : loc) | Watcher (t : loc).

#[export] Instance who_eq_dec : EqDecision who.
Proof. solve_decision. Defined.

Section WatchThreads.
Context {Q : QMapOps} {P : Platform} {K : WatchKernel}.

(** The thread-local variables of the library that one thread sees. *)
Definition thread_locals : Type := tls * Z.
Definition locals_of (s : state) : thread_locals := (st_tls s, st_err s).
Definition with_locals (x : thread_locals) (s : state) : state :=
  set_st_err x.2 (set_st_tls x.1 s).

(** Running [m] in a thread with the locals [x]. *)
Definition in_thread {A} (x : thread_locals) (m : XM A) : XM (A * thread_locals) :=
  mine ← gets locals_of;
  modify (with_locals x);;
  a ← m;
  theirs ← gets locals_of;
  modify (with_locals mine);;
  mret (a, theirs).

(** The watcher, the owner of [g_mu], the host threads that are in a call, the
    library with the locals of the host, and the locals of the watcher threads
    that have used the library. *)
Record conf := Conf {
  c_w : wstate;
  c_mu : option who;
  c_host : gmap loc host_pc;
  c_lib : state;
  c_locals : gmap loc thread_locals
}.

Definition eta_conf (c : conf) : conf :=
  Conf (c_w c) (c_mu c) (c_host c) (c_lib c) (c_locals c).
Definition set_c_w := ltac:(setter eta_conf c_w).
Definition set_c_mu := ltac:(setter eta_conf c_mu).
Definition set_c_host := ltac:(setter eta_conf c_host).
Definition set_c_lib := ltac:(setter eta_conf c_lib).
Definition set_c_locals := ltac:(setter eta_conf c_locals).

(** The test for NULL comes before the lock. *)
Definition call_pc (c : watch_call) : host_pc :=
  match c with CAdd None => HDone (-1) | CRemove None => HDone 0 | _ => HLock c end.

(** The (first) critical section of a call, and where it leaves the thread. *)
Definition call_section (c : watch_call) : WM host_pc :=
  match c with
  | CStart => ret ← xy_watch_start; mret (HDone ret)
  | CStop => was_running ← xy_watch_stop_signal; mret (if was_running : bool then HJoin else HDone 0)
  | CAdd (Some fname) => ret ← xy_watch_add fname; mret (HDone ret)
  | CAdd None => mret (HDone (-1))
  | CRemove (Some fname) => xy_watch_remove fname;; mret (HDone 0)
  | CRemove None => mret (HDone 0)
  end.

(** The threads that hold [g_mu], and the critical section of a host thread. *)
Definition host_holds (pc : host_pc) : bool :=
  match pc with HIn _ | HRelease => true | _ => false end.
Definition watcher_holds (pc : watcher_pc) : bool :=
  match pc with PcFind _ _ | PcReload _ _ => true | _ => false end.

Definition host_section (pc : host_pc) : WM host_pc :=
  match pc with
  | HIn call => call_section call
  | HRelease => xy_watch_stop_release;; mret (HDone 0)
  | _ => mret pc
  end.

Definition set_pc (t : loc) (pc : watcher_pc) (w : wstate) : wstate :=
  set_w_watchers (<[t := pc]> (w_watchers w)) w.

Definition host_at (t : loc) (pc : host_pc) (c : conf) : conf :=
  set_c_host (<[t := pc]> (c_host c)) c.
Definition watcher_at (t : loc) (pc : watcher_pc) (c : conf) : conf :=
  set_c_w (set_pc t pc (c_w c)) c.

(** [if (!(ev->mask & XY_WATCH_MASK)) continue;] *)
Definition ignored (ev : inotify_event) : bool := Z.land (ev_mask ev) XY_WATCH_MASK =? 0.

(** What follows the first critical section. *)
Definition after_find (copy : option loc) (evs : list inotify_event) : watcher_pc :=
  match copy with Some l => PcLockReload l evs | None => PcEvents evs end.

Section Steps.
Context (exec : executor).
(** Which host threads make which calls, and how the host uses the library. *)
Context (may_call : loc -> watch_call -> Prop) (may_use : api_call -> Prop).

Inductive host_step (t : loc) : conf -> conf -> Prop :=
| step_call c call :
    c_host c !! t = None -> may_call t call ->
    host_step t c (host_at t (call_pc call) c)
| step_lock c call :
    c_host c !! t = Some (HLock call) -> c_mu c = None ->
    host_step t c (set_c_mu (Some (Host t)) (host_at t (HIn call) c))
| step_section c pc pc' w' :
    c_host c !! t = Some pc -> host_holds pc = true ->
    host_section pc (c_w c) = Ok (pc', w') ->
    host_step t c (set_c_mu None (host_at t pc' (set_c_w w' c)))
| step_join c th :
    c_host c !! t = Some HJoin -> w_thread (c_w c) = Some th ->
    host_step t c (host_at t (HJoining th) c)
| step_joined c th :
    c_host c !! t = Some (HJoining th) -> w_watchers (c_w c) !! th = Some PcExited ->
    host_step t c (host_at t HLockRelease
      (set_c_w (set_w_watchers (delete th (w_watchers (c_w c))) (c_w c)) c))
| step_lock_release c :
    c_host c !! t = Some HLockRelease -> c_mu c = None ->
    host_step t c (set_c_mu (Some (Host t)) (host_at t HRelease c))
| step_return c ret :
    c_host c !! t = Some (HDone ret) ->
    host_step t c (set_c_host (delete t (c_host c)) c).

(** [select] reports the read end of the pipe when it holds a byte. *)
Inductive watcher_step (t : loc) : conf -> conf -> Prop :=
| step_select_fails c :
    w_watchers (c_w c) !! t = Some PcSelect -> 0 <= w_ifd (c_w c) -> 0 <= w_pipe_r (c_w c) ->
    watcher_step t c (watcher_at t PcExited c)
| step_select_pipe c :
    w_watchers (c_w c) !! t = Some PcSelect -> 0 <= w_ifd (c_w c) -> 0 <= w_pipe_r (c_w c) ->
    w_pipe_r (c_w c) ∈ w_unread (c_w c) ->
    watcher_step t c (watcher_at t PcExited c)
| step_select_events c :
    w_watchers (c_w c) !! t = Some PcSelect -> 0 <= w_ifd (c_w c) -> 0 <= w_pipe_r (c_w c) ->
    w_pipe_r (c_w c) ∉ w_unread (c_w c) ->
    watcher_step t c (watcher_at t PcRead c)
| step_read_fails c :
    w_watchers (c_w c) !! t = Some PcRead ->
    watcher_step t c (watcher_at t PcExited c)
| step_read_again c :
    w_watchers (c_w c) !! t = Some PcRead ->
    watcher_step t c (watcher_at t PcSelect c)
| step_read c evs :
    w_watchers (c_w c) !! t = Some PcRead ->
    watcher_step t c (watcher_at t (PcEvents evs) c)
| step_events_end c :
    w_watchers (c_w c) !! t = Some (PcEvents []) ->
    watcher_step t c (watcher_at t PcSelect c)
| step_event_ignored c ev evs :
    w_watchers (c_w c) !! t = Some (PcEvents (ev :: evs)) -> ignored ev = true ->
    watcher_step t c (watcher_at t (PcEvents evs) c)
| step_event c ev evs :
    w_watchers (c_w c) !! t = Some (PcEvents (ev :: evs)) -> ignored ev = false ->
    watcher_step t c (watcher_at t (PcLockFind ev evs) c)
| step_lock_find c ev evs :
    w_watchers (c_w c) !! t = Some (PcLockFind ev evs) -> c_mu c = None ->
    watcher_step t c (set_c_mu (Some (Watcher t)) (watcher_at t (PcFind ev evs) c))
| step_find c ev evs copy w' :
    w_watchers (c_w c) !! t = Some (PcFind ev evs) -> watcher_find ev (c_w c) = Ok (copy, w') ->
    watcher_step t c (set_c_mu None (watcher_at t (after_find copy evs) (set_c_w w' c)))
| step_lock_reload c l evs :
    w_watchers (c_w c) !! t = Some (PcLockReload l evs) -> c_mu c = None ->
    watcher_step t c (set_c_mu (Some (Watcher t)) (watcher_at t (PcReload l evs) c))
| step_reload c l evs fname ret x lib' w' :
    w_watchers (c_w c) !! t = Some (PcReload l evs) -> w_str (c_w c) !! l = Some fname ->
    in_thread (default (tls_zero, 0) (c_locals c !! t)) (xy_reload exec fname) (c_lib c) =
      Ok (ret, x, lib') ->
    free_str (Some l) (c_w c) = Ok (tt, w') ->
    watcher_step t c (set_c_mu None (watcher_at t (PcEvents evs)
      (set_c_lib lib' (set_c_locals (<[t := x]> (c_locals c)) (set_c_w w' c))))).

(** The host uses the library itself. *)
Inductive library_step : conf -> conf -> Prop :=
| step_library c call ret lib' :
    may_use call -> api_sem exec call (c_lib c) = Ok (ret, lib') -> library_step c (set_c_lib lib' c).

Inductive step (c c' : conf) : Prop :=
| step_host t : host_step t c c' -> step c c'
| step_watcher t : watcher_step t c c' -> step c c'
| step_lib : library_step c c' -> step c c'.

Definition initial (lib : state) : conf := Conf watch_start_state None ∅ lib ∅.

Definition reachable (c : conf) : Prop := exists lib, rtc step (initial lib) c.

End Steps.

End WatchThreads.
