(* ===== verification/WatchSafety.v ===== *)
(** * The watcher: safety of its threads

    However many host threads call the interface and however the threads are
    scheduled: at most one of them is in a critical section, none of these runs
    into undefined behaviour, and each string has exactly one owner. *)

From S2P Require Import Prelude QMap Status State Machine ModKey Linked Region RegionTree ModList.
From S2P Require Import Runtime Paths Identity FnCache RegionApi Deny Claim Dispatch Load Unload.
From S2P Require Import Lifecycle System Watch WatchSpec WatchThreads.
From stdpp Require Import options.
Local Open Scope Z_scope.

Section WatchSafety.
Context {Q : QMapOps} {P : Platform} {K : WatchKernel} {KL : WatchKernelLaws K}.
Implicit Types (w : wstate) (c : conf) (locs : list loc) (tab : list (string * Z)).

(** ** Definitions *)

(** The string that a watcher thread owns. *)
Definition copy_of (pc : watcher_pc) : option loc :=
  match pc with PcLockReload l _ | PcReload l _ => Some l | _ => None end.
Definition held w : gmap loc loc := omap copy_of (w_watchers w).

(** Every string belongs to one entry of the table or to one thread. *)
Record strings_ok w locs : Prop := {
  so_owned : forall l, is_Some (w_str w !! l) <-> l ∈ locs \/ exists t, held w !! t = Some l;
  so_apart : forall t l, held w !! t = Some l -> l ∉ locs;
  so_inj : forall t t' l, held w !! t = Some l -> held w !! t' = Some l -> t = t'
}.

(** Addresses and thread identifiers are handed out in order. *)
Definition fresh_ok w : Prop :=
  (forall l, is_Some (w_str w !! l) -> (l < w_next w)%positive) /\
  (forall t, is_Some (w_watchers w !! t) -> (t < w_next w)%positive).

Definition watch_ok w : Prop :=
  fds_ok w /\ fresh_ok w /\ exists locs tab, table w locs tab /\ strings_ok w locs.

(** The thread is in a critical section. *)
Definition in_section c (x : who) : Prop :=
  match x with
  | Host t => exists pc, c_host c !! t = Some pc /\ host_holds pc = true
  | Watcher t => exists pc, w_watchers (c_w c) !! t = Some pc /\ watcher_holds pc = true
  end.

(** The mutex is owned by the thread that is in a critical section. *)
Definition mutex_ok c : Prop := forall x, in_section c x <-> c_mu c = Some x.

(** The watcher threads after a critical section of a host thread. *)
Definition maybe_spawned w w' : Prop :=
  w_watchers w' = w_watchers w \/
  w_watchers w !! w_next w = None /\ w_watchers w' = <[w_next w := PcSelect]> (w_watchers w).

(** ** Strings *)

Lemma fresh_str w : fresh_ok w -> w_str w !! w_next w = None.
Proof.
  intros [H _]. destruct (w_str w !! w_next w) eqn:E; [|done].
  specialize (H (w_next w)). rewrite E in H. by apply Pos.lt_irrefl in H.
Qed.

Lemma fresh_watcher w : fresh_ok w -> w_watchers w !! w_next w = None.
Proof.
  intros [_ H]. destruct (w_watchers w !! w_next w) eqn:E; [|done].
  specialize (H (w_next w)). rewrite E in H. by apply Pos.lt_irrefl in H.
Qed.

Lemma strings_ok_same w w' locs :
  strings_ok w locs -> w_str w' = w_str w -> held w' = held w -> strings_ok w' locs.
Proof. intros [H1 H2 H3] Es Eh. split; by rewrite ?Es, ?Eh. Qed.

Lemma held_insert w w' t pc :
  w_watchers w' = <[t := pc]> (w_watchers w) ->
  held w' = match copy_of pc with Some l => <[t := l]> (held w) | None => delete t (held w) end.
Proof.
  intros E. apply map_eq. intros x. unfold held. rewrite lookup_omap, E.
  destruct (decide (t = x)) as [<-|Hx].
  - rewrite lookup_insert_eq. cbn. destruct (copy_of pc); [by rewrite lookup_insert_eq|].
    by rewrite lookup_delete_eq.
  - rewrite lookup_insert_ne by done. destruct (copy_of pc).
    + by rewrite lookup_insert_ne, lookup_omap.
    + by rewrite lookup_delete_ne, lookup_omap.
Qed.

Lemma held_at w t : held w !! t = w_watchers w !! t ≫= copy_of.
Proof. apply lookup_omap. Qed.

Lemma held_same w w' t pc :
  w_watchers w' = <[t := pc]> (w_watchers w) -> w_watchers w !! t ≫= copy_of = copy_of pc ->
  held w' = held w.
Proof.
  intros E Ec. rewrite (held_insert _ _ _ _ E). rewrite <- held_at in Ec.
  destruct (copy_of pc); [by apply insert_id|by apply delete_id].
Qed.

Lemma held_watchers w w' : w_watchers w' = w_watchers w -> held w' = held w.
Proof. intros E. unfold held. by rewrite E. Qed.

(** A change of a thread that owns the same string before and after. *)
Lemma watch_ok_pc w t pc pc' :
  watch_ok w -> w_watchers w !! t = Some pc -> copy_of pc' = copy_of pc -> watch_ok (set_pc t pc' w).
Proof.
  intros (Hf & [Hn1 Hn2] & locs & tab & Ht & Hs) Hpc Hc. split_and!; [done| |].
  - split; [done|]. cbn. intros t0 [->|[_ Ht0]]%lookup_insert_is_Some; eauto.
  - exists locs, tab. split; [by eapply table_same|]. eapply strings_ok_same; [done..|].
    eapply (held_same w _ t pc'); [done|]. by rewrite Hpc.
Qed.

Lemma watch_ok_joined w t :
  watch_ok w -> w_watchers w !! t = Some PcExited ->
  watch_ok (set_w_watchers (delete t (w_watchers w)) w).
Proof.
  intros (Hf & [Hn1 Hn2] & locs & tab & Ht & Hs) Hpc. split_and!; [done| |].
  - split; [done|]. cbn. intros t0 [_ H]%lookup_delete_is_Some. auto.
  - exists locs, tab. split; [by eapply table_same|]. eapply strings_ok_same; [done..|].
    apply map_eq. intros x. rewrite !held_at. cbn. destruct (decide (t = x)) as [<-|Hx].
    + by rewrite lookup_delete_eq, Hpc.
    + by rewrite lookup_delete_ne.
Qed.

(** ** Critical sections of the host *)

Lemma watch_ok_same w w' locs tab tab' :
  fresh_ok w -> strings_ok w locs -> table w' locs tab' ->
  w_str w' = w_str w -> w_watchers w' = w_watchers w -> w_next w' = w_next w -> fds_ok w' ->
  watch_ok w'.
Proof.
  intros [Hn1 Hn2] Hs Ht Es Ew En Hf. split_and!; [done| |].
  - split; by rewrite ?Es, ?Ew, En.
  - exists locs, tab'. split; [done|]. eapply strings_ok_same; [done..|]. by apply held_watchers.
Qed.

(** A string that is added to the table. *)
Lemma strings_added w w' locs fname :
  fresh_ok w -> strings_ok w locs -> w_str w' = <[w_next w := fname]> (w_str w) ->
  held w' = held w -> strings_ok w' (locs ++ [w_next w]).
Proof.
  intros Hn [H1 H2 H3] Es Eh. pose proof (fresh_str w Hn) as Hnew. split; [|intros t l|]; rewrite ?Eh.
  - intros l. rewrite Es, lookup_insert_is_Some, elem_of_app, list_elem_of_singleton, H1.
    split.
    + intros [<-|[_ [Hl|Hl]]]; auto.
    + intros [[Hl| ->]|Hl]; [|by left|]; destruct (decide (w_next w = l)); auto.
  - intros Ht [Hl| ->%list_elem_of_singleton]%elem_of_app; [by eapply H2|].
    assert (is_Some (w_str w !! w_next w)) as [? E] by (apply H1; eauto). congruence.
  - done.
Qed.

(** A string that is removed from it. *)
Lemma strings_removed w w' locs i l :
  strings_ok w locs -> locs !! i = Some l -> NoDup locs -> w_str w' = delete l (w_str w) ->
  held w' = held w -> strings_ok w' (delete i locs).
Proof.
  intros [H1 H2 H3] Hl Hnd Es Eh.
  assert (forall x, x ∈ delete i locs <-> x ∈ locs /\ x <> l) as Hd.
  { intros x. rewrite delete_take_drop.
    pose proof (take_drop_middle _ _ _ Hl) as E. rewrite <- E in Hnd |- * at 3.
    set (a := take i locs) in *. set (b := drop (S i) locs) in *. clearbody a b.
    rewrite NoDup_app, NoDup_cons in Hnd. destruct Hnd as (_ & Hab & Hlb & _).
    rewrite !elem_of_app, elem_of_cons. split.
    - intros [Hx|Hx]; (split; [auto|]); intros ->; [|done]. apply (Hab l Hx). by left.
    - intros [[Hx|[->|Hx]] Hne]; auto. done. }
  split; [|intros t x|]; rewrite ?Eh.
  - intros x. rewrite Es, lookup_delete_is_Some, H1, Hd.
    split.
    + intros [Hne [Hx|Hx]]; [left; by split|by right].
    + intros [[Hx Hne]|[t Ht]]; [by split; [|left]|]. split; [|by right; exists t].
      intros <-. apply (H2 t l Ht). by eapply list_elem_of_lookup_2.
  - intros Ht [Hx _]%Hd. by eapply H2.
  - done.
Qed.

Lemma control_fields w w' :
  control w' = control w ->
  w_watchers w' = w_watchers w /\ w_fds w' = w_fds w /\ w_peer w' = w_peer w /\
  w_unread w' = w_unread w /\ w_ifd w' = w_ifd w /\ w_running w' = w_running w.
Proof. unfold control. by intros [=]. Qed.

Lemma fds_ok_control w w' : fds_ok w -> control w' = control w -> fds_ok w'.
Proof. intros H (_ & E1 & E2 & E3 & _)%control_fields. unfold fds_ok. by rewrite E1, E2, E3. Qed.

Lemma add_section w fname :
  watch_ok w -> exists ret w', xy_watch_add fname w = Ok (ret, w') /\ watch_ok w' /\
    control w' = control w.
Proof.
  intros Hok. pose proof Hok as (Hf & Hn & locs & tab & Ht & Hs). pose proof (table_bound _ _ _ Ht) as Hb.
  destruct (xy_watch_add_correct w locs tab fname Ht (fresh_str w Hn)) as (A1 & A2 & A3 & A4).
  destruct (decide (fname ∈ tab.*1)) as [Hin|Hin].
  { exists 0, w. rewrite A1 by done. by split; [|split]. }
  destruct (decide (length tab = XY_WATCH_MAX)) as [Hm|Hm].
  { do 2 eexists. split; [by apply A2|]. split; [|done].
    by eapply (watch_ok_same w _ locs tab tab); [..|by eapply table_same| | | |]. }
  destruct (wk_strdup (w_trace w)) eqn:Hd.
  2: { do 2 eexists. split; [by apply A3; [|lia|]|]. split; [|done].
       by eapply (watch_ok_same w _ locs tab tab); [..|by eapply table_same| | | |]. }
  destruct (A4 Hin ltac:(lia) eq_refl) as (w' & E & Ht' & _ & Hc & Es & En).
  exists 0, w'. split; [done|]. destruct (control_fields _ _ Hc) as (Ew & _). split; [|exact Hc].
  split; [by eapply fds_ok_control|split].
  - destruct Hn as [Hn1 Hn2]. split; rewrite ?Es, ?Ew, En.
    + intros l [<-|[_ Hl]]%lookup_insert_is_Some; [lia|]. specialize (Hn1 l Hl). lia.
    + intros t Hw. specialize (Hn2 t Hw). lia.
  - exists (locs ++ [w_next w]). eexists. split; [exact Ht'|].
    eapply strings_added; [done..|]. by apply held_watchers.
Qed.

Lemma remove_section w fname :
  watch_ok w -> exists w', xy_watch_remove fname w = Ok (tt, w') /\ watch_ok w' /\
    control w' = control w.
Proof.
  intros Hok. pose proof Hok as (Hf & Hn & locs & tab & Ht & Hs).
  destruct (xy_watch_remove_correct w locs tab fname Ht) as (A1 & A2).
  destruct (path_index fname tab) as [i|] eqn:E.
  2: { apply path_index_None in E. exists w. rewrite A1 by done. by split; [|split]. }
  apply path_index_Some in E as (wd & Hi).
  destruct (table_at _ _ _ _ _ Ht Hi) as (l & Hl & _).
  destruct (A2 i l wd Hi Hl) as (w' & E & Ht' & Es & Hc & En & _).
  destruct (control_fields _ _ Hc) as (Ew & _). exists w'. split; [done|]. split; [|exact Hc].
  split; [by eapply fds_ok_control|split].
  - destruct Hn as [Hn1 Hn2]. split; rewrite ?Es, ?Ew, En; [|done].
    intros x [_ Hx]%lookup_delete_is_Some. by apply Hn1.
  - exists (delete i locs). eexists. split; [exact Ht'|].
    eapply strings_removed; [done..|apply Ht|done|]. by apply held_watchers.
Qed.

Lemma maybe_spawned_held w w' : fresh_ok w -> maybe_spawned w w' -> held w' = held w.
Proof.
  intros Hn [E|[E0 E]]; [by apply held_watchers|]. eapply held_same; [done|]. by rewrite E0.
Qed.

Lemma start_section w :
  watch_ok w -> exists ret w', xy_watch_start w = Ok (ret, w') /\ watch_ok w' /\ maybe_spawned w w'.
Proof using KL.
  intros Hok. pose proof Hok as (Hf & Hn & locs & tab & Ht & Hs).
  destruct (xy_watch_start_correct w locs tab Ht Hf) as (A1 & A2 & A3).
  destruct (w_running w) eqn:Hr.
  { exists 0, w. rewrite A1 by done. by split; [|split; [|left]]. }
  destruct (start_answers w tab) as [[[ifd rd] wr]|] eqn:Ea.
  - destruct (A3 ifd rd wr eq_refl eq_refl) as (es & E & Ht'). cbv zeta in E, Ht'.
    set (y := sweep _ _ _) in *. pose proof (fds_ok_opened w ifd rd wr es (y.2 ++ [KThread_create]) Hf) as Hf4.
    assert (w_str (opened w ifd rd wr es (y.2 ++ [KThread_create])) = w_str w) as Es4 by done.
    set (w4 := opened w ifd rd wr es (y.2 ++ [KThread_create])) in *. clearbody w4.
    destruct (spawned_frame w w4) as ((_ & _ & Es) & Efd & _).
    set (w' := spawned w w4) in *. exists 0, w'. split; [exact E|]. rewrite Es4 in Es.
    assert (maybe_spawned w w') as Hsp by (right; split; [by apply fresh_watcher|done]).
    split; [|exact Hsp]. split; [by eapply fds_ok_eq|split].
    + destruct Hn as [Hn1 Hn2]. split; [rewrite Es|]; cbn.
      * intros l Hl. specialize (Hn1 l Hl). lia.
      * intros t [<-|[_ H]]%lookup_insert_is_Some; [lia|]. specialize (Hn2 t H). lia.
    + exists locs, y.1. split; [exact Ht'|].
      eapply strings_ok_same; [exact Hs|exact Es|]. by apply maybe_spawned_held.
  - destruct (A2 eq_refl eq_refl) as (w' & tab' & E & Ht' & _ & _ & Es & En & Ec & Ef).
    exists (-1), w'. split; [exact E|]. injection Ec as _ _ Ew. split; [|by left].
    eapply watch_ok_same; try done. by eapply fds_ok_eq.
Qed.

Lemma signal_section w :
  watch_ok w -> exists b w', xy_watch_stop_signal w = Ok (b, w') /\ watch_ok w' /\
    w_watchers w' = w_watchers w.
Proof.
  intros Hok. pose proof Hok as (Hf & Hn & locs & tab & Ht & Hs).
  unfold xy_watch_stop_signal. rewrite (bind_Ok (gets _) _ w w (w_running w)) by done.
  destruct (w_running w); [|by exists false, w; split; [|split]]. cbn [negb].
  exists true. destruct (write_byte_frame (w_pipe_w w) w Hf) as (w1 & E1 & Hst & Ew & En & Hf1 & _).
  exists (set_w_running false w1). split.
  { rewrite (bind_Ok (gets _) _ w w (w_pipe_w w)) by done. by rewrite (bind_Ok _ _ _ _ _ E1). }
  split; [|exact Ew].
  assert (same_table w1 (set_w_running false w1)) as Hst1 by done.
  eapply (watch_ok_same w _ locs tab tab Hn Hs); [|apply Hst|exact Ew|exact En|exact Hf1].
  eapply table_same; [|done]. by eapply table_same.
Qed.

Lemma release_section w :
  watch_ok w -> exists w', xy_watch_stop_release w = Ok (tt, w') /\ watch_ok w' /\
    w_watchers w' = w_watchers w.
Proof.
  intros Hok. pose proof Hok as (Hf & Hn & locs & tab & Ht & Hs).
  destruct (xy_watch_stop_release_eq w locs tab Ht) as (es & E & Ht').
  destruct (all_closed_frame w) as ((_ & _ & Es) & _ & En & _).
  assert (w_watchers (all_closed w) = w_watchers w) as Ew by done.
  pose proof (fds_ok_all_closed w Hf) as Hf'. set (v := all_closed w) in *. clearbody v.
  exists (set_w_entries es v). split; [exact E|]. split; [|exact Ew].
  by eapply (watch_ok_same w _ locs tab).
Qed.

#[local] Opaque xy_watch_start xy_watch_stop_signal xy_watch_stop_release xy_watch_add.
#[local] Opaque xy_watch_remove watcher_find.

(** No critical section of a host thread runs into undefined behaviour. *)
Lemma host_section_ok w pc :
  watch_ok w -> exists pc' w', host_section pc w = Ok (pc', w') /\ watch_ok w' /\ maybe_spawned w w'.
Proof using KL.
  intros Hok. assert (exists pc' w', mret (M := WM) pc w = Ok (pc', w') /\ watch_ok w' /\ maybe_spawned w w').
  { exists pc, w. by split; [|split; [|left]]. }
  destruct pc as [|call| | | | |]; try done; cbn [host_section].
  - destruct call as [| |[fname|]|[fname|]]; cbn [call_section]; try done.
    + destruct (start_section w Hok) as (ret & w' & E & H1 & H2).
      rewrite (bind_Ok _ _ _ _ _ E). by exists (HDone ret), w'.
    + destruct (signal_section w Hok) as (b & w' & E & H1 & H2).
      rewrite (bind_Ok _ _ _ _ _ E). exists (if b then HJoin else HDone 0), w'. by split; [|split; [|left]].
    + destruct (add_section w fname Hok) as (ret & w' & E & H1 & H2).
      rewrite (bind_Ok _ _ _ _ _ E). exists (HDone ret), w'. split; [done|split; [done|left]].
      by apply control_fields.
    + by exists (HDone (-1)), w; split; [|split; [|left]].
    + destruct (remove_section w fname Hok) as (w' & E & H1 & H2).
      rewrite (bind_Ok _ _ _ _ _ E). exists (HDone 0), w'. split; [done|split; [done|left]].
      by apply control_fields.
    + by exists (HDone 0), w; split; [|split; [|left]].
  - destruct (release_section w Hok) as (w' & E & H1 & H2).
    rewrite (bind_Ok _ _ _ _ _ E). exists (HDone 0), w'. by split; [|split; [|left]].
Qed.

(** ** Critical sections of the watcher threads *)

(** A new string that goes to a watcher thread. *)
Lemma strings_copied w w' locs t fname pc :
  fresh_ok w -> strings_ok w locs -> w_str w' = <[w_next w := fname]> (w_str w) ->
  w_watchers w !! t ≫= copy_of = None -> copy_of pc = Some (w_next w) ->
  w_watchers w' = <[t := pc]> (w_watchers w) -> strings_ok w' locs.
Proof.
  intros Hn [H1 H2 H3] Es Et Ec Ew. pose proof (fresh_str w Hn) as Hnew.
  pose proof (held_insert _ _ _ _ Ew) as Eh. rewrite Ec in Eh. rewrite <- held_at in Et.
  assert (forall x, held w !! x <> Some (w_next w)) as Hx.
  { intros x E. assert (is_Some (w_str w !! w_next w)) as [? E'] by (apply H1; eauto). congruence. }
  assert (w_next w ∉ locs) as Hlocs.
  { intros E. assert (is_Some (w_str w !! w_next w)) as [? E'] by (apply H1; eauto). congruence. }
  split.
  - intros l. rewrite Es, Eh, lookup_insert_is_Some, H1. split.
    + intros [<-|[_ [Hl|[x Hl]]]]; [right; exists t; apply lookup_insert_eq|by left|].
      right. exists x. rewrite lookup_insert_ne; [done|]. intros <-. congruence.
    + intros [Hl|[x [[<- [= <-]]|[_ Hl]]%lookup_insert_Some]]; [|by left|].
      * destruct (decide (w_next w = l)); auto.
      * destruct (decide (w_next w = l)); eauto.
  - intros x l. rewrite Eh. intros [[<- [= <-]]|[_ Hl]]%lookup_insert_Some; eauto.
  - intros x y l. rewrite Eh.
    intros [[<- [= <-]]|[_ Hl]]%lookup_insert_Some [[<- E]|[_ Hl']]%lookup_insert_Some.
    + done.
    + by apply Hx in Hl'.
    + rewrite <- E in Hl. by apply Hx in Hl.
    + by eapply H3.
Qed.

Lemma find_section w t ev evs :
  watch_ok w -> w_watchers w !! t = Some (PcFind ev evs) ->
  exists copy w', watcher_find ev w = Ok (copy, w') /\ watch_ok (set_pc t (after_find copy evs) w') /\
    control w' = control w.
Proof.
  intros Hok Hpc. pose proof Hok as (Hf & Hn & locs & tab & Ht & Hs).
  destruct (watcher_find_correct w locs tab ev Ht (fresh_str w Hn)) as [A1 A2].
  destruct (wd_index (ev_wd ev) tab) as [i|] eqn:E.
  2: { exists None, w. split; [by apply A1|]. split; [|done].
       by apply (watch_ok_pc w t (PcFind ev evs)). }
  destruct (wd_index_Some _ _ _ E) as [fname Hi]. destruct (A2 i fname eq_refl Hi) as (w' & Er & Ht' & _ & Hc & Es & En).
  clear A1 A2. destruct (control_fields _ _ Hc) as (Ew & _).
  do 2 eexists. split; [exact Er|]. split; [|exact Hc]. destruct Hn as [Hn1 Hn2].
  split; [exact (fds_ok_control w w' Hf Hc)|split].
  - split; cbn; rewrite ?Es, ?Ew, En; destruct (wk_strdup (w_trace w)).
    + intros l [<-|[_ Hl]]%lookup_insert_is_Some; [lia|]. specialize (Hn1 l Hl). lia.
    + done.
    + intros x [<-|[_ Hx]]%lookup_insert_is_Some; [|specialize (Hn2 x Hx); lia].
      specialize (Hn2 t ltac:(eauto)). lia.
    + intros x [<-|[_ Hx]]%lookup_insert_is_Some; eauto.
  - exists locs. eexists. split; [by eapply table_same|].
    destruct (wk_strdup (w_trace w)); cbn [after_find].
    + eapply (strings_copied w); [by split|done|done|by rewrite Hpc| |cbn; by rewrite Ew]. done.
    + eapply strings_ok_same; [done|done|]. eapply (held_same w _ t (PcEvents evs)); [cbn; by rewrite Ew|].
      by rewrite Hpc.
Qed.

(** The copy is there while it is needed, and is freed once. *)
Lemma reload_section w t l evs :
  watch_ok w -> w_watchers w !! t = Some (PcReload l evs) ->
  exists fname, w_str w !! l = Some fname /\
    free_str (Some l) w = Ok (tt, set_w_str (delete l (w_str w)) w) /\
    watch_ok (set_pc t (PcEvents evs) (set_w_str (delete l (w_str w)) w)).
Proof.
  intros (Hf & [Hn1 Hn2] & locs & tab & Ht & [H1 H2 H3]) Hpc.
  assert (held w !! t = Some l) as Hh by (rewrite held_at; by rewrite Hpc).
  assert (is_Some (w_str w !! l)) as [fname Hl] by (apply H1; eauto).
  exists fname. split; [done|]. split.
  { unfold free_str. rewrite (bind_Ok _ _ w w fname); [done|].
    rewrite (bind_Ok (gets _) _ w w (Some fname)); [done|]. unfold gets. by rewrite Hl. }
  assert (held (set_pc t (PcEvents evs) (set_w_str (delete l (w_str w)) w)) = delete t (held w)) as Eh.
  { by apply (held_insert w _ t (PcEvents evs)). }
  split; [done|]. split; [|exists locs, tab; split].
  - split; cbn.
    + intros x [_ Hx]%lookup_delete_is_Some. auto.
    + intros x [<-|[_ Hx]]%lookup_insert_is_Some; eauto.
  - eapply table_frame; [done..|]. intros x Hx. cbn. rewrite lookup_delete_ne; [done|].
    intros <-. by eapply H2.
  - split.
    + intros x. rewrite Eh. cbn. rewrite lookup_delete_is_Some, H1. split.
      * intros [Hne [Hx|[y Hy]]]; [by left|]. right. exists y. rewrite lookup_delete_ne; [done|].
        intros <-. congruence.
      * intros [Hx|[y [Hne Hy]%lookup_delete_Some]].
        -- split; [|by left]. intros <-. by eapply H2.
        -- split; [|eauto]. intros <-. apply Hne. by eapply H3.
    + intros y x. rewrite Eh. intros [_ Hy]%lookup_delete_Some. by eapply H2.
    + intros y y' x. rewrite Eh. intros [_ Hy]%lookup_delete_Some [_ Hy']%lookup_delete_Some.
      by eapply H3.
Qed.

(** ** The mutex *)

(** A step of [x] that locks, that unlocks, or that does neither. *)
Lemma mutex_ok_step x c c' :
  mutex_ok c -> (forall y, y <> x -> in_section c' y <-> in_section c y) ->
  ((in_section c' x <-> in_section c x) /\ c_mu c' = c_mu c) \/
  (c_mu c = None /\ in_section c' x /\ c_mu c' = Some x) \/
  (in_section c x /\ ~ in_section c' x /\ c_mu c' = None) ->
  mutex_ok c'.
Proof.
  intros H Hy Hx y. destruct (decide (y = x)) as [->|Hne].
  - destruct Hx as [[Hx ->]|[(_ & Hx & ->)|(_ & Hx & ->)]]; [by rewrite Hx|done..].
  - rewrite (Hy y Hne), (H y). destruct Hx as [[_ ->]|[(E & _ & ->)|(Hx & _ & ->)]]; [done|..].
    + rewrite E. split; congruence.
    + apply H in Hx. rewrite Hx. split; congruence.
Qed.

Lemma in_section_host_at t pc c y :
  in_section (host_at t pc c) y <->
  if decide (y = Host t) then host_holds pc = true else in_section c y.
Proof.
  destruct y as [t'|t']; cbn; [|by case_decide].
  destruct (decide (t = t')) as [<-|Hne].
  - rewrite lookup_insert_eq, decide_True by done. split; [by intros (? & [= <-] & ?)|eauto].
  - by rewrite lookup_insert_ne, decide_False by congruence.
Qed.

Lemma in_section_watcher_at t pc c y :
  in_section (watcher_at t pc c) y <->
  if decide (y = Watcher t) then watcher_holds pc = true else in_section c y.
Proof.
  destruct y as [t'|t']; cbn; [by case_decide|].
  destruct (decide (t = t')) as [<-|Hne].
  - rewrite lookup_insert_eq, decide_True by done. split; [by intros (? & [= <-] & ?)|eauto].
  - by rewrite lookup_insert_ne, decide_False by congruence.
Qed.

Lemma in_section_w c w y :
  maybe_spawned (c_w c) w -> in_section (set_c_w w c) y <-> in_section c y.
Proof.
  destruct y as [t|t]; cbn; [done|]. intros [->|[E0 ->]]; [done|].
  destruct (decide (w_next (c_w c) = t)) as [<-|Hne].
  - rewrite lookup_insert_eq, E0. split; [by intros (? & [= <-] & ?)|by intros (? & ? & _)].
  - by rewrite lookup_insert_ne.
Qed.

(** ** The invariant *)

Definition watch_inv c : Prop := watch_ok (c_w c) /\ mutex_ok c.

Lemma host_section_leaves pc w pc' w' :
  host_section pc w = Ok (pc', w') -> host_holds pc = true -> host_holds pc' = false.
Proof.
  destruct pc as [|call| | | | |]; try done; intros H _.
  - destruct call as [| |[fname|]|[fname|]]; try (by injection H as <- _);
      apply bind_inv in H as (r & w1 & _ & [= <- _]); [done|by destruct r|done..].
  - apply (bind_inv xy_watch_stop_release) in H as (r & w1 & _ & [= <- _]). done.
Qed.

Lemma in_section_host c t pc : c_host c !! t = Some pc -> in_section c (Host t) <-> host_holds pc = true.
Proof. intros H. cbn. rewrite H. split; [by intros (? & [= <-] & ?)|eauto]. Qed.

Lemma in_section_watcher c t pc :
  w_watchers (c_w c) !! t = Some pc -> in_section c (Watcher t) <-> watcher_holds pc = true.
Proof. intros H. cbn. rewrite H. split; [by intros (? & [= <-] & ?)|eauto]. Qed.

(** A host thread that moves between two points outside of the sections. *)
Lemma mutex_host_moves c t pc :
  mutex_ok c -> ~ in_section c (Host t) -> host_holds pc = false -> mutex_ok (host_at t pc c).
Proof.
  intros H Hn Hpc. apply (mutex_ok_step (Host t) c); [done| |left; split; [|done]].
  - intros y Hy. by rewrite in_section_host_at, decide_False.
  - rewrite in_section_host_at, decide_True, Hpc by done. by split.
Qed.

Lemma mutex_watcher_moves c t pc :
  mutex_ok c -> ~ in_section c (Watcher t) -> watcher_holds pc = false -> mutex_ok (watcher_at t pc c).
Proof.
  intros H Hn Hpc. apply (mutex_ok_step (Watcher t) c); [done| |left; split; [|done]].
  - intros y Hy. by rewrite in_section_watcher_at, decide_False.
  - rewrite in_section_watcher_at, decide_True, Hpc by done. by split.
Qed.

Lemma mutex_host_locks c t pc :
  mutex_ok c -> c_mu c = None -> host_holds pc = true ->
  mutex_ok (set_c_mu (Some (Host t)) (host_at t pc c)).
Proof.
  intros H Hmu Hpc. apply (mutex_ok_step (Host t) c); [done| |right; left; split_and!; [done| |done]].
  - intros y Hy. change (in_section (host_at t pc c) y <-> in_section c y).
    by rewrite in_section_host_at, decide_False.
  - change (in_section (host_at t pc c) (Host t)). by rewrite in_section_host_at, decide_True.
Qed.

Lemma mutex_watcher_locks c t pc :
  mutex_ok c -> c_mu c = None -> watcher_holds pc = true ->
  mutex_ok (set_c_mu (Some (Watcher t)) (watcher_at t pc c)).
Proof.
  intros H Hmu Hpc. apply (mutex_ok_step (Watcher t) c); [done| |right; left; split_and!; [done| |done]].
  - intros y Hy. change (in_section (watcher_at t pc c) y <-> in_section c y).
    by rewrite in_section_watcher_at, decide_False.
  - change (in_section (watcher_at t pc c) (Watcher t)). by rewrite in_section_watcher_at, decide_True.
Qed.

(** A thread that leaves its section with the watcher state [w]. *)
Lemma mutex_host_unlocks c t pc w :
  mutex_ok c -> in_section c (Host t) -> host_holds pc = false -> maybe_spawned (c_w c) w ->
  mutex_ok (set_c_mu None (host_at t pc (set_c_w w c))).
Proof.
  intros H Hs Hpc Hw. apply (mutex_ok_step (Host t) c); [done| |right; right; split_and!; [done| |done]].
  - intros y Hy. change (in_section (host_at t pc (set_c_w w c)) y <-> in_section c y).
    by rewrite in_section_host_at, decide_False, in_section_w.
  - change (~ in_section (host_at t pc (set_c_w w c)) (Host t)).
    by rewrite in_section_host_at, decide_True, Hpc.
Qed.

Lemma mutex_watcher_unlocks c t pc w c' :
  mutex_ok c -> in_section c (Watcher t) -> watcher_holds pc = false ->
  w_watchers w = w_watchers (c_w c) -> c_w c' = set_pc t pc w -> c_host c' = c_host c ->
  c_mu c' = None -> mutex_ok c'.
Proof.
  intros H Hs Hpc Hw Ew Eh Emu.
  assert (forall y, in_section c' y <-> in_section (watcher_at t pc c) y) as Hy.
  { intros [t'|t']; cbn; [by rewrite Eh|]. rewrite Ew. cbn. by rewrite Hw. }
  apply (mutex_ok_step (Watcher t) c); [done| |right; right; split_and!; [done| |done]].
  - intros y Hne. by rewrite Hy, in_section_watcher_at, decide_False.
  - by rewrite Hy, in_section_watcher_at, decide_True, Hpc.
Qed.

Section Invariant.
Context (exec : executor) (may_call : loc -> watch_call -> Prop) (may_use : api_call -> Prop).

Lemma watch_inv_host t c c' : watch_inv c -> host_step may_call t c c' -> watch_inv c'.
Proof using KL.
  intros [Hw Hm] Hs. inversion Hs as [? call Hpc|? call Hpc Hmu|? pc pc' w' Hpc Hh E|? th Hpc|? th Hpc Hth
    |? Hpc Hmu|? ret Hpc]; subst.
  - split; [done|]. apply mutex_host_moves; [done| |by destruct call as [| |[]|[]]].
    intros (pc & E & _). congruence.
  - split; [done|]. by apply mutex_host_locks.
  - destruct (host_section_ok _ pc Hw) as (pc2 & w2 & E2 & Hw2 & Hsp). rewrite E in E2.
    injection E2 as <- <-. split; [done|]. apply mutex_host_unlocks; [done| | |done].
    + by apply (in_section_host _ _ _ Hpc).
    + by eapply host_section_leaves.
  - split; [done|]. apply mutex_host_moves; [done| |done]. by rewrite (in_section_host _ _ _ Hpc).
  - split; [by apply watch_ok_joined|]. apply mutex_host_moves; [|by rewrite (in_section_host _ _ _ Hpc)|done].
    apply (mutex_ok_step (Watcher th) c); [done| |left; split; [|done]].
    + intros [y|y] Hy; cbn; [done|]. by rewrite lookup_delete_ne by congruence.
    + rewrite (in_section_watcher _ _ _ Hth). cbn. rewrite lookup_delete_eq. by split; [intros (? & ? & _)|].
  - split; [done|]. by apply mutex_host_locks.
  - split; [done|]. apply (mutex_ok_step (Host t) c); [done| |left; split; [|done]].
    + intros [y|y] Hy; cbn; [|done]. by rewrite lookup_delete_ne by congruence.
    + rewrite (in_section_host _ _ _ Hpc). cbn. rewrite lookup_delete_eq. by split; [intros (? & ? & _)|].
Qed.

(** A thread that moves on outside of the sections. *)
Lemma watch_inv_moves t c pc pc' :
  watch_inv c -> w_watchers (c_w c) !! t = Some pc -> copy_of pc' = copy_of pc ->
  watcher_holds pc = false -> watcher_holds pc' = false -> watch_inv (watcher_at t pc' c).
Proof.
  intros [Hw Hm] Hpc Hc Hh Hh'. split; [by eapply watch_ok_pc|].
  apply mutex_watcher_moves; [done| |done]. by rewrite (in_section_watcher _ _ _ Hpc), Hh.
Qed.

Lemma watch_inv_locks t c pc pc' :
  watch_inv c -> w_watchers (c_w c) !! t = Some pc -> c_mu c = None -> copy_of pc' = copy_of pc ->
  watcher_holds pc' = true -> watch_inv (set_c_mu (Some (Watcher t)) (watcher_at t pc' c)).
Proof.
  intros [Hw Hm] Hpc Hmu Hc Hh. split; [by eapply (watch_ok_pc _ t pc)|by apply mutex_watcher_locks].
Qed.

Lemma watch_inv_watcher t c c' : watch_inv c -> watcher_step exec t c c' -> watch_inv c'.
Proof.
  intros Hi Hs. inversion Hs; subst;
    try (eapply watch_inv_moves; [done|eassumption|done..]);
    try (eapply watch_inv_locks; [done|eassumption|done..]); destruct Hi as [Hw Hm].
  - destruct (find_section _ t ev evs Hw) as (copy2 & w2 & E2 & Hw2 & Ew); [done|].
    match goal with E : watcher_find ev _ = Ok (copy, w') |- _ => rewrite E in E2 end. injection E2 as <- <-.
    split; [done|]. eapply (mutex_watcher_unlocks c t (after_find copy evs) w'); try done; [| |by apply control_fields].
    + by eapply (in_section_watcher c).
    + by destruct copy.
  - destruct (reload_section _ t l evs Hw) as (fname2 & _ & E2 & Hw2); [done|].
    match goal with E : free_str _ _ = Ok (tt, w') |- _ => rewrite E in E2 end. injection E2 as ->.
    split; [done|]. eapply (mutex_watcher_unlocks c t (PcEvents evs) (set_w_str (delete l (w_str (c_w c))) (c_w c)));
      try done.
    by eapply (in_section_watcher c).
Qed.

Lemma watch_inv_initial lib : watch_inv (initial lib).
Proof.
  split; [|intros [t|t]; (split; [intros (? & E & _); cbn in E; by rewrite lookup_empty in E|done])].
  split; [by split; cbn; set_solver|]. split; [by split; cbn; intros ? [? ?]|].
  exists [], []. split; [split; try done; [by eexists|constructor..]|].
  assert (forall t, held watch_start_state !! t = None) as Hh by (intros t; by rewrite held_at).
  change (c_w (initial lib)) with watch_start_state. split.
  - intros l. split; [by intros [? ?]|]. intros [?%elem_of_nil|[t Ht]]; [done|]. by rewrite Hh in Ht.
  - intros t l Ht. by rewrite Hh in Ht.
  - intros t t' l Ht. by rewrite Hh in Ht.
Qed.

Lemma watch_inv_step c c' : watch_inv c -> step exec may_call may_use c c' -> watch_inv c'.
Proof using KL.
  intros H [t Hs|t Hs|Hs].
  - by eapply watch_inv_host.
  - by eapply watch_inv_watcher.
  - by inversion Hs; subst.
Qed.

Lemma watch_inv_reachable c : reachable exec may_call may_use c -> watch_inv c.
Proof using KL.
  intros (lib & Hr). refine (rtc_ind_r watch_inv (initial lib) (watch_inv_initial lib) _ c Hr).
  intros c1 c2 _ Hs H. by eapply watch_inv_step.
Qed.

(** C15: whatever host threads call and however the threads interleave, at most
    one thread is in a critical section and it owns the mutex; a critical section
    never runs into undefined behaviour (a string that is used has not been
    freed, an entry that is read exists); no path is in the table twice, and each
    string belongs to one entry of the table or to one watcher thread, so nothing
    is freed twice and nothing is lost. *)
Theorem watch_threads_safe c :
  reachable exec may_call may_use c ->
  (forall x, in_section c x <-> c_mu c = Some x) /\
  (forall t pc, c_host c !! t = Some pc -> exists pc' w', host_section pc (c_w c) = Ok (pc', w')) /\
  (forall t ev evs, w_watchers (c_w c) !! t = Some (PcFind ev evs) ->
     exists copy w', watcher_find ev (c_w c) = Ok (copy, w')) /\
  (forall t l evs, w_watchers (c_w c) !! t = Some (PcReload l evs) -> is_Some (w_str (c_w c) !! l)) /\
  exists locs tab, table (c_w c) locs tab /\ strings_ok (c_w c) locs.
Proof using KL.
  intros [Hw Hm]%watch_inv_reachable. split; [exact Hm|]. split_and!.
  - intros t pc _. destruct (host_section_ok _ pc Hw) as (pc' & w' & E & _). eauto.
  - intros t ev evs Hpc. destruct (find_section _ _ _ _ Hw Hpc) as (copy & w' & E & _). eauto.
  - intros t l evs Hpc. destruct (reload_section _ _ _ _ Hw Hpc) as (fname & E & _). eauto.
  - apply Hw.
Qed.

End Invariant.

End WatchSafety.
