(* ===== verification/WatchStop.v ===== *)
(** * The watcher: starting and stopping

    When one host thread starts and stops the watcher (the others add and remove
    paths): there is a thread exactly while the watcher runs, a stop leaves
    nothing behind, and it always can complete. *)

From S2P Require Import Prelude QMap Status State Machine ModKey Linked Region RegionTree ModList.
From S2P Require Import Runtime Paths Identity FnCache RegionApi Deny Claim Dispatch Load Unload.
From S2P Require Import Lifecycle System Watch WatchSpec WatchThreads WatchSafety.
From stdpp Require Import options.
Local Open Scope Z_scope.

#[local] Opaque xy_watch_start xy_watch_stop_release xy_watch_add.
#[local] Opaque xy_watch_remove watcher_find.

Section WatchStop.
Context {Q : QMapOps} {P : Platform} {K : WatchKernel} {KL : WatchKernelLaws K}.
Context (exec : executor) (ctl : loc) (may_use : api_call -> Prop).
Implicit Types (w : wstate) (c : conf).

(** ** Definitions *)

(** Only the thread [ctl] starts and stops the watcher. *)
Definition one_controller (t : loc) (call : watch_call) : Prop :=
  match call with CStart | CStop => t = ctl | _ => True end.

(** No thread, no descriptor. *)
Definition stopped w : Prop :=
  w_running w = false /\ w_watchers w = ∅ /\ w_fds w = ∅ /\ w_ifd w < 0.

(** The three descriptors are open. *)
Definition three_fds w : Prop :=
  0 <= w_ifd w /\ 0 <= w_pipe_r w /\ w_fds w = {[w_ifd w; w_pipe_r w; w_pipe_w w]} /\
  w_peer w !! w_pipe_w w = Some (w_pipe_r w).

(** One thread, which has been told to stop unless [b]. *)
Definition serving (b : bool) w : Prop :=
  w_running w = b /\ three_fds w /\
  (exists t pc, w_thread w = Some t /\ w_watchers w = {[t := pc]}) /\
  (b = false -> w_pipe_r w ∈ w_unread w).

(** The thread has been joined. *)
Definition joined w : Prop := w_running w = false /\ three_fds w /\ w_watchers w = ∅.

(** Where the controller is says what there is. *)
Definition life_ok c : Prop :=
  match c_host c !! ctl with
  | Some HJoin => serving false (c_w c)
  | Some (HJoining th) => serving false (c_w c) /\ w_thread (c_w c) = Some th
  | Some HLockRelease | Some HRelease => joined (c_w c)
  | _ => stopped (c_w c) \/ serving true (c_w c)
  end.

(** The other threads only add and remove. *)
Definition calm (pc : host_pc) : Prop :=
  match pc with
  | HLock call | HIn call => match call with CStart | CStop => False | _ => True end
  | HDone _ => True
  | _ => False
  end.

#[local] Instance calm_dec pc : Decision (calm pc).
Proof. destruct pc as [[]|[]| | | | |]; apply _. Defined.

Definition others_calm c : Prop := forall t pc, t <> ctl -> c_host c !! t = Some pc -> calm pc.

(** ** What the sections of the table keep *)

Lemma life_control c w' :
  control w' = control (c_w c) -> life_ok c -> life_ok (set_c_w w' c).
Proof.
  unfold control, life_ok, serving, stopped, joined, three_fds. intros [=]. cbn.
  destruct (c_host c !! ctl) as [[]|]; by repeat match goal with E : _ = _ |- _ => rewrite E; clear E end.
Qed.

(** ** The sections of the controller *)

Lemma start_outcome w r w' :
  watch_ok w -> stopped w \/ serving true w -> xy_watch_start w = Ok (r, w') ->
  stopped w' \/ serving true w'.
Proof using KL.
  intros (Hf & Hn & locs & tab & Ht & _) Hw E.
  destruct (xy_watch_start_correct w locs tab Ht Hf) as (A1 & A2 & A3).
  destruct Hw as [(Hr & Hws & Hfds & Hi)|Hs].
  2: { pose proof Hs as (Hr & _). rewrite (A1 Hr) in E. injection E as _ <-. by right. }
  destruct (start_answers w tab) as [[[ifd rd] wr]|] eqn:Ea.
  - destruct (A3 ifd rd wr Hr eq_refl) as (es & E' & _). rewrite E' in E. injection E as _ <-.
    set (y := sweep _ _ _). set (v := opened w ifd rd wr es (y.2 ++ [KThread_create])).
    right.
    unfold start_answers in Ea. destruct (Z.ltb_spec (wk_inotify_init1 (w_trace w) (w_fds w)) 0) as [|Hifd]; [done|].
    destruct (wk_pipe _ _) as [[rd' wr']|] eqn:Hp; [|done].
    destruct (wk_pipe_fresh _ _ _ _ Hp) as (Hrd & Hwr & _).
    destruct (_ =? 0); [|done]. injection Ea as <- <- <-.
    split; [done|]. split; [|split; [|done]].
    + split_and!; [done|done|cbn; rewrite Hfds; set_solver|cbn; apply lookup_insert_eq].
    + exists (w_next w), PcSelect. split; [done|]. cbn. by rewrite Hws.
  - destruct (A2 Hr eq_refl) as (w2 & tab' & E' & _ & _ & Hi' & _ & _ & [= E1 E2 E3] & [= E4 E5 E6]).
    rewrite E' in E. injection E as _ <-. left. unfold stopped. by rewrite E1, E3, E4.
Qed.

Lemma signal_outcome w b w' :
  fds_ok w -> stopped w \/ serving true w -> xy_watch_stop_signal w = Ok (b, w') ->
  if b then serving false w' else stopped w'.
Proof.
  intros Hf Hw E. unfold xy_watch_stop_signal in E.
  rewrite (bind_Ok (gets _) _ w w (w_running w)) in E by done.
  destruct Hw as [Hs|(Hr & (Hi & Hrd & Hfds & Hp) & Hth & _)].
  { pose proof Hs as (Hr & _). rewrite Hr in E. by injection E as <- <-. }
  rewrite Hr in E. cbn [negb] in E. rewrite (bind_Ok (gets _) _ w w (w_pipe_w w)) in E by done.
  destruct (write_byte_frame (w_pipe_w w) w Hf) as (w1 & E1 & _ & Ew & _ & _ & [= Et Ei _ Er Ewr Ef Epe] & Hu).
  rewrite (bind_Ok _ _ _ _ _ E1) in E. injection E as <- <-.
  assert (w_pipe_r w ∈ w_unread w1) as Hin by (apply Hu; [done|]; rewrite Hfds; apply second_of_three).
  split; [done|]. unfold three_fds. cbn. rewrite Ei, Er, Ewr, Ef, Epe, Et, Ew. by split_and!.
Qed.

Lemma release_outcome w w' :
  watch_ok w -> joined w -> xy_watch_stop_release w = Ok (tt, w') -> stopped w'.
Proof.
  intros (_ & _ & locs & tab & Ht & _) (Hr & (Hi & Hrd & Hfds & Hp) & Hws) E.
  destruct (xy_watch_stop_release_eq w locs tab Ht) as (es & E' & _). rewrite E' in E.
  injection E as <-. split_and!; [done|done| |cbn; lia]. cbn. rewrite Hfds. apply three_minus.
Qed.

(** ** The invariant *)

Lemma others_calm_at t pc c :
  others_calm c -> (t <> ctl -> calm pc) -> others_calm (host_at t pc c).
Proof.
  intros H Hpc t' pc' Hne. cbn. intros [[<- <-]|[_ E]]%lookup_insert_Some; [by apply Hpc|by eapply H].
Qed.

Lemma life_other t pc c : t <> ctl -> life_ok c -> life_ok (host_at t pc c).
Proof. intros Hne H. unfold life_ok. cbn. by rewrite lookup_insert_ne. Qed.

(** What the controller is allowed to be at is all that [life_ok] asks. *)
Lemma life_ctl pc c :
  (match pc with
   | HJoin => serving false (c_w c)
   | HJoining th => serving false (c_w c) /\ w_thread (c_w c) = Some th
   | HLockRelease | HRelease => joined (c_w c)
   | _ => stopped (c_w c) \/ serving true (c_w c)
   end) -> life_ok (host_at ctl pc c).
Proof. intros H. unfold life_ok. cbn. by rewrite lookup_insert_eq. Qed.

Lemma life_at c pc :
  c_host c !! ctl = Some pc -> life_ok c ->
  match pc with
  | HJoin => serving false (c_w c)
  | HJoining th => serving false (c_w c) /\ w_thread (c_w c) = Some th
  | HLockRelease | HRelease => joined (c_w c)
  | _ => stopped (c_w c) \/ serving true (c_w c)
  end.
Proof. intros E. unfold life_ok. by rewrite E. Qed.

Lemma calm_section w pc pc' w' :
  watch_ok w -> calm pc -> host_holds pc = true -> host_section pc w = Ok (pc', w') ->
  control w' = control w /\ calm pc'.
Proof.
  intros Hw Hc Hh E. destruct pc as [|[| |[fname|]|[fname|]]| | | | |]; try done; cbn [host_section call_section] in E.
  - apply bind_inv in E as (r & w1 & E & [= <- <-]). split; [|done].
    destruct (add_section w fname Hw) as (r2 & w2 & E2 & _ & Hc2). rewrite E in E2. by injection E2 as _ ->.
  - by injection E as <- <-.
  - apply bind_inv in E as (r & w1 & E & [= <- <-]). split; [|done].
    destruct (remove_section w fname Hw) as (w2 & E2 & _ & Hc2). rewrite E in E2. by injection E2 as _ ->.
  - by injection E as <- <-.
Qed.

Lemma idle_control w w' :
  control w' = control w -> stopped w \/ serving true w -> stopped w' \/ serving true w'.
Proof.
  unfold control, serving, stopped, three_fds. intros Ec H. injection Ec as.
  by repeat match goal with E : _ = _ |- _ => rewrite E; clear E end.
Qed.

(** A section of the controller leaves what its next point asks for. *)
Lemma controller_section c pc pc' w' :
  watch_ok (c_w c) -> c_host c !! ctl = Some pc -> life_ok c -> host_holds pc = true ->
  host_section pc (c_w c) = Ok (pc', w') -> life_ok (host_at ctl pc' (set_c_w w' c)).
Proof using KL.
  intros Hw Hpc Hl Hh E. pose proof (life_at _ _ Hpc Hl) as Hat. apply life_ctl. cbn.
  destruct (decide (calm pc)) as [Hc|Hc].
  { destruct (calm_section _ _ _ _ Hw Hc Hh E) as [Ec Hc'].
    assert (stopped w' \/ serving true w') by (destruct pc; try done; by eapply idle_control).
    by destruct pc'. }
  destruct pc as [|[| |[]|[]]| | | | |]; try done; try (exfalso; by apply Hc); cbn [host_section call_section] in E.
  - apply bind_inv in E as (r & w1 & E & [= <- <-]). by eapply start_outcome.
  - apply bind_inv in E as (b & w1 & E & [= <- <-]).
    pose proof (signal_outcome _ _ _ (proj1 Hw) Hat E) as Hs. destruct b; [done|by left].
  - apply bind_inv in E as (u & w1 & E & [= <- <-]). destruct u. left. by eapply release_outcome.
Qed.

(** *** The invariant along the steps *)

Lemma life_host t c c' :
  watch_inv c -> life_ok c -> others_calm c -> host_step one_controller t c c' ->
  life_ok c' /\ others_calm c'.
Proof using KL.
  intros [Hw _] Hl Ho Hs. destruct (decide (t = ctl)) as [->|Hne].
  - split.
    2: { inversion Hs; subst; try (by apply others_calm_at).
         intros t' pc' Hne. cbn. intros [_ E]%lookup_delete_Some. by eapply Ho. }
    inversion Hs as [? call Hpc|? call Hpc Hmu|? pc pc' w' Hpc Hh E|? th Hpc Hth|? th Hpc Hth
      |? Hpc Hmu|? ret Hpc]; subst.
    + unfold life_ok in Hl. rewrite Hpc in Hl. apply life_ctl. by destruct call as [| |[]|[]].
    + by apply (life_ctl (HIn call)), (life_at c (HLock call)).
    + by eapply controller_section.
    + apply (life_ctl (HJoining th)). by split; [apply (life_at c HJoin)|].
    + apply (life_ctl HLockRelease). cbn.
      destruct (life_at _ _ Hpc Hl) as [(Hr & Hf & (t & pc & Et & Ew) & _) Eth].
      split_and!; [done|done|]. cbn. rewrite Ew in *. rewrite Et in Eth. injection Eth as ->.
      apply delete_singleton_eq.
    + by apply (life_ctl HRelease), (life_at c HLockRelease).
    + unfold life_ok. cbn. rewrite lookup_delete_eq. by apply (life_at c (HDone ret)).
  - assert (forall pc, c_host c !! t = Some pc -> calm pc) as Hcalm by eauto.
    inversion Hs as [? call Hpc Hmay|? call Hpc Hmu|? pc pc' w' Hpc Hh E|? th Hpc Hth|? th Hpc Hth
      |? Hpc Hmu|? ret Hpc]; subst; try by apply Hcalm in Hpc.
    + split; [by apply life_other|]. apply others_calm_at; [done|]. intros _.
      by destruct call as [| |[]|[]].
    + split; [by apply (life_other t (HIn call))|]. apply (others_calm_at t (HIn call)); [done|].
      intros _. by apply Hcalm in Hpc.
    + destruct (calm_section _ _ _ _ Hw (Hcalm _ Hpc) Hh E) as [Ec Hc'].
      split; [by apply (life_other t pc' (set_c_w w' c)), life_control|]. by apply (others_calm_at t pc' c).
    + split.
      * unfold life_ok. cbn. by rewrite lookup_delete_ne.
      * intros t' pc' Hne'. cbn. intros [_ E]%lookup_delete_Some. by eapply Ho.
Qed.

Lemma serving_set_pc b w t pc :
  is_Some (w_watchers w !! t) -> serving b w -> serving b (set_pc t pc w).
Proof.
  intros [pc0 E] (Hr & Hf & (t' & pc' & Et & Ew) & Hu). split_and!; [done|done| |done].
  rewrite Ew in E. apply lookup_singleton_Some in E as [<- _]. exists t', pc. split; [done|].
  cbn. rewrite Ew. apply insert_singleton_eq.
Qed.

Lemma life_set_pc c t pc :
  is_Some (w_watchers (c_w c) !! t) -> life_ok c -> life_ok (watcher_at t pc c).
Proof.
  intros Ht. pose proof (serving_set_pc false _ t pc Ht) as H1. pose proof (serving_set_pc true _ t pc Ht) as H2.
  assert (~ stopped (c_w c)) as H3.
  { intros (_ & E & _). rewrite E in Ht. by destruct Ht. }
  assert (~ joined (c_w c)) as H4.
  { intros (_ & _ & E). rewrite E in Ht. by destruct Ht. }
  unfold life_ok. cbn. destruct (c_host c !! ctl) as [[]|]; tauto.
Qed.

Lemma life_watcher t c c' : watch_inv c -> life_ok c -> watcher_step exec t c c' -> life_ok c'.
Proof.
  intros [Hw _] Hl Hs. inversion Hs; subst; try (by apply life_set_pc);
    try (by apply (life_set_pc c t (PcFind ev evs))); try (by apply (life_set_pc c t (PcReload l evs))).
  - destruct (find_section _ t ev evs Hw) as (copy2 & w2 & E2 & _ & Ec); [done|].
    match goal with E : watcher_find ev _ = Ok (copy, w') |- _ => rewrite E in E2 end. injection E2 as <- <-.
    apply (life_set_pc (set_c_w w' c) t (after_find copy evs)); [|by apply life_control].
    cbn. apply control_fields in Ec as (-> & _). eauto.
  - destruct (reload_section _ t l evs Hw) as (fname2 & _ & E2 & _); [done|].
    match goal with E : free_str _ _ = Ok (tt, w') |- _ => rewrite E in E2 end. injection E2 as ->.
    set (w' := set_w_str _ _). apply (life_set_pc (set_c_w w' c) t (PcEvents evs)); [cbn; eauto|].
    by apply life_control.
Qed.

Lemma life_reachable c :
  reachable exec one_controller may_use c -> watch_inv c /\ life_ok c /\ others_calm c.
Proof using KL.
  intros Hr. pose proof (watch_inv_reachable _ _ _ _ Hr) as Hi. split; [done|].
  destruct Hr as (lib & Hr). clear Hi.
  assert (watch_inv c /\ life_ok c /\ others_calm c) as (_ & ? & ?); [|done].
  refine (rtc_ind_r (fun c => watch_inv c /\ life_ok c /\ others_calm c) (initial lib) _ _ c Hr).
  - split; [apply watch_inv_initial|]. split; [by left|]. intros t pc _ E. cbn in E. by rewrite lookup_empty in E.
  - intros c1 c2 _ Hs (Hi & Hl & Ho). split; [by eapply watch_inv_step|]. destruct Hs as [t Hs|t Hs|Hs].
    + by eapply life_host.
    + split; [by eapply life_watcher|]. destruct Hs; done.
    + by destruct Hs.
Qed.

(** C16: with one thread that starts and stops: outside of its calls, the watcher
    either runs, with exactly one thread and its three descriptors open, or does
    not, with no thread and no descriptor, so that a stop has released whatever
    the start acquired; during the wait in a stop there is exactly one thread,
    the one that is waited for, and the byte that tells it to stop is unread. *)
Theorem watch_lifecycle c :
  reachable exec one_controller may_use c ->
  (c_host c !! ctl = None -> w_running (c_w c) = false ->
     w_watchers (c_w c) = ∅ /\ w_fds (c_w c) = ∅ /\ w_ifd (c_w c) < 0) /\
  (c_host c !! ctl = None -> w_running (c_w c) = true ->
     (exists t pc, w_thread (c_w c) = Some t /\ w_watchers (c_w c) = {[t := pc]}) /\
     w_fds (c_w c) = {[w_ifd (c_w c); w_pipe_r (c_w c); w_pipe_w (c_w c)]}) /\
  (forall th, c_host c !! ctl = Some (HJoining th) ->
     (exists pc, w_watchers (c_w c) = {[th := pc]}) /\ w_pipe_r (c_w c) ∈ w_unread (c_w c)).
Proof using KL.
  intros (_ & Hl & _)%life_reachable. unfold life_ok in Hl. split; [|split].
  - intros E Hr. rewrite E in Hl. destruct Hl as [(_ & ? & ? & ?)|(Hr' & _)]; [done|congruence].
  - intros E Hr. rewrite E in Hl. destruct Hl as [(Hr' & _)|(_ & (_ & _ & Hf & _) & Ht & _)]; [congruence|].
    split; [|done]. destruct Ht as (t & pc & ? & ?). eauto.
  - intros th E. rewrite E in Hl. destruct Hl as [(_ & _ & (t & pc & Et & Ew) & Hu) Eth].
    rewrite Et in Eth. injection Eth as ->. split; [eauto|by apply Hu].
Qed.

(** ** Termination of the watcher thread *)

(** Left to itself, the thread exits after finitely many steps, whatever the
    kernel answers, and is not blocked before. *)
Inductive finishes (t : loc) : conf -> Prop :=
| finishes_exited c : w_watchers (c_w c) !! t = Some PcExited -> finishes t c
| finishes_runs c :
    (exists c', watcher_step exec t c c') ->
    (forall c', watcher_step exec t c c' -> finishes t c') -> finishes t c.

(** The reloads that are started return. *)
Definition reload_returns c : Prop :=
  forall t l evs fname, w_watchers (c_w c) !! t = Some (PcReload l evs) ->
    w_str (c_w c) !! l = Some fname ->
    exists ret x lib', in_thread (default (tls_zero, 0) (c_locals c !! t)) (xy_reload exec fname)
                         (c_lib c) = Ok (ret, x, lib').
Definition reloads_return c : Prop :=
  forall c', rtc (step exec one_controller may_use) c c' -> reload_returns c'.

(** The thread has been told to stop, and no other thread is in its way. *)
Record told (t : loc) c : Prop := {
  td_inv : watch_inv c;
  td_ifd : 0 <= w_ifd (c_w c);
  td_rd : 0 <= w_pipe_r (c_w c);
  td_unread : w_pipe_r (c_w c) ∈ w_unread (c_w c);
  td_mu : c_mu c = None \/ c_mu c = Some (Watcher t);
  td_reload : reloads_return c
}.

(** How far the thread is from its exit, unless it is about to read. *)
Definition distance (pc : watcher_pc) : nat :=
  match pc with
  | PcExited => 0
  | PcSelect | PcRead => 1
  | PcEvents evs => 2 + 5 * length evs
  | PcReload _ evs => 3 + 5 * length evs
  | PcLockReload _ evs => 4 + 5 * length evs
  | PcFind _ evs => 5 + 5 * length evs
  | PcLockFind _ evs => 6 + 5 * length evs
  end.

Lemma reloads_return_step t c c' :
  reloads_return c -> watcher_step exec t c c' -> reloads_return c'.
Proof. intros H Hs c2 Hr. apply H. eapply rtc_l; [by eapply step_watcher|done]. Qed.

(** A step of the thread touches neither the descriptors nor the pipe. *)
Lemma watcher_step_fds t c c' :
  watch_inv c -> watcher_step exec t c c' ->
  w_ifd (c_w c') = w_ifd (c_w c) /\ w_pipe_r (c_w c') = w_pipe_r (c_w c) /\
  w_unread (c_w c') = w_unread (c_w c) /\
  (c_mu c = None \/ c_mu c = Some (Watcher t) -> c_mu c' = None \/ c_mu c' = Some (Watcher t)).
Proof.
  intros [Hw _] Hs. inversion Hs; subst; try (by split_and!); try (split_and!; by auto).
  - destruct (find_section _ t ev evs Hw) as (copy2 & w2 & E2 & _ & Ec); [done|].
    match goal with E : watcher_find ev _ = Ok (copy, w') |- _ => rewrite E in E2 end. injection E2 as <- <-.
    unfold control in Ec. injection Ec as. split_and!; [done..|auto].
  - destruct (reload_section _ t l evs Hw) as (fname2 & _ & E2 & _); [done|].
    match goal with E : free_str _ _ = Ok (tt, w') |- _ => rewrite E in E2 end. injection E2 as ->.
    split_and!; [done..|auto].
Qed.

Lemma told_step t c c' : told t c -> watcher_step exec t c c' -> told t c'.
Proof.
  intros [Hi Hifd Hrd Hu Hmu Hre] Hs.
  destruct (watcher_step_fds t c c' Hi Hs) as (E1 & E2 & E3 & Hmu').
  split; rewrite ?E1, ?E2, ?E3; auto; [by eapply watch_inv_watcher|by eapply reloads_return_step].
Qed.

(** A step brings it closer, except that a read may bring any events. *)
Lemma told_closer t c c' pc :
  told t c -> w_watchers (c_w c) !! t = Some pc -> watcher_step exec t c c' ->
  exists pc', w_watchers (c_w c') !! t = Some pc' /\ pc' <> PcRead /\
    (pc <> PcRead -> (distance pc' < distance pc)%nat).
Proof.
  intros Ht Hpc Hs. pose proof (td_unread _ _ Ht) as Hu.
  inversion Hs; subst; simplify_eq; try done; eexists; (split; [apply lookup_insert_eq|]).
  all: try (split; [done|intros Hne; cbn; lia || done]).
  destruct copy; (split; [done|intros _; cbn; lia]).
Qed.

(** The thread is not blocked. *)
Lemma told_progress t c pc :
  told t c -> w_watchers (c_w c) !! t = Some pc -> pc <> PcExited ->
  exists c', watcher_step exec t c c'.
Proof.
  intros [[Hw Hm] Hifd Hrd Hu Hmu Hre] Hpc Hne.
  assert (watcher_holds pc = false -> c_mu c = None) as Hfree.
  { intros Hh. destruct Hmu as [|E]; [done|]. apply Hm in E. apply (in_section_watcher _ _ _ Hpc) in E.
    congruence. }
  destruct pc as [| |[|ev evs]|ev evs|ev evs|l evs|l evs|]; [..|done].
  - eexists. by eapply step_select_pipe.
  - eexists. by eapply step_read_again.
  - eexists. by eapply step_events_end.
  - destruct (ignored ev) eqn:E; eexists; [by eapply step_event_ignored|by eapply step_event].
  - eexists. eapply step_lock_find; [done|by apply Hfree].
  - destruct (find_section _ _ _ _ Hw Hpc) as (copy & w' & E & _). eexists. by eapply step_find.
  - eexists. eapply step_lock_reload; [done|by apply Hfree].
  - destruct (reload_section _ _ _ _ Hw Hpc) as (fname & Hs & E & _).
    destruct (Hre c (rtc_refl _ _) t l evs fname Hpc Hs) as (ret & x & lib' & Er).
    eexists. by eapply step_reload.
Qed.

Lemma told_finishes_near t n c pc :
  told t c -> w_watchers (c_w c) !! t = Some pc -> pc <> PcRead -> (distance pc < n)%nat ->
  finishes t c.
Proof.
  revert c pc. induction n as [|n IH]; intros c pc Ht Hpc Hne Hn; [lia|].
  destruct (decide (distance pc = 0%nat)) as [E|E].
  { apply finishes_exited. rewrite Hpc. by destruct pc. }
  apply finishes_runs.
  - eapply told_progress; [done..|]. intros ->. done.
  - intros c' Hs. destruct (told_closer _ _ _ _ Ht Hpc Hs) as (pc' & Hpc' & Hne' & Hd).
    eapply IH; [by eapply told_step|done..|]. specialize (Hd Hne). lia.
Qed.

Lemma told_finishes t c pc : told t c -> w_watchers (c_w c) !! t = Some pc -> finishes t c.
Proof.
  intros Ht Hpc. assert (pc = PcRead \/ pc <> PcRead) as [->|Hne] by (destruct pc; auto; by right).
  2: { eapply (told_finishes_near t (S (distance pc))); [done..|lia]. }
  apply finishes_runs.
  - by eapply told_progress.
  - intros c' Hs. destruct (told_closer _ _ _ _ Ht Hpc Hs) as (pc' & Hpc' & Hne' & _).
    eapply (told_finishes_near t (S (distance pc'))); [by eapply told_step|done..|lia].
Qed.

(** C17: let one host thread only start and stop the watcher, and let every reload
    return that can be reached from here on (one whose xy_install calls the watcher
    waits for the mutex of its own thread and does not).  Once the controller waits
    for the watcher thread, the thread exits after finitely many steps of its own,
    whatever events it has read or still reads; it is never blocked before, except
    by a host thread that is in a critical section, which can leave it at once. *)
Theorem watch_stop_terminates c th :
  reachable exec one_controller may_use c -> c_host c !! ctl = Some (HJoining th) ->
  reloads_return c ->
  (forall t, c_mu c = Some (Host t) ->
     exists c', host_step one_controller t c c' /\ c_mu c' = None) /\
  ((forall t, c_mu c <> Some (Host t)) -> finishes th c).
Proof using KL.
  intros Hr Hj Hre. destruct (life_reachable c Hr) as (Hi & Hl & _). pose proof Hi as [Hw Hm]. split.
  - intros t E. apply Hm in E as (pc & Hpc & Hh). destruct (host_section_ok _ pc Hw) as (pc' & w' & E & _).
    eexists. split; [by eapply step_section|done].
  - intros Hmu. unfold life_ok in Hl. rewrite Hj in Hl.
    destruct Hl as [(_ & (Hifd & Hrd & _) & (t & pc & Et & Ew) & Hu) Eth].
    rewrite Et in Eth. injection Eth as ->.
    apply told_finishes with (pc := pc); [|rewrite Ew; apply lookup_singleton_eq].
    split; [done..|by apply Hu| |done]. destruct (c_mu c) as [[t|t]|] eqn:E; [by destruct (Hmu t)| |by left].
    right. assert (in_section c (Watcher t)) as (pc' & Hpc' & _) by by apply Hm.
    rewrite Ew in Hpc'. by apply lookup_singleton_Some in Hpc' as [-> _].
Qed.

End WatchStop.
