(* ===== verification/WatchReload.v ===== *)
(** * The watcher: from an event to a reload

    A watcher thread turns an event into a call of [xy_reload], in its own
    thread-local variables. *)

From S2P Require Import Prelude QMap Status State Machine ModKey Linked Region RegionTree ModList.
From S2P Require Import Runtime Paths Identity FnCache RegionApi Deny Claim Dispatch Load Unload.
From S2P Require Import Lifecycle System Watch WatchSpec WatchThreads WatchSafety.
From stdpp Require Import options.
Local Open Scope Z_scope.

#[local] Opaque xy_watch_start xy_watch_stop_signal xy_watch_stop_release xy_watch_add.
#[local] Opaque xy_watch_remove watcher_find.

Section WatchReload.
Context {Q : QMapOps} {P : Platform} {K : WatchKernel} {KL : WatchKernelLaws K}.
Implicit Types (s : state) (c : conf).

(** The thread takes an event it does not ignore and locks the table. *)
Lemma event_to_find exec t c ev evs :
  w_watchers (c_w c) !! t = Some (PcEvents (ev :: evs)) -> ignored ev = false -> c_mu c = None ->
  rtc (watcher_step exec t) c
    (set_c_mu (Some (Watcher t)) (watcher_at t (PcFind ev evs) (watcher_at t (PcLockFind ev evs) c))).
Proof.
  intros Hpc Ei Hmu. eapply rtc_l; [by eapply step_event|].
  apply rtc_once. apply step_lock_find; [apply lookup_insert_eq|done].
Qed.

(** Dropping the copy of a path, which is none of the table's own strings. *)
Lemma free_copy w l fname :
  w_str w !! l = Some fname -> free_str (Some l) w = Ok (tt, set_w_str (delete l (w_str w)) w).
Proof.
  intros Hl. unfold free_str. rewrite (bind_Ok _ _ w w fname); [done|].
  by rewrite (bind_Ok (gets _) _ w w (Some fname)) by (unfold gets; by rewrite Hl).
Qed.

Lemma table_strings_not w locs tab l :
  table w locs tab -> w_str w !! l = None -> l ∉ locs.
Proof.
  intros Ht Hl Hin. apply list_elem_of_lookup in Hin as [j Hj].
  destruct (Forall2_lookup_l _ _ _ _ _ (tb_str _ _ _ Ht) Hj) as (q & _ & E). by rewrite Hl in E.
Qed.


(** ** The region of a watcher thread *)

(** [xy_reload] of a name that is not loaded in the caller's region. *)
Lemma xy_reload_unknown exec fname s hd :
  rt_inited (st_rt s) = true -> st_alloc s = [] -> rt_mod_hd (st_rt s) = Some hd ->
  qget hd (registry_key (resolved fname) (t_region_id (st_tls s))) = None ->
  xy_reload exec fname s = Ok (XY_ERR_NOTFOUND, set_st_err XY_ERR_NOTFOUND s).
Proof.
  intros Hi Ha Hhd Hg. unfold xy_reload. rewrite with_runtime_inited by done.
  rewrite (bind_Ok (gets _) _ s s (t_region_id (st_tls s))) by done.
  rewrite (bind_Ok _ _ _ _ _ (module_lookup_from_fname_eq fname _ hd s Ha Hhd)).
  by rewrite Hg.
Qed.

(** None of the files in [strs] is loaded in the root region. *)
Definition elsewhere (strs : gmap loc string) s : Prop :=
  rt_inited (st_rt s) = true /\ st_alloc s = [] /\
  exists hd, rt_mod_hd (st_rt s) = Some hd /\
    forall l fname, strs !! l = Some fname -> qget hd (registry_key (resolved fname) XY_REGION_ROOT) = None.

(** The steps of a configuration that satisfies [B]. *)
Definition step_while (B : gmap loc string -> state -> Prop) (exec : executor)
    (may_call : loc -> watch_call -> Prop) (may_use : api_call -> Prop) c c' : Prop :=
  B (w_str (c_w c)) (c_lib c) /\ step exec may_call may_use c c'.

(** Every watcher thread is in the root region, where it started. *)
Definition rooted c : Prop := forall t, (default (tls_zero, 0) (c_locals c !! t)).1 = tls_zero.

Lemma reload_elsewhere exec strs lib l fname x :
  elsewhere strs lib -> strs !! l = Some fname -> x.1 = tls_zero ->
  in_thread x (xy_reload exec fname) lib = Ok (XY_ERR_NOTFOUND, (tls_zero, XY_ERR_NOTFOUND), lib).
Proof.
  intros (Hi & Ha & hd & Hhd & Hg) Hl Hx. unfold in_thread.
  rewrite (bind_Ok (gets _) _ lib lib (locals_of lib)) by done.
  set (s1 := with_locals x lib). rewrite (bind_Ok (modify _) _ lib s1 tt) by done.
  assert (st_tls s1 = tls_zero) as Etls by (rewrite <- Hx; by destruct lib).
  rewrite (bind_Ok _ _ _ _ _ (xy_reload_unknown exec fname s1 hd Hi Ha Hhd
    ltac:(rewrite Etls; by eapply Hg))).
  destruct lib, x; cbn in *. by subst.
Qed.

(** What a watcher thread does when it is rooted and its files are elsewhere. *)
Lemma watcher_step_elsewhere exec t c c' :
  rooted c -> elsewhere (w_str (c_w c)) (c_lib c) -> watcher_step exec t c c' ->
  c_lib c' = c_lib c /\
  c_locals c' = match w_watchers (c_w c) !! t with
                | Some (PcReload _ _) => <[t := (tls_zero, XY_ERR_NOTFOUND)]> (c_locals c)
                | _ => c_locals c
                end.
Proof.
  intros Hx He Hs. inversion Hs; subst; match goal with E : w_watchers _ !! t = _ |- _ => rewrite E end; try done.
  match goal with E : in_thread _ _ _ = _ |- _ =>
    erewrite reload_elsewhere in E by done; injection E as <- <- <- end.
  done.
Qed.

Lemma rooted_step exec may_call may_use c c' :
  rooted c -> step_while elsewhere exec may_call may_use c c' -> rooted c'.
Proof.
  intros Hx [He [t Hs|t Hs|Hs]]; [by inversion Hs; subst| |by inversion Hs; subst].
  destruct (watcher_step_elsewhere exec t c c' Hx He Hs) as [_ E]. unfold rooted. rewrite E.
  destruct (w_watchers (c_w c) !! t) as [[]|]; try done.
  intros t'. destruct (decide (t = t')) as [<-|Hne]; [by rewrite lookup_insert_eq|by rewrite lookup_insert_ne].
Qed.


End WatchReload.
