(* ===== verification/Witness.v ===== *)
(** * A concrete world

    A small platform with two modules, runs of the model on it, and one
    instance per theorem that has hypotheses: the theorem applied to a state
    that a run ends in. *)

From S2P Require Import Prelude QMap Status State Machine ModKey Linked Region RegionTree.
From S2P Require Import RegionSlots Runtime Decide ModList Paths Identity FnCache RegionApi Claim.
From S2P Require Import Deny Dispatch Load Unload Lifecycle System.
From stdpp Require Import options.
Local Open Scope Z_scope.

(** ** The platform

    Images 100 ("a.so"), 110 ("b.so"), 130 ("d.so") and 140 ("e.so"), and 120, a
    copy of "b.so".  All but 130 have an [xy_install] and implement the hook
    "tick"; "a" also exports [xy_claim], for two bits, and loads "b" when it is
    installed. *)

Definition demo_dlsym (h : option loc) (name : string) : option loc :=
  h ← h;
  if bool_decide (name = "get_xy_ptr") then Some (h + 3)%positive
  else if bool_decide (h = 130%positive) then None
  else if bool_decide (name = "xy_install") then Some (h + 2)%positive
  else if bool_decide (name = "tick") then Some (h + 4)%positive
  else if bool_decide (name = "xy_claim" /\ h = 100%positive) then Some 105%positive
  else None.

#[local] Instance demo_plat : Platform := {|
  plat_realpath p :=
    if bool_decide (p = "a.so") then Some "/m/a.so"
    else if bool_decide (p = "b.so") then Some "/m/b.so"
    else if bool_decide (p = "d.so") then Some "/m/d.so"
    else if bool_decide (p = "e.so") then Some "/m/e.so" else None;
  plat_dlopen tr p :=
    if bool_decide (p = "/m/a.so") then Some (100%positive, false)
    else if bool_decide (p = "/m/b.so") then Some (110%positive, false)
    else if String.prefix "/m/.xylem-" p then Some (120%positive, false)
    else if bool_decide (p = "/m/d.so") then Some (130%positive, false)
    else if bool_decide (p = "/m/e.so") then Some (140%positive, false) else None;
  plat_dlsym := demo_dlsym;
  plat_dladdr a := Some (if a <? 110 then 100 else if a <? 120 then 110 else if a <? 130 then 120
    else if a <? 140 then 130 else 140)%positive;
  plat_image_ctx h := [((h + 1)%positive, xy_t_zero)];
  plat_image_adp h := [];
  plat_claim_byte _ := 2;
  plat_get_xy g := Some (g - 2)%positive;
  plat_mkstemps tr template := Some template;
  plat_open_file tr path := Some [1; 2; 3];
  plat_open_dir tr path := true;
  plat_read tr := Some 1%nat;
  plat_write tr := 1;
  plat_fchmod tr := true;
  plat_fsync tr := true;
  plat_state_size _ := 0
|}.

(** The code behind the callbacks: the hook answers 7 in "a" and 9 in "b", and
    the claim handler 500 grants what is asked for. *)
Definition demo_code (cb : callback) : prog :=
  match cb with
  | CbHook fn _ => Return [if bool_decide (fn = 104%positive) then 7 else 9; 0; 0; 0]
  | CbInstall fn =>
      if bool_decide (fn = 102%positive) then Invoke (Call_load "b") (fun _ => Return [])
      else Return []
  | CbClaim _ _ bits _ => Return [XY_OK; bits]
  | _ => Return [XY_OK]
  end.

(** The host's adapter for "tick" is at 10, a result buffer at 20. *)
Definition demo_adapter : adapter := Adapter "tick" 0 4 (Some (Trampoline 4)) (-1).
Definition demo_zero : state :=
  process_start {[ 10%positive := demo_adapter ]}
    (<[xy_last_retbuf := replicate 4096 0]> {[ 20%positive := [0; 0; 0; 0] ]}) 1000 [].

Definition demo_exec : executor := exec_of demo_code 4.
Definition after (p : prog) : state := default demo_zero (state_of (host demo_code 4 p demo_zero)).
Definition answer (p : prog) : option (list Z) := result_of (host demo_code 4 p demo_zero).

(** The host registers the hook and opens the root to claims. *)
Definition with_hook (p : prog) : prog :=
  Invoke (Call_areg "tick" 10) (fun _ =>
  Invoke (Call_require_claim (Some 500%positive) 0) (fun _ => p)).
Definition demo_hook : state := Eval vm_compute in after (with_hook (Return [])).

(** "a" is loaded: it claims a region and loads "b" into it. *)
Definition with_mods (p : prog) : prog := with_hook (Invoke (Call_load "a") (fun _ => p)).
Definition demo_mods : state := Eval vm_compute in after (with_mods (Return [])).

(** Both are states of a run. *)
Example demo_hook_run : host demo_code 4 (with_hook (Return [])) demo_zero = Ok ([], demo_hook).
Proof. vm_compute. reflexivity. Qed.

Example demo_mods_run : host demo_code 4 (with_mods (Return [])) demo_zero = Ok ([], demo_mods).
Proof. vm_compute. reflexivity. Qed.

Definition root_loc : loc := 1000.
Definition child_loc : loc := 1003.
Definition mod_a : loc := 1002.
Definition mod_b : loc := 1005.
Definition region_in (s : state) (l : loc) : region_entry := default region_zero (st_reg s !! l).

Ltac by_eval := vm_compute; reflexivity.
Ltac by_decide := apply (bool_decide_unpack _); vm_compute; exact I.

Lemma demo_hook_running : running demo_hook.
Proof. apply runningb_sound. by_eval. Qed.

Lemma demo_mods_running : running demo_mods.
Proof. apply runningb_sound. by_eval. Qed.

(** ** Instances *)

Lemma registry_key_identity_witness :
  registry_key "/m/a.so" 16 = registry_key "/m/a.so" 17 /\
  registry_key "/m/a.so" 16 <> registry_key "/m/a.so" 32.
Proof.
  split.
  - apply registry_key_identity; [by_decide|by_decide|split; [done|by_decide]..|].
    split; reflexivity.
  - intros E. apply registry_key_identity in E as [_ E];
      [discriminate E|by_decide|by_decide|split; [done|by_decide]..].
Defined.

Lemma region_rebuild_subtree_mods_correct_witness :
  exists own below c, mods_ok demo_mods /\
    NoDup (own ++ below) /\
    region_rebuild_subtree_mods (Some root_loc) demo_mods =
      Ok (0, set_st_reg (<[root_loc := set_r_subtree_mods_dirty false
                             (set_r_subtree_mods (own ++ below)
                                (set_r_subtree_mods_cap c (region_in demo_mods root_loc)))]>
                           (st_reg demo_mods)) demo_mods).
Proof.
  pose proof demo_mods_running as [_ Ht Hm].
  destruct (region_rebuild_subtree_mods_correct demo_mods root_loc (region_in demo_mods root_loc)
    Ht Hm ltac:(by_eval) ltac:(by_eval)) as (own & below & c & _ & Hnd & _ & Hrun).
  exists own, below, c. split; [exact Hm|split; [exact Hnd|exact Hrun]].
Defined.

Lemma region_alloc_slot_fresh_witness :
  region_alloc_slot root_loc 2 demo_mods = Ok (2 ^ 63, demo_mods) /\
  ~ registered demo_mods (2 ^ 63) /\ aligned 2 (2 ^ 63).
Proof.
  destruct (region_alloc_slot_fresh demo_mods root_loc (region_in demo_mods root_loc) 2
    (run_tree _ demo_mods_running) ltac:(by_eval) ltac:(lia)) as (c & Hrun & Hc).
  assert (region_alloc_slot root_loc 2 demo_mods = Ok (2 ^ 63, demo_mods)) as Hrun' by by_eval.
  rewrite Hrun in Hrun'. injection Hrun' as ->.
  destruct (Hc ltac:(by_decide)) as (_ & _ & Hfree & _ & Hal & _).
  split; [exact Hrun|split; [exact Hfree|exact Hal]].
Defined.

Lemma region_alloc_slot_full_witness :
  region_alloc_slot child_loc 63 demo_mods = Ok (XY_REGION_INVALID, demo_mods).
Proof.
  destruct (region_alloc_slot_full demo_mods child_loc (region_in demo_mods child_loc) 63
    (run_tree _ demo_mods_running) ltac:(by_eval) ltac:(lia)) as (c & Hrun & Hbig & _).
  rewrite (Hbig ltac:(by_eval)) in Hrun. exact Hrun.
Defined.

Lemma xy_runtime_ensure_starts_witness :
  exists s', xy_runtime_ensure demo_zero = Ok (XY_OK, s') /\ running s'.
Proof.
  destruct (xy_runtime_ensure_starts demo_zero) as (s' & Hrun & Hok & _).
  - repeat split.
  - exists s'. split; [exact Hrun|exact Hok].
Defined.

Lemma demo_mods_intern : intern_ok demo_mods.
Proof.
  assert (st_str demo_mods = {[1001%positive := "/m/a.so"; 1004%positive := "/m/b.so"]}) as Hs
    by by_eval.
  split.
  - intros hd p l Hhd. change (qget hd p) with ((hd : gmap string loc) !! p).
    assert (map_Forall (fun p l => st_str demo_mods !! l = Some p)
      (default ∅ (rt_path_intern_hd (st_rt demo_mods)) : gmap string loc)) as Hall by by_decide.
    rewrite Hhd in Hall. cbn in Hall. apply Hall.
  - intros l. rewrite Hs. assert (st_next demo_mods = 1006%positive) as -> by by_eval.
    intros [v [[<- _]|[_ [<- _]%lookup_singleton_Some]]%lookup_insert_Some]; by_eval.
Qed.

Lemma module_path_intern_correct_witness :
  exists l s', module_path_intern (Some "/m/b.so") demo_mods = Ok (Some l, s') /\
    st_str s' !! l = Some "/m/b.so".
Proof.
  destruct (module_path_intern_correct demo_mods "/m/b.so" demo_mods_intern)
    as (l & s' & Hrun & _ & Hl & _).
  exists l, s'. split; [exact Hrun|exact Hl].
Defined.

(** A region that denies the interned path 1004. *)
Definition deny_demo : region_entry := deny_module 1004 (region_in demo_mods root_loc).

Lemma deny_demo_ok : deny_ok deny_demo.
Proof.
  apply deny_module_ok. split; intros w; cbn.
  - split; [by intros [? ?]|by intros ?%not_elem_of_nil].
  - split; [by intros [? ?]|by intros ?%not_elem_of_nil].
Qed.

Lemma entry_denies_iff_witness :
  entry_denies deny_demo 1004 = true /\ 1004%positive ∈ r_denied_modules deny_demo.
Proof.
  assert (entry_denies deny_demo 1004 = true) as H by by_eval.
  split; [exact H|]. by apply (entry_denies_iff deny_demo 1004 deny_demo_ok).
Defined.

Lemma undeny_module_correct_witness :
  entry_denies (undeny_module 1004 deny_demo) 1004 = false.
Proof. exact (proj1 (proj2 (undeny_module_correct deny_demo 1004 1001 deny_demo_ok))). Defined.

Lemma xy_deny_hook_correct_witness :
  exists reg' ra, xy_deny "tick" XY_DENY_HOOK demo_mods =
      Ok (XY_OK, set_st_err XY_OK (set_st_reg reg' demo_mods)) /\
    reg' !! root_loc = Some ra /\ r_denied_hooks ra = ["tick"].
Proof.
  destruct (xy_deny_hook_correct demo_mods "tick" root_loc (region_in demo_mods root_loc)
    demo_mods_running ltac:(by_eval) ltac:(by_eval)) as (ls & reg' & Hls & Hrun & _ & _ & Hreg).
  destruct (Hreg root_loc) as (ra0 & ra & Hra0 & Hra & _ & _ & Hd & _); [inversion Hls; left|].
  exists reg', ra. split; [exact Hrun|split; [exact Hra|]]. rewrite Hd.
  vm_compute in Hra0. injection Hra0 as <-. by_eval.
Defined.

(** An executor that answers XY_OK and changes nothing. *)
Definition quiet : executor := fun _ s => Ok ([XY_OK], s).

Lemma quiet_keeps : keeps_regions quiet.
Proof. intros cb s out s' [= _ <-] l r Hr. by exists r. Qed.

Lemma xy_region_each_children_witness :
  exists ids, xy_region_each quiet 600 0 demo_mods =
    (rc ← each_children quiet 600 0 ids; XY_SET_ERR XY_OK;; mret rc) demo_mods.
Proof.
  destruct (xy_region_each_children demo_mods quiet 600 0 root_loc (region_in demo_mods root_loc)
    demo_mods_running ltac:(by_eval) ltac:(by_eval) quiet_keeps) as (ks & ids & _ & _ & _ & Hrun).
  exists ids. exact Hrun.
Defined.

Lemma xy_with_region_restores_witness :
  exists s', xy_with_region quiet (2 ^ 62) (Some 600%positive) 0 demo_mods = Ok (XY_OK, s') /\
    t_region_id (st_tls s') = XY_REGION_ROOT.
Proof.
  destruct (xy_with_region_restores demo_mods
    (set_st_tls (set_t_region_entry (Some child_loc) (set_t_region_id (2 ^ 62) (st_tls demo_mods)))
       demo_mods) quiet 600 child_loc 0 (region_in demo_mods child_loc) [XY_OK]
    demo_mods_running ltac:(by_eval) ltac:(by_eval)) as (s' & Hrun & Hid & _).
  exists s'. split; [exact Hrun|exact Hid].
Defined.

Lemma xy_with_region_errors_witness :
  xy_with_region quiet 5 (Some 600%positive) 0 demo_mods =
    Ok (XY_ERR_NOTFOUND, set_st_err XY_ERR_NOTFOUND demo_mods).
Proof.
  apply (xy_with_region_errors demo_mods quiet 5 0 (Some 600%positive) demo_mods_running); [|done].
  intros l r Hr.
  assert (map_Forall (fun _ r => r_id r <> 5) (st_reg demo_mods)) as Hall by by_decide.
  by apply (Hall _ _ Hr).
Defined.

(** The modules of the claimed region, "a" and then "b". *)
Lemma demo_child_list : mod_list demo_mods child_loc [mod_a; mod_b].
Proof.
  exists (region_in demo_mods child_loc). split; [by_eval|]. split; [|by_decide].
  repeat (econstructor; [by_eval|by_eval|]). constructor.
Qed.

Lemma module_region_replace_witness :
  exists s1 s2, module_region_detach mod_a demo_mods = Ok (tt, s1) /\
    mod_list s1 child_loc [mod_b] /\
    module_region_insert_after (Some child_loc) mod_a None s1 = Ok (tt, s2) /\
    mod_list s2 child_loc [mod_a; mod_b].
Proof.
  destruct (module_region_replace demo_mods child_loc mod_a mod_a [] [mod_b]
    demo_mods_running demo_child_list) as (s1 & s2 & H1 & H2 & H3 & H4 & _).
  - by_decide.
  - by left.
  - exists s1, s2. exact (conj H1 (conj H2 (conj H3 H4))).
Defined.

(** A module that is not listed anywhere yet. *)
Definition mod_new : loc := 1006.
Definition demo_new : state :=
  set_st_next 1007%positive (set_st_mod (<[mod_new := mod_entry_zero]> (st_mod demo_mods)) demo_mods).

Lemma demo_new_running : running demo_new.
Proof. apply runningb_sound. by_eval. Qed.

Lemma demo_new_list : mod_list demo_new child_loc [mod_a; mod_b].
Proof.
  exists (region_in demo_mods child_loc). split; [by_eval|]. split; [|by_decide].
  repeat (econstructor; [by_eval|by_eval|]). constructor.
Qed.

Lemma demo_new_unlisted : on_no_list demo_new mod_new.
Proof.
  intros a ms Hl Hin.
  pose proof (mod_list_owner _ _ _ _ (run_mods _ demo_new_running) Hl Hin) as Ho.
  unfold owner_of in Ho. cbn in Ho. discriminate Ho.
Qed.

Lemma module_region_append_last_witness :
  exists s', module_region_append (Some child_loc) mod_new demo_new = Ok (tt, s') /\
    mod_list s' child_loc [mod_a; mod_b; mod_new].
Proof.
  destruct (module_region_append_last demo_new child_loc mod_new [mod_a; mod_b]
    demo_new_running demo_new_list ltac:(by_decide) demo_new_unlisted) as (s' & H1 & _ & H2 & _).
  exists s'. exact (conj H1 H2).
Defined.

Lemma demo_mods_registry : registry_ok demo_mods.
Proof.
  split.
  - assert (map_Forall (fun _ l => is_Some (st_mod demo_mods !! l))
      (default ∅ (rt_mod_hd (st_rt demo_mods)) : gmap string loc)) as Hall by by_decide.
    eexists. split; [reflexivity|]. intros k l Hl. by apply (Hall k).
  - by eexists.
  - intros l m c Hl Hc.
    assert (map_Forall (fun _ m => match m_ctx m with
      | Some c => bool_decide (is_Some (st_ctx demo_mods !! c))
      | None => true
      end = true) (st_mod demo_mods)) as Hall by by_decide.
    specialize (Hall _ _ Hl). cbn beta in Hall. rewrite Hc in Hall. by apply bool_decide_eq_true in Hall.
Qed.

(** A handler that grants the two bits it is asked for. *)
Definition granting : executor := fun cb s => Ok ([XY_OK; 2], s).

Lemma claim_granted_witness :
  exists rc s', _xy_claim_for_load granting (Some "b") XY_REGION_ROOT 2 demo_mods = Ok (rc, s') /\
    running s'.
Proof.
  destruct (claim_granted demo_mods demo_mods granting (Some "b") 2 root_loc
    (region_in demo_mods root_loc) (region_in demo_mods root_loc) 500 [XY_OK; 2]
    demo_mods_running ltac:(by_eval) ltac:(by_eval) ltac:(lia) eq_refl eq_refl
    ltac:(split; by_decide) demo_mods_running demo_mods_registry ltac:(by_eval) ltac:(by_eval))
    as (rc & s' & Hrun & Hok & _).
  exists rc, s'. exact (conj Hrun Hok).
Defined.

Lemma claim_refused_witness :
  _xy_claim_for_load quiet (Some "b") XY_REGION_ROOT 65 demo_mods =
    Ok (XY_ERR_INVALID, set_st_err XY_ERR_INVALID demo_mods).
Proof.
  apply (proj1 (claim_refused demo_mods quiet (Some "b") XY_REGION_ROOT 65 demo_mods_running)); lia.
Defined.

(** "b", not resolved yet, in a registry where "tick" is hook 0. *)
Definition fresh_b : mod_entry := set_m_handle (Some 110%positive) mod_entry_zero.
Definition demo_fresh : state := set_st_mod (<[mod_new := fresh_b]> (st_mod demo_mods)) demo_mods.

Lemma fn_cache_resolve_correct_witness :
  exists m', fn_cache_resolve mod_new 0 "tick" demo_fresh =
      Ok (ResFn 114, set_st_mod (<[mod_new := m']> (st_mod demo_fresh)) demo_fresh) /\
    module_has_hook_implemented m' 0 = true.
Proof.
  destruct (fn_cache_resolve_correct demo_fresh mod_new fresh_b 0 "tick"
    ltac:(by_eval) ltac:(apply lookup_insert_eq) ltac:(lia) eq_refl) as (m' & Hrun & Hs & _ & Hbit).
  exists m'. split; [exact Hrun|].
  rewrite Hbit, (cache_step_handle _ _ _ Hs). by_eval.
Defined.

Lemma demo_hooks (n : string) (h : Z) :
  qget (default ∅ (rt_hook_id_hd (st_rt demo_fresh)) : gmap string Z) n = Some h ->
  n = "tick" /\ h = 0.
Proof.
  intros Hg. assert (map_Forall (fun n h => n = "tick" /\ h = 0)
    (default ∅ (rt_hook_id_hd (st_rt demo_fresh)) : gmap string Z)) as Hall by by_decide.
  exact (Hall _ _ Hg).
Qed.

(** "tick" is the only hook, with the id 0. *)
Lemma tick_hooks_ok (s : state) :
  rt_hook_id_hd (st_rt s) = Some ({[ "tick" := 0 ]} : gmap string Z) ->
  rt_hook_id_counter (st_rt s) = 1 -> hooks_ok s.
Proof.
  intros E Ec. exists ({[ "tick" := 0 ]} : gmap string Z). split; [exact E|].
  assert (forall (n : string) (h : Z),
    qget ({[ "tick" := 0 ]} : gmap string Z) n = Some h -> n = "tick" /\ h = 0) as Hg.
  { intros n h Hg. change (({[ "tick" := 0 ]} : gmap string Z) !! n = Some h) in Hg.
    by apply lookup_singleton_Some in Hg as [<- <-]. }
  split.
  - intros n h [-> ->]%Hg. rewrite Ec. by_decide.
  - intros n n' h [-> _]%Hg [-> _]%Hg. done.
Qed.

Lemma demo_hooks_ok : hooks_ok demo_fresh.
Proof. apply tick_hooks_ok; by_eval. Qed.

Lemma fn_cache_prewarm_complete_witness :
  exists m', fn_cache_prewarm mod_new demo_fresh =
      Ok (0, set_st_mod (<[mod_new := m']> (st_mod demo_fresh)) demo_fresh) /\
    known m' 0 "tick".
Proof.
  destruct (fn_cache_prewarm_complete demo_fresh mod_new fresh_b
    (default ∅ (rt_hook_id_hd (st_rt demo_fresh)))
    ltac:(by_eval) ltac:(apply lookup_insert_eq) ltac:(by eexists) demo_hooks_ok eq_refl)
    as (m' & Hrun & _ & Hk).
  - intros n h [-> ->]%demo_hooks. by_eval.
  - exists m'. split; [exact Hrun|]. apply Hk. by_eval.
Defined.
