(* ===== verification/WitnessCall.v ===== *)
(** * A concrete world: calls

    Instances of the theorems about dispatch. *)

From S2P Require Import Prelude QMap Status State Machine ModKey Linked Region RegionTree.
From S2P Require Import RegionSlots Runtime Vectors Decide ModList Paths Identity FnCache RegionApi Claim.
From S2P Require Import Deny Dispatch DispatchSpec CallSpec Areg Load Unload Lifecycle System Witness.
From stdpp Require Import options.
Local Open Scope Z_scope.

#[local] Existing Instance demo_plat.

(** The subtree of the root: the modules of its only child. *)
Lemma demo_preorder : preorder (st_reg demo_mods) (st_mod demo_mods) 3 root_loc [mod_a; mod_b].
Proof.
  change [mod_a; mod_b] with ([] ++ ([mod_a; mod_b] ++ []) ++ @nil loc).
  eapply preorder_node with (r := region_in demo_mods root_loc) (ks := [child_loc]); [by_eval|..].
  - apply linked_nil_iff. by_eval.
  - econstructor; [by_eval|]. econstructor.
  - econstructor; [|constructor].
    eapply preorder_node with (r := region_in demo_mods child_loc) (ks := []); [by_eval|..].
    + econstructor; [by_eval|]. econstructor; [by_eval|]. econstructor.
    + apply linked_nil_iff. by_eval.
    + constructor.
Qed.

Lemma demo_dispatchable :
  dispatchable demo_mods root_loc (region_in demo_mods root_loc) 0 "tick" [] [mod_a; mod_b].
Proof.
  split.
  - lia.
  - by_eval.
  - by_eval.
  - exists 3%nat. split; [lia|exact demo_preorder].
  - intros H. vm_compute in H. discriminate H.
  - exists []. split; [by_decide|by_eval].
  - intros a Ha. by apply not_elem_of_nil in Ha.
  - intros _ me [->|[->|[]%not_elem_of_nil]%elem_of_cons]%elem_of_cons.
    + eexists. split; [by_eval|]. split; by_eval.
    + eexists. split; [by_eval|]. split; by_eval.
Qed.

Lemma region_rebuild_hook_dispatch_correct_witness :
  exists s', region_rebuild_hook_dispatch root_loc 0 "tick" [] demo_mods = Ok (XY_OK, s') /\
    listeners (st_reg demo_mods) (st_mod demo_mods) [] "tick" [mod_a; mod_b] =
      [Slot (Some mod_a) (Fn 104); Slot (Some mod_b) (Fn 114)].
Proof.
  destruct (region_rebuild_hook_dispatch_correct _ _ _ _ _ _ _ demo_dispatchable) as (s' & Hrun & _).
  exists s'. split; [exact Hrun|by_eval].
Defined.

(** A call of "tick" from the root. *)
Definition tick : adapter := set_a_hook_id 0 demo_adapter.

Lemma demo_call_ok :
  call_ok demo_mods root_loc (region_in demo_mods root_loc) 10 tick (Trampoline 4) [root_loc]
    [mod_a; mod_b].
Proof.
  split; [exact demo_mods_running|by_eval|by_decide|by_eval|by_eval| |exact demo_dispatchable|by_eval].
  econstructor; [by_eval|constructor].
Qed.

(** Hooks that answer 7 in "a" and 9 in "b", whatever they are called with. *)
Definition tick_value (f : loc) (_ : list Z) : list Z :=
  [if bool_decide (f = 104%positive) then 7 else 9].
Definition computing : executor := fun cb s =>
  match cb with CbHook f arg => Ok (tick_value f arg, s) | _ => Ok ([], s) end.

Lemma xy_call_fans_out_witness :
  exists s1, xy_call computing (Some 20%positive) (Some 10%positive) [] demo_mods =
    (ran ← fan_out computing (Some 20%positive) 10 (Trampoline 4) [] XY_REGION_ROOT
             [Slot (Some mod_a) (Fn 104); Slot (Some mod_b) (Fn 114)] 0;
     call_finish (Some 20%positive) 10 ran) s1.
Proof.
  destruct (xy_call_fans_out computing (Some 20%positive) 10 tick (Trampoline 4) [] demo_mods
    root_loc _ [root_loc] [mod_a; mod_b] _ demo_call_ok
    (computes_undisturbed computing tick_value _ _ ltac:(intros f arg s; reflexivity)))
    as (s1 & _ & Hrun).
  exists s1. exact Hrun.
Defined.

Lemma xy_call_result_witness :
  exists s', xy_call computing (Some 20%positive) (Some 10%positive) [] demo_mods = Ok (XY_OK, s') /\
    t_last_ran (st_tls s') = 2 /\ st_mem s' !! 20%positive = Some [9; 0; 0; 0].
Proof.
  destruct (xy_call_result computing tick_value 20 10 tick (Trampoline 4) [] demo_mods root_loc _
    [root_loc] [mod_a; mod_b] [0; 0; 0; 0] demo_call_ok ltac:(intros f arg s; reflexivity)
    demo_mods_registry eq_refl ltac:(by_eval) ltac:(by_decide)) as (s' & Hrun & _ & Hran & Hmem & _).
  - exists (replicate 4096 0). split; [by_eval|by_decide].
  - discriminate.
  - exists s'. exact (conj Hrun (conj Hran Hmem)).
Defined.

(** The root denies "tick". *)
Definition demo_denied : state :=
  Eval vm_compute in after (with_mods (Invoke (Call_deny "tick" XY_DENY_HOOK) (fun _ => Return []))).

Lemma xy_call_refused_witness :
  xy_call computing (Some 20%positive) (Some 10%positive) [] demo_denied =
    Ok (XY_ERR_EPERM, refused_state demo_denied (Some 20%positive) 10 tick XY_ERR_EPERM).
Proof.
  apply (xy_call_refused computing (Some 20%positive) 10 tick [] demo_denied XY_ERR_EPERM).
  - apply runningb_sound. by_eval.
  - by_eval.
  - eapply (refusal_denied demo_denied tick (Trampoline 4) root_loc (region_in demo_denied root_loc)
      root_loc (region_in demo_denied root_loc) [root_loc]);
      [by_decide|by_decide|by_eval|by_eval|by_eval|by_eval| |by left|by_eval|by_eval].
    econstructor; [by_eval|constructor].
  - exists [0; 0; 0; 0]. split; [by_eval|by_decide].
Defined.

(** ** Registering a second hook *)

Definition tock : adapter := Adapter "tock" 0 4 (Some (Trampoline 4)) (-1).
Definition demo_tock : state := set_st_adp (<[11%positive := tock]> (st_adp demo_mods)) demo_mods.

Lemma hook_bit_one h : 1 <= h -> hook_bit [1] h = false.
Proof.
  intros Hh. unfold hook_bit. pose proof (Z.mod_pos_bound h 64 ltac:(lia)).
  pose proof (Z.div_mod h 64 ltac:(lia)). pose proof (Z.div_pos h 64 ltac:(lia) ltac:(lia)).
  destruct (Z.to_nat (h / 64)) as [|i] eqn:E; [|done]. cbn [lookup list_lookup].
  rewrite land_bit by lia. apply Z.bits_above_log2; [lia|]. cbn. lia.
Qed.

(** A module that has resolved hook 0 only. *)
Lemma one_hook_coherent m f :
  m_fn_cache m = Fn f :: replicate 16 FnNull -> m_hook_impl_bits m = [1] ->
  plat_dlsym (m_handle m) "tick" = Some f ->
  coherent (default ∅ (rt_hook_id_hd (st_rt demo_tock))) 1 m.
Proof.
  intros Hc Hb Hs n h H0 [[-> ->]%demo_hooks|Hh].
  - unfold entry_ok. rewrite Hc. split; [exact Hs|]. rewrite has_hook_eq, Hb by done. by_eval.
  - unfold entry_ok. rewrite has_hook_eq, Hb, hook_bit_one, Hc by lia.
    destruct (Z.to_nat h) as [|i] eqn:E; [lia|]. cbn -[replicate].
    destruct (replicate 16 FnNull !! i) eqn:E'; [|done]. by apply lookup_replicate in E' as [-> _].
Qed.

Lemma demo_caches_ok : caches_ok demo_tock.
Proof.
  eexists _, _. split; [reflexivity|]. split; [reflexivity|]. intros k me Hg.
  assert (map_Forall (fun _ me => me = mod_a \/ me = mod_b)
    (default ∅ (rt_mod_hd (st_rt demo_tock)) : gmap string loc)) as Hall by by_decide.
  destruct (Hall _ _ Hg) as [->| ->].
  - eexists. split; [by_eval|]. by apply (one_hook_coherent _ 104).
  - eexists. split; [by_eval|]. by apply (one_hook_coherent _ 114).
Qed.

Lemma xy_areg_registers_witness :
  exists s', xy_areg "tock" 11 demo_tock = Ok (0, s') /\ rt_hook_id_counter (st_rt s') = 2 /\
    hooks_ok s'.
Proof.
  destruct (xy_areg_registers demo_tock "tock" 11 tock
    (default ∅ (rt_sica_hd (st_rt demo_tock))) (default ∅ (rt_hook_id_hd (st_rt demo_tock)))
    eq_refl eq_refl ltac:(apply lookup_insert_eq) ltac:(by_decide) eq_refl ltac:(by_eval) eq_refl
    ltac:(by_eval) demo_hooks_ok ltac:(by_decide) demo_caches_ok) as (s' & Hrun & Hreg).
  exists s'. split; [exact Hrun|]. split; [exact (ar_counter _ _ _ _ _ _ Hreg)|].
  exact (ar_hooks _ _ _ _ _ _ Hreg).
Defined.

Lemma xy_areg_refused_witness : xy_areg "tick" 10 demo_mods = Ok (10, demo_mods).
Proof.
  apply (proj2 (xy_areg_refused demo_mods "tick" 10 tick eq_refl ltac:(by_eval))
    (default ∅ (rt_sica_hd (st_rt demo_mods))) 10%positive); [by_decide|reflexivity|by_eval].
Defined.
