(* ===== verification/WitnessSystem.v ===== *)
(** * A concrete world: whole runs

    Instances of the theorems about runs of the whole system and about module
    code. *)

From S2P Require Import Prelude QMap Status Macros State Machine ModKey Linked Region RegionTree.
From S2P Require Import RegionSlots Runtime Decide ModList Paths Identity FnCache RegionApi Claim.
From S2P Require Import Deny Dispatch DispatchSpec CallSpec HookCall Load Unload Lifecycle Evolve.
From S2P Require Import Frames System ApiSound FreeSound LoadSound UnloadSound SystemSound ModApi.
From S2P Require Import Witness WitnessCall.
From stdpp Require Import options.
Local Open Scope Z_scope.

#[local] Existing Instance demo_plat.

(** The modules of the demo platform have no clean-up functions. *)
Lemma demo_code_quiet fn st : calls_nothing (demo_code (CbCleanup fn st)).
Proof. exact I. Qed.

Lemma demo_exec_well_behaved : well_behaved demo_exec.
Proof. apply exec_of_well_behaved, demo_code_quiet. Qed.

(** "a" claims a region and loads "b" while it is being installed. *)
Lemma host_run_sound_witness :
  host demo_code 4 (with_mods (Return [])) demo_zero = Ok ([], demo_mods) /\ sound demo_mods.
Proof.
  split; [exact demo_mods_run|].
  exact (host_run_sound demo_code 4 (with_mods (Return [])) _ _ _ _ [] demo_mods demo_code_quiet demo_mods_run).
Defined.

Lemma demo_run_sound p s : host demo_code 4 p demo_zero = Ok ([], s) -> sound s.
Proof.
  intros H. unfold host in H. apply bind_inv in H as (u & s1 & E & H).
  destruct (xy_init_keeps _ _ _ E ltac:(done) (process_start_sound _ _ _ _)) as [Hs _].
  apply (run_keeps _ _ demo_exec_well_behaved _ _ _ H ltac:(done) Hs).
Qed.

Lemma demo_mods_sound : sound demo_mods.
Proof. exact (demo_run_sound _ _ demo_mods_run). Qed.

(** "a" is loaded once more: it claims a second region and loads "b" into it; the
    first instances stay where they are. *)
Definition demo_twice : state := Eval vm_compute in
  default demo_mods (state_of (api_sem demo_exec (Call_load "a") demo_mods)).

Lemma demo_twice_run : api_sem demo_exec (Call_load "a") demo_mods = Ok (XY_OK, demo_twice).
Proof. by_eval. Qed.

Lemma api_call_sound_witness :
  sound demo_mods /\ api_sem demo_exec (Call_load "a") demo_mods = Ok (XY_OK, demo_twice) /\
  sound demo_twice /\ owner_of demo_twice mod_b = Some (Some child_loc).
Proof.
  destruct (api_call_sound demo_exec (Call_load "a") demo_mods XY_OK demo_twice demo_exec_well_behaved
    demo_mods_sound demo_twice_run) as [Hs He].
  split; [exact demo_mods_sound|]. split; [exact demo_twice_run|]. split; [exact Hs|].
  rewrite (ev_owner _ _ _ He mod_b); [by_eval|by_eval|by (eexists; by_eval)].
Defined.

(** ** Module code *)

Lemma run_module_eq_witness :
  run_module demo_exec 101 (Invoke (Call_deny "tick" XY_DENY_HOOK) (fun rc => Return [rc])) demo_mods =
    run demo_exec (Invoke (Call_deny "tick" XY_DENY_HOOK) (fun rc => Return [rc])) demo_mods.
Proof.
  apply (run_module_eq demo_exec 101 _ demo_mods demo_exec_well_behaved demo_mods_sound).
  eexists. split; [by_eval|]. split; by_eval.
Defined.

(** The first instance of "a" and its table.  Its hook, called from the root when the image is
    loaded twice: there is one table for both, and it names the second region,
    while the module is listed in the first. *)
Definition first_a : mod_entry := default mod_entry_zero (st_mod demo_twice !! mod_a).
Definition a_table : xy_t := default xy_t_zero (st_ctx demo_twice !! 101%positive).

Lemma dispatch_slot_context_witness :
  exists s1, t_region_id (st_tls s1) = 2 ^ 63 /\ t_region_entry (st_tls s1) = Some child_loc /\
    r_id (region_in s1 child_loc) = 2 ^ 62 /\
    dispatch_slot_call demo_exec None 10 (Trampoline 4) [] XY_REGION_ROOT (Slot (Some mod_a) (Fn 104)) demo_twice =
      (out ← demo_exec (CbHook 104 []); mret tt;;
       set_current_region XY_REGION_ROOT (Some root_loc);; mret true) s1.
Proof.
  destruct (dispatch_slot_context demo_exec None 10 (Trampoline 4) [] mod_a
    first_a 101 a_table 104 demo_twice
    ltac:(by_eval) ltac:(by_eval) ltac:(by_eval)) as (s1 & Hx & _ & Hrun).
  exists s1. destruct Hx as [_ _ Hid He (_ & Hreg & _)]. split; [rewrite Hid; by_eval|].
  split; [rewrite He; by_eval|]. split; [unfold region_in; rewrite Hreg; by_eval|]. exact Hrun.
Defined.

(** ** A hook called like a function *)

(** A file of the host declares "tick", as XY_DECL(int, tick, int, dt) does; its
    adapter is at 12. *)
Definition tick_decl : adapter := decl_adapter "tick" 4 4.
Definition demo_decl : state := set_st_adp (<[12%positive := tick_decl]> (st_adp demo_mods)) demo_mods.
Definition tick_code : hook_code := default (HookCode [] [] [] []) (XY_DEF ["int"; "dt"]).

Lemma demo_decl_call_ok :
  call_ok demo_decl root_loc (region_in demo_mods root_loc) 10 tick (Trampoline 4) [root_loc]
    [mod_a; mod_b].
Proof.
  destruct demo_call_ok as [Hrun Ha Hsize Htr He Hls Hdp Hden]. split.
  - by apply (running_same demo_mods).
  - by_eval.
  - exact Hsize.
  - exact Htr.
  - exact He.
  - exact Hls.
  - destruct Hdp. by split.
  - exact Hden.
Qed.

Lemma demo_declares :
  declares demo_decl 12 tick_decl 10 tick (default ∅ (rt_hook_id_hd (st_rt demo_mods))).
Proof. split; try by_eval; [split; [by_decide|by_eval]|discriminate]. Qed.


(** ** A clean-up function that calls the library *)

(** The demo platform, where "b" has a region state and a clean-up function. *)
Definition flush_dlsym (h : option loc) (name : string) : option loc :=
  if bool_decide (h = Some 110%positive /\ name = "xy_region_state_size") then Some 117%positive
  else if bool_decide (h = Some 110%positive /\ name = "xy_region_cleanup") then Some 118%positive
  else demo_dlsym h name.

Definition flush_plat : Platform := {|
  plat_realpath := @plat_realpath demo_plat;
  plat_dlopen := @plat_dlopen demo_plat;
  plat_dlsym := flush_dlsym;
  plat_dladdr := @plat_dladdr demo_plat;
  plat_image_ctx := @plat_image_ctx demo_plat;
  plat_image_adp := @plat_image_adp demo_plat;
  plat_claim_byte := @plat_claim_byte demo_plat;
  plat_get_xy := @plat_get_xy demo_plat;
  plat_mkstemps := @plat_mkstemps demo_plat;
  plat_open_file := @plat_open_file demo_plat;
  plat_open_dir := @plat_open_dir demo_plat;
  plat_read := @plat_read demo_plat;
  plat_write := @plat_write demo_plat;
  plat_fchmod := @plat_fchmod demo_plat;
  plat_fsync := @plat_fsync demo_plat;
  plat_state_size _ := 8
|}.

(** It denies a hook. *)
Definition flush_code (cb : callback) : prog :=
  match cb with
  | CbCleanup _ _ => Invoke (Call_deny "tick" XY_DENY_HOOK) (fun _ => Return [])
  | _ => Return []
  end.

(** The host loads "b" and shuts down. *)
Definition load_and_shutdown (p : prog) : prog :=
  Invoke (Call_load "b") (fun _ => Invoke Call_shutdown (fun _ => p)).

(** The call starts the runtime again in the middle of the shutdown, which then
    closes the new tables: the runtime is marked as running without a table of
    regions, the old root region is left behind, and the next load uses a table
    that is closed.  This is why [host_run_sound] asks for clean-up functions
    that do not call the library. *)
Lemma shutdown_reentered :
  (exists s, host (P := flush_plat) flush_code 4 (load_and_shutdown (Return [])) demo_zero = Ok ([], s) /\
    rt_inited (st_rt s) = true /\ rt_region_hd (st_rt s) = None /\ is_Some (st_reg s !! root_loc)) /\
  host (P := flush_plat) flush_code 4
    (load_and_shutdown (Invoke (Call_load "b") (fun _ => Return []))) demo_zero = Undef.
Proof.
  split; [|by_eval]. eexists. split; [by_eval|]. split; [reflexivity|]. split; [reflexivity|]. by_decide.
Qed.
