(* ===== verification/WitnessLoad.v ===== *)
(** * A concrete world: loading and unloading

    Instances of the theorems about the life of modules and of the runtime. *)

From S2P Require Import Prelude QMap Status State Machine ModKey Linked Region RegionTree.
From S2P Require Import RegionSlots Runtime Decide ModList Paths Identity FnCache RegionApi Claim.
From S2P Require Import Deny Dispatch DispatchSpec CallSpec Areg Load LoadSpec LoadFresh LoadClaim.
From S2P Require Import CopyFile Unload UnloadSpec Cascade LoadUnload AbortSpec ReloadSpec Lifecycle LifecycleSpec System Witness WitnessCall.
From S2P Require Import Evolve ApiSound SystemSound Registry WitnessSystem.
From stdpp Require Import options.
Local Open Scope Z_scope.

#[local] Existing Instance demo_plat.

(** A check of the registry by computation. *)
Definition registry_exactb (s : state) : bool :=
  match rt_mod_hd (st_rt s) with
  | Some hd =>
      bool_decide (map_Forall (fun k me => m_mod_key <$> st_mod s !! me = Some k) (hd : gmap string loc)) &&
      bool_decide (map_Forall (fun me m => (hd : gmap string loc) !! m_mod_key m = Some me) (st_mod s))
  | None => false
  end.

Lemma registry_exactb_sound s : registry_exactb s = true -> registry_exact s.
Proof.
  unfold registry_exactb. destruct (rt_mod_hd (st_rt s)) as [hd|] eqn:E; [|done].
  intros [H1%bool_decide_eq_true H2%bool_decide_eq_true]%andb_true_iff.
  exists hd. split; [done|]. intros k me. split.
  - intros Hg. specialize (H1 _ _ Hg). cbn beta in H1.
    destruct (st_mod s !! me) as [m|]; [|done]. injection H1 as H1. by exists m.
  - intros (m & Hm & <-). apply (H2 _ _ Hm).
Qed.

Lemma computing_cleanup : quiet_cleanup computing.
Proof. intros fn st s. reflexivity. Qed.

Lemma demo_exact : registry_exact demo_mods.
Proof. apply registry_exactb_sound. by_eval. Qed.

Lemma xy_shutdown_complete_witness :
  exists s', xy_shutdown computing demo_mods = Ok (tt, s') /\ cold s'.
Proof.
  destruct (xy_shutdown_complete computing demo_mods (default ∅ (rt_mod_hd (st_rt demo_mods)))
    demo_mods_running computing_cleanup demo_exact eq_refl) as (s' & Hrun & Hcold & _).
  exists s'. exact (conj Hrun Hcold).
Defined.

(** The thread in the claimed region. *)
Definition in_child (s : state) : state :=
  set_st_tls (set_t_region_entry (Some child_loc)
    (set_t_region_id (r_id (region_in s child_loc)) (st_tls s))) s.
Definition demo_child : state := Eval vm_compute in in_child demo_mods.
Definition mod_in (s : state) (l : loc) : mod_entry := default mod_entry_zero (st_mod s !! l).
Definition registry (s : state) : gmap string loc := default ∅ (rt_mod_hd (st_rt s)).

Lemma demo_child_running : running demo_child.
Proof. apply runningb_sound. by_eval. Qed.

Lemma demo_child_mods : mod_list demo_child child_loc [mod_a; mod_b].
Proof.
  exists (region_in demo_child child_loc). split; [by_eval|]. split; [|by_decide].
  repeat (econstructor; [by_eval|by_eval|]). constructor.
Qed.

Lemma demo_leaf :
  leaf_module demo_child (registry demo_child) (registry_key "/m/b.so" (2 ^ 62)) mod_b
    (mod_in demo_child mod_b) child_loc [mod_a] [].
Proof.
  split.
  - exact demo_child_running.
  - apply registry_exactb_sound. by_eval.
  - by_decide.
  - reflexivity.
  - by_eval.
  - by_eval.
  - by_eval.
  - exact demo_child_mods.
  - by_decide.
  - intros x mx Hx Hp.
    assert (map_Forall (fun x mx => m_parent_entry mx <> Some mod_b) (st_mod demo_child)) as Hall
      by by_decide.
    by destruct (Hall _ _ Hx).
Qed.

Lemma xy_unload_last_witness :
  exists s', xy_unload computing "b" demo_child = Ok (XY_OK, s') /\ running s' /\
    mod_list s' child_loc [mod_a] /\ st_mod s' !! mod_b = None.
Proof.
  destruct (xy_unload_last computing "b" demo_child _ _ mod_b _ child_loc [mod_a] [] demo_leaf
    ltac:(by_eval) computing_cleanup ltac:(by_eval)) as (s' & Hrun & Hok & _ & Hl & _ & Hgone & _).
  exists s'. exact (conj Hrun (conj Hok (conj Hl Hgone))).
Defined.

(** A module that was loaded by an older one, and is registered under the name in
    its table. *)
Definition namedb (x : loc) (m : mod_entry) : bool :=
  match m_parent_entry m with
  | Some y => bool_decide ((y < x)%positive /\
      (c ← m_ctx m; t ← st_ctx demo_child !! c; p ← x_module_path t;
       Some (registry_key (resolved p) (m_region_id m))) = Some (m_mod_key m))
  | None => true
  end.

(** "a" has loaded "b". *)
Lemma demo_orderly : orderly demo_child.
Proof.
  assert (map_Forall (fun x m => forall y, m_parent_entry m = Some y -> (y < x)%positive /\
      (c ← m_ctx m; t ← st_ctx demo_child !! c; p ← x_module_path t;
       Some (registry_key (resolved p) (m_region_id m))) = Some (m_mod_key m)) (st_mod demo_child)) as Hall.
  { intros x m Hm y Hp. assert (map_Forall (fun x m => namedb x m = true) (st_mod demo_child)) as Hb by by_decide.
    specialize (Hb x m Hm). unfold namedb in Hb. rewrite Hp in Hb.
    by apply bool_decide_eq_true in Hb. }
  assert (map_Forall (fun x m => x ∈ [mod_a; mod_b] /\ is_Some (m_load_path m)) (st_mod demo_child)) as Hl by by_decide.
  split.
  - exact demo_child_running.
  - apply registry_exactb_sound. by_eval.
  - by_decide.
  - by_eval.
  - intros x y. unfold parent_in. destruct (st_mod demo_child !! x) as [m|] eqn:Hm; [|done]. cbn. intros Hp.
    apply (Hall x m Hm y Hp).
  - intros x m Hm. destruct (Hl x m Hm) as [Hin Hpath]. split; [|exact Hpath|].
    + exists child_loc, [mod_a; mod_b]. split; [exact demo_child_mods|exact Hin].
    + intros y Hp. clear Hl. destruct (Hall x m Hm y Hp) as [_ Hn]. clear Hall. rename Hn into Hall.
      apply bind_Some in Hall as (c & Hc & Hall). apply bind_Some in Hall as (tbl & Ht & Hall).
      apply bind_Some in Hall as (p & Hpth & Hall). injection Hall as Hall. by exists c, tbl, p.
Qed.

Lemma xy_unload_cascade_witness :
  exists t, xy_unload computing "a" demo_child = Ok (XY_OK, set_st_err XY_OK t) /\ orderly t /\
    st_mod t !! mod_b = None.
Proof.
  destruct (xy_unload_cascade computing "a" demo_child (registry demo_child) mod_a demo_orderly
    computing_cleanup ltac:(by_eval) ltac:(by_eval)) as (t & L & Hrun & Ho & HL & Hc).
  exists t. split; [exact Hrun|split; [exact Ho|]].
  assert (mod_b ∈ L) as Hb.
  { apply HL. eapply (loses_child _ _ mod_b mod_a (mod_in demo_child mod_a)); [|by_eval|by_decide|by_eval].
    constructor. by_decide. }
  pose proof (ct_mod _ _ _ Hc mod_b) as E. rewrite (bool_decide_eq_true_2 _ Hb) in E.
  assert (st_mod demo_child !! mod_b = Some (mod_in demo_child mod_b)) as Hm by by_eval.
  rewrite Hm in E. assert (after_loss true (mod_in demo_child mod_b) = None) as Hn by by_eval.
  cbn [mbind option_bind] in E. rewrite Hn in E. destruct (st_mod t !! mod_b); [discriminate E|reflexivity].
Defined.

Lemma xy_load_reuses_witness :
  exists s', xy_load computing "b" demo_child = Ok (XY_OK, s') /\ running s'.
Proof.
  destruct (xy_load_reuses computing demo_child "b" (registry demo_child) 110 mod_b
    (mod_in demo_child mod_b) demo_child_running ltac:(by_eval) eq_refl ltac:(by_eval) ltac:(by_eval)
    ltac:(by_eval) ltac:(by_eval)) as (s' & Hrun & Hok & _).
  exists s'. exact (conj Hrun Hok).
Defined.

Lemma xy_load_missing_witness :
  xy_load computing "c" demo_child = Ok (XY_ERR_NOTFOUND,
    set_st_err XY_ERR_NOTFOUND (set_st_trace (st_trace demo_child ++ [EvDlopen "c.so"]) demo_child)).
Proof.
  exact (xy_load_missing computing demo_child "c" (registry demo_child) demo_child_running
    ltac:(by_eval) eq_refl ltac:(by_eval) ltac:(by_eval)).
Defined.

(** "b" with two references. *)
Definition demo_shared : state :=
  Eval vm_compute in set_st_mod (alter (set_m_refcount 2) mod_b (st_mod demo_child)) demo_child.

Lemma xy_unload_shared_witness :
  exists s', xy_unload computing "b" demo_shared = Ok (XY_OK, s') /\ running s'.
Proof.
  assert (running demo_shared) as Hrun by (apply runningb_sound; by_eval).
  destruct (proj2 (xy_unload_shared computing "b" demo_shared (registry demo_shared) Hrun ltac:(by_eval)
    eq_refl) mod_b (mod_in demo_shared mod_b) ltac:(by_eval) ltac:(by_eval) ltac:(by_decide))
    as [H1 H2].
  eexists. exact (conj H1 H2).
Defined.

(** A process that has registered the hook and asks for no claim. *)
Definition demo_plain : state :=
  Eval vm_compute in after (Invoke (Call_areg "tick" 10) (fun _ => Return [])).

Lemma demo_plain_hooks : hooks_ok demo_plain.
Proof. apply tick_hooks_ok; by_eval. Qed.

Lemma demo_plain_loadable fname h :
  plat_dlopen (st_trace demo_plain) (resolved fname) = Some (h, false) ->
  qget (registry demo_plain) (registry_key (resolved fname) 0) = None ->
  plat_dlsym (Some h) "get_xy_ptr" = Some (h + 3)%positive -> plat_get_xy (h + 3)%positive = Some (h + 1)%positive ->
  is_Some ((st_ctx demo_plain ∪ list_to_map (plat_image_ctx h)) !! (h + 1)%positive) ->
  plat_dlsym (Some h) "xy_region_state_size" = None ->
  loadable demo_plain fname root_loc (region_in demo_plain root_loc) [] (registry demo_plain)
    (default ∅ (rt_hook_id_hd (st_rt demo_plain))) None [] h (h + 1).
Proof.
  intros Hopen Hnew Hg Hc [x Hx] Hsz. split; [split| |].
  - apply runningb_sound. by_eval.
  - by_eval.
  - apply registry_exactb_sound. by_eval.
  - by_decide.
  - intros y [m Hm]. assert (map_Forall (fun x _ => False) (st_mod demo_plain)) as Hall by by_decide.
    by destruct (Hall _ _ Hm).
  - exact demo_plain_hooks.
  - by_eval.
  - by_eval.
  - exact Hnew.
  - by_eval.
  - by_eval.
  - split; [by split|exact Hopen].
  - eexists _, x. exact (conj Hg (conj Hc Hx)).
  - exact Hsz.
  - exists (region_in demo_plain root_loc). split; [by_eval|]. split; [|constructor]. constructor.
  - split; by_eval.
Qed.

Lemma xy_load_fresh_witness :
  exists me s1, running s1 /\ mod_list s1 root_loc [me] /\
    xy_load computing "b" demo_plain =
      (ret ← install_and_leave computing 112 me None XY_REGION_ROOT (Some root_loc); return_err ret) s1.
Proof.
  destruct (xy_load_fresh computing demo_plain "b" root_loc _ [] _ _ None [] 110 111 112
    (demo_plain_loadable "b" 110 ltac:(by_eval) ltac:(by_eval) ltac:(by_eval) ltac:(by_eval)
       ltac:(by_decide) ltac:(by_eval)) ltac:(by_eval)) as (me & s1 & Hin & Hrun).
  exists me, s1. split; [exact (in_running _ _ _ _ _ _ _ _ _ _ _ _ _ Hin)|].
  split; [exact (in_list _ _ _ _ _ _ _ _ _ _ _ _ _ Hin)|exact Hrun].
Defined.

Lemma load_unload_witness :
  exists s1 s2, xy_load computing "b" demo_plain = Ok (XY_OK, s1) /\
    xy_unload computing "b" s1 = Ok (XY_OK, s2) /\ rt_mod_count (st_rt s2) = 0.
Proof.
  destruct (load_unload computing demo_plain "b" root_loc _ [] _ _ None [] 110 111 112
    (demo_plain_loadable "b" 110 ltac:(by_eval) ltac:(by_eval) ltac:(by_eval) ltac:(by_eval)
       ltac:(by_decide) ltac:(by_eval)) ltac:(by_eval))
    as (s1 & s2 & H1 & H2 & _ & _ & _ & _ & _ & _ & _ & Hc & _).
  - intros s. exists []. reflexivity.
  - exact computing_cleanup.
  - split; [|intros y Hy; discriminate Hy].
    intros x m y Hm. assert (map_Forall (fun x _ => False) (st_mod demo_plain)) as Hall by by_decide.
    by destruct (Hall _ _ Hm).
  - exists s1, s2. split; [exact H1|split; [exact H2|rewrite Hc; reflexivity]].
Defined.

(** "d" has no xy_install. *)
Lemma xy_load_not_installed_witness :
  exists s', xy_load computing "d" demo_plain = Ok (XY_ERR_NOTFOUND, s') /\ running s' /\
    mod_list s' root_loc [] /\ rt_mod_count (st_rt s') = 1.
Proof.
  destruct (xy_load_not_installed computing demo_plain "d" root_loc _ [] _ _ None [] 130 131
    (demo_plain_loadable "d" 130 ltac:(by_eval) ltac:(by_eval) ltac:(by_eval) ltac:(by_eval)
       ltac:(by_decide) ltac:(by_eval)) ltac:(by_eval))
    as (s' & Hrun & Hok & _ & Hl & _ & _ & _ & _ & _ & _ & _ & Hc & _).
  exists s'. exact (conj Hrun (conj Hok (conj Hl Hc))).
Defined.

(** A host that loads and unloads. *)
Lemma computing_well_behaved : well_behaved computing.
Proof.
  split.
  - intros cb s out s' H. assert (s' = s) as -> by by (destruct cb; injection H as _ <-). reflexivity.
  - intros fn st s out s' H. injection H as _ <-. by destruct s.
Qed.

Lemma demo_plain_run :
  host demo_code 4 (Invoke (Call_areg "tick" 10) (fun _ => Return [])) demo_zero = Ok ([], demo_plain).
Proof. by_eval. Qed.

Lemma demo_plain_hosting : hosting demo_plain root_loc XY_REGION_ROOT [].
Proof.
  assert (map_Forall (fun x _ => False) (st_mod demo_plain)) as Hall by by_decide.
  split.
  - split.
    + apply runningb_sound. by_eval.
    + apply registry_exactb_sound. by_eval.
    + by_decide.
    + by_eval.
    + intros x y Hp. destruct (parent_in_live _ _ _ Hp) as [m Hm]. by destruct (Hall _ _ Hm).
    + intros x m Hm. by destruct (Hall _ _ Hm).
  - exact (demo_run_sound _ _ demo_plain_run).
  - by_eval.
  - by_eval.
  - by_eval.
  - by_eval.
  - by_decide.
  - exists []. split; [|split; [constructor|intros x [m Hm]; by destruct (Hall _ _ Hm)]].
    exists (region_in demo_plain root_loc). split; [by_eval|]. split; [|constructor]. constructor.
Qed.

Definition demo_ops : list host_op :=
  [OpLoad "b"; OpLoad "b"; OpLoad "c"; OpLoad "e"; OpUnload "b"; OpUnload "b"; OpUnload "b"].

Lemma demo_ops_usable : Forall (usable computing) demo_ops.
Proof.
  assert (forall (f : string) (h : loc), (forall tr, plat_dlopen tr (resolved f) = Some (h, false)) ->
    plat_dlsym (Some h) "get_xy_ptr" = Some (h + 3)%positive -> plat_get_xy (h + 3)%positive = Some (h + 1)%positive ->
    is_Some ((list_to_map (plat_image_ctx h) : gmap loc xy_t) !! (h + 1)%positive) ->
    plat_dlsym (Some h) "xy_region_state_size" = None ->
    plat_dlsym (Some h) "xy_install" = Some (h + 2)%positive -> usable computing (OpLoad f)) as Hb.
  { intros f h H1 H2 H3 H4 H5 H6. right. exists h, (h + 3)%positive, (h + 1)%positive, (h + 2)%positive.
    split_and!; [exact H1|exact H2|exact H3|exact H4|exact H5|exact H6|]. intros s. by exists []. }
  assert (usable computing (OpLoad "b")) as B by (apply (Hb "b" 110%positive); [done|by_eval|by_eval|by_decide|by_eval|by_eval]).
  assert (usable computing (OpLoad "e")) as E by (apply (Hb "e" 140%positive); [done|by_eval|by_eval|by_decide|by_eval|by_eval]).
  repeat apply Forall_cons_2; [exact B|exact B|left; done|exact E|exact I|exact I|exact I|apply Forall_nil_2].
Qed.

Lemma registry_refines_witness :
  exists s', perform computing demo_ops demo_plain =
      Ok ([XY_OK; XY_OK; XY_ERR_NOTFOUND; XY_OK; XY_OK; XY_OK; XY_ERR_NOTFOUND], s') /\
    hosting s' root_loc XY_REGION_ROOT [(registry_key "/m/e.so" 0, 1)].
Proof.
  destruct (registry_refines computing demo_ops demo_plain root_loc XY_REGION_ROOT []
    computing_well_behaved computing_cleanup demo_ops_usable demo_plain_hosting) as (s' & Hrun & Hh).
  assert (spec_run XY_REGION_ROOT demo_ops [] =
    ([XY_OK; XY_OK; XY_ERR_NOTFOUND; XY_OK; XY_OK; XY_OK; XY_ERR_NOTFOUND], [(registry_key "/m/e.so" 0, 1)])) as E
    by by_eval.
  rewrite E in Hrun, Hh. exists s'. exact (conj Hrun Hh).
Defined.

(** "a" claims two bits, and the host's handler grants them. *)
Definition granted_all : executor := fun cb s =>
  match cb with CbClaim _ _ bits _ => Ok ([XY_OK; bits], s) | _ => Ok ([], s) end.

Lemma demo_hook_hooks : hooks_ok demo_hook.
Proof. apply tick_hooks_ok; by_eval. Qed.

Lemma demo_claimable :
  claimable granted_all demo_hook "a" root_loc (region_in demo_hook root_loc) (registry demo_hook)
    (default ∅ (rt_hook_id_hd (st_rt demo_hook))) None [] 100 101 2 (2 ^ 62).
Proof.
  split; [split|split| |].
  - exact demo_hook_running.
  - by_eval.
  - apply registry_exactb_sound. by_eval.
  - by_decide.
  - intros y [m Hm]. assert (map_Forall (fun x _ => False) (st_mod demo_hook)) as Hall by by_decide.
    by destruct (Hall _ _ Hm).
  - exact demo_hook_hooks.
  - by_eval.
  - by_eval.
  - by_eval.
  - by_eval.
  - by_eval.
  - split; [by split|by_eval].
  - eexists _, _. split; [by_eval|]. split; by_eval.
  - by_eval.
  - exists 105%positive, 500%positive, [XY_OK; 2]. split; [by_eval|]. split; [by_decide|].
    split; [by_eval|]. split; [reflexivity|]. split; [by_eval|]. intros t. reflexivity.
  - by_decide.
  - by_eval.
  - by_decide.
  - by_eval.
  - by_decide.
Qed.

Lemma xy_load_claims_witness :
  exists me c s1, running s1 /\ mod_list s1 c [me] /\ t_region_id (st_tls s1) = 2 ^ 62 /\
    xy_load granted_all "a" demo_hook =
      (ret ← install_and_leave granted_all 102 me None XY_REGION_ROOT (Some root_loc); return_err ret) s1.
Proof.
  destruct (xy_load_claims granted_all demo_hook "a" root_loc _ _ _ None [] 100 101 2 (2 ^ 62) 102
    demo_claimable ltac:(by_eval)) as (me & c & s1 & Hin & Hrun).
  exists me, c, s1. split; [exact (io_running _ _ _ _ _ _ _ _ _ _ _ _ _ _ _ Hin)|].
  split; [exact (io_list _ _ _ _ _ _ _ _ _ _ _ _ _ _ _ Hin)|].
  split; [rewrite (io_tls _ _ _ _ _ _ _ _ _ _ _ _ _ _ _ Hin); reflexivity|exact Hrun].
Defined.

(** "b" and "e" are loaded into the root region. *)
Definition demo_two : state :=
  Eval vm_compute in after (Invoke (Call_areg "tick" 10) (fun _ =>
    Invoke (Call_load "b") (fun _ => Invoke (Call_load "e") (fun _ => Return [])))).
Definition old_b : loc := 1002.
Definition old_e : loc := 1004.

Lemma demo_two_hooks : hooks_ok demo_two.
Proof. apply tick_hooks_ok; by_eval. Qed.

Lemma demo_two_leaf :
  leaf_module demo_two (registry demo_two) (registry_key "/m/b.so" 0) old_b (mod_in demo_two old_b)
    root_loc [] [old_e].
Proof.
  split.
  - apply runningb_sound. by_eval.
  - apply registry_exactb_sound. by_eval.
  - by_decide.
  - reflexivity.
  - by_eval.
  - by_eval.
  - by_eval.
  - exists (region_in demo_two root_loc). split; [by_eval|]. split; [|by_decide].
    repeat (econstructor; [by_eval|by_eval|]). constructor.
  - by_decide.
  - intros x mx Hx Hp.
    assert (map_Forall (fun x mx => m_parent_entry mx <> Some old_b) (st_mod demo_two)) as Hall by by_decide.
    by destruct (Hall _ _ Hx).
Qed.

(** The copy of "b.so", byte by byte, and its name. *)
Definition demo_copy : option string * list ext_event :=
  Eval vm_compute in
    let s := set_st_reloading true (traced (free_events (mod_in demo_two old_b)) demo_two) in
    match copy_to_tmp "/m/b.so" s with
    | Ok (tmp, s') => (tmp, drop (length (st_trace s)) (st_trace s'))
    | _ => (None, [])
    end.

Lemma demo_reloadable :
  reloadable demo_two "b" (registry demo_two) old_b (mod_in demo_two old_b) root_loc
    (region_in demo_two root_loc) [] [old_e] (default ∅ (rt_hook_id_hd (st_rt demo_two)))
    demo_copy.1 demo_copy.2 120 121.
Proof.
  split.
  - exact demo_two_leaf.
  - by_eval.
  - intros x Hx. assert (map_Forall (fun x _ => (x < st_next demo_two)%positive) (st_mod demo_two)) as Hall
      by by_decide. destruct Hx as [m Hm]. exact (Hall _ _ Hm).
  - exact demo_two_hooks.
  - by_eval.
  - by_eval.
  - by_eval.
  - split; by_eval.
  - split; by_eval.
  - eexists _, _. split; [by_eval|]. split; by_eval.
  - by_eval.
Qed.

Lemma xy_reload_in_place_witness :
  exists me s', xy_reload computing "b" demo_two = Ok (XY_OK, s') /\ running s' /\
    mod_list s' root_loc [me; old_e].
Proof.
  destruct (xy_reload_in_place computing demo_two "b" _ _ _ _ _ [] [old_e] _ _ _ 120 121 122
    demo_reloadable computing_cleanup ltac:(by_eval)) as (s0 & r0 & me & s1 & _ & Eid & Hin & Hre).
  pose proof Hin as [Hrun He Hhd Hl _ (m & Hm & _ & _ & _ & _ & _ & _ & _ & Hk & _) _ _ _ _ [Ha _] _].
  destruct (Hre [] _ [] eq_refl) as (s' & E & Hok & _ & Hl' & _).
  - apply (settled_same s1); [|done..]. split; [done|done|done| |exact Hl].
    rewrite Hm. cbn [fmap option_fmap option_map]. by rewrite Hk, Eid.
  - exists me, s'. exact (conj E (conj Hok Hl')).
Defined.
