(* ===== verification/WitnessWatch.v ===== *)
(** * A concrete world: the watcher

    A kernel that grants everything, a run of two threads on it, and instances
    of the theorems about the watcher. *)

From S2P Require Import Prelude QMap Status State Machine ModKey Linked Region RegionTree ModList.
From S2P Require Import Runtime Paths Identity FnCache RegionApi Deny Claim Dispatch Load Unload.
From S2P Require Import Lifecycle System Watch WatchSpec WatchThreads WatchSafety WatchStop WatchReload.
From S2P Require Import Witness.
From stdpp Require Import options.
Local Open Scope Z_scope.

#[local] Existing Instance demo_plat.

(** ** A kernel *)

(** The least descriptor above all that are open. *)
Definition above (fds : gset Z) : Z := foldr (fun x a => Z.max a (x + 1)) 3 (elements fds).

Lemma above_bound fds x : x ∈ fds -> x < above fds.
Proof.
  unfold above. rewrite <- elem_of_elements. induction (elements fds) as [|y l IH]; [by intros ?%elem_of_nil|].
  cbn. intros [->|H]%elem_of_cons; [lia|]. specialize (IH H). lia.
Qed.

Lemma above_min fds : 3 <= above fds.
Proof. unfold above. induction (elements fds); cbn; lia. Qed.

#[local] Instance demo_kernel : WatchKernel := {|
  wk_inotify_init1 tr fds := above fds;
  wk_pipe tr fds := Some (above fds, above fds + 1);
  wk_add_watch tr fd path := Z.of_nat (length tr);
  wk_thread_create tr := 0;
  wk_strdup tr := true
|}.

#[local] Instance demo_kernel_laws : WatchKernelLaws demo_kernel.
Proof.
  split.
  - intros tr fds Hin. apply above_bound in Hin. cbn in Hin. lia.
  - intros tr fds r w [= <- <-]. pose proof (above_min fds). split_and!; [lia..| |].
    + intros Hin%above_bound. lia.
    + intros Hin%above_bound. lia.
Qed.

(** ** Running calls *)

Section Runs.
Context (exec : executor) (may_call : loc -> watch_call -> Prop) (may_use : api_call -> Prop).
Context (B : gmap loc string -> state -> Prop).

Lemma call_section_run t call c pc w' :
  B (w_str (c_w c)) (c_lib c) ->
  c_host c !! t = None -> c_mu c = None -> may_call t call -> call_pc call = HLock call ->
  call_section call (c_w c) = Ok (pc, w') ->
  rtc (step_while B exec may_call may_use) c (Conf w' None (<[t := pc]> (c_host c)) (c_lib c) (c_locals c)).
Proof.
  intros HB Hh Hmu Hmay Hpc E. eapply rtc_l; [split; [exact HB|by eapply step_host, step_call]|]. rewrite Hpc.
  eapply rtc_l; [split; [exact HB|eapply step_host, (step_lock _ _ _ call); [apply lookup_insert_eq|done]]|].
  eapply rtc_l.
  { split; [exact HB|]. eapply step_host, (step_section _ _ _ (HIn call)); [apply lookup_insert_eq|done|exact E]. }
  unfold host_at. cbn. rewrite !insert_insert_eq. done.
Qed.

(** A call that ends in one section, up to its return. *)
Lemma call_run t call c ret w' :
  B (w_str (c_w c)) (c_lib c) -> B (w_str w') (c_lib c) ->
  c_host c !! t = None -> c_mu c = None -> may_call t call -> call_pc call = HLock call ->
  call_section call (c_w c) = Ok (HDone ret, w') ->
  rtc (step_while B exec may_call may_use) c (set_c_w w' c).
Proof.
  intros HB HB' Hh Hmu Hmay Hpc E. eapply rtc_r; [by eapply call_section_run|]. split; [exact HB'|].
  eapply step_host. replace (set_c_w w' c) with (set_c_host (delete t (<[t := HDone ret]> (c_host c)))
    (Conf w' None (<[t := HDone ret]> (c_host c)) (c_lib c) (c_locals c))).
  - eapply step_return. apply lookup_insert_eq.
  - unfold set_c_host, set_c_w. cbn. by rewrite delete_insert_id, Hmu.
Qed.

Lemma run_reachable lib c :
  rtc (step_while B exec may_call may_use) (initial lib) c -> reachable exec may_call may_use c.
Proof. intros Hr. exists lib. eapply (rtc_congruence id); [|exact Hr]. by intros c1 c2 [_ Hs]. Qed.

End Runs.

(** ** States on the way *)

Definition after_call (call : watch_call) (w : wstate) : wstate :=
  default w (state_of (call_section call w)).

Definition w_added : wstate := Eval vm_compute in after_call (CAdd (Some "a")) watch_start_state.
Definition w_started : wstate := Eval vm_compute in after_call CStart w_added.
Definition demo_event : inotify_event := InotifyEvent 3 IN_CLOSE_WRITE.
Definition first_watcher : loc := Eval vm_compute in default 1%positive (w_thread w_started).
Definition w_event : wstate := set_pc first_watcher (PcEvents [demo_event]) w_started.
Definition w_told : wstate := Eval vm_compute in after_call CStop w_event.

(** The host thread 1 has added "a" and started the watcher. *)
Definition conf_in (lib : state) (w : wstate) : conf := Conf w None ∅ lib ∅.
Definition conf_of (w : wstate) : conf := conf_in demo_hook w.
(** It waits in a stop, and the watcher has an event at hand. *)
Definition c_stopping : conf := Conf w_told None {[ 1%positive := HJoining first_watcher ]} demo_hook ∅.

Section Demo.
Context (may_use : api_call -> Prop) (B : gmap loc string -> state -> Prop) (lib : state).
Hypothesis HB0 : B ∅ lib.
Hypothesis HB1 : B (w_str w_started) lib.

Lemma started_run may_call :
  (forall call, may_call 1%positive call) ->
  rtc (step_while B demo_exec may_call may_use) (initial lib) (conf_in lib w_started).
Proof using HB0 HB1.
  intros Hmay. etrans.
  { apply (call_run _ _ _ B 1 (CAdd (Some "a")) (initial lib) 0 w_added); done || by_eval. }
  apply (call_run _ _ _ B 1 CStart (set_c_w w_added (initial lib)) 0 w_started); done || by_eval.
Qed.

Lemma event_run may_call :
  (forall call, may_call 1%positive call) ->
  rtc (step_while B demo_exec may_call may_use) (initial lib) (conf_in lib w_event).
Proof using HB0 HB1.
  intros Hmay. eapply rtc_r; [eapply rtc_r; [by apply started_run|]|].
  - split; [exact HB1|]. eapply step_watcher, (step_select_events demo_exec first_watcher); [by_eval|by_decide..].
  - replace (conf_in lib w_event) with (watcher_at first_watcher (PcEvents [demo_event])
      (watcher_at first_watcher PcRead (conf_in lib w_started))) by by_eval.
    split; [exact HB1|]. eapply step_watcher, step_read. by_eval.
Qed.

End Demo.

Lemma event_reachable may_use may_call :
  (forall call, may_call 1%positive call) -> reachable demo_exec may_call may_use (conf_of w_event).
Proof. intros Hmay. eapply run_reachable, (event_run may_use (fun _ _ => True) demo_hook); done. Qed.

(** ** Instances *)

Lemma start_table : table watch_start_state [] [] /\ strings_below watch_start_state.
Proof.
  split; [|by intros l [? E]]. split; try done; [by eexists|constructor..].
Qed.

Definition demo_ops : list table_op :=
  [OpAdd "a"; OpAdd "b"; OpAdd "a"; OpRemove "a"; OpRemove "c"; OpAdd "c"].

Lemma watch_ops_refine_witness :
  exists w' locs' tab', run_ops demo_ops watch_start_state = Ok ([0; 0; 0; 0; 0; 0], w') /\
    table w' locs' tab' /\ tab'.*1 = ["b"; "c"].
Proof.
  destruct (watch_ops_refine (K := demo_kernel) demo_ops watch_start_state [] [] (fun _ => eq_refl)
    (proj1 start_table) (proj2 start_table)) as (w' & locs' & tab' & Hrun & Ht & Hn & _).
  exists w', locs', tab'. exact (conj Hrun (conj Ht Hn)).
Defined.

Lemma watch_add_remove_witness :
  exists w2, xy_watch_remove "a" w_added = Ok (tt, w2) /\ table w2 [] [] /\ w_str w2 = ∅.
Proof.
  destruct (watch_add_remove (K := demo_kernel) watch_start_state [] [] "a" w_added (proj1 start_table) eq_refl
    (not_elem_of_nil _) ltac:(by_eval)) as (w2 & Hrun & Ht & Hs & _).
  exists w2. exact (conj Hrun (conj Ht Hs)).
Defined.

(** Every host thread may do everything. *)
Definition anyone (t : loc) (call : watch_call) : Prop := True.

Lemma watch_threads_safe_witness :
  (forall x, in_section (conf_of w_event) x <-> c_mu (conf_of w_event) = Some x) /\
  exists locs tab, table w_event locs tab /\ strings_ok w_event locs.
Proof.
  destruct (watch_threads_safe demo_exec anyone (fun _ => True) (conf_of w_event)
    (event_reachable _ anyone (fun _ => I))) as (Hm & _ & _ & _ & Ht).
  exact (conj Hm Ht).
Defined.

Lemma stopping_reachable may_use :
  reachable demo_exec (one_controller 1) may_use c_stopping.
Proof.
  eapply (run_reachable _ _ _ (fun _ _ => True) demo_hook). eapply rtc_r; [etrans; [apply event_run; try done|]|].
  - by intros [| |[]|[]].
  - apply (call_section_run _ _ _ _ 1 CStop (conf_of w_event) HJoin w_told); done || by_eval.
  - split; [done|]. replace c_stopping with (host_at 1 (HJoining first_watcher)
      (Conf w_told None (<[1%positive := HJoin]> ∅) demo_hook ∅)) by by_eval.
    eapply step_host, step_join; by_eval.
Qed.

Lemma watch_lifecycle_witness :
  exists pc, w_watchers w_told = {[ first_watcher := pc ]} /\ w_pipe_r w_told ∈ w_unread w_told.
Proof.
  destruct (watch_lifecycle demo_exec 1 (fun _ => True) c_stopping (stopping_reachable _)) as (_ & _ & Hj).
  destruct (Hj first_watcher ltac:(by_eval)) as [[pc Hpc] Hu]. exists pc. exact (conj Hpc Hu).
Defined.

(** The host does not use the library during the stop, and no module is loaded:
    every reload answers NOTFOUND. *)
Definition nobody (call : api_call) : Prop := False.
Definition not_found_locals (x : thread_locals) : Prop := x.1 = tls_zero.

Lemma demo_hook_reload fname x :
  not_found_locals x ->
  in_thread x (xy_reload demo_exec fname) demo_hook =
    Ok (XY_ERR_NOTFOUND, (tls_zero, XY_ERR_NOTFOUND), demo_hook).
Proof.
  destruct x as [t e]. intros Hx. unfold not_found_locals in Hx. cbn in Hx. subst t. unfold in_thread.
  rewrite (bind_Ok (gets _) _ demo_hook demo_hook (locals_of demo_hook)) by done.
  set (s1 := with_locals (tls_zero, e) demo_hook).
  rewrite (bind_Ok (modify _) _ demo_hook s1 tt) by done.
  rewrite (bind_Ok _ _ _ _ _ (xy_reload_unknown demo_exec fname s1 ∅ eq_refl eq_refl eq_refl
    (lookup_empty _))). by_eval.
Qed.

Definition quiet_conf (c : conf) : Prop :=
  c_lib c = demo_hook /\ forall t, not_found_locals (default (tls_zero, 0) (c_locals c !! t)).

Lemma quiet_conf_step c c' :
  quiet_conf c -> step demo_exec (one_controller 1) nobody c c' -> quiet_conf c'.
Proof.
  intros [Hl Hx] [t Hs|t Hs|Hs]; [by inversion Hs; subst| |by inversion Hs].
  inversion Hs; subst; try done.
  match goal with E : in_thread _ _ (c_lib c) = _ |- _ => rewrite Hl, demo_hook_reload in E by apply Hx;
    injection E as <- <- <- end.
  split; [done|]. intros t'. cbn. destruct (decide (t = t')) as [<-|Hne].
  - by rewrite lookup_insert_eq.
  - by rewrite lookup_insert_ne.
Qed.

Lemma stopping_reloads : reloads_return demo_exec 1 nobody c_stopping.
Proof.
  intros c' Hr. assert (quiet_conf c') as [Hl Hx].
  { refine (rtc_ind_r quiet_conf c_stopping _ _ c' Hr).
    - split; [done|]. intros t. cbn. by rewrite lookup_empty.
    - intros y z _ Hs Hy. by eapply quiet_conf_step. }
  intros t l evs fname _ _. rewrite Hl, demo_hook_reload by apply Hx. by do 3 eexists.
Qed.

Lemma watch_stop_terminates_witness : finishes demo_exec first_watcher c_stopping.
Proof.
  refine (proj2 (watch_stop_terminates demo_exec 1 nobody c_stopping first_watcher
    (stopping_reachable _) _ stopping_reloads) _); [by_eval|intros t; discriminate].
Defined.


(** "a" is loaded, in the region it has claimed: a watcher that has seen an event for
    it, and whose copy of the path is at [copy], does not find it. *)
Definition w_found : wstate :=
  Eval vm_compute in default w_event (state_of (watcher_find demo_event w_event)).
Definition copy : loc := Eval vm_compute in w_next w_event.
Definition c_reload : conf :=
  set_c_mu (Some (Watcher first_watcher)) (watcher_at first_watcher (PcReload copy []) (conf_in demo_mods w_found)).

Definition demo_registry : qmap string loc := default ∅ (rt_mod_hd (st_rt demo_mods)).

Lemma demo_elsewhere w : map_Forall (fun _ f => f = "a") (w_str w) -> elsewhere (w_str w) demo_mods.
Proof.
  intros Ha. split; [by_eval|]. split; [by_eval|]. exists demo_registry. split; [by_eval|].
  intros l fname Hl. assert (fname = "a") as E by exact (Ha l fname Hl). subst fname. by_eval.
Qed.

Lemma reload_run :
  rtc (step_while elsewhere demo_exec anyone nobody) (initial demo_mods) c_reload.
Proof.
  assert (elsewhere (w_str w_event) demo_mods) as He by (apply demo_elsewhere; by_decide).
  assert (elsewhere (w_str w_found) demo_mods) as Hf by (apply demo_elsewhere; by_decide).
  etrans; [apply event_run; [apply (demo_elsewhere watch_start_state); by_decide|exact He|done]|].
  eapply rtc_l; [split; [exact He|]|].
  { eapply step_watcher, (step_event _ first_watcher); by_eval. }
  eapply rtc_l; [split; [exact He|]|].
  { eapply step_watcher, (step_lock_find _ first_watcher); by_eval. }
  eapply rtc_l; [split; [exact He|]|].
  { eapply step_watcher, (step_find _ first_watcher); by_eval. }
  eapply rtc_l; [split; [exact Hf|]|].
  { eapply step_watcher, (step_lock_reload _ first_watcher); by_eval. }
  match goal with |- rtc _ ?x ?y => replace x with y by by_eval end. apply rtc_refl.
Qed.


(** ** Two threads that start and stop

    A start between the two critical sections of a stop: the stop then closes
    the descriptors of the new watcher, whose thread runs on with [g_ifd] at -1. *)

Definition w_exited : wstate :=
  set_pc first_watcher PcExited (after_call CStop w_started).
Definition w_restarted : wstate := Eval vm_compute in after_call CStart w_exited.
Definition w_orphan : wstate := Eval vm_compute in
  default w_restarted (state_of (xy_watch_stop_release
    (set_w_watchers (delete first_watcher (w_watchers w_restarted)) w_restarted))).

Definition w_joined : wstate :=
  set_w_watchers (delete first_watcher (w_watchers w_restarted)) w_restarted.
Definition racing (w : wstate) (mu : option who) (pc : host_pc) : conf :=
  Conf w mu {[ 1%positive := pc ]} demo_hook ∅.

(** A step to a state that is given. *)
Ltac turn c := refine (rtc_l _ _ c _ _ _).
Ltac host_turn :=
  match goal with |- step_while _ _ _ _ ?x ?y => split; [done|]; enough (exists y', host_step anyone 1 x y' /\ y' = y)
    as (? & ? & <-) by by eapply step_host end.

Theorem watch_stop_start_race :
  exists c t, reachable demo_exec anyone nobody c /\ c_host c !! 1%positive = Some (HDone 0) /\
    w_watchers (c_w c) !! t = Some PcSelect /\ w_running (c_w c) = true /\ w_ifd (c_w c) = -1.
Proof.
  exists (racing w_orphan None (HDone 0)), (default 1%positive (w_thread w_restarted)).
  split; [|split_and!; by_eval].
  eapply (run_reachable _ _ _ (fun _ _ => True) demo_hook).
  etrans; [apply started_run; done|].
  etrans; [apply (call_section_run _ _ _ _ 1 CStop (conf_of w_started) HJoin (after_call CStop w_started));
           done || by_eval|].
  turn (racing (after_call CStop w_started) None (HJoining first_watcher)).
  { host_turn. eexists. split; [eapply step_join; by_eval|by_eval]. }
  turn (racing w_exited None (HJoining first_watcher)).
  { split; [done|]. eapply step_watcher, (step_select_pipe demo_exec first_watcher (racing (after_call CStop w_started) None _));
      [by_eval|by_decide..]. }
  etrans; [apply (call_run _ _ _ _ 2 CStart (racing w_exited None (HJoining first_watcher)) 0 w_restarted);
           done || by_eval|].
  turn (racing w_joined None HLockRelease).
  { host_turn. eexists. split; [eapply step_joined; by_eval|by_eval]. }
  turn (racing w_joined (Some (Host 1)) HRelease).
  { host_turn. eexists. split; [eapply step_lock_release; by_eval|by_eval]. }
  apply rtc_once. host_turn. eexists. split; [eapply (step_section _ _ _ HRelease); by_eval|by_eval].
Qed.
