(* ===== verification/WitnessService.v ===== *)
(** * A concrete world: a host that loads, unloads and calls

    Three files that export one hook, two hooks and none, and a host that asks for
    them in between. *)

From S2P Require Import Prelude QMap Status State Machine ModKey Linked Region RegionTree.
From S2P Require Import RegionSlots Runtime Decide ModList Paths Identity FnCache RegionApi Claim.
From S2P Require Import Deny Dispatch DispatchSpec CallSpec Areg Load LoadSpec LoadFresh Unload.
From S2P Require Import UnloadSpec Cascade LoadUnload Lifecycle Evolve ApiSound System SystemSound.
From S2P Require Import Registry Service.
From stdpp Require Import options.
Local Open Scope Z_scope.

Ltac by_eval := vm_compute; reflexivity.
Ltac by_decide := apply (bool_decide_unpack _); vm_compute; exact I.

(** "b" exports tick and tock, "e" tick, "f" neither. *)
Definition file_image (p : string) : option loc :=
  if bool_decide (p = "/m/b.so") then Some 110%positive
  else if bool_decide (p = "/m/e.so") then Some 140%positive
  else if bool_decide (p = "/m/f.so") then Some 150%positive else None.

Definition image_symbol (h : option loc) (name : string) : option loc :=
  h ← h;
  if bool_decide (name = "xy_install") then Some (h + 2)%positive
  else if bool_decide (name = "get_xy_ptr") then Some (h + 3)%positive
  else if bool_decide (name = "tick" /\ h <> 150%positive) then Some (h + 4)%positive
  else if bool_decide (name = "tock" /\ h = 110%positive) then Some (h + 5)%positive
  else None.

Definition image_of_address (a : loc) : loc :=
  if (a <? 140)%positive then 110%positive else if (a <? 150)%positive then 140%positive else 150%positive.

#[local] Instance service_plat : Platform := {|
  plat_realpath p := Some (String.append "/m/" p);
  plat_dlopen tr p := (fun h => (h, false)) <$> file_image p;
  plat_dlsym := image_symbol;
  plat_dladdr a := Some (image_of_address a);
  plat_image_ctx h := [((h + 1)%positive, xy_t_zero)];
  plat_image_adp h := [];
  plat_claim_byte _ := 0;
  plat_get_xy g := Some (g - 2)%positive;
  plat_mkstemps tr template := Some template;
  plat_open_file tr path := None;
  plat_open_dir tr path := true;
  plat_read tr := Some 1%nat;
  plat_write tr := 1;
  plat_fchmod tr := true;
  plat_fsync tr := true;
  plat_state_size _ := 0
|}.

Lemma service_images_apart : images_apart.
Proof.
  assert (forall p h, file_image p = Some h -> (p, h) ∈ ([("/m/b.so", 110); ("/m/e.so", 140); ("/m/f.so", 150)]%positive : list (string * loc))) as Hf.
  { intros p h. unfold file_image. repeat case_bool_decide; intros E; try discriminate E; injection E as <-; subst; set_solver. }
  assert (forall h n fn, image_symbol (Some h) n = Some fn -> fn ∈ ([h + 2; h + 3; h + 4; h + 5]%positive : list loc)) as Hs.
  { intros h n fn. unfold image_symbol. cbn. repeat case_bool_decide; intros E; try discriminate E; injection E as <-; set_solver. }
  intros p q h b g b' n fn base Hp Hq Hne Hfn Hb.
  cbn in Hp, Hq. apply fmap_Some in Hp as (h' & Hp%Hf & [= -> _]). apply fmap_Some in Hq as (g' & Hq%Hf & [= -> _]).
  apply Hs in Hfn.
  repeat (apply elem_of_cons in Hp as [Hp|Hp]; [|try by apply not_elem_of_nil in Hp]);
  repeat (apply elem_of_cons in Hq as [Hq|Hq]; [|try by apply not_elem_of_nil in Hq]);
  injection Hp as -> ->; injection Hq as -> ->; try done;
  repeat (apply elem_of_cons in Hfn as [->|Hfn]; [|try by apply not_elem_of_nil in Hfn]);
  vm_compute in Hb; injection Hb as <-; vm_compute; discriminate.
Qed.

(** The hooks compute: tick of "b" answers one more than its argument, tick of "e"
    twice the argument, tock 77. *)
Definition service_value (f : loc) (arg : list Z) : list Z :=
  let x := default 0 (head arg) in
  [if bool_decide (f = 114%positive) then x + 1
   else if bool_decide (f = 144%positive) then x * 2 else 77; 0; 0; 0].

Definition service_exec : executor := fun cb s =>
  match cb with CbHook f arg => Ok (service_value f arg, s) | _ => Ok ([], s) end.

Lemma service_well_behaved : well_behaved service_exec.
Proof.
  split.
  - intros cb s out s' H. assert (s' = s) as -> by by (destruct cb; injection H as _ <-). reflexivity.
  - intros fn st s out s' H. injection H as _ <-. by destruct s.
Qed.

Lemma service_cleanup : quiet_cleanup service_exec.
Proof. intros fn st s. reflexivity. Qed.

(** A process that has registered tick and tock. *)
Definition service_process : state :=
  process_start {[ 10%positive := Adapter "tick" 4 4 (Some (Trampoline 4)) (-1);
                   11%positive := Adapter "tock" 0 4 (Some (Trampoline 4)) (-1) ]}
    (<[xy_last_retbuf := replicate 4096 0]> {[ 20%positive := replicate 4096 0 ]}) 1000 [].

Definition service_start_run : prog :=
  Invoke (Call_areg "tick" 10) (fun _ => Invoke (Call_areg "tock" 11) (fun _ => Return [])).
Definition service_start : state :=
  Eval vm_compute in default service_process (state_of (host (fun _ => Return []) 1 service_start_run service_process)).

Lemma service_start_reached : host (fun _ => Return []) 1 service_start_run service_process = Ok ([], service_start).
Proof. by_eval. Qed.

Lemma service_start_sound : sound service_start.
Proof.
  pose proof service_start_reached as H. unfold host in H. apply bind_inv in H as (u & s1 & E & H).
  destruct (xy_init_keeps _ _ _ E ltac:(done) (process_start_sound _ _ _ _)) as [Hs _].
  apply (run_keeps _ _ (exec_of_well_behaved (fun _ => Return []) 1 ltac:(done)) _ _ _ H ltac:(done) Hs).
Qed.

Definition service_adps : gmap loc adapter := Eval vm_compute in st_adp service_start.
Definition service_root : loc := 1000.
Definition service_ids : gmap string Z := default ∅ (rt_hook_id_hd (st_rt service_start)).

#[local] Instance trampoline_eq_dec : EqDecision trampoline.
Proof. solve_decision. Defined.
#[local] Instance adapter_eq_dec : EqDecision adapter.
Proof. solve_decision. Defined.

Lemma service_no_module x : st_mod service_start !! x = None.
Proof.
  apply eq_None_not_Some. intros [m Hm].
  assert (map_Forall (fun x _ => False) (st_mod service_start)) as Hall by by_decide. by destruct (Hall _ _ Hm).
Qed.

Lemma service_hosting : hosting service_start service_root XY_REGION_ROOT [].
Proof.
  pose proof service_no_module as Hno.
  split; [|exact service_start_sound|by_eval..| |].
  - split; [apply runningb_sound; by_eval| |by_decide|by_eval| |].
    + exists ∅. split; [by_eval|]. intros k x. cbn. rewrite lookup_empty. split; [done|]. intros (m & Hm & _).
      by rewrite Hno in Hm.
    + intros x y Hp. destruct (parent_in_live _ _ _ Hp) as [m Hm]. by rewrite Hno in Hm.
    + intros x m Hm. by rewrite Hno in Hm.
  - by_decide.
  - exists []. split; [|split; [constructor|intros x [m Hm]; by rewrite Hno in Hm]].
    eexists. split; [by_eval|]. split; [|constructor]. constructor.
Qed.

Lemma service_serving k :
  Z.of_nat k < 1000 -> serving service_adps 20 service_root XY_REGION_ROOT service_ids service_start [] k.
Proof.
  intros Hk. pose proof service_no_module as Hno. split.
  - exact service_hosting.
  - by_eval.
  - apply registry_ok_orderly; [apply service_hosting|]. intros x m p Hm. by rewrite Hno in Hm.
  - by_eval.
  - intros reg a Ha. assert (map_Forall (fun reg a => st_adp service_start !! reg = Some a /\
      service_ids !! a_name a = Some (a_hook_id a)) service_adps) as Hall by by_decide.
    exact (Hall _ _ Ha).
  - intros x m n h Hm. by rewrite Hno in Hm.
  - intros x m p Hm. by rewrite Hno in Hm.
  - eexists _, []. split; [by_eval|]. split; [|split; [by_eval|split; [cbn; unfold two64; lia|]]].
    { eexists. split; [by_eval|]. split; [|constructor]. constructor. }
    split.
    + intros i. cbn. unfold cache_in. cbn. by rewrite lookup_nil.
    + intros n h _. exists []. cbn. rewrite lookup_nil. split; [by split_and!|]. by intros [=].
    + intros i l. unfold cache_in. cbn. by rewrite lookup_nil.
    + intros i j l _. unfold cache_in. cbn. by rewrite !lookup_nil.
  - eexists. split; [by_eval|]. by_decide.
  - eexists. split; [by_eval|]. by_decide.
Qed.

Definition tick (x : Z) : request := Ask 10 [x; 0; 0; 0].
Definition tock : request := Ask 11 [].
Definition service_requests : list request :=
  [tick 5; Manage (OpLoad "b"); tick 5; tock; Manage (OpLoad "e"); tick 5; Manage (OpLoad "b"); Manage (OpLoad "f");
   tick 6; Manage (OpUnload "e"); tick 6; Manage (OpUnload "b"); tock; Manage (OpUnload "b"); tock;
   Manage (OpUnload "b"); Manage (OpLoad "z")].

Definition service_answers : list (Z * list Z) :=
  [(XY_ERR_NOTFOUND, [0; 0; 0; 0]); (XY_OK, []); (XY_OK, [6; 0; 0; 0]); (XY_OK, [77; 0; 0; 0]);
   (XY_OK, []); (XY_OK, [10; 0; 0; 0]); (XY_OK, []); (XY_OK, []);
   (XY_OK, [12; 0; 0; 0]); (XY_OK, []); (XY_OK, [7; 0; 0; 0]); (XY_OK, []); (XY_OK, [77; 0; 0; 0]);
   (XY_OK, []); (XY_ERR_NOTFOUND, [0; 0; 0; 0]); (XY_ERR_NOTFOUND, []); (XY_ERR_NOTFOUND, [])].

Lemma service_servable : Forall (servable service_exec service_adps) service_requests.
Proof.
  assert (forall f h, plat_dlopen [] (resolved f) = Some (h, false) ->
    plat_dlsym (Some h) "get_xy_ptr" = Some (h + 3)%positive ->
    is_Some ((list_to_map (plat_image_ctx h) : gmap loc xy_t) !! (h + 3 - 2)%positive) ->
    plat_dlsym (Some h) "xy_region_state_size" = None ->
    plat_dlsym (Some h) "xy_install" = Some (h + 2)%positive ->
    servable service_exec service_adps (Manage (OpLoad f))) as Hload.
  { intros f h H1 H2 H3 H4 H5. right. exists h, (h + 3)%positive, (h + 3 - 2)%positive, (h + 2)%positive.
    split_and!; [intros tr; exact H1|exact H2|reflexivity|exact H3|exact H4|exact H5|]. intros s. by exists []. }
  assert (servable service_exec service_adps (Manage (OpLoad "b"))) as B
    by (apply (Hload "b" 110%positive); [by_eval|by_eval|by_decide|by_eval|by_eval]).
  assert (servable service_exec service_adps (Manage (OpLoad "e"))) as E
    by (apply (Hload "e" 140%positive); [by_eval|by_eval|by_decide|by_eval|by_eval]).
  assert (servable service_exec service_adps (Manage (OpLoad "f"))) as F
    by (apply (Hload "f" 150%positive); [by_eval|by_eval|by_decide|by_eval|by_eval]).
  assert (forall x, servable service_exec service_adps (tick x)) as T.
  { intros x. eexists _, (Trampoline 4). split; [by_eval|]. by split_and!. }
  assert (servable service_exec service_adps tock) as K.
  { eexists _, (Trampoline 4). split; [by_eval|]. by split_and!. }
  unfold service_requests. repeat apply Forall_cons_2; try first [apply B|apply E|apply F|apply T|exact K|exact I].
  - left. by intros tr.
  - apply Forall_nil_2.
Qed.

Lemma service_refines_witness :
  exists s', serve service_exec 20 service_requests service_start = Ok (service_answers, s') /\ sound s'.
Proof.
  destruct (service_refines service_exec service_value service_adps 20 service_root XY_REGION_ROOT service_ids
    service_requests service_start [] service_well_behaved service_cleanup
    ltac:(intros f arg s; reflexivity) service_images_apart ltac:(discriminate) service_servable
    (service_serving (length service_requests) ltac:(reflexivity))) as (s' & Hrun & Hs).
  assert ((replies service_value service_adps service_requests []).1 = service_answers) as E by by_eval.
  rewrite E in Hrun. exists s'. exact (conj Hrun (ho_sound _ _ _ _ (sv_hosting _ _ _ _ _ _ _ _ Hs))).
Defined.

(** The model computes the same answers. *)
Example service_evaluates :
  result_of (serve service_exec 20 service_requests service_start) = Some service_answers.
Proof. by_eval. Qed.
