(* ===== verification/Replay.v ===== *)
(** * The test programs of the repository

    The modules under src/tests/mods/ and the test programs test_unload.c,
    test_region_state.c, test_deps.c, test_multi_call.c, test_main.c,
    test_errors.c and test_core.c, as programs over the interface, run on the
    model.  A test ends with [None], or with the line of the assertion that
    fails: an evaluation compares the model with what the authors of the library
    expect of it.  Three expectations turn out not to be met by the code. *)

From S2P Require Import Prelude QMap Status State Machine ModKey Linked Region RegionTree.
From S2P Require Import RegionSlots Runtime ModList Paths Identity FnCache RegionApi Claim.
From S2P Require Import Deny Dispatch CopyFile Load Unload Lifecycle System.
From stdpp Require Import options.
Local Open Scope Z_scope.

(** ** The modules

    An image has its xy_t at [base + 1], xy_install at [base + 2], get_xy_ptr at
    [base + 3], its static int at [base + 4], xy_claim at [base + 5],
    xy_region_state_size and xy_region_cleanup at [base + 6] and [base + 7], and
    its hooks from [base + 10] on. *)

Record image := Image {
  im_path : string;
  im_base : loc;
  im_hooks : list string;
  im_claim : option Z;
  im_state : bool
}.

Definition images : list image := [
  Image "tests/mods/mod_unload" 1100 ["get_counter"] None false;
  Image "tests/mods/mod_unload2" 1200 ["get_counter"] None false;
  Image "tests/mods/mod_cascade_parent" 1300 ["get_counter"] None false;
  Image "tests/mods/mod_cascade_child" 1400 ["get_counter"] None false;
  Image "tests/mods/mod_claim_simple" 1500 ["get_counter"] (Some 2) false;
  Image "tests/mods/mod_cascade_deep_a" 1600 ["get_counter"] None false;
  Image "tests/mods/mod_cascade_deep_b" 1700 ["get_counter"] None false;
  Image "tests/mods/mod_cascade_deep_c" 1800 ["get_counter"] None false;
  Image "tests/mods/mod_region_state" 1900 ["rs_increment"; "rs_get"] (Some 2) true;
  Image "./tests/mods/mod_dep_provider" 2000 ["get_counter"; "increment_counter"] None false;
  Image "./tests/mods/mod_dep_consumer" 2100 [] None false;
  Image "./tests/mods/mod_adder" 2200 ["add_value"] None false;
  Image "./tests/mods/mod_multiplier" 2300 ["add_value"] None false;
  Image "./tests/test_mod" 2400 ["on_tick"] None false;
  (* what a copy of mod_unload is mapped as *)
  Image "/w/tests/mods/.xylem-XXXXXX" 2500 ["get_counter"] None false].

Definition find_image (p : image -> bool) : option image := List.find p images.
Definition image_at (h : loc) : option image := find_image (fun im => bool_decide (im_base im = h)).

(** The working directory is /w. *)
Definition test_realpath (p : string) : option string :=
  im ← find_image (fun im => bool_decide (String.append (im_path im) ".so" = p));
  Some (if String.prefix "./" p then String.append "/w" (String.substring 1 (String.length p) p)
        else if String.prefix "/" p then p else String.append "/w/" p).

(** The constructors of an image run when it is mapped for the first time. *)
Definition test_dlopen (tr : list ext_event) (p : string) : option (loc * bool) :=
  im ← find_image (fun im => bool_decide (test_realpath (String.append (im_path im) ".so") = Some p));
  Some (im_base im, negb (existsb (fun ev => match ev with EvDlopen q => bool_decide (q = p) | _ => false end) tr)).

Definition test_dlsym (h : option loc) (name : string) : option loc :=
  h ← h; im ← image_at h;
  if bool_decide (name = "xy_install") then Some (h + 2)%positive
  else if bool_decide (name = "get_xy_ptr") then Some (h + 3)%positive
  else if bool_decide (name = "xy_claim") then (fun _ => (h + 5)%positive) <$> im_claim im
  else if bool_decide (name = "xy_region_state_size") then
    if im_state im then Some (h + 6)%positive else None
  else if bool_decide (name = "xy_region_cleanup") then
    if im_state im then Some (h + 7)%positive else None
  else (fun i => (h + Pos.of_nat (10 + i))%positive) <$> (fst <$> list_find (fun n => n = name) (im_hooks im)).

Definition base_of (a : loc) : loc := Z.to_pos (Z.pos a / 100 * 100).

#[local] Instance test_plat : Platform := {|
  plat_realpath := test_realpath;
  plat_dlopen := test_dlopen;
  plat_dlsym := test_dlsym;
  plat_dladdr a := Some (base_of a);
  plat_image_ctx h := [((h + 1)%positive, xy_t_zero)];
  plat_image_adp h := [];
  plat_claim_byte a := default 0 (image_at (base_of a) ≫= im_claim);
  plat_get_xy g := Some (base_of g + 1)%positive;
  plat_mkstemps tr template := Some template;
  plat_open_file tr path := Some [127; 69; 76; 70];
  plat_open_dir tr path := true;
  plat_read tr := Some 4%nat;
  plat_write tr := 4;
  plat_fchmod tr := true;
  plat_fsync tr := true;
  plat_state_size _ := 4
|}.

(** ** The code of the modules

    An [int] as its bytes, and the low byte of the one at [l]. *)

Definition int_bytes (v : Z) : list Z := [v mod 256; v / 256 mod 256; v / 65536 mod 256; v / 16777216 mod 256].
Definition return_int (v : Z) : prog := Return (int_bytes v).
Definition byte_of (l : loc) (k : Z -> prog) : prog := ReadByte l 0 k.
Definition set_byte (l : loc) (v : Z) (k : prog) : prog := WriteByte l 0 v k.

(** [++*l] *)
Definition increment (l : loc) (by_ : Z) (k : Z -> prog) : prog :=
  byte_of l (fun v => set_byte l (v + by_) (k (v + by_))).

(** XY_RS of the image at [h]; a null pointer is followed to nowhere. *)
Definition region_state (h : loc) (k : loc -> prog) : prog :=
  ReadXy (h + 1)%positive (fun x => k (default 2%positive (x_region_state x))).

Definition hook_code (h : loc) (i : Z) (arg : list Z) : prog :=
  let static := (h + 4)%positive in
  let x := default 0 (head arg) in
  match Z.pos h with
  | 1100 | 2500 => increment static 1 return_int
  | 1200 => return_int 99
  | 1300 => return_int 77
  | 1400 => return_int 55
  | 1500 | 1800 => return_int 33
  | 1600 => return_int 11
  | 1700 => return_int 22
  | 1900 => region_state h (fun st =>
      if i =? 0 then increment st 1 return_int else byte_of st return_int)
  | 2000 => if i =? 0 then byte_of static return_int else increment static x (fun _ => return_int 0)
  | 2200 => return_int (x + 1)
  | 2300 => return_int (x * 2)
  | 2400 => byte_of static (fun mode => return_int (x + mode))
  | _ => Return []
  end.

Definition install_code (h : loc) : prog :=
  match Z.pos h with
  | 1300 => Invoke (Call_load "tests/mods/mod_cascade_child") (fun _ => Return [])
  | 1600 => Invoke (Call_load "tests/mods/mod_cascade_deep_b") (fun _ => Return [])
  | 1700 => Invoke (Call_load "tests/mods/mod_cascade_deep_c") (fun _ => Return [])
  | 2000 => set_byte (h + 4)%positive 100 (Return [])
  | 2100 => Invoke (Call_load "./tests/mods/mod_dep_provider") (fun _ => Return [])
  | 2400 => set_byte (h + 4)%positive 1 (Return [])
  | _ => Return []
  end.

(** 500 is the permissive claim handler of the tests. *)
Definition test_code (cb : callback) : prog :=
  match cb with
  | CbHook fn arg => hook_code (base_of fn) (Z.pos fn - Z.pos (base_of fn) - 10) arg
  | CbInstall fn => install_code (base_of fn)
  | CbClaim _ _ bits _ => Return [XY_OK; bits]
  | CbCleanup fn _ => increment (base_of fn + 4)%positive 1 (fun _ => Return [])
  | _ => Return []
  end.

(** ** The test programs

    The adapters of the hooks that the programs declare, two ints, and the static
    ints of the modules. *)

Definition hook_names : list string :=
  ["get_counter"; "increment_counter"; "rs_increment"; "rs_get"; "add_value"; "on_tick"; "dummy_hook"; "test_hook"].
Definition adapter_of (name : string) : loc :=
  (10 + Pos.of_succ_nat (default 0%nat (fst <$> list_find (fun n => n = name) hook_names)))%positive.
Definition result : loc := 50.

Definition test_start : state :=
  process_start
    (list_to_map ((fun n => (adapter_of n, Adapter n 4 4 (Some (Trampoline 4)) (-1))) <$> hook_names))
    (<[xy_last_retbuf := replicate 4096 0]> (<[result := [0; 0; 0; 0]]>
       (list_to_map ((fun im => ((im_base im + 4)%positive, [0; 0; 0; 0])) <$> images))))
    10000 [].

(** The constructors of a program register its hooks. *)
Definition registers (names : list string) (k : prog) : prog :=
  foldr (fun n p => Invoke (Call_areg n (adapter_of n)) (fun _ => p)) k names.

(** [assert(b);] in the given line *)
Definition assert_that (line : Z) (b : bool) (k : prog) : prog := if b then k else Return [line].
Definition calls (line : Z) (c : api_call) (code : Z) (k : prog) : prog :=
  Invoke c (fun rc => assert_that line (rc =? code) k).

(** XY_CALL(&v, name, x); k(v) *)
Definition hook_call (name : string) (x : Z) (k : Z -> prog) : prog :=
  Invoke (Call_call (Some result) (Some (adapter_of name)) (int_bytes x)) (fun _ => byte_of result k).
Definition calls_hook (line : Z) (name : string) (x v : Z) (k : prog) : prog :=
  hook_call name x (fun r => assert_that line (r =? v) k).

Definition run_test (names : list string) (p : prog) : option (option Z) :=
  head <$> result_of (host test_code 8 (registers names p) test_start).

(** *** test_unload.c *)

Definition MOD_PATH : string := "tests/mods/mod_unload".
Definition MOD_PATH2 : string := "tests/mods/mod_unload2".
Definition MOD_CASCADE_P : string := "tests/mods/mod_cascade_parent".
Definition MOD_CASCADE_C : string := "tests/mods/mod_cascade_child".
Definition MOD_CLAIM_SIMPLE : string := "tests/mods/mod_claim_simple".
Definition MOD_CASCADE_DEEP_A : string := "tests/mods/mod_cascade_deep_a".

Definition loads (line : Z) (f : string) := calls line (Call_load f) XY_OK.
Definition unloads (line : Z) (f : string) := calls line (Call_unload f) XY_OK.
Definition counts (line v : Z) := calls_hook line "get_counter" 0 v.

Definition test_load_and_unload (k : prog) : prog :=
  loads 22 MOD_PATH (hook_call "get_counter" 0 (fun v0 => hook_call "get_counter" 0 (fun v1 =>
  assert_that 30 (v1 =? v0 + 1) (unloads 33 MOD_PATH (counts 37 0 k))))).

Definition positive_count (line : Z) (k : prog) : prog :=
  hook_call "get_counter" 0 (fun v => assert_that line (0 <? v) k).

Definition test_refcount (k : prog) : prog :=
  loads 47 MOD_PATH (loads 48 MOD_PATH (positive_count 52 (unloads 55 MOD_PATH (positive_count 57
  (unloads 60 MOD_PATH (counts 63 0 k)))))).

Definition test_unload_notfound (k : prog) : prog :=
  calls 74 (Call_unload "tests/mods/nonexistent") XY_ERR_NOTFOUND k.

Definition test_double_unload (k : prog) : prog :=
  loads 83 MOD_PATH (unloads 84 MOD_PATH (calls 87 (Call_unload MOD_PATH) XY_ERR_NOTFOUND k)).

Definition test_reload (k : prog) : prog :=
  loads 97 MOD_PATH (hook_call "get_counter" 0 (fun v => assert_that 102 (0 <? v)
  (hook_call "get_counter" 0 (fun v2 => assert_that 104 (v2 =? v + 1)
  (calls 107 (Call_reload MOD_PATH) XY_OK
  (hook_call "get_counter" 0 (fun v3 => assert_that 112 (v3 =? v2 + 1)
  (unloads 114 MOD_PATH (counts 117 0 k))))))))).

Definition test_reload_notfound (k : prog) : prog :=
  calls 128 (Call_reload "tests/mods/nonexistent") XY_ERR_NOTFOUND k.

Definition test_reload_after_unload (k : prog) : prog :=
  loads 137 MOD_PATH (unloads 138 MOD_PATH (calls 141 (Call_reload MOD_PATH) XY_ERR_NOTFOUND k)).

Definition test_reload_position_preserved (k : prog) : prog :=
  loads 156 MOD_PATH (loads 157 MOD_PATH2 (counts 161 99 (calls 163 (Call_reload MOD_PATH) XY_OK
  (counts 166 99 (unloads 168 MOD_PATH (counts 170 99 (unloads 172 MOD_PATH2 (counts 175 0 k)))))))).

Definition test_cascade_unload (expected : Z) (k : prog) : prog :=
  loads 190 MOD_CASCADE_P (counts 194 expected (unloads 196 MOD_CASCADE_P (counts 200 0 k))).

Definition test_cascade_shared_child (k : prog) : prog :=
  loads 218 MOD_CASCADE_C (loads 219 MOD_CASCADE_P (counts 223 77 (unloads 227 MOD_CASCADE_P
  (counts 230 55 (unloads 233 MOD_CASCADE_C (counts 235 55 (unloads 237 MOD_CASCADE_C (counts 240 0 k)))))))).

Definition test_unload_wrong_region (k : prog) : prog :=
  calls 270 (Call_require_claim (Some 500%positive) 0) XY_OK (loads 273 MOD_CLAIM_SIMPLE
  (calls 278 (Call_unload MOD_CLAIM_SIMPLE) XY_ERR_NOTFOUND k)).

Definition test_cascade_deep (expected : Z) (k : prog) : prog :=
  loads 295 MOD_CASCADE_DEEP_A (counts 299 expected (unloads 301 MOD_CASCADE_DEEP_A (counts 305 0 k))).

(** xy_shutdown(); xy_init(); *)
Definition restart (k : prog) : prog := Invoke Call_shutdown (fun _ => Invoke Call_init (fun _ => k)).
Definition done_ : prog := Return [].

(** The tests of the program, but the three that follow, in its order and in one
    process. *)
Example test_unload_passes :
  run_test ["get_counter"]
    (test_load_and_unload (restart (test_refcount (restart (test_unload_notfound (restart
    (test_double_unload (restart (test_reload_notfound (restart (test_reload_after_unload (restart
    (test_reload_position_preserved (restart (test_cascade_shared_child (restart
    (test_unload_wrong_region done_))))))))))))))))) = Some None.
Proof. vm_compute. reflexivity. Qed.

(** The tests of the cascade expect that the loader of a module is put on the
    list after it, "because xy_install runs before the parent is appended".  It
    is put there before its xy_install runs: the module that was loaded last
    answers last. *)
Example test_cascade_fails :
  run_test ["get_counter"] (test_cascade_unload 77 done_) = Some (Some 194) /\
  run_test ["get_counter"] (test_cascade_deep 11 done_) = Some (Some 299) /\
  run_test ["get_counter"] (test_cascade_unload 55 (restart (test_cascade_deep 33 done_))) = Some None.
Proof. vm_compute. auto. Qed.

(** The test of the reload expects that a counter in the static data goes on
    counting.  The new instance is mapped from a copy of the file and has data of
    its own. *)
Example test_reload_fails : run_test ["get_counter"] (test_reload done_) = Some (Some 112).
Proof. vm_compute. reflexivity. Qed.

(** *** test_region_state.c *)

Definition MOD_RS : string := "tests/mods/mod_region_state".

Definition test_region_state_zeroed (k : prog) : prog :=
  loads 36 MOD_RS (calls_hook 39 "rs_get" 0 0 k).

Definition test_region_state_independent (k : prog) : prog :=
  calls 58 (Call_require_claim (Some 500%positive) 0) XY_OK (loads 60 MOD_RS (loads 61 MOD_RS
  (calls_hook 66 "rs_increment" 0 1 (calls_hook 70 "rs_increment" 0 2 k)))).

Definition test_region_state_cleanup (k : prog) : prog :=
  loads 88 MOD_RS (byte_of 1904 (fun before => unloads 98 MOD_RS (byte_of 1904 (fun after =>
  assert_that 101 (after =? before + 1) k)))).

Example test_region_state_passes :
  run_test ["rs_increment"; "rs_get"]
    (test_region_state_zeroed (restart (test_region_state_independent (restart
    (test_region_state_cleanup done_))))) = Some None.
Proof. vm_compute. reflexivity. Qed.

(** *** test_deps.c, test_multi_call.c and test_main.c *)

Example test_deps_passes :
  run_test ["get_counter"; "increment_counter"]
    (loads 8 "./tests/mods/mod_dep_provider" (counts 11 100 (counts 17 100
    (loads 20 "./tests/mods/mod_dep_consumer" (counts 23 100
    (hook_call "increment_counter" 5 (fun _ => counts 31 105 done_))))))) = Some None.
Proof. vm_compute. reflexivity. Qed.

Example test_multi_call_passes :
  run_test ["add_value"]
    (loads 9 "./tests/mods/mod_adder" (loads 12 "./tests/mods/mod_multiplier"
    (calls_hook 17 "add_value" 5 10 done_))) = Some None.
Proof. vm_compute. reflexivity. Qed.

(** [xy_last(&last)] *)
Definition last_is (line v : Z) (k : prog) : prog :=
  calls line (Call_last (Some result)) XY_OK (byte_of result (fun last => assert_that (line + 1) (last =? v) k)).

Example test_main_passes :
  run_test ["on_tick"]
    (Invoke (Call_areg "on_tick" (adapter_of "on_tick")) (fun _ => calls_hook 26 "on_tick" 10 0
    (loads 30 "./tests/test_mod" (calls_hook 32 "on_tick" 10 11 (last_is 35 11
    (loads 38 "./tests/test_mod" (calls_hook 40 "on_tick" 10 11 (last_is 43 11 done_)))))))) = Some None.
Proof. vm_compute. reflexivity. Qed.

(** *** test_errors.c and test_core.c *)

Definition errno_is (line e : Z) := calls line Call_errno e.

Definition test_errno_persists (expected : Z) (k : prog) : prog :=
  Invoke (Call_load "./tests/nonexistent") (fun _ => errno_is 33 XY_ERR_NOTFOUND
  (hook_call "dummy_hook" 42 (fun _ => errno_is 37 expected k))).

Example test_errors_passes :
  run_test ["dummy_hook"]
    (calls 10 (Call_load "./tests/nonexistent_mod.so") XY_ERR_NOTFOUND (errno_is 11 XY_ERR_NOTFOUND
    (calls 19 (Call_call (Some result) None (int_bytes 1)) XY_ERR_NOTFOUND (errno_is 20 XY_ERR_NOTFOUND
    (Invoke (Call_last (Some result)) (fun rc =>
     assert_that 27 ((rc =? XY_ERR_INVALID) || (rc =? XY_ERR_NOTFOUND)) done_)))))) = Some None.
Proof. vm_compute. reflexivity. Qed.

(** Both programs expect XY_OK in xy_errno after a call that no module answers; the
    call leaves NOTFOUND there. *)
Example test_errno_fails :
  run_test ["dummy_hook"] (test_errno_persists XY_OK done_) = Some (Some 37) /\
  run_test ["dummy_hook"] (test_errno_persists XY_ERR_NOTFOUND done_) = Some None /\
  run_test ["test_hook"] (calls_hook 15 "test_hook" 5 0 (hook_call "test_hook" 1 (fun _ => errno_is 32 XY_OK done_)))
    = Some (Some 32).
Proof. vm_compute. auto. Qed.

Example test_strerror_passes :
  (xy_strerror XY_OK, xy_strerror XY_ERR_NOTFOUND, xy_strerror XY_ERR_INVALID, xy_strerror XY_ERR_TOOBIG,
   xy_strerror XY_ERR_INIT, xy_strerror (-999)) =
  ("success", "not found", "invalid argument", "return type too large", "initialization failed",
   "unknown error").
Proof. reflexivity. Qed.
